(** * Open3D GUI: Combobox, Menu and the ImGui-to-Filament bridge

    A shallow embedding of three translation units of Open3D's GUI layer,

      - src/Open3D/GUI/Combobox.cpp
      - src/Open3D/GUI/Menu.cpp
      - src/Open3D/GUI/ImguiFilamentBridge.cpp

    and the properties of them that the design document states.

    Conventions.  A C++ [int] or [size_t] is a [Z]; where the source converts
    or can wrap, the wrap-around is written out.  A [std::vector] is a [list],
    read with stdpp's lookup [l !! i] ([None] is the out-of-range access that
    C++ leaves undefined).  A pointer to an engine object is the object's
    immutable description together with a unique handle number; [nullptr] is
    [None].  The [Menu] objects, which point to one another, are kept in a
    store and a pointer to one is its address there.  Calls into Dear ImGui
    and Filament that have an effect are recorded, newest first, in a
    trace. *)

From Stdlib Require Import ZArith Lia List String Bool Permutation.
From Stdlib Require Import Floats.SpecFloat.
From stdpp Require Import base list gmap strings pretty.

Open Scope Z_scope.

(** ** Machine integers *)

(** Conversion of an integer to a 32-bit [int] (two's complement). *)
Definition to_int (n : Z) : Z := (n + 2 ^ 31) mod 2 ^ 32 - 2 ^ 31.

(** Reduction to a 64-bit [size_t]/[uint64_t]. *)
Definition to_size_t (n : Z) : Z := n mod 2 ^ 64.

(** Reduction to a [uint16_t]. *)
Definition to_uint16 (n : Z) : Z := n mod 2 ^ 16.

(** ** Combobox.cpp *)

Module Combobox.

(** The [std::function] stored in [on_value_changed_] is opaque; it is
    identified by a number and every invocation of it is logged. *)
Definition Callback := nat.

(** [Combobox::Impl], together with the log of the invocations of the
    value-changed callback (newest first): the callback, the string and the
    index it was given. *)
Record Impl := mkImpl {
  imgui_id_ : string;
  items_ : list string;
  current_index_ : Z;
  on_value_changed_ : option Callback;
  notified : list (Callback * string * Z)
}.

Definition set_current_index (c : Impl) (i : Z) : Impl :=
  mkImpl (imgui_id_ c) (items_ c) i (on_value_changed_ c) (notified c).

(** [int(impl_->items_.size())] *)
Definition items_size (c : Impl) : Z := to_int (Z.of_nat (length (items_ c))).

Definition ClearItems (c : Impl) : Impl :=
  mkImpl (imgui_id_ c) [] 0 (on_value_changed_ c) (notified c).

Definition AddItem (c : Impl) (name : string) : Impl :=
  mkImpl (imgui_id_ c) (items_ c ++ [name]) (current_index_ c)
         (on_value_changed_ c) (notified c).

(** [items_[index]], unguarded. *)
Definition GetItem (c : Impl) (index : Z) : option string :=
  if index <? 0 then None else items_ c !! Z.to_nat index.

Definition GetSelectedIndex (c : Impl) : Z := current_index_ c.

(** The guarded read: [None] would be an access outside [items_]. *)
Definition GetSelectedValue (c : Impl) : option string :=
  if (0 <=? current_index_ c) && (current_index_ c <? items_size c)
  then items_ c !! Z.to_nat (current_index_ c)
  else Some ""%string.

Definition SetSelectedIndex (c : Impl) (index : Z) : Impl :=
  if (0 <=? index) && (index <? items_size c)
  then set_current_index c index
  else c.

(** The loop of [SetSelectedValue]: the position [i] of the first item equal
    to [svalue], counting from [i]. *)
Fixpoint first_match (items : list string) (svalue : string) (i : nat)
  : option nat :=
  match items with
  | [] => None
  | item :: rest =>
      if String.eqb item svalue then Some i
      else first_match rest svalue (S i)
  end.

(** [SetSelectedIndex(i)] narrows the [size_t] counter to [int]. *)
Definition SetSelectedValue (c : Impl) (value : string) : Impl :=
  match first_match (items_ c) value 0 with
  | Some i => SetSelectedIndex c (to_int (Z.of_nat i))
  | None => c
  end.

Definition SetOnValueChanged (c : Impl) (f : option Callback) : Impl :=
  mkImpl (imgui_id_ c) (items_ c) (current_index_ c) f (notified c).

(** What Dear ImGui reports during one [Draw]: whether the popup was open
    before, whether [BeginCombo] returns true, and for which items
    [Selectable] returns true. *)
Record Interaction := mkInteraction {
  was_open : bool;
  begin_combo : bool;
  selectable : nat -> bool
}.

Inductive DrawResult := NONE | REDRAW.

(** The body of the loop over the items in [Draw], from item [i] on. *)
Fixpoint draw_items (ui : Interaction) (rest : list string) (i : nat)
  (acc : Impl * bool) : Impl * bool :=
  match rest with
  | [] => acc
  | _ :: rest' =>
      let '(c, changed) := acc in
      let acc' :=
        if selectable ui i then
          let c1 := set_current_index c (to_int (Z.of_nat i)) in
          let c2 :=
            match on_value_changed_ c1 with
            | Some f =>
                mkImpl (imgui_id_ c1) (items_ c1) (current_index_ c1)
                       (on_value_changed_ c1)
                       ((f, default ""%string (GetSelectedValue c1),
                         to_int (Z.of_nat i)) :: notified c1)
            | None => c1
            end in
          (c2, true)
        else (c, changed) in
      draw_items ui rest' (S i) acc'
  end.

Definition Draw (c : Impl) (ui : Interaction) : Impl * DrawResult :=
  let didOpen := begin_combo ui && negb (was_open ui) in
  let '(c', valueChanged) :=
    if begin_combo ui then draw_items ui (items_ c) 0 (c, false)
    else (c, false) in
  (c', if valueChanged || didOpen then REDRAW else NONE).

(** [Combobox::Combobox()].  The identifier is made from the counter
    [g_next_combobox_id] of the translation unit, which the constructor
    increments; the counter is passed in and returned. *)
Definition Combobox_new (g_next_combobox_id : Z) : Impl * Z :=
  (mkImpl ("##combobox_" +:+ pretty g_next_combobox_id) [] 0 None [],
   to_int (g_next_combobox_id + 1)).

(** [Combobox::Combobox(items)] *)
Definition Combobox_of (items : list string) (g_next_combobox_id : Z)
  : Impl * Z :=
  let '(c, g) := Combobox_new g_next_combobox_id in
  (fold_left AddItem items c, g).

(** Several comboboxes constructed one after the other. *)
Fixpoint construct (itemss : list (list string)) (g_next_combobox_id : Z)
  : list Impl :=
  match itemss with
  | [] => []
  | items :: rest =>
      let '(c, g) := Combobox_of items g_next_combobox_id in
      c :: construct rest g
  end.

(** The items for which [Selectable] returns true in a draw pass. *)
Definition clicked (ui : Interaction) (first count : nat) : list nat :=
  List.filter (selectable ui) (seq first count).

(** The invocations of the callback [f] that a draw pass with these clicks
    logs, newest first. *)
Definition click_log (f : option Callback) (items : list string)
  (clicks : list nat) : list (Callback * string * Z) :=
  match f with
  | Some f =>
      rev (map (fun i => (f, default ""%string (items !! i), Z.of_nat i))
               clicks)
  | None => []
  end.

End Combobox.

(** ** Menu.cpp *)

Module Menu.

Definition ItemId := Z.
Definition KeyName := Z.

(** [Menu::NO_ITEM] and [KEY_NONE] are declared in headers; no property
    below depends on their values. *)
Definition NO_ITEM : ItemId := -1.
Definition KEY_NONE : KeyName := 0.

(** A [std::shared_ptr<Menu>]: the address of a [Menu] object.  An item
    that opens a submenu holds such a pointer, so the same submenu can be
    reached from several items, and what is done to it through one of them
    is seen through the others.  ([submenu_] and [submenu_impl_] point into
    the same object and are one field here; [nullptr] is [None].) *)
Abbreviation MenuPtr := nat (only parsing).

(** [Menu::Impl::MenuItem] *)
Record MenuItem := mkMenuItem {
  id_ : ItemId;
  name_ : string;
  shortcut_key_ : KeyName;
  submenu_ : option MenuPtr;
  is_enabled_ : bool;
  is_checked_ : bool;
  is_separator_ : bool
}.

(** [Menu::Impl] *)
Record Impl := mkImpl {
  items_ : list MenuItem;
  id2idx_ : gmap Z nat
}.

(** The [Menu] objects of the program, each at the address that is its
    position.  A [shared_ptr] keeps its object alive, so no object that
    can still be reached is ever removed. *)
Abbreviation Menus := (list Impl) (only parsing).

(** A [MenuItem*]: the menu that has the item, and the item's position in
    [items_]. *)
Definition ItemPtr : Type := MenuPtr * nat.

(** [Menu::Menu()], by [std::make_shared<Menu>()]: a new object and the
    pointer to it. *)
Definition new_menu (s : Menus) : Menus * MenuPtr :=
  (s ++ [mkImpl [] ∅], length s).

Definition AddItem (s : Menus) (this : MenuPtr) (name : string)
  (itemId : ItemId) (key : KeyName) : Menus :=
  alter (fun impl =>
           mkImpl (items_ impl
                   ++ [mkMenuItem itemId name key None true false false])
                  (<[itemId := length (items_ impl)]> (id2idx_ impl)))
        this s.

Definition AddMenu (s : Menus) (this : MenuPtr) (name : string)
  (submenu : MenuPtr) : Menus :=
  alter (fun impl =>
           mkImpl (items_ impl
                   ++ [mkMenuItem NO_ITEM name KEY_NONE (Some submenu)
                                  true false false])
                  (id2idx_ impl))
        this s.

Definition AddSeparator (s : Menus) (this : MenuPtr) : Menus :=
  alter (fun impl =>
           mkImpl (items_ impl
                   ++ [mkMenuItem NO_ITEM ""%string KEY_NONE None
                                  false false true])
                  (id2idx_ impl))
        this s.

(** [Menu::Impl::FindMenuItem]: this menu's own index first, then the
    submenus in item order, depth first.  The recursion follows pointers, so
    it is bounded by [fuel]; the result is [None] when the fuel runs out
    (as it does, whatever the fuel, in a menu that is below itself when
    the identifier is not found before) and where C++ leaves the behaviour
    undefined: at an index entry that is no position of [items_]. *)
Fixpoint FindMenuItem (fuel : nat) (s : Menus) (this : MenuPtr)
  (itemId : ItemId) {struct fuel} : option (option ItemPtr) :=
  match fuel with
  | O => None
  | S fuel' =>
      match s !! this with
      | None => None
      | Some impl =>
          match id2idx_ impl !! itemId with
          | Some idx =>
              match items_ impl !! idx with
              | Some _ => Some (Some (this, idx))
              | None => None
              end
          | None =>
              (fix in_submenus (items : list MenuItem)
                 : option (option ItemPtr) :=
                 match items with
                 | [] => Some None
                 | item :: rest =>
                     match submenu_ item with
                     | Some sub =>
                         match FindMenuItem fuel' s sub itemId with
                         | Some (Some possibility) => Some (Some possibility)
                         | Some None => in_submenus rest
                         | None => None
                         end
                     | None => in_submenus rest
                     end
                 end) (items_ impl)
          end
      end
  end.

(** The loop of [FindMenuItem] over the items, as a function of its own. *)
Fixpoint in_submenus (fuel : nat) (s : Menus) (itemId : ItemId)
  (items : list MenuItem) : option (option ItemPtr) :=
  match items with
  | [] => Some None
  | item :: rest =>
      match submenu_ item with
      | Some sub =>
          match FindMenuItem fuel s sub itemId with
          | Some (Some possibility) => Some (Some possibility)
          | Some None => in_submenus fuel s itemId rest
          | None => None
          end
      | None => in_submenus fuel s itemId rest
      end
  end.

(** Reading through an item pointer. *)
Definition item_at (s : Menus) (p : ItemPtr) : option MenuItem :=
  match s !! p.1 with
  | Some impl => items_ impl !! p.2
  | None => None
  end.

(** [item->is_enabled_ = enabled] and [item->is_checked_ = checked] *)
Definition set_enabled (enabled : bool) (item : MenuItem) : MenuItem :=
  mkMenuItem (id_ item) (name_ item) (shortcut_key_ item) (submenu_ item)
             enabled (is_checked_ item) (is_separator_ item).

Definition set_checked (checked : bool) (item : MenuItem) : MenuItem :=
  mkMenuItem (id_ item) (name_ item) (shortcut_key_ item) (submenu_ item)
             (is_enabled_ item) checked (is_separator_ item).

(** Writing through an item pointer, in place. *)
Definition write_at (f : MenuItem -> MenuItem) (p : ItemPtr) (s : Menus)
  : Menus :=
  alter (fun impl => mkImpl (alter f p.2 (items_ impl)) (id2idx_ impl)) p.1 s.

Definition IsEnabled (fuel : nat) (s : Menus) (this : MenuPtr)
  (itemId : ItemId) : option bool :=
  match FindMenuItem fuel s this itemId with
  | Some (Some item) => is_enabled_ <$> item_at s item
  | Some None => Some false
  | None => None
  end.

Definition SetEnabled (fuel : nat) (s : Menus) (this : MenuPtr)
  (itemId : ItemId) (enabled : bool) : option Menus :=
  match FindMenuItem fuel s this itemId with
  | Some (Some item) => Some (write_at (set_enabled enabled) item s)
  | Some None => Some s
  | None => None
  end.

Definition IsChecked (fuel : nat) (s : Menus) (this : MenuPtr)
  (itemId : ItemId) : option bool :=
  match FindMenuItem fuel s this itemId with
  | Some (Some item) => is_checked_ <$> item_at s item
  | Some None => Some false
  | None => None
  end.

Definition SetChecked (fuel : nat) (s : Menus) (this : MenuPtr)
  (itemId : ItemId) (checked : bool) : option Menus :=
  match FindMenuItem fuel s this itemId with
  | Some (Some item) => Some (write_at (set_checked checked) item s)
  | Some None => Some s
  | None => None
  end.

(** The menu reached from [this] by following the submenus of the items at
    the positions [path] ([[]] is [this] itself). *)
Fixpoint menu_at (s : Menus) (this : MenuPtr) (path : list nat)
  : option MenuPtr :=
  match path with
  | [] => Some this
  | i :: path' =>
      match item_at s (this, i) with
      | Some item =>
          match submenu_ item with
          | Some sub => menu_at s sub path'
          | None => None
          end
      | None => None
      end
  end.

(** What the search for an identifier reads of a menu: the entry of the
    index, if it is a position of [items_], and the submenus in item
    order. *)
Definition seen (itemId : ItemId) (impl : Impl)
  : option (option nat) * list MenuPtr :=
  ((fun idx => match items_ impl !! idx with
               | Some _ => Some idx
               | None => None
               end) <$> id2idx_ impl !! itemId,
   omap submenu_ (items_ impl)).

(** An item made by [AddItem]: not a separator, opening no submenu. *)
Definition plain (item : MenuItem) : Prop :=
  submenu_ item = None /\ is_separator_ item = false.

(** No menu is below itself: the menus can be numbered so that every
    submenu has a smaller number than the menu whose item opens it. *)
Definition ranked (rank : MenuPtr -> nat) (s : Menus) : Prop :=
  forall this impl i item sub,
    s !! this = Some impl -> items_ impl !! i = Some item ->
    submenu_ item = Some sub ->
    (sub < length s)%nat /\ (rank sub < rank this)%nat.

Definition acyclic (s : Menus) : Prop := exists rank, ranked rank s.

(** The same, as a check that can be run. *)
Definition rankedb (rank : MenuPtr -> nat) (s : Menus) : bool :=
  forallb (fun '(this, impl) =>
             forallb (fun item =>
                        match submenu_ item with
                        | Some sub =>
                            (sub <? length s)%nat && (rank sub <? rank this)%nat
                        | None => true
                        end) (items_ impl))
          (imap pair s).

(** The menus a program can make with the public interface, when it puts
    no menu below itself.  (It can: [m->AddMenu(name, m)] compiles, and
    [FindMenuItem] then recurses without end for an identifier that it does
    not find.) *)
Inductive made : Menus -> Prop :=
| made_none : made []
| made_new s : made s -> made (new_menu s).1
| made_AddItem s this name itemId key :
    made s -> (this < length s)%nat -> made (AddItem s this name itemId key)
| made_AddMenu s this name submenu :
    made s -> (this < length s)%nat -> (submenu < length s)%nat ->
    acyclic (AddMenu s this name submenu) ->
    made (AddMenu s this name submenu)
| made_AddSeparator s this :
    made s -> (this < length s)%nat -> made (AddSeparator s this)
| made_SetEnabled s this itemId enabled fuel s' :
    made s -> SetEnabled fuel s this itemId enabled = Some s' -> made s'
| made_SetChecked s this itemId checked fuel s' :
    made s -> SetChecked fuel s this itemId checked = Some s' -> made s'.

(** What the public interface maintains in every menu: the index [id2idx_]
    designates items made by [AddItem], under their own identifier; every
    such item is in the index under its identifier; and an item that opens
    a submenu is no separator. *)
Record indexed (impl : Impl) : Prop := {
  index_sound : forall itemId n,
    id2idx_ impl !! itemId = Some n ->
    exists item, items_ impl !! n = Some item /\ id_ item = itemId
                 /\ plain item;
  index_complete : forall n item,
    items_ impl !! n = Some item -> plain item ->
    is_Some (id2idx_ impl !! id_ item);
  opener_no_separator : forall n item,
    items_ impl !! n = Some item -> is_Some (submenu_ item) ->
    is_separator_ item = false
}.

Record wf (s : Menus) : Prop := {
  wf_indexed : forall this impl, s !! this = Some impl -> indexed impl;
  wf_acyclic : acyclic s
}.

(** What Dear ImGui reports during one draw pass: whether [BeginMenu]
    returns true for the menu that the item at a position opens, and
    whether the first [ImGui::MenuItem] call made for the item at a
    position returns true.  A position is the list of the item indices
    that lead to the item from the menu that is drawn: a submenu that two
    items open is drawn once for each.  (The layout computed from the font
    and the theme has no part in what is returned.) *)
Record Interaction := mkInteraction {
  begin_menu : list nat -> bool;
  menu_item : list nat -> bool
}.

(** [Menu::Draw], for the menu that the item at position [path] opens.
    Like [FindMenuItem] it follows pointers and is bounded by [fuel]. *)
Fixpoint Draw (fuel : nat) (ui : Interaction) (s : Menus) (this : MenuPtr)
  (path : list nat) {struct fuel} : option ItemId :=
  match fuel with
  | O => None
  | S fuel' =>
      match s !! this with
      | None => None
      | Some impl =>
          if begin_menu ui path
          then
            (fix draw_items (items : list MenuItem) (i : nat)
               (activatedId : ItemId) : option ItemId :=
               match items with
               | [] => Some activatedId
               | item :: rest =>
                   if is_separator_ item then draw_items rest (S i) activatedId
                   else
                     match submenu_ item with
                     | Some sub =>
                         match Draw fuel' ui s sub (path ++ [i]) with
                         | Some possibility =>
                             draw_items rest (S i)
                               (if possibility =? NO_ITEM then activatedId
                                else possibility)
                         | None => None
                         end
                     | None =>
                         draw_items rest (S i)
                           (if menu_item ui (path ++ [i]) then id_ item
                            else activatedId)
                     end
               end) (items_ impl) 0%nat NO_ITEM
          else Some NO_ITEM
      end
  end.

(** The loop of [Draw] over the items, as a function of its own. *)
Fixpoint draw_items (fuel : nat) (ui : Interaction) (s : Menus)
  (path : list nat) (items : list MenuItem) (i : nat) (activatedId : ItemId)
  : option ItemId :=
  match items with
  | [] => Some activatedId
  | item :: rest =>
      if is_separator_ item
      then draw_items fuel ui s path rest (S i) activatedId
      else
        match submenu_ item with
        | Some sub =>
            match Draw fuel ui s sub (path ++ [i]) with
            | Some possibility =>
                draw_items fuel ui s path rest (S i)
                  (if possibility =? NO_ITEM then activatedId
                   else possibility)
            | None => None
            end
        | None =>
            draw_items fuel ui s path rest (S i)
              (if menu_item ui (path ++ [i]) then id_ item else activatedId)
        end
  end.

(** The loop of [Menu::DrawMenuBar]: only the items that open a submenu are
    drawn. *)
Fixpoint draw_bar (fuel : nat) (ui : Interaction) (s : Menus)
  (items : list MenuItem) (i : nat) (activatedId : ItemId)
  : option ItemId :=
  match items with
  | [] => Some activatedId
  | item :: rest =>
      match submenu_ item with
      | Some sub =>
          match Draw fuel ui s sub [i] with
          | Some id =>
              draw_bar fuel ui s rest (S i)
                (if 0 <=? id then id else activatedId)
          | None => None
          end
      | None => draw_bar fuel ui s rest (S i) activatedId
      end
  end.

Definition DrawMenuBar (fuel : nat) (ui : Interaction) (s : Menus)
  (this : MenuPtr) : option ItemId :=
  match s !! this with
  | Some impl => draw_bar fuel ui s (items_ impl) 0%nat NO_ITEM
  | None => None
  end.

(** The index and the number of items of a menu. *)
Definition shape (impl : Impl) : gmap Z nat * nat :=
  (id2idx_ impl, length (items_ impl)).

(** A menu bar with an item, a separator and two levels of submenus; the
    innermost submenu is also opened by a second item of the bar. *)
Definition sample_menus : Menus :=
  let s := (new_menu []).1 in (* the bar, at 0 *)
  let s := (new_menu s).1 in (* "Recent", at 1 *)
  let s := (new_menu s).1 in (* "More", at 2 *)
  let s := AddItem s 0 "Open" 1 KEY_NONE in
  let s := AddSeparator s 0 in
  let s := AddMenu s 0 "Recent" 1 in
  let s := AddItem s 1 "Clear" 2 KEY_NONE in
  let s := AddMenu s 1 "More" 2 in
  let s := AddItem s 2 "Pin" 7 KEY_NONE in
  AddMenu s 0 "Pinned" 2.

(** The same after [bar->SetChecked(7, true)]. *)
Definition checked_menus : Menus :=
  default [] (SetChecked 3 sample_menus 0 7 true).

(** A bar of two items. *)
Definition flat_menus : Menus :=
  AddItem (AddItem (new_menu []).1 0 "Open" 1 KEY_NONE) 0 "Quit" 2 KEY_NONE.

End Menu.

(** ** The tree that a menu unfolds to

    [FindMenuItem] and [Draw] walk what is below a menu as a tree: a
    submenu that several items open is visited once for each.  This is
    that tree, with every item holding the submenu it opens; the fields
    are those of [Menu::Impl]. *)

Module MenuTree.
Import Menu.

Inductive MenuItem := mkMenuItem {
  id_ : ItemId;
  name_ : string;
  shortcut_key_ : KeyName;
  submenu_ : option Impl;
  is_enabled_ : bool;
  is_checked_ : bool;
  is_separator_ : bool
}
with Impl := mkImpl {
  items_ : list MenuItem;
  id2idx_ : gmap Z nat
}.

(** The item of the tree for an item of a menu. *)
Definition tree_item (item : Menu.MenuItem) (sub : option Impl) : MenuItem :=
  mkMenuItem (Menu.id_ item) (Menu.name_ item) (Menu.shortcut_key_ item) sub
             (Menu.is_enabled_ item) (Menu.is_checked_ item)
             (Menu.is_separator_ item).

(** The tree below [this]; there is none when a menu is below itself, and
    [fuel] bounds the depth. *)
Fixpoint tree_of (fuel : nat) (s : list Menu.Impl) (this : nat)
  : option Impl :=
  match fuel with
  | O => None
  | S fuel' =>
      match s !! this with
      | None => None
      | Some impl =>
          match mapM (fun item =>
                        match Menu.submenu_ item with
                        | Some sub =>
                            match tree_of fuel' s sub with
                            | Some m => Some (tree_item item (Some m))
                            | None => None
                            end
                        | None => Some (tree_item item None)
                        end) (Menu.items_ impl) with
          | Some items => Some (mkImpl items (Menu.id2idx_ impl))
          | None => None
          end
      end
  end.

(** The trees of the menus a program can make with the public interface. *)
Definition built (m : Impl) : Prop :=
  exists s this fuel, made s /\ tree_of fuel s this = Some m.

(** A position in the tree: the item indices to follow, the last one being
    the item's position in its own menu. *)
Definition ItemPtr := list nat.

(** Reading through an item pointer. *)
Fixpoint item_at (m : Impl) (p : ItemPtr) : option MenuItem :=
  match p with
  | [] => None
  | [i] => items_ m !! i
  | i :: p' =>
      match items_ m !! i with
      | Some item =>
          match submenu_ item with
          | Some sub => item_at sub p'
          | None => None
          end
      | None => None
      end
  end.

(** The trees of [sample_menus] and of [checked_menus], from the bar, and
    of [flat_menus]. *)
Definition sample_menu : Impl :=
  default (mkImpl [] ∅) (tree_of 3 sample_menus 0).

Definition checked_menu : Impl :=
  default (mkImpl [] ∅) (tree_of 3 checked_menus 0).

Definition flat_menu : Impl :=
  default (mkImpl [] ∅) (tree_of 1 flat_menus 0).

(** [Menu::Draw] on the tree of a menu, for the menu that the item at
    position [path] opens: what [Menu.Draw] returns for the menu (lemma
    [Draw_tree] below). *)
Fixpoint Draw (ui : Interaction) (m : Impl) (path : ItemPtr) {struct m}
  : ItemId :=
  let fix draw_items (items : list MenuItem) (i : nat) (activatedId : ItemId)
    {struct items} : ItemId :=
    match items with
    | [] => activatedId
    | item :: rest =>
        draw_items rest (S i)
          (if is_separator_ item then activatedId
           else
             match submenu_ item with
             | Some sub =>
                 let possibility := Draw ui sub (path ++ [i]) in
                 if possibility =? NO_ITEM then activatedId else possibility
             | None =>
                 if menu_item ui (path ++ [i]) then id_ item
                 else activatedId
             end)
    end in
  if begin_menu ui path then draw_items (items_ m) 0%nat NO_ITEM
  else NO_ITEM.

(** The loop of [Draw] over the items, as a function of its own. *)
Fixpoint draw_items (ui : Interaction) (path : ItemPtr)
  (items : list MenuItem) (i : nat) (activatedId : ItemId) : ItemId :=
  match items with
  | [] => activatedId
  | item :: rest =>
      draw_items ui path rest (S i)
        (if is_separator_ item then activatedId
         else
           match submenu_ item with
           | Some sub =>
               let possibility := Draw ui sub (path ++ [i]) in
               if possibility =? NO_ITEM then activatedId else possibility
           | None =>
               if menu_item ui (path ++ [i]) then id_ item else activatedId
           end)
  end.

(** The loop of [Menu::DrawMenuBar] on the tree of a menu: only the items
    that open a submenu are drawn. *)
Fixpoint draw_bar (ui : Interaction) (items : list MenuItem) (i : nat)
  (activatedId : ItemId) : ItemId :=
  match items with
  | [] => activatedId
  | item :: rest =>
      draw_bar ui rest (S i)
        (match submenu_ item with
         | Some sub =>
             let id := Draw ui sub [i] in
             if 0 <=? id then id else activatedId
         | None => activatedId
         end)
  end.

Definition DrawMenuBar (ui : Interaction) (m : Impl) : ItemId :=
  draw_bar ui (items_ m) 0%nat NO_ITEM.

(** The number of levels of a menu. *)
Fixpoint depth (m : Impl) : nat :=
  let fix deepest (items : list MenuItem) : nat :=
    match items with
    | [] => 0%nat
    | item :: rest =>
        Nat.max (match submenu_ item with
                 | Some sub => depth sub
                 | None => 0%nat
                 end)
                (deepest rest)
    end in
  S (deepest (items_ m)).

(** An item made by [AddItem]: not a separator, opening no submenu. *)
Definition plain (item : MenuItem) : Prop :=
  submenu_ item = None /\ is_separator_ item = false.

(** A pass with every menu open in which [MenuItem] returns true at one
    position only. *)
Definition click_at (p : ItemPtr) : Interaction :=
  mkInteraction (fun _ => true) (fun q => bool_decide (q = p)).

End MenuTree.

(** ** ImguiFilamentBridge.cpp *)

Module Bridge.

(** *** Single-precision arithmetic

    [ImVec2] and [ImVec4] hold C [float]s: IEEE 754 binary32 numbers, with the
    operations of the Standard Library's executable specification at
    precision 24 and maximal exponent 128. *)
Definition float := spec_float.

Definition fmul : float -> float -> float := SFmul 24 128.
Definition fsub : float -> float -> float := SFsub 24 128.

(** Conversion of an [int] to [float], rounding to nearest even. *)
Definition float_of_int (n : Z) : float := binary_normalize 24 128 n 0 false.

(** The integer part of a finite number (rounding toward zero). *)
Definition ftrunc (f : float) : option Z :=
  match f with
  | S754_zero _ => Some 0
  | S754_finite s m e =>
      let a := match e with
               | Z0 => Zpos m
               | Zpos _ => Zpos m * 2 ^ e
               | Zneg k => Zpos m / 2 ^ Zpos k
               end in
      Some (if s then - a else a)
  | S754_infinity _ | S754_nan => None
  end.

(** [(int)f].  C++ defines the conversion when the integer part fits the
    destination type and leaves it undefined otherwise; the second branch is
    the result of the x86-64 conversion instruction, which compilers emit
    for the cast. *)
Definition int_of_float (f : float) : Z :=
  match ftrunc f with
  | Some t => if (- 2 ^ 31 <=? t) && (t <? 2 ^ 31) then t else - 2 ^ 31
  | None => - 2 ^ 31
  end.

(** [(uint16_t)f]: the conversion above, of which the low 16 bits are kept.
    It is the integer part itself when that lies in [0, 65535], the only
    case C++ defines. *)
Definition uint16_of_float (f : float) : Z := to_uint16 (int_of_float f).

(** *** Dear ImGui's draw data *)

Module ImVec2.
Record t := mk { x : float; y : float }.
End ImVec2.

Module ImVec4.
Record t := mk { x : float; y : float; z : float; w : float }.
End ImVec4.

(** An [ImDrawCallback] is opaque and identified by a number. *)
Definition ImDrawCallback := nat.

Record ImDrawCmd := mkImDrawCmd {
  ElemCount : Z;                          (* unsigned int *)
  ClipRect : ImVec4.t;
  UserCallback : option ImDrawCallback
}.

(** Of the vertex and index arrays only the sizes matter here. *)
Record ImDrawList := mkImDrawList {
  CmdBuffer : list ImDrawCmd;
  IdxBuffer_Size : Z;                     (* int *)
  VtxBuffer_Size : Z                      (* int *)
}.

(** [CmdListsCount] is the length of [CmdLists]. *)
Record ImDrawData := mkImDrawData {
  CmdLists : list ImDrawList
}.

Record ImGuiIO := mkImGuiIO {
  DisplaySize : ImVec2.t;
  DisplayFramebufferScale : ImVec2.t
}.

Definition sizeof_ImDrawVert : Z := 20.
Definition sizeof_ImDrawIdx : Z := 2.

(** [ImDrawData::ScaleClipRects], which rewrites every clip rectangle of
    the draw data in place. *)
Definition scale_clip_rect (fb_scale : ImVec2.t) (pcmd : ImDrawCmd) : ImDrawCmd :=
  let r := ClipRect pcmd in
  mkImDrawCmd (ElemCount pcmd)
    (ImVec4.mk (fmul (ImVec4.x r) (ImVec2.x fb_scale))
               (fmul (ImVec4.y r) (ImVec2.y fb_scale))
               (fmul (ImVec4.z r) (ImVec2.x fb_scale))
               (fmul (ImVec4.w r) (ImVec2.y fb_scale)))
    (UserCallback pcmd).

Definition ScaleClipRects (imguiData : ImDrawData) (fb_scale : ImVec2.t)
  : ImDrawData :=
  mkImDrawData
    (map (fun cmds =>
            mkImDrawList (map (scale_clip_rect fb_scale) (CmdBuffer cmds))
                         (IdxBuffer_Size cmds) (VtxBuffer_Size cmds))
         (CmdLists imguiData)).

(** *** Filament objects *)

(** A buffer reports the count it was built with. *)
Record VertexBuffer := mkVertexBuffer {
  vb_handle : nat;
  getVertexCount : Z
}.

Record IndexBuffer := mkIndexBuffer {
  ib_handle : nat;
  getIndexCount : Z
}.

Definition MaterialInstance := nat.

(** One primitive of a [RenderableManager::Builder]. *)
Record Entry := mkEntry {
  e_vertices : option VertexBuffer;
  e_indices : option IndexBuffer;
  e_offset : Z;
  e_count : Z;
  e_blendOrder : Z;
  e_material : option MaterialInstance
}.

Definition empty_entry : Entry := mkEntry None None 0 0 0 None.

(** [RenderableManager::Builder(count)] and its setters; a setter given an
    index that is not below [count] does nothing. *)
Definition Builder (count : nat) : list Entry := replicate count empty_entry.

Definition geometry (index : nat) (vertices : option VertexBuffer)
  (indices : option IndexBuffer) (offset count : Z) (b : list Entry)
  : list Entry :=
  alter (fun e => mkEntry vertices indices offset count
                          (e_blendOrder e) (e_material e)) index b.

Definition blendOrder (index : nat) (order : Z) (b : list Entry) : list Entry :=
  alter (fun e => mkEntry (e_vertices e) (e_indices e) (e_offset e) (e_count e)
                          (to_uint16 order) (e_material e)) index b.

Definition material (index : nat) (mi : option MaterialInstance)
  (b : list Entry) : list Entry :=
  alter (fun e => mkEntry (e_vertices e) (e_indices e) (e_offset e) (e_count e)
                          (e_blendOrder e) mi) index b.

(** The calls with an effect outside the bridge. *)
Inductive Event :=
| FenceWait
| DestroyVertexBuffer (vb : VertexBuffer)
| BuildVertexBuffer (vb : VertexBuffer)
| SetBufferAt (vb : VertexBuffer) (nbytes : Z)
| DestroyIndexBuffer (ib : IndexBuffer)
| BuildIndexBuffer (ib : IndexBuffer)
| SetBuffer (ib : IndexBuffer) (nbytes : Z)
| CreateInstance (mi : MaterialInstance)
| SetScissor (mi : MaterialInstance) (left bottom width height : Z)
| DestroyRenderable
| BuildRenderable (entries : list Entry)
| CallUserCallback (f : ImDrawCallback) (cmdListIndex cmdIndex : nat).

(** *** The bridge

    [ImguiFilamentBridge::Impl], the Renderable component that the engine
    holds for the entity [renderable_] ([None] when the entity has none), the
    engine's next unused handle, and the trace. *)
Record State := mkState {
  vertex_buffers_ : list (option VertexBuffer);
  index_buffers_ : list (option IndexBuffer);
  material_instances_ : list (option MaterialInstance);
  renderable_ : option (list Entry);
  has_synced_ : bool;
  next_handle : nat;
  trace : list Event
}.

(** A bridge as its constructor leaves it. *)
Definition new_bridge : State := mkState [] [] [] None false 0 [].

Definition set_vertex_buffers (st : State) (v : list (option VertexBuffer)) :=
  mkState v (index_buffers_ st) (material_instances_ st) (renderable_ st)
          (has_synced_ st) (next_handle st) (trace st).

Definition set_index_buffers (st : State) (v : list (option IndexBuffer)) :=
  mkState (vertex_buffers_ st) v (material_instances_ st) (renderable_ st)
          (has_synced_ st) (next_handle st) (trace st).

Definition set_material_instances (st : State)
  (v : list (option MaterialInstance)) :=
  mkState (vertex_buffers_ st) (index_buffers_ st) v (renderable_ st)
          (has_synced_ st) (next_handle st) (trace st).

Definition set_renderable (st : State) (r : option (list Entry)) :=
  mkState (vertex_buffers_ st) (index_buffers_ st) (material_instances_ st) r
          (has_synced_ st) (next_handle st) (trace st).

Definition set_has_synced (st : State) (b : bool) :=
  mkState (vertex_buffers_ st) (index_buffers_ st) (material_instances_ st)
          (renderable_ st) b (next_handle st) (trace st).

Definition fresh_handle (st : State) : State :=
  mkState (vertex_buffers_ st) (index_buffers_ st) (material_instances_ st)
          (renderable_ st) (has_synced_ st) (S (next_handle st)) (trace st).

Definition emit (ev : Event) (st : State) : State :=
  mkState (vertex_buffers_ st) (index_buffers_ st) (material_instances_ st)
          (renderable_ st) (has_synced_ st) (next_handle st) (ev :: trace st).

(** *** The map from scissor keys to material instances

    A [std::unordered_map<uint64_t, V>]: entries with distinct keys, kept
    here in the order the keys were first inserted.  The order in which a
    range-for visits the entries is the hash table's; it is some
    arrangement [bucket_order] of the keys. *)
Definition unordered_map (V : Type) := list (Z * V).

Fixpoint umap_set {V : Type} (k : Z) (v : V) (m : unordered_map V)
  : unordered_map V :=
  match m with
  | [] => [(k, v)]
  | (k', v') :: m' =>
      if Z.eqb k k' then (k, v) :: m' else (k', v') :: umap_set k v m'
  end.

Fixpoint umap_find {V : Type} (k : Z) (m : unordered_map V) : option V :=
  match m with
  | [] => None
  | (k', v') :: m' => if Z.eqb k k' then Some v' else umap_find k m'
  end.

Record HashOrder := mkHashOrder {
  bucket_order : list Z -> list Z;
  bucket_order_perm : forall l, Permutation (bucket_order l) l
}.

(** Two iteration orders: insertion order and its reverse. *)
Definition insertion_order : HashOrder :=
  mkHashOrder (fun l => l) (fun l => Permutation_refl l).

Definition reverse_order : HashOrder :=
  mkHashOrder (@rev Z) (fun l => Permutation_sym (Permutation_rev l)).

(** To help with mapping unique scissor rectangles to material instances, a
    64-bit key is made from a 4-tuple that defines an AABB in screen space. *)
Definition makeScissorKey (fbheight : Z) (clipRect : ImVec4.t) : Z :=
  let left := uint16_of_float (ImVec4.x clipRect) in
  let bottom :=
    uint16_of_float (fsub (float_of_int fbheight) (ImVec4.w clipRect)) in
  let width := uint16_of_float (fsub (ImVec4.z clipRect) (ImVec4.x clipRect)) in
  let height := uint16_of_float (fsub (ImVec4.w clipRect) (ImVec4.y clipRect)) in
  Z.lor (Z.lor (Z.lor (Z.shiftl left 0) (Z.shiftl bottom 16))
               (Z.shiftl width 32))
        (Z.shiftl height 48).

Section Operations.

(** The compile-time switch of Filament's utility library. *)
Variable UTILS_HAS_THREADING : bool.

(** The iteration order of the scissor map. *)
Variable hash : HashOrder.

Definition syncThreads (st : State) : State :=
  if UTILS_HAS_THREADING then
    if has_synced_ st then st
    else set_has_synced (emit FenceWait st) true
  else st.

(** [engineInstance.destroy(p)]; destroying [nullptr] does nothing. *)
Definition destroy_vertex_buffer (p : option VertexBuffer) (st : State) : State :=
  match p with
  | Some vb => emit (DestroyVertexBuffer vb) st
  | None => st
  end.

Definition destroy_index_buffer (p : option IndexBuffer) (st : State) : State :=
  match p with
  | Some ib => emit (DestroyIndexBuffer ib) st
  | None => st
  end.

(** [None] is an access outside [vertex_buffers_]. *)
Definition createVertexBuffer (bufferIndex : nat) (capacity : Z) (st : State)
  : option State :=
  let st := syncThreads st in
  old ← vertex_buffers_ st !! bufferIndex;
  let st := destroy_vertex_buffer old st in
  let vb := mkVertexBuffer (next_handle st) capacity in
  let st := emit (BuildVertexBuffer vb) (fresh_handle st) in
  Some (set_vertex_buffers st (<[bufferIndex := Some vb]> (vertex_buffers_ st))).

Definition createIndexBuffer (bufferIndex : nat) (capacity : Z) (st : State)
  : option State :=
  let st := syncThreads st in
  old ← index_buffers_ st !! bufferIndex;
  let st := destroy_index_buffer old st in
  let ib := mkIndexBuffer (next_handle st) capacity in
  let st := emit (BuildIndexBuffer ib) (fresh_handle st) in
  Some (set_index_buffers st (<[bufferIndex := Some ib]> (index_buffers_ st))).

(** The two loops of [createBuffers]: [n] more iterations from index [i]. *)
Fixpoint create_vertex_buffers (i n : nat) (st : State) : option State :=
  match n with
  | O => Some st
  | S n' =>
      st' ← createVertexBuffer i 1000 st;
      create_vertex_buffers (S i) n' st'
  end.

Fixpoint create_index_buffers (i n : nat) (st : State) : option State :=
  match n with
  | O => Some st
  | S n' =>
      st' ← createIndexBuffer i 5000 st;
      create_index_buffers (S i) n' st'
  end.

Definition createBuffers (numRequiredBuffers : nat) (st : State)
  : option State :=
  st ←
    (if (length (vertex_buffers_ st) <? numRequiredBuffers)%nat then
       let previousSize := length (vertex_buffers_ st) in
       let st :=
         set_vertex_buffers st
           (vertex_buffers_ st
            ++ replicate (numRequiredBuffers - previousSize) None) in
       create_vertex_buffers previousSize
         (length (vertex_buffers_ st) - previousSize) st
     else Some st);
  if (length (index_buffers_ st) <? numRequiredBuffers)%nat then
    let previousSize := length (index_buffers_ st) in
    let st :=
      set_index_buffers st
        (index_buffers_ st
         ++ replicate (numRequiredBuffers - previousSize) None) in
    create_index_buffers previousSize
      (length (index_buffers_ st) - previousSize) st
  else Some st.

(** [None] is the dereference of a missing or null buffer. *)
Definition populateVertexData (bufferIndex : nat)
  (vbSizeInBytes ibSizeInBytes : Z) (st : State) : option State :=
  let requiredVertCount := vbSizeInBytes / sizeof_ImDrawVert in
  vb ← mjoin (vertex_buffers_ st !! bufferIndex);
  let capacityVertCount := getVertexCount vb in
  st ← (if capacityVertCount <? requiredVertCount
        then createVertexBuffer bufferIndex requiredVertCount st
        else Some st);
  let nVbBytes := to_size_t (requiredVertCount * sizeof_ImDrawVert) in
  vb ← mjoin (vertex_buffers_ st !! bufferIndex);
  let st := emit (SetBufferAt vb nVbBytes) st in
  let requiredIndexCount := ibSizeInBytes / 2 in
  ib ← mjoin (index_buffers_ st !! bufferIndex);
  let capacityIndexCount := getIndexCount ib in
  st ← (if capacityIndexCount <? requiredIndexCount
        then createIndexBuffer bufferIndex requiredIndexCount st
        else Some st);
  let nIbBytes := to_size_t (requiredIndexCount * 2) in
  ib ← mjoin (index_buffers_ st !! bufferIndex);
  Some (emit (SetBuffer ib nIbBytes) st).

(** The first loop of [update]: the number of primitives and the set of
    scissor keys. *)
Definition count_cmds (fbheight : Z) (cmds : ImDrawList)
  (acc : nat * unordered_map (option MaterialInstance))
  : nat * unordered_map (option MaterialInstance) :=
  ((fst acc + length (CmdBuffer cmds))%nat,
   fold_left (fun m pcmd => umap_set (makeScissorKey fbheight (ClipRect pcmd))
                                     None m)
             (CmdBuffer cmds) (snd acc)).

Definition count_primitives (fbheight : Z) (imguiData : ImDrawData)
  : nat * unordered_map (option MaterialInstance) :=
  fold_left (fun acc cmds => count_cmds fbheight cmds acc)
            (CmdLists imguiData) (0%nat, []).

(** The loop that makes the missing material instances: [n] more
    iterations from index [i]. *)
Fixpoint create_instances (i n : nat) (st : State) : State :=
  match n with
  | O => st
  | S n' =>
      let mi := next_handle st in
      let st := emit (CreateInstance mi) (fresh_handle st) in
      create_instances (S i) n'
        (set_material_instances st (<[i := Some mi]> (material_instances_ st)))
  end.

(** Ensure that there is a material instance for each scissor rectangle. *)
Definition ensure_material_instances (required : nat) (st : State) : State :=
  let previousSize := length (material_instances_ st) in
  if (previousSize <? required)%nat then
    let st :=
      set_material_instances st
        (material_instances_ st ++ replicate (required - previousSize) None) in
    create_instances previousSize
      (length (material_instances_ st) - previousSize) st
  else st.

(** The loop that pushes each unique scissor rectangle to a material
    instance; [None] is an access outside [material_instances_] or the use
    of a null instance. *)
Fixpoint push_scissors (keys : list Z) (matIndex : nat)
  (scissorRects : unordered_map (option MaterialInstance)) (st : State)
  : option (unordered_map (option MaterialInstance) * State) :=
  match keys with
  | [] => Some (scissorRects, st)
  | key :: rest =>
      mi ← mjoin (material_instances_ st !! matIndex);
      let left := Z.land (Z.shiftr key 0) 65535 in
      let bottom := Z.land (Z.shiftr key 16) 65535 in
      let width := Z.land (Z.shiftr key 32) 65535 in
      let height := Z.land (Z.shiftr key 48) 65535 in
      push_scissors rest (S matIndex)
        (umap_set key (Some mi) scissorRects)
        (emit (SetScissor mi left bottom width height) st)
  end.

(** The state of the last loop of [update]: the bridge, the builder and
    [primIndex]. *)
Definition Emitting : Type := State * list Entry * nat.

(** The loop over the commands of one draw list; [None] is the failure of
    the assertion that the key is in the map. *)
Fixpoint emit_cmds (fbheight : Z)
  (scissorRects : unordered_map (option MaterialInstance))
  (bufferIndex : nat) (pcmds : list ImDrawCmd) (cmdIndex : nat)
  (indexOffset : Z) (acc : Emitting) : option Emitting :=
  match pcmds with
  | [] => Some acc
  | pcmd :: rest =>
      let '(st, rbuilder, primIndex) := acc in
      acc' ←
        match UserCallback pcmd with
        | Some f =>
            Some (emit (CallUserCallback f bufferIndex cmdIndex) st,
                  rbuilder, primIndex)
        | None =>
            let skey := makeScissorKey fbheight (ClipRect pcmd) in
            miter ← umap_find skey scissorRects;
            Some (st,
                  material primIndex miter
                    (blendOrder primIndex (Z.of_nat primIndex)
                       (geometry primIndex
                          (mjoin (vertex_buffers_ st !! bufferIndex))
                          (mjoin (index_buffers_ st !! bufferIndex))
                          indexOffset (ElemCount pcmd) rbuilder)),
                  S primIndex)
        end;
      emit_cmds fbheight scissorRects bufferIndex rest (S cmdIndex)
        (to_size_t (indexOffset + ElemCount pcmd)) acc'
  end.

(** The loop over the draw lists. *)
Fixpoint emit_lists (fbheight : Z)
  (scissorRects : unordered_map (option MaterialInstance))
  (lists : list ImDrawList) (bufferIndex : nat) (acc : Emitting)
  : option Emitting :=
  match lists with
  | [] => Some acc
  | cmds :: rest =>
      let '(st, rbuilder, primIndex) := acc in
      st ← populateVertexData bufferIndex
             (to_size_t (VtxBuffer_Size cmds * sizeof_ImDrawVert))
             (to_size_t (IdxBuffer_Size cmds * sizeof_ImDrawIdx)) st;
      acc' ← emit_cmds fbheight scissorRects bufferIndex (CmdBuffer cmds)
               0%nat 0 (st, rbuilder, primIndex);
      emit_lists fbheight scissorRects rest (S bufferIndex) acc'
  end.

(** The size of the framebuffer, in pixels. *)
Definition fb_width (io : ImGuiIO) : Z :=
  int_of_float (fmul (ImVec2.x (DisplaySize io))
                     (ImVec2.x (DisplayFramebufferScale io))).

Definition fb_height (io : ImGuiIO) : Z :=
  int_of_float (fmul (ImVec2.y (DisplaySize io))
                     (ImVec2.y (DisplayFramebufferScale io))).

(** [ImguiFilamentBridge::update].  The draw data is returned with the
    bridge, as [ScaleClipRects] rewrites it. *)
Definition update (io : ImGuiIO) (imguiData : ImDrawData) (st : State)
  : option (State * ImDrawData) :=
  let st := set_has_synced st false in
  let fbwidth := fb_width io in
  let fbheight := fb_height io in
  if (fbwidth =? 0) || (fbheight =? 0) then Some (st, imguiData)
  else
    let imguiData := ScaleClipRects imguiData (DisplayFramebufferScale io) in
    st ← createBuffers (length (CmdLists imguiData)) st;
    let '(nPrims, scissorRects) := count_primitives fbheight imguiData in
    let rbuilder := Builder nPrims in
    let st := ensure_material_instances (length scissorRects) st in
    '(scissorRects, st) ←
      push_scissors (bucket_order hash (map fst scissorRects)) 0%nat
                    scissorRects st;
    let st := set_renderable (emit DestroyRenderable st) None in
    '(st, rbuilder, _) ←
      emit_lists fbheight scissorRects (CmdLists imguiData) 0%nat
                 (st, rbuilder, 0%nat);
    if (0 <? length (CmdLists imguiData))%nat
    then Some (set_renderable (emit (BuildRenderable rbuilder) st)
                              (Some rbuilder),
               imguiData)
    else Some (st, imguiData).

(** A sequence of frames. *)
Fixpoint updates (frames : list (ImGuiIO * ImDrawData)) (st : State)
  : option State :=
  match frames with
  | [] => Some st
  | (io, imguiData) :: rest =>
      r ← update io imguiData st;
      updates rest (fst r)
  end.

End Operations.

(** *** Observations

    What the properties below are stated with. *)

(** The capacity of a buffer slot, when the slot holds a buffer. *)
Definition vertex_capacity (st : State) (i : nat) : option Z :=
  getVertexCount <$> mjoin (vertex_buffers_ st !! i).

Definition index_capacity (st : State) (i : nat) : option Z :=
  getIndexCount <$> mjoin (index_buffers_ st !! i).

(** The counts that [update] makes [populateVertexData] require for the
    slot of a draw list. *)
Definition required_vertices (cmds : ImDrawList) : Z :=
  to_size_t (VtxBuffer_Size cmds * sizeof_ImDrawVert) / sizeof_ImDrawVert.

Definition required_indices (cmds : ImDrawList) : Z :=
  to_size_t (IdxBuffer_Size cmds * sizeof_ImDrawIdx) / 2.

(** The frame is skipped. *)
Definition zero_area (io : ImGuiIO) : bool :=
  (fb_width io =? 0) || (fb_height io =? 0).

Definition is_fence (ev : Event) : bool :=
  match ev with FenceWait => true | _ => false end.

Definition is_build (ev : Event) : bool :=
  match ev with
  | BuildVertexBuffer _ | BuildIndexBuffer _ => true
  | _ => false
  end.

(** How often the fence was waited for, and how many buffers were made. *)
Definition fence_waits (st : State) : nat :=
  length (List.filter is_fence (trace st)).

Definition buffers_built (st : State) : nat :=
  length (List.filter is_build (trace st)).

(** What the bridge maintains: no slot and no pooled instance is null, and
    the pooled instances are distinct handles that the engine has issued. *)
Record wf_state (st : State) : Prop := mk_wf_state {
  wf_vertex : Forall is_Some (vertex_buffers_ st);
  wf_index : Forall is_Some (index_buffers_ st);
  wf_material : Forall is_Some (material_instances_ st);
  wf_issued : forall i mi,
    material_instances_ st !! i = Some (Some mi) -> (mi < next_handle st)%nat;
  wf_distinct : NoDup (material_instances_ st)
}.

(** The fields of the draw data have the ranges of their C++ types:
    [ElemCount] is an [unsigned int], sizes are non-negative [int]s. *)
Definition wf_draw_list (cmds : ImDrawList) : Prop :=
  Forall (fun pcmd => 0 <= ElemCount pcmd < 2 ^ 32) (CmdBuffer cmds)
  /\ Z.of_nat (length (CmdBuffer cmds)) < 2 ^ 31
  /\ 0 <= VtxBuffer_Size cmds < 2 ^ 31
  /\ 0 <= IdxBuffer_Size cmds < 2 ^ 31.

Definition wf_draw_data (imguiData : ImDrawData) : Prop :=
  Forall wf_draw_list (CmdLists imguiData).

(** The draw commands of a frame, in frame order, and their scissor keys. *)
Definition frame_cmds (imguiData : ImDrawData) : list ImDrawCmd :=
  concat (map CmdBuffer (CmdLists imguiData)).

Definition scissor_key (fbheight : Z) (pcmd : ImDrawCmd) : Z :=
  makeScissorKey fbheight (ClipRect pcmd).

Definition frame_keys (fbheight : Z) (imguiData : ImDrawData) : list Z :=
  map (scissor_key fbheight) (frame_cmds imguiData).

Definition has_callback (pcmd : ImDrawCmd) : bool :=
  match UserCallback pcmd with Some _ => true | None => false end.

(** The running sum of [ElemCount] over the commands before command [j]. *)
Definition running_offset (pcmds : list ImDrawCmd) (j : nat) : Z :=
  foldr Z.add 0 (map ElemCount (take j pcmds)).

(** The primitives that the commands of draw list [i] ask for: one for
    each command without a user callback, with the slot of the list, the
    running offset and the command. *)
Definition list_primitives (i : nat) (pcmds : list ImDrawCmd)
  : list (nat * Z * ImDrawCmd) :=
  omap (fun jc => if has_callback jc.2 then None
                  else Some (i, running_offset pcmds jc.1, jc.2))
       (imap pair pcmds).

Definition frame_primitives (lists : list ImDrawList)
  : list (nat * Z * ImDrawCmd) :=
  concat (imap (fun i cmds => list_primitives i (CmdBuffer cmds)) lists).

(** The builder entry of the [k]-th primitive: geometry from the slot of its
    list, blend order [k], and the material instance of its scissor key. *)
Definition entry_of (st : State) (fbheight : Z)
  (scissorRects : unordered_map (option MaterialInstance))
  (k : nat) (p : nat * Z * ImDrawCmd) : Entry :=
  mkEntry (mjoin (vertex_buffers_ st !! p.1.1))
          (mjoin (index_buffers_ st !! p.1.1))
          p.1.2 (ElemCount p.2) (to_uint16 (Z.of_nat k))
          (default None (umap_find (scissor_key fbheight p.2) scissorRects)).

(** The geometry of an entry, without its material. *)
Definition geometry_of (e : Entry)
  : option VertexBuffer * option IndexBuffer * Z * Z * Z :=
  (e_vertices e, e_indices e, e_offset e, e_count e, e_blendOrder e).


(** The material instances that the primitives of a Renderable carry. *)
Definition materials_of (r : list Entry) : list MaterialInstance :=
  omap e_material r.

(** Within one [update], after [has_synced_] was cleared with [f0] fence
    waits and [b0] buffers made so far: the fence was waited for once more
    exactly if [has_synced_] is set, and that is the case exactly if
    threading is available and a buffer was made since. *)
Definition sync_inv (threading : bool) (b0 f0 : nat) (st : State) : Prop :=
  fence_waits st = (f0 + if has_synced_ st then 1 else 0)%nat
  /\ (b0 <= buffers_built st)%nat
  /\ (has_synced_ st = true <->
      threading = true /\ (b0 < buffers_built st)%nat).

(** The material instances that were given a scissor rectangle, newest
    first. *)
Definition scissor_instance (ev : Event) : option MaterialInstance :=
  match ev with SetScissor mi _ _ _ _ => Some mi | _ => None end.

Definition scissors_set (st : State) : list MaterialInstance :=
  omap scissor_instance (trace st).

(** What one operation on the buffers leaves as it was. *)
Record buffer_step (threading : bool) (st st' : State) : Prop :=
  mk_buffer_step {
  bs_material : material_instances_ st' = material_instances_ st;
  bs_renderable : renderable_ st' = renderable_ st;
  bs_handle : (next_handle st <= next_handle st')%nat;
  bs_vertex_length :
    (length (vertex_buffers_ st) <= length (vertex_buffers_ st'))%nat;
  bs_index_length :
    (length (index_buffers_ st) <= length (index_buffers_ st'))%nat;
  bs_sync : forall b0 f0,
    sync_inv threading b0 f0 st -> sync_inv threading b0 f0 st';
  bs_scissors : scissors_set st' = scissors_set st
}.

Definition is_destroy (ev : Event) : bool :=
  match ev with
  | DestroyVertexBuffer _ | DestroyIndexBuffer _ => true
  | _ => false
  end.

(** The buffers that were destroyed, oldest last. *)
Definition buffers_destroyed (st : State) : list Event :=
  List.filter is_destroy (trace st).

(** The slots that [createBuffers] appends: [n] buffers of the starting
    capacity, with the handles from [h] on. *)
Definition new_vertex_slots (h n : nat) : list (option VertexBuffer) :=
  (fun k => Some (mkVertexBuffer k 1000)) <$> seq h n.

Definition new_index_slots (h n : nat) : list (option IndexBuffer) :=
  (fun k => Some (mkIndexBuffer k 5000)) <$> seq h n.

(** The events of [createVertexBuffer] and [createIndexBuffer] before the
    buffer is built. *)
Definition fence_events (threading : bool) (st : State) : list Event :=
  if threading && negb (has_synced_ st) then [FenceWait] else [].

Definition old_vertex_events (old : option VertexBuffer) : list Event :=
  match old with Some vb => [DestroyVertexBuffer vb] | None => [] end.

Definition old_index_events (old : option IndexBuffer) : list Event :=
  match old with Some ib => [DestroyIndexBuffer ib] | None => [] end.

(** Several events at once, newest first. *)
Definition emit_all (evs : list Event) (st : State) : State :=
  mkState (vertex_buffers_ st) (index_buffers_ st) (material_instances_ st)
          (renderable_ st) (has_synced_ st) (next_handle st)
          (evs ++ trace st).

(** The call of [setScissor] for a key. *)
Definition scissor_event (mi : MaterialInstance) (key : Z) : Event :=
  SetScissor mi (Z.land (Z.shiftr key 0) 65535)
             (Z.land (Z.shiftr key 16) 65535)
             (Z.land (Z.shiftr key 32) 65535)
             (Z.land (Z.shiftr key 48) 65535).

(** The handles in the pool. *)
Definition pool_handles (st : State) : list MaterialInstance :=
  omap id (material_instances_ st).

(** The user callbacks that the commands of draw list [i] invoke, from
    command [j] on, newest first. *)
Fixpoint callback_trace (i : nat) (pcmds : list ImDrawCmd) (j : nat)
  : list Event :=
  match pcmds with
  | [] => []
  | pcmd :: rest =>
      callback_trace i rest (S j)
      ++ match UserCallback pcmd with
         | Some f => [CallUserCallback f i j]
         | None => []
         end
  end.

(** The builder entries that the commands of one draw list set, with the
    arithmetic of the loop: the offset starts at [offset] and the first
    primitive is number [k]. *)
Fixpoint cmd_entries (vertices : option VertexBuffer)
  (indices : option IndexBuffer) (fbheight : Z)
  (scissorRects : unordered_map (option MaterialInstance))
  (offset : Z) (k : nat) (pcmds : list ImDrawCmd) : list Entry :=
  match pcmds with
  | [] => []
  | pcmd :: rest =>
      let next := to_size_t (offset + ElemCount pcmd) in
      if has_callback pcmd
      then cmd_entries vertices indices fbheight scissorRects next k rest
      else mkEntry vertices indices offset (ElemCount pcmd)
                   (to_uint16 (Z.of_nat k))
                   (default None
                      (umap_find (scissor_key fbheight pcmd) scissorRects))
           :: cmd_entries vertices indices fbheight scissorRects next (S k)
                rest
  end.

(** The same for the draw lists from slot [b] on, with the buffers that the
    slots of [st] hold. *)
Fixpoint list_entries (st : State) (fbheight : Z)
  (scissorRects : unordered_map (option MaterialInstance))
  (b k : nat) (lists : list ImDrawList) : list Entry :=
  match lists with
  | [] => []
  | cmds :: rest =>
      let es :=
        cmd_entries (mjoin (vertex_buffers_ st !! b))
                    (mjoin (index_buffers_ st !! b))
                    fbheight scissorRects 0 k (CmdBuffer cmds) in
      es ++ list_entries st fbheight scissorRects (S b) (k + length es) rest
  end.


(** Events that concern neither the fence, the buffers nor the scissors. *)
Definition quiet (ev : Event) : Prop :=
  is_fence ev = false /\ is_build ev = false /\ scissor_instance ev = None.

(** The map after the loop that pushes the scissor rectangles. *)
Definition assign (keys : list Z) (mis : list MaterialInstance)
  (scissorRects : unordered_map (option MaterialInstance))
  : unordered_map (option MaterialInstance) :=
  fold_left (fun m km => umap_set km.1 (Some km.2) m) (zip keys mis)
            scissorRects.

(** How [update] leaves the slot of a draw list: a buffer at least as large
    as required, which is the old buffer when that was large enough and a
    buffer of exactly the required count otherwise. *)
Definition vertex_slot_after (cmds : ImDrawList) (vb0 vb1 : VertexBuffer)
  : Prop :=
  (required_vertices cmds <= getVertexCount vb0 -> vb1 = vb0)
  /\ (getVertexCount vb0 < required_vertices cmds ->
      getVertexCount vb1 = required_vertices cmds).

Definition index_slot_after (cmds : ImDrawList) (ib0 ib1 : IndexBuffer)
  : Prop :=
  (required_indices cmds <= getIndexCount ib0 -> ib1 = ib0)
  /\ (getIndexCount ib0 < required_indices cmds ->
      getIndexCount ib1 = required_indices cmds).

(** The primitives of the commands after [pre], in a list [pre ++ rest]. *)
Definition primitives_from (i : nat) (pre rest : list ImDrawCmd)
  : list (nat * Z * ImDrawCmd) :=
  omap (fun jc => if has_callback jc.2 then None
                  else Some (i, running_offset (pre ++ rest) jc.1, jc.2))
       (imap (fun j pcmd => ((length pre + j)%nat, pcmd)) rest).

(** The material instance that the map holds for the key of a command. *)
Definition instance_of (fbheight : Z)
  (scissorRects : unordered_map (option MaterialInstance))
  (pcmd : ImDrawCmd) : option MaterialInstance :=
  default None (umap_find (scissor_key fbheight pcmd) scissorRects).

Definition no_callback (pcmd : ImDrawCmd) : bool := negb (has_callback pcmd).

(** *** Sample inputs *)

(** A clip rectangle with integer corners. *)
Definition sample_rect (x y z w : Z) : ImVec4.t :=
  ImVec4.mk (float_of_int x) (float_of_int y) (float_of_int z) (float_of_int w).

(** A 400 x 300 display at framebuffer scale 2, and a minimized one. *)
Definition sample_io : ImGuiIO :=
  mkImGuiIO (ImVec2.mk (float_of_int 400) (float_of_int 300))
            (ImVec2.mk (float_of_int 2) (float_of_int 2)).

Definition hidden_io : ImGuiIO :=
  mkImGuiIO (ImVec2.mk (float_of_int 0) (float_of_int 300))
            (ImVec2.mk (float_of_int 2) (float_of_int 2)).

(** Two draw lists: three commands, the second with a user callback, then
    one command on buffers larger than the starting capacities. *)
Definition sample_frame : ImDrawData :=
  mkImDrawData
    [mkImDrawList
       [mkImDrawCmd 6 (sample_rect 0 0 400 300) None;
        mkImDrawCmd 12 (sample_rect 5 5 50 50) (Some 7%nat);
        mkImDrawCmd 3 (sample_rect 0 0 400 300) None]
       21 8;
     mkImDrawList
       [mkImDrawCmd 9 (sample_rect 5 10 15 20) None]
       6000 2000].

(** One draw list whose first command has a user callback and a clip
    rectangle of its own. *)
Definition callback_frame : ImDrawData :=
  mkImDrawData
    [mkImDrawList
       [mkImDrawCmd 0 (sample_rect 5 5 50 50) (Some 7%nat);
        mkImDrawCmd 6 (sample_rect 0 0 400 300) None]
       6 4].

(** The bridge after [sample_frame] was drawn, with threading. *)
Definition drawn_bridge : State :=
  default new_bridge
    (fst <$> update true insertion_order sample_io sample_frame new_bridge).

(** What the design document says of a scissor key: the four components,
    each clamped to the 16-bit unsigned range, at bit offsets 0, 16, 32 and
    48. *)
Definition clamp16 (v : Z) : Z := Z.max 0 (Z.min 65535 v).

Definition pack16 (left bottom width height : Z) : Z :=
  left + bottom * 2 ^ 16 + width * 2 ^ 32 + height * 2 ^ 48.

Definition clamped_ScissorKey (fbheight : Z) (clipRect : ImVec4.t) : Z :=
  pack16
    (clamp16 (default 0 (ftrunc (ImVec4.x clipRect))))
    (clamp16 (default 0 (ftrunc (fsub (float_of_int fbheight)
                                      (ImVec4.w clipRect)))))
    (clamp16 (default 0 (ftrunc (fsub (ImVec4.z clipRect)
                                      (ImVec4.x clipRect)))))
    (clamp16 (default 0 (ftrunc (fsub (ImVec4.w clipRect)
                                      (ImVec4.y clipRect))))).

(** The four components as the code converts them. *)
Definition scissor_components (fbheight : Z) (clipRect : ImVec4.t)
  : Z * Z * Z * Z :=
  (uint16_of_float (ImVec4.x clipRect),
   uint16_of_float (fsub (float_of_int fbheight) (ImVec4.w clipRect)),
   uint16_of_float (fsub (ImVec4.z clipRect) (ImVec4.x clipRect)),
   uint16_of_float (fsub (ImVec4.w clipRect) (ImVec4.y clipRect))).


(** *** The engine's side

    What the engine holds after the calls of a trace: the buffers that were
    built and not destroyed, with the count each was built with; the
    material instances that were created and not destroyed, and the scissor
    rectangle last set on each; the Renderable component of the bridge's
    entity; and whether every call so far was made on objects that were
    live, namely
      - a buffer or a material instance is destroyed only while it is live
        and the Renderable does not use it;
      - data is uploaded only to a live buffer, and not more bytes than the
        buffer holds (20 bytes a vertex, 2 bytes an index);
      - a scissor rectangle is set only on a live material instance;
      - a Renderable is built only from live buffers and live material
        instances. *)
Record Engine := mkEngine {
  live_vertex : gmap nat Z;
  live_index : gmap nat Z;
  live_material : gset nat;
  scissor_of : gmap nat (Z * Z * Z * Z);
  component : option (list Entry);
  legal : bool
}.

Definition new_engine : Engine := mkEngine ∅ ∅ ∅ ∅ None true.

Definition vertex_live (e : Engine) (vb : VertexBuffer) : bool :=
  bool_decide (live_vertex e !! vb_handle vb = Some (getVertexCount vb)).

Definition index_live (e : Engine) (ib : IndexBuffer) : bool :=
  bool_decide (live_index e !! ib_handle ib = Some (getIndexCount ib)).

Definition material_live (e : Engine) (mi : MaterialInstance) : bool :=
  bool_decide (mi ∈ live_material e).

(** The entries of the Renderable that use a buffer or an instance. *)
Definition uses_vertex (r : option (list Entry)) (h : nat) : bool :=
  existsb (fun en => match e_vertices en with
                     | Some vb => Nat.eqb (vb_handle vb) h
                     | None => false
                     end) (default [] r).

Definition uses_index (r : option (list Entry)) (h : nat) : bool :=
  existsb (fun en => match e_indices en with
                     | Some ib => Nat.eqb (ib_handle ib) h
                     | None => false
                     end) (default [] r).

Definition uses_material (r : option (list Entry)) (mi : MaterialInstance)
  : bool :=
  existsb (fun en => match e_material en with
                     | Some mi' => Nat.eqb mi' mi
                     | None => false
                     end) (default [] r).

Definition entry_live (e : Engine) (en : Entry) : bool :=
  match e_vertices en with Some vb => vertex_live e vb | None => true end
  && match e_indices en with Some ib => index_live e ib | None => true end
  && match e_material en with Some mi => material_live e mi | None => true end.

Definition engine_step (ev : Event) (e : Engine) : Engine :=
  match ev with
  | FenceWait | CallUserCallback _ _ _ => e
  | BuildVertexBuffer vb =>
      mkEngine (<[vb_handle vb := getVertexCount vb]> (live_vertex e))
               (live_index e) (live_material e) (scissor_of e) (component e)
               (legal e)
  | DestroyVertexBuffer vb =>
      mkEngine (delete (vb_handle vb) (live_vertex e))
               (live_index e) (live_material e) (scissor_of e) (component e)
               (legal e && vertex_live e vb
                && negb (uses_vertex (component e) (vb_handle vb)))
  | SetBufferAt vb nbytes =>
      mkEngine (live_vertex e) (live_index e) (live_material e)
               (scissor_of e) (component e)
               (legal e && vertex_live e vb
                && (nbytes <=? getVertexCount vb * sizeof_ImDrawVert))
  | BuildIndexBuffer ib =>
      mkEngine (live_vertex e)
               (<[ib_handle ib := getIndexCount ib]> (live_index e))
               (live_material e) (scissor_of e) (component e) (legal e)
  | DestroyIndexBuffer ib =>
      mkEngine (live_vertex e) (delete (ib_handle ib) (live_index e))
               (live_material e) (scissor_of e) (component e)
               (legal e && index_live e ib
                && negb (uses_index (component e) (ib_handle ib)))
  | SetBuffer ib nbytes =>
      mkEngine (live_vertex e) (live_index e) (live_material e)
               (scissor_of e) (component e)
               (legal e && index_live e ib
                && (nbytes <=? getIndexCount ib * sizeof_ImDrawIdx))
  | CreateInstance mi =>
      mkEngine (live_vertex e) (live_index e) ({[mi]} ∪ live_material e)
               (scissor_of e) (component e) (legal e)
  | SetScissor mi l b w h =>
      mkEngine (live_vertex e) (live_index e) (live_material e)
               (<[mi := (l, b, w, h)]> (scissor_of e))
               (component e) (legal e && material_live e mi)
  | DestroyRenderable =>
      mkEngine (live_vertex e) (live_index e) (live_material e)
               (scissor_of e) None (legal e)
  | BuildRenderable entries =>
      mkEngine (live_vertex e) (live_index e) (live_material e)
               (scissor_of e) (Some entries)
               (legal e && forallb (entry_live e) entries)
  end.

(** The engine after a trace (which is kept newest first). *)
Definition engine_of (tr : list Event) : Engine :=
  foldr engine_step new_engine tr.

(** *** The destructor

    The calls of [~ImguiFilamentBridge], in the order they are made;
    destroying [nullptr] does nothing.  The material and the atlas texture
    are not among the objects that [update] makes. *)
Inductive Teardown :=
| DestroyEntity
| DestroyMaterialInstance (mi : MaterialInstance)
| DestroyMaterial
| DestroyTexture
| DestroyVertex (vb : VertexBuffer)
| DestroyIndex (ib : IndexBuffer).

Definition destructor (st : State) : list Teardown :=
  [DestroyEntity]
  ++ omap (fun mi : option MaterialInstance => DestroyMaterialInstance <$> mi)
          (material_instances_ st)
  ++ [DestroyMaterial; DestroyTexture]
  ++ omap (fun vb : option VertexBuffer => DestroyVertex <$> vb)
          (vertex_buffers_ st)
  ++ omap (fun ib : option IndexBuffer => DestroyIndex <$> ib)
          (index_buffers_ st).

Definition teardown_step (e : Engine) (c : Teardown) : Engine :=
  match c with
  | DestroyEntity =>
      mkEngine (live_vertex e) (live_index e) (live_material e)
               (scissor_of e) None (legal e)
  | DestroyMaterialInstance mi =>
      mkEngine (live_vertex e) (live_index e) (live_material e ∖ {[mi]})
               (delete mi (scissor_of e)) (component e)
               (legal e && material_live e mi
                && negb (uses_material (component e) mi))
  | DestroyMaterial | DestroyTexture => e
  | DestroyVertex vb => engine_step (DestroyVertexBuffer vb) e
  | DestroyIndex ib => engine_step (DestroyIndexBuffer ib) e
  end.

(** The engine after the bridge was destroyed. *)
Definition engine_after (st : State) : Engine :=
  fold_left teardown_step (destructor st) (engine_of (trace st)).

(** The user callbacks that were invoked, newest first. *)
Definition callback_of (ev : Event) : option (ImDrawCallback * nat * nat) :=
  match ev with
  | CallUserCallback f cmdListIndex cmdIndex => Some (f, cmdListIndex, cmdIndex)
  | _ => None
  end.

Definition callbacks_called (st : State) : list (ImDrawCallback * nat * nat) :=
  omap callback_of (trace st).

(** The callbacks that the commands of a frame ask for, in frame order:
    callback, draw list and command. *)
Definition list_callbacks (i : nat) (pcmds : list ImDrawCmd)
  : list (ImDrawCallback * nat * nat) :=
  omap (fun jc => (fun f => (f, i, jc.1)) <$> UserCallback jc.2)
       (imap pair pcmds).

Definition frame_callbacks (lists : list ImDrawList)
  : list (ImDrawCallback * nat * nat) :=
  concat (imap (fun i cmds => list_callbacks i (CmdBuffer cmds)) lists).

(** The events of the buffer operations. *)
Definition buffer_event (ev : Event) : bool :=
  match ev with
  | FenceWait
  | DestroyVertexBuffer _ | BuildVertexBuffer _ | SetBufferAt _ _
  | DestroyIndexBuffer _ | BuildIndexBuffer _ | SetBuffer _ _ => true
  | _ => false
  end.

(** The handle and the count of a buffer. *)
Definition vertex_key (vb : VertexBuffer) : nat * Z :=
  (vb_handle vb, getVertexCount vb).

Definition index_key (ib : IndexBuffer) : nat * Z :=
  (ib_handle ib, getIndexCount ib).

(** The live buffers of one kind are those in the slots: each slot holds a
    buffer of its own, with a handle that the engine has issued. *)
Definition pool_inv (live : gmap nat Z) (slots : list (option (nat * Z)))
  (next : nat) : Prop :=
  (forall h c, live !! h = Some c <-> Some (h, c) ∈ slots)
  /\ (forall h c, Some (h, c) ∈ slots -> (h < next)%nat)
  /\ (forall i j h c c', slots !! i = Some (Some (h, c)) ->
        slots !! j = Some (Some (h, c')) -> i = j).

Definition vertex_slots (st : State) : list (option (nat * Z)) :=
  (fun slot : option VertexBuffer => vertex_key <$> slot)
  <$> vertex_buffers_ st.

Definition index_slots (st : State) : list (option (nat * Z)) :=
  (fun slot : option IndexBuffer => index_key <$> slot)
  <$> index_buffers_ st.

(** The engine holds what the bridge holds, and no call was illegal. *)
Record engine_inv (st : State) : Prop := mk_engine_inv {
  ei_legal : legal (engine_of (trace st)) = true;
  ei_vertex :
    pool_inv (live_vertex (engine_of (trace st)))
             (vertex_slots st) (next_handle st);
  ei_index :
    pool_inv (live_index (engine_of (trace st)))
             (index_slots st) (next_handle st);
  ei_material : forall mi,
    mi ∈ live_material (engine_of (trace st))
    <-> Some mi ∈ material_instances_ st;
  ei_component : component (engine_of (trace st)) = renderable_ st
}.

(** A step of the bridge that makes calls on buffers only. *)
Definition buffer_calls (st st' : State) : Prop :=
  (exists delta, trace st' = delta ++ trace st
                 /\ forallb buffer_event delta = true)
  /\ material_instances_ st' = material_instances_ st
  /\ renderable_ st' = renderable_ st.

(** The calls of the user callbacks that the draw lists from slot [b] on
    ask for, newest first. *)
Fixpoint lists_callback_trace (b : nat) (lists : list ImDrawList)
  : list Event :=
  match lists with
  | [] => []
  | cmds :: rest =>
      lists_callback_trace (S b) rest ++ callback_trace b (CmdBuffer cmds) 0
  end.

Definition other_event (ev : Event) : bool := negb (buffer_event ev).

(** The scissor rectangle that [update] reads back from a key. *)
Definition key_components (key : Z) : Z * Z * Z * Z :=
  (Z.land (Z.shiftr key 0) 65535, Z.land (Z.shiftr key 16) 65535,
   Z.land (Z.shiftr key 32) 65535, Z.land (Z.shiftr key 48) 65535).

(** The number of distinct scissor keys of a frame, and the largest number
    of draw lists and of distinct scissor keys among the frames of a
    sequence that are not skipped. *)
Definition key_count (io : ImGuiIO) (imguiData : ImDrawData) : nat :=
  length (remove_dups
            (frame_keys (fb_height io)
               (ScaleClipRects imguiData (DisplayFramebufferScale io)))).

Fixpoint most_lists (frames : list (ImGuiIO * ImDrawData)) : nat :=
  match frames with
  | [] => 0%nat
  | (io, imguiData) :: rest =>
      Nat.max (if zero_area io then 0%nat else length (CmdLists imguiData))
              (most_lists rest)
  end.

Fixpoint most_keys (frames : list (ImGuiIO * ImDrawData)) : nat :=
  match frames with
  | [] => 0%nat
  | (io, imguiData) :: rest =>
      Nat.max (if zero_area io then 0%nat else key_count io imguiData)
              (most_keys rest)
  end.

End Bridge.

(** * Properties *)

(** ** Machine integers *)

Lemma to_int_small (n : Z) : - 2 ^ 31 <= n < 2 ^ 31 -> to_int n = n.
Proof.
  intros Hn. unfold to_int.
  rewrite Z.mod_small by lia. lia.
Qed.

Lemma to_int_le (n : Z) : 0 <= n -> to_int n <= n.
Proof.
  intros Hn. unfold to_int.
  pose proof (Z.mod_le (n + 2 ^ 31) (2 ^ 32)) as Hle.
  lia.
Qed.

(** ** Combobox *)

Module ComboboxProperties.
Import Combobox.

Lemma items_size_le (c : Impl) : items_size c <= Z.of_nat (length (items_ c)).
Proof. unfold items_size. apply to_int_le. lia. Qed.

Lemma first_match_None (items : list string) (v : string) (i : nat) :
  ~ In v items -> first_match items v i = None.
Proof.
  revert i. induction items as [|item rest IH]; intros i Hin; simpl.
  - reflexivity.
  - destruct (String.eqb_spec item v) as [Heq|Hne].
    + exfalso. apply Hin. left. exact Heq.
    + apply IH. intros Hrest. apply Hin. right. exact Hrest.
Qed.

Lemma first_match_Some (items : list string) (v : string) (i k : nat) :
  first_match items v i = Some k ->
  (i <= k)%nat /\ items !! (k - i)%nat = Some v.
Proof.
  revert i. induction items as [|item rest IH]; intros i Hk; simpl in Hk.
  - discriminate.
  - destruct (String.eqb_spec item v) as [Heq|Hne].
    + inversion Hk; subst. split; [lia|].
      replace (k - k)%nat with 0%nat by lia. reflexivity.
    + apply IH in Hk as [Hle Hlook]. split; [lia|].
      replace (k - i)%nat with (S (k - S i)) by lia. exact Hlook.
Qed.

Lemma SetSelectedIndex_notified (c : Impl) (i : Z) :
  notified (SetSelectedIndex c i) = notified c.
Proof. unfold SetSelectedIndex. destruct (_ && _); reflexivity. Qed.

Lemma SetSelectedIndex_out_of_range (c : Impl) (i : Z) :
  i < 0 \/ Z.of_nat (length (items_ c)) <= i -> SetSelectedIndex c i = c.
Proof.
  intros Hout. unfold SetSelectedIndex.
  pose proof (items_size_le c) as Hle.
  destruct (Z.leb_spec 0 i); destruct (Z.ltb_spec i (items_size c));
    simpl; try reflexivity.
  lia.
Qed.

(** A draw pass in which an item is clicked does notify: the log is not
    idle. *)
Example Draw_notifies :
  let c := mkImpl "##combobox_1" ["low"; "high"]%string 0 (Some 3%nat) [] in
  let ui := mkInteraction false true (fun i => Nat.eqb i 1) in
  notified (fst (Draw c ui)) = [(3%nat, "high"%string, 1)]
  /\ current_index_ (fst (Draw c ui)) = 1.
Proof. vm_compute. split; reflexivity. Qed.

(** C8.  [SetSelectedIndex(i)] with [i] outside [0, itemCount) and
    [SetSelectedValue(v)] with [v] equal to no item leave the combobox, and
    so [GetSelectedIndex()], as they were; and neither setter invokes the
    value-changed callback, whatever its argument. *)
Theorem setters_ignore_and_stay_silent (c : Impl) (i : Z) (v : string) :
  (i < 0 \/ Z.of_nat (length (items_ c)) <= i ->
   SetSelectedIndex c i = c
   /\ GetSelectedIndex (SetSelectedIndex c i) = GetSelectedIndex c)
  /\ (~ In v (items_ c) ->
      SetSelectedValue c v = c
      /\ GetSelectedIndex (SetSelectedValue c v) = GetSelectedIndex c)
  /\ notified (SetSelectedIndex c i) = notified c
  /\ notified (SetSelectedValue c v) = notified c.
Proof.
  split; [|split; [|split]].
  - intros Hout. rewrite SetSelectedIndex_out_of_range by exact Hout.
    split; reflexivity.
  - intros Hin. unfold SetSelectedValue.
    rewrite first_match_None by exact Hin. split; reflexivity.
  - apply SetSelectedIndex_notified.
  - unfold SetSelectedValue.
    destruct (first_match (items_ c) v 0); [|reflexivity].
    apply SetSelectedIndex_notified.
Qed.

Lemma setters_ignore_and_stay_silent_witness :
  let c := mkImpl "##combobox_1" ["low"; "high"]%string 1 (Some 3%nat) [] in
  GetSelectedIndex (SetSelectedIndex c 2) = 1
  /\ GetSelectedIndex (SetSelectedIndex c (-1)) = 1
  /\ GetSelectedIndex (SetSelectedValue c "middle") = 1
  /\ notified (SetSelectedValue c "low") = [].
Proof.
  intros c.
  destruct (setters_ignore_and_stay_silent c 2 "middle") as (Hi & Hv & _ & _).
  destruct (setters_ignore_and_stay_silent c (-1) "low") as (Hj & _ & _ & Hn).
  split; [|split; [|split]].
  - apply Hi. right. vm_compute. discriminate.
  - apply Hj. left. reflexivity.
  - apply Hv. vm_compute. intros [H|[H|[]]]; discriminate H.
  - exact Hn.
Defined.

(** C10.  [GetSelectedValue()] never reads outside [items_]: it always
    returns a string, and the empty string whenever the selected index is
    outside [0, itemCount), as it is on an empty item list and after
    [ClearItems]. *)
Theorem GetSelectedValue_guarded (c : Impl) :
  is_Some (GetSelectedValue c)
  /\ (current_index_ c < 0 \/ Z.of_nat (length (items_ c)) <= current_index_ c ->
      GetSelectedValue c = Some ""%string)
  /\ (items_ c = [] -> GetSelectedValue c = Some ""%string)
  /\ GetSelectedValue (ClearItems c) = Some ""%string.
Proof.
  assert (Hout : current_index_ c < 0
                 \/ Z.of_nat (length (items_ c)) <= current_index_ c ->
                 GetSelectedValue c = Some ""%string).
  { intros Hout. unfold GetSelectedValue.
    pose proof (items_size_le c) as Hle.
    destruct (Z.leb_spec 0 (current_index_ c));
      destruct (Z.ltb_spec (current_index_ c) (items_size c));
      simpl; try reflexivity.
    lia. }
  split; [|split; [exact Hout|split]].
  - unfold GetSelectedValue.
    pose proof (items_size_le c) as Hle.
    destruct (Z.leb_spec 0 (current_index_ c));
      destruct (Z.ltb_spec (current_index_ c) (items_size c));
      simpl; eauto.
    apply lookup_lt_is_Some. lia.
  - intros Hnil. apply Hout. rewrite Hnil. simpl. lia.
  - reflexivity.
Qed.

Lemma GetSelectedValue_guarded_witness :
  let c := mkImpl "##combobox_1" ["low"; "high"]%string 2 None [] in
  GetSelectedValue c = Some ""%string
  /\ GetSelectedValue (mkImpl "##combobox_2" [] 0 None []) = Some ""%string.
Proof.
  intros c.
  destruct (GetSelectedValue_guarded c) as (_ & Hout & _ & _).
  destruct (GetSelectedValue_guarded (mkImpl "##combobox_2" [] 0 None []))
    as (_ & _ & Hnil & _).
  split.
  - apply Hout. right. vm_compute. discriminate.
  - apply Hnil. reflexivity.
Defined.

Lemma items_size_small (c : Impl) :
  Z.of_nat (length (items_ c)) < 2 ^ 31 ->
  items_size c = Z.of_nat (length (items_ c)).
Proof. intros H. unfold items_size. apply to_int_small. lia. Qed.

(** Inside the range the index is stored. *)
Lemma SetSelectedIndex_inside (c : Impl) (i : Z) :
  Z.of_nat (length (items_ c)) < 2 ^ 31 ->
  0 <= i < Z.of_nat (length (items_ c)) ->
  SetSelectedIndex c i = set_current_index c i.
Proof.
  intros Hsmall Hi. unfold SetSelectedIndex.
  rewrite items_size_small by exact Hsmall.
  destruct (Z.leb_spec 0 i); [|lia].
  destruct (Z.ltb_spec i (Z.of_nat (length (items_ c)))); [|lia].
  reflexivity.
Qed.

Lemma GetSelectedValue_inside (c : Impl) :
  Z.of_nat (length (items_ c)) < 2 ^ 31 ->
  0 <= current_index_ c < Z.of_nat (length (items_ c)) ->
  GetSelectedValue c = items_ c !! Z.to_nat (current_index_ c).
Proof.
  intros Hsmall Hi. unfold GetSelectedValue.
  rewrite items_size_small by exact Hsmall.
  destruct (Z.leb_spec 0 (current_index_ c)); [|lia].
  destruct (Z.ltb_spec (current_index_ c) (Z.of_nat (length (items_ c))));
    [|lia].
  reflexivity.
Qed.

(** X1.  [SetSelectedIndex(i)] with [i] inside [0, itemCount) selects: the
    index read back is [i], the value read back is item [i], and the items
    and the callback log are as before. *)
Theorem SetSelectedIndex_selects (c : Impl) (i : Z) :
  Z.of_nat (length (items_ c)) < 2 ^ 31 ->
  0 <= i < Z.of_nat (length (items_ c)) ->
  GetSelectedIndex (SetSelectedIndex c i) = i
  /\ GetSelectedValue (SetSelectedIndex c i) = GetItem c i
  /\ is_Some (GetItem c i)
  /\ items_ (SetSelectedIndex c i) = items_ c
  /\ notified (SetSelectedIndex c i) = notified c.
Proof.
  intros Hsmall Hi. rewrite SetSelectedIndex_inside by assumption.
  unfold GetSelectedIndex, GetItem. cbn [set_current_index current_index_
                                         items_ notified].
  rewrite GetSelectedValue_inside by (simpl; assumption). simpl.
  destruct (Z.ltb_spec i 0); [lia|].
  split_and!; auto. apply lookup_lt_is_Some. lia.
Qed.

Lemma SetSelectedIndex_selects_witness :
  let c := mkImpl "##combobox_1" ["low"; "high"]%string 0 None [] in
  GetSelectedIndex (SetSelectedIndex c 1) = 1
  /\ GetSelectedValue (SetSelectedIndex c 1) = Some "high"%string.
Proof.
  intros c.
  destruct (SetSelectedIndex_selects c 1) as (H1 & H2 & _);
    [vm_compute; reflexivity|vm_compute; split; [discriminate|reflexivity]|].
  split; [exact H1|]. rewrite H2. reflexivity.
Defined.

Lemma first_match_least (items : list string) (v : string) (i k : nat) :
  first_match items v i = Some k ->
  forall j, (j < k - i)%nat -> items !! j <> Some v.
Proof.
  revert i. induction items as [|item rest IH]; intros i Hk j Hj; simpl in Hk.
  - discriminate.
  - destruct (String.eqb_spec item v) as [Heq|Hne].
    + inversion Hk; subst. lia.
    + pose proof (first_match_Some _ _ _ _ Hk) as [Hle _].
      destruct j as [|j]; simpl.
      * congruence.
      * apply (IH (S i) Hk). lia.
Qed.

Lemma first_match_is_Some (items : list string) (v : string) (i : nat) :
  In v items -> is_Some (first_match items v i).
Proof.
  revert i. induction items as [|item rest IH]; intros i Hin; simpl.
  - destruct Hin.
  - destruct (String.eqb_spec item v) as [Heq|Hne]; [eauto|].
    apply IH. destruct Hin; [congruence|assumption].
Qed.

(** X2.  [SetSelectedValue(v)] with [v] among the items selects the first
    item equal to [v]: the index read back is the least position holding
    [v] and the value read back is [v]. *)
Theorem SetSelectedValue_selects_first (c : Impl) (v : string) :
  Z.of_nat (length (items_ c)) < 2 ^ 31 ->
  In v (items_ c) ->
  exists k : nat,
    GetSelectedIndex (SetSelectedValue c v) = Z.of_nat k
    /\ items_ c !! k = Some v
    /\ (forall j, (j < k)%nat -> items_ c !! j <> Some v)
    /\ GetSelectedValue (SetSelectedValue c v) = Some v
    /\ items_ (SetSelectedValue c v) = items_ c.
Proof.
  intros Hsmall Hin.
  destruct (first_match_is_Some (items_ c) v 0 Hin) as [k Hk].
  pose proof (first_match_Some _ _ _ _ Hk) as [_ Hlook].
  pose proof (first_match_least _ _ _ _ Hk) as Hleast.
  rewrite Nat.sub_0_r in Hlook, Hleast.
  pose proof (lookup_lt_Some _ _ _ Hlook) as Hlt.
  exists k. unfold SetSelectedValue. rewrite Hk.
  rewrite to_int_small by lia.
  rewrite SetSelectedIndex_inside by (assumption || lia).
  split_and!; auto.
  rewrite GetSelectedValue_inside by (simpl; (assumption || lia)).
  simpl. rewrite Nat2Z.id. exact Hlook.
Qed.

Lemma SetSelectedValue_selects_first_witness :
  let c := mkImpl "##combobox_1" ["a"; "b"; "a"; "b"]%string 0 None [] in
  GetSelectedIndex (SetSelectedValue c "b") = 1.
Proof.
  intros c.
  destruct (SetSelectedValue_selects_first c "b") as (k & Hk & Hlook & Hleast & _);
    [vm_compute; reflexivity|right; left; reflexivity|].
  rewrite Hk. destruct k as [|[|k]].
  - vm_compute in Hlook. discriminate.
  - reflexivity.
  - exfalso. apply (Hleast 1%nat); [lia|reflexivity].
Defined.


(** X3.  [AddItem] appends: the new item is read back at the old item
    count, the items before it and the selected index are as they were, and
    [GetItem] has an item exactly at the positions below the count.  So the
    first item added to a combobox without items, whose selected index is 0,
    is at once the selected value. *)
Theorem AddItem_appends (c : Impl) (name : string) :
  GetItem (AddItem c name) (Z.of_nat (length (items_ c))) = Some name
  /\ (forall i, 0 <= i < Z.of_nat (length (items_ c)) ->
        GetItem (AddItem c name) i = GetItem c i)
  /\ (forall i, is_Some (GetItem c i)
                <-> 0 <= i < Z.of_nat (length (items_ c)))
  /\ length (items_ (AddItem c name)) = S (length (items_ c))
  /\ GetSelectedIndex (AddItem c name) = GetSelectedIndex c
  /\ notified (AddItem c name) = notified c
  /\ (items_ c = [] -> current_index_ c = 0 ->
      GetSelectedValue (AddItem c name) = Some name)
  /\ GetSelectedValue (AddItem (ClearItems c) name) = Some name.
Proof.
  split_and!.
  - unfold GetItem, AddItem. simpl.
    destruct (Z.ltb_spec (Z.of_nat (length (items_ c))) 0); [lia|].
    rewrite Nat2Z.id. apply list_lookup_middle. reflexivity.
  - intros i Hi. unfold GetItem, AddItem. simpl.
    destruct (Z.ltb_spec i 0); [reflexivity|].
    apply lookup_app_l. lia.
  - intros i. unfold GetItem. destruct (Z.ltb_spec i 0) as [Hneg|Hpos].
    + split; [intros [x Hx]; discriminate|lia].
    + rewrite lookup_lt_is_Some. lia.
  - unfold AddItem. simpl. rewrite length_app. simpl. lia.
  - reflexivity.
  - reflexivity.
  - intros Hnil H0. unfold GetSelectedValue, AddItem, items_size. simpl.
    rewrite Hnil, H0. reflexivity.
  - reflexivity.
Qed.


Lemma AddItem_appends_witness :
  let c := mkImpl "##combobox_1" ["low"]%string 0 None [] in
  GetItem (AddItem c "high") 0 = Some "low"%string
  /\ is_Some (GetItem c 0)
  /\ GetSelectedValue (AddItem (mkImpl "##combobox_2" [] 0 None []) "x")
     = Some "x"%string.
Proof.
  intros c.
  destruct (AddItem_appends c "high") as (_ & Hold & Hsome & _).
  destruct (AddItem_appends (mkImpl "##combobox_2" [] 0 None []) "x")
    as (_ & _ & _ & _ & _ & _ & Hfirst & _).
  split_and!.
  - rewrite Hold; [reflexivity|]. vm_compute. split; [discriminate|reflexivity].
  - apply Hsome. vm_compute. split; [discriminate|reflexivity].
  - apply Hfirst; reflexivity.
Defined.

Lemma clicked_cons (ui : Interaction) (i n : nat) :
  clicked ui i (S n)
  = (if selectable ui i then [i] else []) ++ clicked ui (S i) n.
Proof. unfold clicked. simpl. destruct (selectable ui i); reflexivity. Qed.

(** The loop of [Draw] from item [i] on. *)
Lemma draw_items_spec (ui : Interaction) (rest : list string) :
  forall (i : nat) (c : Impl) (changed : bool),
    drop i (items_ c) = rest ->
    Z.of_nat (length (items_ c)) < 2 ^ 31 ->
    let clicks := clicked ui i (length rest) in
    let '(c', changed') := draw_items ui rest i (c, changed) in
    imgui_id_ c' = imgui_id_ c
    /\ items_ c' = items_ c
    /\ on_value_changed_ c' = on_value_changed_ c
    /\ current_index_ c'
       = default (current_index_ c) (Z.of_nat <$> last clicks)
    /\ notified c'
       = click_log (on_value_changed_ c) (items_ c) clicks ++ notified c
    /\ changed' = changed || negb (bool_decide (clicks = [])).
Proof.
  induction rest as [|item rest IH]; intros i c changed Hdrop Hsmall.
  - simpl. unfold click_log. destruct (on_value_changed_ c); simpl;
      rewrite orb_false_r; auto 10.
  - cbn zeta. cbn [draw_items length]. rewrite clicked_cons.
    assert (Hi : items_ c !! i = Some item).
    { rewrite <- (Nat.add_0_r i), <- lookup_drop, Hdrop. reflexivity. }
    pose proof (lookup_lt_Some _ _ _ Hi) as Hlt.
    assert (Hdrop' : drop (S i) (items_ c) = rest).
    { replace (S i) with (i + 1)%nat by lia.
      rewrite <- drop_drop, Hdrop. reflexivity. }
    destruct (selectable ui i) eqn:Hsel.
    + set (c1 := set_current_index c (to_int (Z.of_nat i))).
      set (c2 := match on_value_changed_ c1 with
                 | Some f => _ | None => c1 end).
      assert (H2 : imgui_id_ c2 = imgui_id_ c /\ items_ c2 = items_ c
                   /\ on_value_changed_ c2 = on_value_changed_ c
                   /\ current_index_ c2 = Z.of_nat i
                   /\ notified c2
                      = click_log (on_value_changed_ c) (items_ c) [i]
                        ++ notified c).
      { subst c2 c1. unfold set_current_index. simpl.
        rewrite to_int_small by lia.
        unfold click_log, GetSelectedValue, items_size. simpl.
        rewrite (to_int_small (Z.of_nat (length (items_ c)))) by lia.
        destruct (Z.leb_spec 0 (Z.of_nat i)); [|lia].
        destruct (Z.ltb_spec (Z.of_nat i) (Z.of_nat (length (items_ c))));
          [|lia].
        simpl. rewrite Nat2Z.id.
        destruct (on_value_changed_ c); simpl; auto 10. }
      destruct H2 as (Hid & Hit & Hcb & Hcur & Hlog).
      specialize (IH (S i) c2 true).
      rewrite Hit in IH. specialize (IH Hdrop' Hsmall). cbn zeta in IH.
      destruct (draw_items ui rest (S i) (c2, true)) as [c' changed'].
      destruct IH as (Hid' & Hit' & Hcb' & Hcur' & Hlog' & Hch').
      rewrite Hid', Hit', Hcb', Hcur', Hlog', Hch', Hid, Hcb, Hcur, Hlog.
      split_and!; auto.
      * simpl app. rewrite last_cons.
        destruct (last (clicked ui (S i) (length rest))); reflexivity.
      * unfold click_log. destruct (on_value_changed_ c); [|reflexivity].
        simpl. rewrite <- !app_assoc. reflexivity.
      * simpl. rewrite orb_true_r. reflexivity.
    + specialize (IH (S i) c changed Hdrop' Hsmall). cbn zeta in IH.
      destruct (draw_items ui rest (S i) (c, changed)) as [c' changed'].
      exact IH.
Qed.


(** X4.  One [Draw] pass.  When [BeginCombo] returns false the combobox is
    left as it was and the result is [NONE].  When it returns true, every
    item for which [Selectable] returns true is selected in turn: the
    selected index afterwards is that of the last such item (the old index
    when there is none), and the callback, when one is set, is invoked once
    for each such item, in item order, with the text and the index of the
    item; the result is [REDRAW] exactly if an item was clicked or the popup
    was not open before.  Identifier, items and callback are never
    changed. *)
Theorem Draw_selects_clicked (c : Impl) (ui : Interaction) :
  Z.of_nat (length (items_ c)) < 2 ^ 31 ->
  let clicks := clicked ui 0 (length (items_ c)) in
  let c' := fst (Draw c ui) in
  imgui_id_ c' = imgui_id_ c
  /\ items_ c' = items_ c
  /\ on_value_changed_ c' = on_value_changed_ c
  /\ (begin_combo ui = false -> Draw c ui = (c, NONE))
  /\ (begin_combo ui = true ->
      current_index_ c'
      = default (current_index_ c) (Z.of_nat <$> last clicks)
      /\ notified c'
         = click_log (on_value_changed_ c) (items_ c) clicks ++ notified c
      /\ (snd (Draw c ui) = REDRAW <-> clicks <> [] \/ was_open ui = false)).
Proof.
  intros Hsmall clicks c'. subst c'. unfold Draw.
  destruct (begin_combo ui) eqn:Hb.
  - pose proof (draw_items_spec ui (items_ c) 0 c false eq_refl Hsmall) as H.
    cbn zeta in H. fold clicks in H.
    destruct (draw_items ui (items_ c) 0 (c, false)) as [c1 changed].
    destruct H as (Hid & Hit & Hcb & Hcur & Hlog & Hch). simpl.
    split_and!; auto; [discriminate|]. intros _. split_and!; auto.
    subst changed. simpl.
    destruct (bool_decide_reflect (clicks = [])) as [He|Hne];
      destruct (was_open ui); simpl; split; auto;
      try (intros [H|H]; congruence); try discriminate.
  - simpl. split_and!; auto. discriminate.
Qed.

Lemma Draw_selects_clicked_witness :
  let c := mkImpl "##combobox_1" ["low"; "mid"; "high"]%string 0
                  (Some 3%nat) [] in
  let ui := mkInteraction true true (fun i => Nat.ltb 0 i) in
  current_index_ (fst (Draw c ui)) = 2
  /\ notified (fst (Draw c ui))
     = [(3%nat, "high"%string, 2); (3%nat, "mid"%string, 1)]
  /\ snd (Draw c ui) = REDRAW
  /\ Draw c (mkInteraction true false (fun _ => true)) = (c, NONE).
Proof.
  intros c ui.
  destruct (Draw_selects_clicked c ui) as (_ & _ & _ & _ & Hopen);
    [vm_compute; reflexivity|].
  destruct (Draw_selects_clicked c (mkInteraction true false (fun _ => true)))
    as (_ & _ & _ & Hclosed & _); [vm_compute; reflexivity|].
  destruct (Hopen eq_refl) as (Hcur & Hlog & Hres).
  split_and!.
  - rewrite Hcur. reflexivity.
  - rewrite Hlog. reflexivity.
  - apply Hres. left. vm_compute. discriminate.
  - apply Hclosed. reflexivity.
Defined.

Lemma fold_AddItem (items : list string) (c : Impl) :
  fold_left AddItem items c
  = mkImpl (imgui_id_ c) (items_ c ++ items) (current_index_ c)
           (on_value_changed_ c) (notified c).
Proof.
  revert c. induction items as [|item rest IH]; intros c; simpl.
  - rewrite app_nil_r. destruct c; reflexivity.
  - rewrite IH. simpl. rewrite <- app_assoc. reflexivity.
Qed.

Lemma construct_ids (itemss : list (list string)) :
  forall g, 0 <= g -> g + Z.of_nat (length itemss) < 2 ^ 31 ->
    imgui_id_ <$> construct itemss g
    = (fun k => "##combobox_" +:+ pretty (g + Z.of_nat k))
      <$> seq 0 (length itemss).
Proof.
  induction itemss as [|items rest IH]; intros g Hg Hmax; [reflexivity|].
  cbn [construct Combobox_of Combobox_new]. cbn [length] in *.
  rewrite fmap_cons, fold_AddItem. cbn [imgui_id_ seq fmap list_fmap].
  rewrite Z.add_0_r. f_equal.
  rewrite to_int_small by lia. rewrite IH by lia.
  rewrite <- (fmap_S_seq 0), <- list_fmap_compose.
  apply list_fmap_ext. intros _ k _. simpl. f_equal. f_equal. lia.
Qed.

(** X5.  The constructors.  A combobox made from a list of items holds
    these items in order, has the selected index 0, no callback and an
    empty callback log; so its selected value is the first item, or the
    empty string when there is none.  Comboboxes constructed one after the
    other, with the counter within the range of [int], have pairwise
    different ImGui identifiers. *)
Theorem constructors_distinct_ids (itemss : list (list string)) (g : Z) :
  0 <= g -> g + Z.of_nat (length itemss) < 2 ^ 31 ->
  NoDup (imgui_id_ <$> construct itemss g)
  /\ (forall k c, construct itemss g !! k = Some c ->
        imgui_id_ c = "##combobox_" +:+ pretty (g + Z.of_nat k)
        /\ itemss !! k = Some (items_ c)
        /\ GetSelectedIndex c = 0
        /\ on_value_changed_ c = None
        /\ notified c = []
        /\ (Z.of_nat (length (items_ c)) < 2 ^ 31 ->
            GetSelectedValue c = Some (default ""%string (head (items_ c))))).
Proof.
  intros Hg Hmax. split.
  - rewrite construct_ids by assumption.
    apply NoDup_fmap_2; [|apply NoDup_seq].
    intros j k Hjk. apply (inj (String.app _)) in Hjk.
    apply (inj pretty) in Hjk. lia.
  - revert g Hg Hmax. induction itemss as [|items rest IH];
      intros g Hg Hmax k c Hk; [destruct k; discriminate|].
    cbn [construct Combobox_of Combobox_new] in Hk. cbn [length] in Hmax.
    destruct k as [|k].
    + simpl in Hk. inversion Hk; subst c. rewrite fold_AddItem. simpl.
      rewrite Z.add_0_r. split_and!; auto.
      intros Hsmall. unfold GetSelectedValue, items_size. simpl.
      rewrite to_int_small by lia.
      destruct items as [|item items]; reflexivity.
    + simpl in Hk. rewrite to_int_small in Hk by lia.
      destruct (IH (g + 1) ltac:(lia) ltac:(lia) k c Hk)
        as (Hid & Hrest). rewrite Hid. split; [|exact Hrest].
      f_equal. f_equal. lia.
Qed.

Lemma constructors_distinct_ids_witness :
  (imgui_id_ <$> construct [["low"; "high"]; []]%string 1)
  = ["##combobox_1"; "##combobox_2"]%string
  /\ NoDup (imgui_id_ <$> construct [["low"; "high"]; []]%string 1)
  /\ GetSelectedValue (fst (Combobox_of ["low"; "high"]%string 1))
     = Some "low"%string.
Proof.
  destruct (constructors_distinct_ids [["low"; "high"]; []]%string 1)
    as (Hnd & Hall); [lia|vm_compute; reflexivity|].
  split_and!; [reflexivity|exact Hnd|].
  destruct (Hall 0%nat (fst (Combobox_of ["low"; "high"]%string 1)) eq_refl)
    as (_ & _ & _ & _ & _ & Hval).
  rewrite Hval; [reflexivity|vm_compute; reflexivity].
Defined.

End ComboboxProperties.

(** ** Menu *)

Module MenuProperties.
Import Menu.

Lemma FindMenuItem_unfold (fuel : nat) (s : Menus) (this : MenuPtr)
  (itemId : ItemId) :
  FindMenuItem (S fuel) s this itemId
  = match s !! this with
    | None => None
    | Some impl =>
        match id2idx_ impl !! itemId with
        | Some idx =>
            match items_ impl !! idx with
            | Some _ => Some (Some (this, idx))
            | None => None
            end
        | None => in_submenus fuel s itemId (items_ impl)
        end
    end.
Proof.
  simpl. destruct (s !! this) as [impl|]; [|reflexivity].
  destruct (id2idx_ impl !! itemId); [reflexivity|].
  induction (items_ impl) as [|item rest IH]; [reflexivity|].
  simpl. rewrite IH. reflexivity.
Qed.

(** What the loop returns. *)
Lemma in_submenus_Some (fuel : nat) (s : Menus) (itemId : ItemId)
  (items : list MenuItem) (p : ItemPtr) :
  in_submenus fuel s itemId items = Some (Some p) ->
  exists i item sub,
    items !! i = Some item /\ submenu_ item = Some sub
    /\ FindMenuItem fuel s sub itemId = Some (Some p).
Proof.
  induction items as [|item rest IH]; [discriminate|].
  simpl. intros H.
  destruct (submenu_ item) as [sub|] eqn:Hsub.
  - destruct (FindMenuItem fuel s sub itemId) as [[q|]|] eqn:Hq;
      [| |discriminate].
    + inversion H; subst q. exists 0%nat, item, sub. auto.
    + destruct (IH H) as (i & it & sb & Hi & Hs & Hf).
      exists (S i), it, sb. auto.
  - destruct (IH H) as (i & it & sb & Hi & Hs & Hf).
    exists (S i), it, sb. auto.
Qed.

Lemma in_submenus_None (fuel : nat) (s : Menus) (itemId : ItemId)
  (items : list MenuItem) :
  in_submenus fuel s itemId items = Some None <->
  forall i item sub,
    items !! i = Some item -> submenu_ item = Some sub ->
    FindMenuItem fuel s sub itemId = Some None.
Proof.
  induction items as [|item rest IH]; simpl.
  - split; [intros _ i item sub Hi; destruct i; discriminate|reflexivity].
  - split.
    + intros H i it sb Hi Hs.
      destruct (submenu_ item) as [sub|] eqn:Hsub.
      * destruct (FindMenuItem fuel s sub itemId) as [[q|]|] eqn:Hq;
          try discriminate.
        destruct i as [|i]; simpl in Hi.
        -- inversion Hi; subst it. congruence.
        -- apply (proj1 IH H i it sb Hi Hs).
      * destruct i as [|i]; simpl in Hi.
        -- inversion Hi; subst it. congruence.
        -- apply (proj1 IH H i it sb Hi Hs).
    + intros H.
      assert (Hrest : in_submenus fuel s itemId rest = Some None).
      { apply IH. intros i it sb Hi Hs. apply (H (S i) it sb Hi Hs). }
      destruct (submenu_ item) as [sub|] eqn:Hsub; [|exact Hrest].
      rewrite (H 0%nat item sub eq_refl Hsub). exact Hrest.
Qed.

(** More fuel changes no result. *)
Lemma FindMenuItem_more (s : Menus) (itemId : ItemId) :
  forall (fuel fuel' : nat) (this : MenuPtr) r,
    FindMenuItem fuel s this itemId = Some r -> (fuel <= fuel')%nat ->
    FindMenuItem fuel' s this itemId = Some r.
Proof.
  induction fuel as [|fuel IH]; intros fuel' this r H Hle; [discriminate|].
  destruct fuel' as [|fuel']; [lia|].
  rewrite FindMenuItem_unfold in H. rewrite FindMenuItem_unfold.
  destruct (s !! this) as [impl|]; [|discriminate].
  destruct (id2idx_ impl !! itemId) as [idx|]; [exact H|].
  revert H. induction (items_ impl) as [|item rest IHi]; [auto|].
  simpl. destruct (submenu_ item) as [sub|]; [|exact IHi].
  destruct (FindMenuItem fuel s sub itemId) as [q|] eqn:Hq; [|discriminate].
  rewrite (IH fuel' sub q Hq) by lia.
  destruct q; [auto|exact IHi].
Qed.

(** The search returns, in a menu that is not below itself. *)
Lemma FindMenuItem_returns (rank : MenuPtr -> nat) (s : Menus)
  (itemId : ItemId) :
  ranked rank s ->
  (forall this impl, s !! this = Some impl -> indexed impl) ->
  forall (fuel : nat) (this : MenuPtr),
    (this < length s)%nat -> (rank this < fuel)%nat ->
    is_Some (FindMenuItem fuel s this itemId).
Proof.
  intros Hrank Hidx. induction fuel as [|fuel IH]; intros this Hthis Hlt;
    [lia|].
  rewrite FindMenuItem_unfold.
  destruct (s !! this) as [impl|] eqn:Himpl;
    [|apply lookup_ge_None in Himpl; lia].
  destruct (id2idx_ impl !! itemId) as [idx|] eqn:Hi.
  - destruct (index_sound impl (Hidx this impl Himpl) itemId idx Hi)
      as (item & Hitem & _).
    rewrite Hitem. eauto.
  - assert (Hsub : forall i item sub,
              items_ impl !! i = Some item -> submenu_ item = Some sub ->
              is_Some (FindMenuItem fuel s sub itemId)).
    { intros i item sub Hit Hs.
      destruct (Hrank this impl i item sub Himpl Hit Hs) as [Hin Hr].
      apply IH; [exact Hin|lia]. }
    clear Hi Himpl. revert Hsub.
    induction (items_ impl) as [|item rest IHi]; intros Hsub; [simpl; eauto|].
    simpl.
    assert (Hrest : is_Some (in_submenus fuel s itemId rest)).
    { apply IHi. intros i it sb Hit Hs. apply (Hsub (S i) it sb Hit Hs). }
    destruct (submenu_ item) as [sub|] eqn:Hs; [|exact Hrest].
    destruct (Hsub 0%nat item sub eq_refl Hs) as [[q|] Hq]; rewrite Hq;
      eauto.
Qed.

(** What is found is an entry of the index of a menu below [this]. *)
Lemma FindMenuItem_sound (s : Menus) (itemId : ItemId) :
  forall (fuel : nat) (this : MenuPtr) (p : ItemPtr),
    FindMenuItem fuel s this itemId = Some (Some p) ->
    exists path impl,
      menu_at s this path = Some p.1 /\ s !! p.1 = Some impl
      /\ id2idx_ impl !! itemId = Some p.2
      /\ is_Some (items_ impl !! p.2).
Proof.
  induction fuel as [|fuel IH]; intros this p H; [discriminate|].
  rewrite FindMenuItem_unfold in H.
  destruct (s !! this) as [impl|] eqn:Himpl; [|discriminate].
  destruct (id2idx_ impl !! itemId) as [idx|] eqn:Hi.
  - destruct (items_ impl !! idx) as [item|] eqn:Hit; [|discriminate].
    inversion H; subst p. exists [], impl. simpl. rewrite Hit. eauto.
  - apply in_submenus_Some in H as (i & item & sub & Hit & Hs & Hf).
    destruct (IH sub p Hf) as (path & impl' & Hpath & Himpl' & Hidx & Hsome).
    exists (i :: path), impl'. split; [|auto].
    simpl. unfold item_at. simpl. rewrite Himpl, Hit, Hs. exact Hpath.
Qed.

(** When nothing is found, no index below [this] has the identifier. *)
Lemma FindMenuItem_complete (s : Menus) (itemId : ItemId) :
  forall (fuel : nat) (this : MenuPtr),
    FindMenuItem fuel s this itemId = Some None ->
    forall path a impl,
      menu_at s this path = Some a -> s !! a = Some impl ->
      id2idx_ impl !! itemId = None.
Proof.
  induction fuel as [|fuel IH]; intros this H path a impl Hpath Ha;
    [discriminate|].
  rewrite FindMenuItem_unfold in H.
  destruct (s !! this) as [impl0|] eqn:Himpl; [|discriminate].
  destruct (id2idx_ impl0 !! itemId) as [idx|] eqn:Hi.
  - destruct (items_ impl0 !! idx); discriminate.
  - destruct path as [|i path]; simpl in Hpath.
    + inversion Hpath; subst a. congruence.
    + unfold item_at in Hpath. simpl in Hpath. rewrite Himpl in Hpath.
      destruct (items_ impl0 !! i) as [item|] eqn:Hit; [|discriminate].
      destruct (submenu_ item) as [sub|] eqn:Hs; [|discriminate].
      apply (IH sub (proj1 (in_submenus_None _ _ _ _) H i item sub Hit Hs)
                path a impl Hpath Ha).
Qed.

(** The search reads of the menus only what [seen] tells. *)
Lemma in_submenus_ext (fuel : nat) (s s' : Menus) (itemId : ItemId) :
  forall items items' : list MenuItem,
    omap submenu_ items = omap submenu_ items' ->
    (forall sub, sub ∈ omap submenu_ items ->
       FindMenuItem fuel s sub itemId = FindMenuItem fuel s' sub itemId) ->
    in_submenus fuel s itemId items = in_submenus fuel s' itemId items'.
Proof.
  induction items as [|item rest IH].
  - induction items' as [|item' rest' IH']; intros Heq Hsub; [reflexivity|].
    simpl in *. destruct (submenu_ item'); [discriminate|]. auto.
  - intros items' Heq Hsub. simpl in Heq, Hsub. simpl.
    destruct (submenu_ item) as [sub|] eqn:Hs; [|apply IH; assumption].
    induction items' as [|item' rest' IH']; [discriminate|].
    simpl in Heq. simpl.
    destruct (submenu_ item') as [sub'|] eqn:Hs'; [|apply IH'; assumption].
    inversion Heq; subst sub'.
    rewrite <- (Hsub sub) by left.
    rewrite (IH rest'); [reflexivity|assumption|].
    intros x Hx. apply Hsub. right. exact Hx.
Qed.

Lemma FindMenuItem_seen_on (P : MenuPtr -> Prop) (s s' : Menus)
  (itemId : ItemId) :
  (forall a, P a -> seen itemId <$> s !! a = seen itemId <$> s' !! a) ->
  (forall a impl sub,
     P a -> s !! a = Some impl -> sub ∈ omap submenu_ (items_ impl) ->
     P sub) ->
  forall (fuel : nat) (this : MenuPtr),
    P this ->
    FindMenuItem fuel s this itemId = FindMenuItem fuel s' this itemId.
Proof.
  intros Hseen Hclosed. induction fuel as [|fuel IH]; intros this Hthis;
    [reflexivity|].
  rewrite !FindMenuItem_unfold. specialize (Hseen this Hthis).
  destruct (s !! this) as [impl|] eqn:Himpl;
    destruct (s' !! this) as [impl'|]; try discriminate; [|reflexivity].
  simpl in Hseen. unfold seen in Hseen.
  apply (inj Some) in Hseen. inversion Hseen as [[Hidx Hsubs]].
  destruct (id2idx_ impl !! itemId) as [idx|];
    destruct (id2idx_ impl' !! itemId) as [idx'|]; try discriminate.
  - simpl in Hidx.
    destruct (items_ impl !! idx); destruct (items_ impl' !! idx');
      congruence.
  - apply in_submenus_ext; [exact Hsubs|].
    intros sub Hsub. apply IH. apply (Hclosed this impl sub Hthis Himpl Hsub).
Qed.

Lemma FindMenuItem_seen (s s' : Menus) (itemId : ItemId) :
  (forall a, seen itemId <$> s !! a = seen itemId <$> s' !! a) ->
  forall (fuel : nat) (this : MenuPtr),
    FindMenuItem fuel s this itemId = FindMenuItem fuel s' this itemId.
Proof.
  intros Hseen fuel this.
  apply (FindMenuItem_seen_on (fun _ => True)); auto.
Qed.

(** Writing through an item pointer. *)
Lemma write_at_length (f : MenuItem -> MenuItem) (p : ItemPtr) (s : Menus) :
  length (write_at f p s) = length s.
Proof. apply length_alter. Qed.

Lemma write_at_lookup (f : MenuItem -> MenuItem) (p : ItemPtr) (s : Menus)
  (a : MenuPtr) :
  write_at f p s !! a
  = if decide (p.1 = a)
    then (fun impl => mkImpl (alter f p.2 (items_ impl)) (id2idx_ impl))
           <$> s !! a
    else s !! a.
Proof.
  unfold write_at. rewrite list_lookup_alter.
  destruct (decide (p.1 = a)) as [->|]; reflexivity.
Qed.

Lemma item_at_write_at (f : MenuItem -> MenuItem) (p : ItemPtr) (s : Menus) :
  item_at (write_at f p s) p = f <$> item_at s p.
Proof.
  unfold item_at. rewrite write_at_lookup, decide_True by reflexivity.
  destruct (s !! p.1) as [impl|]; [|reflexivity].
  simpl. apply list_lookup_alter_eq.
Qed.

Lemma item_at_write_at_ne (f : MenuItem -> MenuItem) (p q : ItemPtr)
  (s : Menus) :
  q <> p -> item_at (write_at f p s) q = item_at s q.
Proof.
  intros Hne. unfold item_at. rewrite write_at_lookup.
  destruct (decide (p.1 = q.1)) as [He|]; [|reflexivity].
  destruct (s !! q.1) as [impl|]; [|reflexivity].
  simpl. apply list_lookup_alter_ne. intros Hi. apply Hne.
  destruct p, q; simpl in *; congruence.
Qed.

Lemma omap_submenu_alter (f : MenuItem -> MenuItem) (items : list MenuItem) :
  (forall item, submenu_ (f item) = submenu_ item) ->
  forall i, omap submenu_ (alter f i items) = omap submenu_ items.
Proof.
  intros Hf. induction items as [|item rest IH]; intros [|i]; csimpl;
    try reflexivity.
  - rewrite Hf. reflexivity.
  - rewrite IH. reflexivity.
Qed.

Lemma write_at_seen (f : MenuItem -> MenuItem) (p : ItemPtr) (s : Menus)
  (itemId : ItemId) (a : MenuPtr) :
  (forall item, submenu_ (f item) = submenu_ item) ->
  seen itemId <$> write_at f p s !! a = seen itemId <$> s !! a.
Proof.
  intros Hf. rewrite write_at_lookup.
  destruct (decide (p.1 = a)); [|reflexivity].
  destruct (s !! a) as [impl|]; [|reflexivity].
  simpl. f_equal. unfold seen. simpl. f_equal.
  - destruct (id2idx_ impl !! itemId) as [idx|]; [|reflexivity].
    simpl. f_equal. rewrite list_lookup_alter.
    destruct (decide (p.2 = idx)) as [->|]; [|reflexivity].
    destruct (items_ impl !! idx); reflexivity.
  - apply omap_submenu_alter, Hf.
Qed.

(** The invariant. *)
Lemma indexed_AddItem (impl : Impl) (name : string) (itemId : ItemId)
  (key : KeyName) :
  indexed impl ->
  indexed (mkImpl (items_ impl
                   ++ [mkMenuItem itemId name key None true false false])
                  (<[itemId := length (items_ impl)]> (id2idx_ impl))).
Proof.
  intros [Hs Hc Ho]. split; simpl.
  - intros id n Hn. destruct (decide (id = itemId)) as [->|Hne].
    + rewrite lookup_insert_eq in Hn. inversion Hn; subst n.
      eexists. rewrite lookup_app_r, Nat.sub_diag by lia.
      split; [reflexivity|]. split; [reflexivity|]. split; reflexivity.
    + rewrite lookup_insert_ne in Hn by congruence.
      destruct (Hs id n Hn) as (item & Hitem & Hrest).
      exists item. split; [|exact Hrest].
      apply lookup_app_l_Some. exact Hitem.
  - intros n item Hitem Hplain.
    destruct (decide (id_ item = itemId)) as [->|Hne].
    + rewrite lookup_insert_eq. eauto.
    + rewrite lookup_insert_ne by congruence.
      apply lookup_app_Some in Hitem as [Hitem|[_ Hitem]]; [eauto|].
      apply list_lookup_singleton_Some in Hitem as [_ <-].
      simpl in Hne. congruence.
  - intros n item Hitem Hsub.
    apply lookup_app_Some in Hitem as [Hitem|[_ Hitem]]; [eauto|].
    apply list_lookup_singleton_Some in Hitem as [_ <-].
    destruct Hsub as [x Hx]. discriminate.
Qed.

Lemma indexed_append (impl : Impl) (item : MenuItem) :
  indexed impl -> ~ plain item ->
  (is_Some (submenu_ item) -> is_separator_ item = false) ->
  indexed (mkImpl (items_ impl ++ [item]) (id2idx_ impl)).
Proof.
  intros [Hs Hc Ho] Hnp Hsep. split; simpl.
  - intros id n Hn. destruct (Hs id n Hn) as (it & Hit & Hrest).
    exists it. split; [|exact Hrest]. apply lookup_app_l_Some. exact Hit.
  - intros n it Hit Hplain.
    apply lookup_app_Some in Hit as [Hit|[_ Hit]]; [eauto|].
    apply list_lookup_singleton_Some in Hit as [_ <-]. contradiction.
  - intros n it Hit Hsub.
    apply lookup_app_Some in Hit as [Hit|[_ Hit]]; [eauto|].
    apply list_lookup_singleton_Some in Hit as [_ <-]. auto.
Qed.

Lemma indexed_write (impl : Impl) (f : MenuItem -> MenuItem) (i : nat) :
  indexed impl ->
  (forall item, id_ (f item) = id_ item /\ submenu_ (f item) = submenu_ item
                /\ is_separator_ (f item) = is_separator_ item) ->
  indexed (mkImpl (alter f i (items_ impl)) (id2idx_ impl)).
Proof.
  intros [Hs Hc Ho] Hf.
  assert (Hback : forall n item,
            alter f i (items_ impl) !! n = Some item ->
            exists item0, items_ impl !! n = Some item0
                          /\ id_ item = id_ item0
                          /\ submenu_ item = submenu_ item0
                          /\ is_separator_ item = is_separator_ item0).
  { intros n item Hn. rewrite list_lookup_alter in Hn.
    destruct (decide (i = n)) as [->|].
    - destruct (items_ impl !! n) as [item0|]; [|discriminate].
      inversion Hn; subst item. exists item0. split; [reflexivity|].
      apply Hf.
    - exists item. auto. }
  split; simpl.
  - intros id n Hn. destruct (Hs id n Hn) as (item & Hitem & Hid & Hp1 & Hp2).
    rewrite list_lookup_alter.
    destruct (decide (i = n)) as [->|]; [|exists item; repeat split; auto].
    rewrite Hitem. simpl. exists (f item). split; [reflexivity|].
    destruct (Hf item) as (-> & H2 & H3). unfold plain.
    rewrite H2, H3. auto.
  - intros n item Hn [Hp1 Hp2].
    destruct (Hback n item Hn) as (item0 & H0 & -> & Hb & Hc').
    apply (Hc n item0 H0). split; congruence.
  - intros n item Hn Hsub.
    destruct (Hback n item Hn) as (item0 & H0 & _ & Hb & ->).
    apply (Ho n item0 H0). congruence.
Qed.

Lemma ranked_alter (rank : MenuPtr -> nat) (s : Menus) (g : Impl -> Impl)
  (this : MenuPtr) :
  ranked rank s ->
  (forall impl sub,
     s !! this = Some impl -> sub ∈ omap submenu_ (items_ (g impl)) ->
     sub ∈ omap submenu_ (items_ impl)) ->
  ranked rank (alter g this s).
Proof.
  intros Hr Hg a impl i item sub Ha Hi Hs.
  rewrite length_alter. rewrite list_lookup_alter in Ha.
  destruct (decide (this = a)) as [->|]; [|eauto].
  destruct (s !! a) as [impl0|] eqn:H0; [|discriminate].
  inversion Ha; subst impl.
  assert (Hin : sub ∈ omap submenu_ (items_ impl0)).
  { apply (Hg impl0 sub eq_refl). apply list_elem_of_omap.
    exists item. split; [|exact Hs]. eapply list_elem_of_lookup_2; eauto. }
  apply list_elem_of_omap in Hin as (item0 & Hin & Hs0).
  apply list_elem_of_lookup in Hin as [i0 Hi0].
  apply (Hr a impl0 i0 item0 sub H0 Hi0 Hs0).
Qed.

Lemma wf_write (f : MenuItem -> MenuItem) (p : ItemPtr) (s : Menus) :
  (forall item, id_ (f item) = id_ item /\ submenu_ (f item) = submenu_ item
                /\ is_separator_ (f item) = is_separator_ item) ->
  wf s -> wf (write_at f p s).
Proof.
  intros Hf [Hidx [rank Hr]]. split.
  - intros a impl Ha. rewrite write_at_lookup in Ha.
    destruct (decide (p.1 = a)); [|eauto].
    destruct (s !! a) as [impl0|] eqn:H0; [|discriminate].
    inversion Ha. apply indexed_write; eauto.
  - exists rank. apply ranked_alter; [exact Hr|].
    intros impl sub _. simpl.
    rewrite omap_submenu_alter; [auto|]. intros item. apply Hf.
Qed.

Lemma made_wf (s : Menus) : made s -> wf s.
Proof.
  induction 1 as [|s Hm IH|s this name itemId key Hm IH Hthis
                  |s this name sub Hm IH Hthis Hsub Hacyc
                  |s this Hm IH Hthis
                  |s this itemId b fuel s' Hm IH Hset
                  |s this itemId b fuel s' Hm IH Hset].
  - split; [intros a impl Ha; destruct a; discriminate|].
    exists (fun _ => 0%nat). intros a impl i item sub Ha. destruct a; discriminate.
  - destruct IH as [Hidx [rank Hr]]. split.
    + intros a impl Ha. simpl in Ha.
      apply lookup_app_Some in Ha as [Ha|[_ Ha]]; [eauto|].
      apply list_lookup_singleton_Some in Ha as [_ <-].
      split; simpl.
      * intros id n Hn. rewrite lookup_empty in Hn. discriminate.
      * intros n item Hn. destruct n; discriminate.
      * intros n item Hn. destruct n; discriminate.
    + exists rank. intros a impl i item sub Ha Hi Hs. simpl in Ha |- *.
      rewrite length_app. simpl.
      apply lookup_app_Some in Ha as [Ha|[_ Ha]].
      * destruct (Hr a impl i item sub Ha Hi Hs). split; lia.
      * apply list_lookup_singleton_Some in Ha as [_ <-].
        destruct i; discriminate.
  - destruct IH as [Hidx [rank Hr]]. split.
    + intros a impl Ha. unfold AddItem in Ha. rewrite list_lookup_alter in Ha.
      destruct (decide (this = a)) as [->|]; [|eauto].
      destruct (s !! a) as [impl0|] eqn:H0; [|discriminate].
      inversion Ha. apply indexed_AddItem. eauto.
    + exists rank. apply ranked_alter; [exact Hr|].
      intros impl sub _. simpl. rewrite omap_app. simpl.
      rewrite app_nil_r. auto.
  - destruct IH as [Hidx _]. split; [|exact Hacyc].
    intros a impl Ha. unfold AddMenu in Ha. rewrite list_lookup_alter in Ha.
    destruct (decide (this = a)) as [->|]; [|eauto].
    destruct (s !! a) as [impl0|] eqn:H0; [|discriminate].
    inversion Ha. apply indexed_append; [eauto| |reflexivity].
    intros [Hp _]. discriminate.
  - destruct IH as [Hidx [rank Hr]]. split.
    + intros a impl Ha. unfold AddSeparator in Ha.
      rewrite list_lookup_alter in Ha.
      destruct (decide (this = a)) as [->|]; [|eauto].
      destruct (s !! a) as [impl0|] eqn:H0; [|discriminate].
      inversion Ha. apply indexed_append; [eauto| |].
      * intros [_ Hp]. discriminate.
      * intros [x Hx]. discriminate.
    + exists rank. apply ranked_alter; [exact Hr|].
      intros impl sub _. simpl. rewrite omap_app. simpl.
      rewrite app_nil_r. auto.
  - unfold SetEnabled in Hset.
    destruct (FindMenuItem fuel s this itemId) as [[p|]|]; inversion Hset;
      subst; [|exact IH].
    apply wf_write; [|exact IH]. intros item. auto.
  - unfold SetChecked in Hset.
    destruct (FindMenuItem fuel s this itemId) as [[p|]|]; inversion Hset;
      subst; [|exact IH].
    apply wf_write; [|exact IH]. intros item. auto.
Qed.

(** In menus so made every search returns, given enough fuel. *)
Lemma wf_fuel (s : Menus) :
  wf s ->
  exists fuel0, forall (fuel : nat) (this : MenuPtr) (itemId : ItemId),
    (fuel0 <= fuel)%nat -> (this < length s)%nat ->
    is_Some (FindMenuItem fuel s this itemId).
Proof.
  intros [Hidx [rank Hr]].
  exists (S (max_list (rank <$> seq 0 (length s)))).
  intros fuel this itemId Hfuel Hthis.
  apply (FindMenuItem_returns rank); auto.
  assert (rank this <= max_list (rank <$> seq 0 (length s)))%nat; [|lia].
  apply max_list_elem_of_le, list_elem_of_fmap.
  exists this. split; [reflexivity|]. apply elem_of_seq. lia.
Qed.

(** What a search returns, in menus that keep the invariant. *)
Lemma search_result (s : Menus) (this : MenuPtr) (itemId : ItemId) :
  wf s -> (this < length s)%nat ->
  exists (found : option ItemPtr) (fuel0 : nat),
    (forall fuel, (fuel0 <= fuel)%nat ->
       FindMenuItem fuel s this itemId = Some found)
    /\ (forall p, found = Some p ->
          exists path target,
            menu_at s this path = Some p.1 /\ item_at s p = Some target
            /\ id_ target = itemId /\ plain target)
    /\ (found = None ->
        forall path a i item,
          menu_at s this path = Some a -> item_at s (a, i) = Some item ->
          id_ item = itemId -> ~ plain item).
Proof.
  intros Hwf Hthis. destruct (wf_fuel s Hwf) as [fuel0 Hfuel].
  destruct (Hfuel fuel0 this itemId (le_n _) Hthis) as [found Hfound].
  exists found, fuel0. split_and!.
  - intros fuel Hle. eapply FindMenuItem_more; eauto.
  - intros p ->.
    destruct (FindMenuItem_sound s itemId fuel0 this p Hfound)
      as (path & impl & Hpath & Himpl & Hidx & _).
    destruct (index_sound impl (wf_indexed s Hwf _ _ Himpl) itemId _ Hidx)
      as (target & Ht & Hid & Hplain).
    exists path, target. unfold item_at. rewrite Himpl. auto.
  - intros -> path a i item Hpath Hitem Hid Hplain.
    unfold item_at in Hitem. simpl in Hitem.
    destruct (s !! a) as [impl|] eqn:Himpl; [|discriminate].
    pose proof (FindMenuItem_complete s itemId fuel0 this Hfound path a impl
                  Hpath Himpl) as Hidx.
    destruct (index_complete impl (wf_indexed s Hwf _ _ Himpl) i item Hitem
                Hplain) as [n Hn].
    congruence.
Qed.

(** What is found designates an item that carries the identifier. *)
Lemma found_item (s : Menus) (fuel : nat) (this : MenuPtr) (itemId : ItemId)
  (p : ItemPtr) :
  wf s -> FindMenuItem fuel s this itemId = Some (Some p) ->
  exists target, item_at s p = Some target /\ id_ target = itemId
                 /\ plain target.
Proof.
  intros Hwf Hfound.
  destruct (FindMenuItem_sound s itemId fuel this p Hfound)
    as (path & impl & Hpath & Himpl & Hidx & _).
  destruct (index_sound impl (wf_indexed s Hwf _ _ Himpl) itemId _ Hidx)
    as (target & Ht & Hid & Hplain).
  exists target. unfold item_at. rewrite Himpl. auto.
Qed.

(** A setter changes no result of a search. *)
Lemma FindMenuItem_write_at (f : MenuItem -> MenuItem) (p : ItemPtr)
  (s : Menus) (fuel : nat) (root : MenuPtr) (other : ItemId) :
  (forall item, submenu_ (f item) = submenu_ item) ->
  FindMenuItem fuel (write_at f p s) root other
  = FindMenuItem fuel s root other.
Proof.
  intros Hf. apply FindMenuItem_seen. intros a. apply write_at_seen, Hf.
Qed.

(** The three functions that add an item: the item is appended to the
    menu, and the index is updated or left. *)
Lemma append_lookup (h : Impl -> gmap Z nat) (item : MenuItem)
  (this : MenuPtr) (s : Menus) (a : MenuPtr) :
  alter (fun impl => mkImpl (items_ impl ++ [item]) (h impl)) this s !! a
  = if decide (this = a)
    then (fun impl => mkImpl (items_ impl ++ [item]) (h impl)) <$> s !! a
    else s !! a.
Proof.
  rewrite list_lookup_alter. destruct (decide (this = a)) as [->|]; reflexivity.
Qed.

Lemma item_at_append (h : Impl -> gmap Z nat) (item : MenuItem)
  (this : MenuPtr) (s : Menus) (impl : Impl) (q : ItemPtr) :
  s !! this = Some impl -> q <> (this, length (items_ impl)) ->
  item_at (alter (fun impl => mkImpl (items_ impl ++ [item]) (h impl)) this s)
          q
  = item_at s q.
Proof.
  intros Himpl Hq. unfold item_at. rewrite append_lookup.
  destruct (decide (this = q.1)) as [He|]; [|reflexivity].
  rewrite <- He, Himpl. simpl.
  destruct (decide (q.2 < length (items_ impl))%nat) as [Hlt|Hge].
  - apply lookup_app_l. exact Hlt.
  - assert (q.2 <> length (items_ impl)).
    { intros Hn. apply Hq. destruct q; simpl in *; congruence. }
    rewrite (lookup_ge_None_2 (items_ impl)) by lia.
    apply lookup_ge_None_2. rewrite length_app. simpl. lia.
Qed.

Lemma item_at_append_new (h : Impl -> gmap Z nat) (item : MenuItem)
  (this : MenuPtr) (s : Menus) (impl : Impl) :
  s !! this = Some impl ->
  item_at (alter (fun impl => mkImpl (items_ impl ++ [item]) (h impl)) this s)
          (this, length (items_ impl))
  = Some item.
Proof.
  intros Himpl. unfold item_at. rewrite append_lookup. simpl.
  rewrite decide_True, Himpl by reflexivity. simpl.
  rewrite lookup_app_r, Nat.sub_diag by lia. reflexivity.
Qed.

(** Appending an item that opens no submenu changes no search for an
    identifier whose index entry is left. *)
Lemma seen_append (h : Impl -> gmap Z nat) (item : MenuItem)
  (this : MenuPtr) (s : Menus) (other : ItemId) (a : MenuPtr) :
  wf s -> submenu_ item = None ->
  (forall impl, h impl !! other = id2idx_ impl !! other) ->
  seen other
    <$> alter (fun impl => mkImpl (items_ impl ++ [item]) (h impl)) this s !! a
  = seen other <$> s !! a.
Proof.
  intros Hwf Hitem Hh. rewrite append_lookup.
  destruct (decide (this = a)); [|reflexivity].
  destruct (s !! a) as [impl|] eqn:Himpl; [|reflexivity].
  simpl. f_equal. unfold seen. simpl. f_equal.
  - rewrite Hh. destruct (id2idx_ impl !! other) as [idx|] eqn:Hidx;
      [|reflexivity].
    destruct (index_sound impl (wf_indexed s Hwf _ _ Himpl) other idx Hidx)
      as (it & Hit & _).
    simpl. rewrite (lookup_app_l_Some _ _ _ _ Hit), Hit. reflexivity.
  - rewrite omap_app. simpl. rewrite Hitem. apply app_nil_r.
Qed.

Lemma menu_at_append (h : Impl -> gmap Z nat) (item : MenuItem)
  (this : MenuPtr) (s : Menus) :
  submenu_ item = None ->
  forall path root,
    menu_at (alter (fun impl => mkImpl (items_ impl ++ [item]) (h impl))
                   this s) root path
    = menu_at s root path.
Proof.
  intros Hitem. induction path as [|i path IH]; intros root; [reflexivity|].
  simpl. destruct (s !! this) as [impl|] eqn:Himpl.
  - destruct (decide ((root, i) = (this, length (items_ impl)))) as [He|Hne].
    + rewrite He, (item_at_append_new h item this s impl Himpl), Hitem.
      unfold item_at. simpl. rewrite Himpl.
      rewrite lookup_ge_None_2 by lia. reflexivity.
    + rewrite (item_at_append h item this s impl (root, i) Himpl Hne).
      destruct (item_at s (root, i)) as [it|]; [|reflexivity].
      destruct (submenu_ it); [apply IH|reflexivity].
  - assert (Hsame : alter (fun impl => mkImpl (items_ impl ++ [item]) (h impl))
                          this s = s).
    { apply list_eq. intros a. rewrite append_lookup.
      destruct (decide (this = a)) as [<-|]; [|reflexivity].
      rewrite Himpl. reflexivity. }
    rewrite Hsame. reflexivity.
Qed.

(** The loop over a list of items that is extended. *)
Lemma in_submenus_app (fuel : nat) (s : Menus) (itemId : ItemId)
  (pre rest : list MenuItem) :
  in_submenus fuel s itemId (pre ++ rest)
  = match in_submenus fuel s itemId pre with
    | Some None => in_submenus fuel s itemId rest
    | r => r
    end.
Proof.
  induction pre as [|item pre IH]; [reflexivity|].
  simpl. destruct (submenu_ item) as [sub|]; [|exact IH].
  destruct (FindMenuItem fuel s sub itemId) as [[q|]|]; auto.
Qed.

Lemma opener_separator (s : Menus) (this : MenuPtr) (impl : Impl) (i : nat)
  (item : MenuItem) :
  wf s -> s !! this = Some impl -> items_ impl !! i = Some item ->
  is_Some (submenu_ item) -> is_separator_ item = false.
Proof.
  intros Hwf Himpl Hi Hs.
  apply (opener_no_separator impl (wf_indexed s Hwf _ _ Himpl) i item Hi Hs).
Qed.

Lemma rankedb_ranked (rank : MenuPtr -> nat) (s : Menus) :
  rankedb rank s = true -> ranked rank s.
Proof.
  unfold rankedb. rewrite forallb_forall.
  intros H this impl i item sub Hthis Hi Hs.
  assert (Hin : In (this, impl) (imap pair s)).
  { apply list_elem_of_In, list_elem_of_lookup. exists this.
    rewrite list_lookup_imap, Hthis. reflexivity. }
  specialize (H _ Hin). simpl in H. rewrite forallb_forall in H.
  assert (Hin' : In item (items_ impl)).
  { apply list_elem_of_In. eapply list_elem_of_lookup_2; eauto. }
  specialize (H _ Hin'). rewrite Hs in H.
  apply andb_true_iff in H as [H1 H2].
  apply Nat.ltb_lt in H1, H2. auto.
Qed.

Lemma sample_menus_made : made sample_menus.
Proof.
  assert (Hacyclic : forall s, rankedb (fun a => (3 - a)%nat) s = true ->
            acyclic s).
  { intros s Hs. exists (fun a => (3 - a)%nat). apply rankedb_ranked, Hs. }
  unfold sample_menus. cbv zeta.
  repeat first
    [ apply made_none
    | apply made_new
    | apply made_AddItem; [|vm_compute; lia]
    | apply made_AddSeparator; [|vm_compute; lia]
    | apply made_AddMenu;
        [|vm_compute; lia|vm_compute; lia|apply Hacyclic; reflexivity] ].
Qed.

Lemma checked_menus_made : made checked_menus.
Proof.
  apply (made_SetChecked sample_menus 0%nat 7 true 3%nat).
  - exact sample_menus_made.
  - vm_compute. reflexivity.
Qed.

(** C9.  In menus made with the public interface, none below itself,
    [SetEnabled] and [SetChecked] return, and what they do is this.  An
    item made by [AddItem] that carries the identifier, in the menu or in a
    submenu at whatever depth below it, is found.  The item found carries
    the identifier, and the call writes its flag and nothing else: that
    item has the flag at the value given and its six other fields as
    before, every other item of every menu is as before, and so are all
    indices and item counts.  (A submenu that several items open is one
    object, and the item is written once.)  When nothing is found, which
    is so when no item below the menu carries the identifier, and also
    when only separators and items that open submenus do, the menus are
    left exactly as they were. *)
Theorem SetEnabled_SetChecked_by_search (s : Menus) (this : MenuPtr)
  (itemId : ItemId) (b : bool) :
  made s -> (this < length s)%nat ->
  exists (found : option ItemPtr) (se sc : Menus) (fuel0 : nat),
    (forall fuel, (fuel0 <= fuel)%nat ->
       FindMenuItem fuel s this itemId = Some found
       /\ SetEnabled fuel s this itemId b = Some se
       /\ SetChecked fuel s this itemId b = Some sc)
    /\ (forall path a i item,
          menu_at s this path = Some a -> item_at s (a, i) = Some item ->
          id_ item = itemId -> plain item -> is_Some found)
    /\ (forall p, found = Some p ->
          exists path target,
            menu_at s this path = Some p.1
            /\ item_at s p = Some target
            /\ id_ target = itemId /\ plain target
            /\ item_at se p
               = Some (mkMenuItem (id_ target) (name_ target)
                                  (shortcut_key_ target) (submenu_ target)
                                  b (is_checked_ target)
                                  (is_separator_ target))
            /\ item_at sc p
               = Some (mkMenuItem (id_ target) (name_ target)
                                  (shortcut_key_ target) (submenu_ target)
                                  (is_enabled_ target) b
                                  (is_separator_ target))
            /\ (forall q, q <> p ->
                  item_at se q = item_at s q /\ item_at sc q = item_at s q))
    /\ (length se = length s /\ length sc = length s
        /\ forall a, shape <$> se !! a = shape <$> s !! a
                     /\ shape <$> sc !! a = shape <$> s !! a)
    /\ (found = None -> se = s /\ sc = s)
    /\ ((forall path a i item,
           menu_at s this path = Some a -> item_at s (a, i) = Some item ->
           id_ item = itemId -> ~ plain item) ->
        found = None)
    /\ ((forall path a i item,
           menu_at s this path = Some a -> item_at s (a, i) = Some item ->
           id_ item <> itemId) ->
        se = s /\ sc = s).
Proof.
  intros Hmade Hthis. pose proof (made_wf s Hmade) as Hwf.
  destruct (wf_fuel s Hwf) as [fuel0 Hfuel].
  destruct (Hfuel fuel0 this itemId (le_n _) Hthis) as [found Hfound].
  set (se := match found with
             | Some p => write_at (set_enabled b) p s
             | None => s
             end).
  set (sc := match found with
             | Some p => write_at (set_checked b) p s
             | None => s
             end).
  exists found, se, sc, fuel0.
  assert (Hsound : forall p, found = Some p ->
            exists path target,
              menu_at s this path = Some p.1 /\ item_at s p = Some target
              /\ id_ target = itemId /\ plain target).
  { intros p ->.
    destruct (FindMenuItem_sound s itemId fuel0 this p Hfound)
      as (path & impl & Hpath & Himpl & Hidx & _).
    destruct (index_sound impl (wf_indexed s Hwf _ _ Himpl) itemId _ Hidx)
      as (target & Ht & Hid & Hplain).
    exists path, target. unfold item_at. rewrite Himpl. auto. }
  assert (Hnone : (forall path a i item,
                     menu_at s this path = Some a ->
                     item_at s (a, i) = Some item ->
                     id_ item = itemId -> ~ plain item) ->
                  found = None).
  { intros Hno. destruct found as [p|]; [|reflexivity].
    destruct (Hsound p eq_refl) as (path & target & Hpath & Ht & Hid & Hp).
    destruct p as [a i]. exfalso.
    exact (Hno path a i target Hpath Ht Hid Hp). }
  split_and!.
  - intros fuel Hle.
    pose proof (FindMenuItem_more s itemId fuel0 fuel this found Hfound Hle)
      as Hf.
    unfold SetEnabled, SetChecked. rewrite Hf.
    subst se sc. destruct found; auto.
  - intros path a i item Hpath Hitem Hid Hplain.
    destruct found as [p|]; [eauto|]. exfalso.
    unfold item_at in Hitem. simpl in Hitem.
    destruct (s !! a) as [impl|] eqn:Himpl; [|discriminate].
    pose proof (FindMenuItem_complete s itemId fuel0 this Hfound path a impl
                  Hpath Himpl) as Hidx.
    destruct (index_complete impl (wf_indexed s Hwf _ _ Himpl) i item Hitem
                Hplain) as [n Hn].
    congruence.
  - intros p Hp. destruct (Hsound p Hp) as (path & target & Hpath & Ht & Hid
                                            & Hplain).
    exists path, target. subst found se sc.
    rewrite !item_at_write_at, Ht.
    split_and!; auto.
    intros q Hq. rewrite !item_at_write_at_ne by exact Hq. auto.
  - subst se sc. destruct found; [apply write_at_length|reflexivity].
  - subst se sc. destruct found; [apply write_at_length|reflexivity].
  - intros a. subst se sc. destruct found as [p|]; [|auto].
    rewrite !write_at_lookup.
    destruct (decide (p.1 = a)); [|auto].
    destruct (s !! a) as [impl|]; [|auto].
    simpl. unfold shape. simpl. rewrite !length_alter. auto.
  - intros ->. auto.
  - exact Hnone.
  - intros Hno. subst se sc. rewrite Hnone; [auto|].
    intros path a i item Hpath Hitem Hid. exfalso.
    exact (Hno path a i item Hpath Hitem Hid).
Qed.

Lemma SetEnabled_SetChecked_by_search_witness :
  exists se,
    SetEnabled 3 checked_menus 0 7 false = Some se
    /\ item_at se (2, 0)%nat
       = Some (mkMenuItem 7 "Pin" KEY_NONE None false true false)
    /\ menu_at se 0 [2; 1]%nat = Some 2%nat
    /\ menu_at se 0 [3]%nat = Some 2%nat
    /\ SetEnabled 3 checked_menus 0 99 false = Some checked_menus
    /\ SetEnabled 3 checked_menus 0 NO_ITEM false = Some checked_menus.
Proof.
  destruct (SetEnabled_SetChecked_by_search checked_menus 0%nat 7 false
              checked_menus_made ltac:(vm_compute; lia))
    as (found & se & sc & fuel0 & Hrun & _ & Hfound & _).
  destruct (SetEnabled_SetChecked_by_search checked_menus 0%nat 99 false
              checked_menus_made ltac:(vm_compute; lia))
    as (found' & se' & sc' & fuel0' & Hrun' & _ & _ & _ & Hnone' & _).
  destruct (SetEnabled_SetChecked_by_search checked_menus 0%nat NO_ITEM false
              checked_menus_made ltac:(vm_compute; lia))
    as (found'' & se'' & sc'' & fuel0'' & Hrun'' & _ & _ & _ & Hnone'' & _).
  destruct (Hrun (3 + fuel0)%nat ltac:(lia)) as (Hf & Hse & _).
  destruct (Hrun' (3 + fuel0')%nat ltac:(lia)) as (Hf' & Hse' & _).
  destruct (Hrun'' (3 + fuel0'')%nat ltac:(lia)) as (Hf'' & Hse'' & _).
  rewrite (FindMenuItem_more checked_menus 7 3 (3 + fuel0) 0 (Some (2, 0)%nat)
             ltac:(vm_compute; reflexivity) ltac:(lia)) in Hf.
  rewrite (FindMenuItem_more checked_menus 99 3 (3 + fuel0') 0 None
             ltac:(vm_compute; reflexivity) ltac:(lia)) in Hf'.
  rewrite (FindMenuItem_more checked_menus NO_ITEM 3 (3 + fuel0'') 0 None
             ltac:(vm_compute; reflexivity) ltac:(lia)) in Hf''.
  inversion Hf; subst found. inversion Hf'; subst found'.
  inversion Hf''; subst found''.
  destruct (Hfound (2, 0)%nat eq_refl)
    as (path & target & _ & Ht & _ & _ & He & _).
  vm_compute in Ht. inversion Ht; subst target. simpl in He.
  destruct (Hnone' eq_refl) as [-> _]. destruct (Hnone'' eq_refl) as [-> _].
  exists (write_at (set_enabled false) (2, 0)%nat checked_menus).
  split_and!; try (vm_compute; reflexivity).
Defined.

(** A getter after a setter, from any menu and for any identifier. *)
Lemma getter_after_setter (proj : MenuItem -> bool)
  (f : MenuItem -> MenuItem) (p : ItemPtr) (s : Menus) (fuel : nat)
  (root : MenuPtr) (other : ItemId) :
  wf s ->
  (forall item, submenu_ (f item) = submenu_ item) ->
  (forall target, item_at s p = Some target ->
     proj (f target) = proj target \/ id_ target <> other) ->
  match FindMenuItem fuel (write_at f p s) root other with
  | Some (Some item) => proj <$> item_at (write_at f p s) item
  | Some None => Some false
  | None => None
  end
  = match FindMenuItem fuel s root other with
    | Some (Some item) => proj <$> item_at s item
    | Some None => Some false
    | None => None
    end.
Proof.
  intros Hwf Hf Hproj. rewrite FindMenuItem_write_at by exact Hf.
  destruct (FindMenuItem fuel s root other) as [[q|]|] eqn:Hq;
    [|reflexivity|reflexivity].
  destruct (decide (q = p)) as [->|Hne].
  - rewrite item_at_write_at.
    destruct (found_item s fuel root other p Hwf Hq) as (target & Ht & Hid & _).
    rewrite Ht. simpl. destruct (Hproj target Ht); congruence.
  - rewrite item_at_write_at_ne by exact Hne. reflexivity.
Qed.

(** X9.  The getters read back what the setters wrote, and nothing else
    changes, whatever was set before.  When an item made by [AddItem]
    carries the identifier, in the menu or below it, [IsEnabled] after
    [SetEnabled] and [IsChecked] after [SetChecked] return the value that
    was set, and so they do asked of any other menu whose search finds
    the same item (a submenu that two items open is one object); when none
    does, both getters return false, before and after.
    [SetEnabled] changes no result of [IsChecked] and [SetChecked] none of
    [IsEnabled], and neither changes a result of a getter for another
    identifier, asked of whatever menu.  The menus after the call are again
    such menus, so the same holds of every later call. *)
Theorem getters_read_setters (s : Menus) (this : MenuPtr) (itemId : ItemId)
  (b : bool) :
  made s -> (this < length s)%nat ->
  exists (found : option ItemPtr) (se sc : Menus) (fuel0 : nat),
    (forall fuel, (fuel0 <= fuel)%nat ->
       FindMenuItem fuel s this itemId = Some found
       /\ SetEnabled fuel s this itemId b = Some se
       /\ SetChecked fuel s this itemId b = Some sc
       /\ IsEnabled fuel se this itemId
          = Some (match found with Some _ => b | None => false end)
       /\ IsChecked fuel sc this itemId
          = Some (match found with Some _ => b | None => false end)
       /\ (found = None ->
           IsEnabled fuel s this itemId = Some false
           /\ IsChecked fuel s this itemId = Some false))
    /\ ((exists path a i item,
           menu_at s this path = Some a /\ item_at s (a, i) = Some item
           /\ id_ item = itemId /\ plain item)
        <-> is_Some found)
    /\ (forall fuel root,
          is_Some found -> FindMenuItem fuel s root itemId = Some found ->
          IsEnabled fuel se root itemId = Some b
          /\ IsChecked fuel sc root itemId = Some b)
    /\ (forall fuel root other,
          IsChecked fuel se root other = IsChecked fuel s root other
          /\ IsEnabled fuel sc root other = IsEnabled fuel s root other)
    /\ (forall fuel root other, other <> itemId ->
          IsEnabled fuel se root other = IsEnabled fuel s root other
          /\ IsChecked fuel sc root other = IsChecked fuel s root other)
    /\ made se /\ made sc.
Proof.
  intros Hmade Hthis. pose proof (made_wf s Hmade) as Hwf.
  destruct (search_result s this itemId Hwf Hthis)
    as (found & fuel0 & Hrun & Hsome & Hnone).
  set (se := match found with
             | Some p => write_at (set_enabled b) p s
             | None => s
             end).
  set (sc := match found with
             | Some p => write_at (set_checked b) p s
             | None => s
             end).
  assert (Hse : forall fuel, (fuel0 <= fuel)%nat ->
            SetEnabled fuel s this itemId b = Some se).
  { intros fuel Hle. unfold SetEnabled. rewrite (Hrun fuel Hle).
    subst se. destruct found; reflexivity. }
  assert (Hsc : forall fuel, (fuel0 <= fuel)%nat ->
            SetChecked fuel s this itemId b = Some sc).
  { intros fuel Hle. unfold SetChecked. rewrite (Hrun fuel Hle).
    subst sc. destruct found; reflexivity. }
  exists found, se, sc, fuel0. split_and!.
  - intros fuel Hle. split_and!; auto.
    + unfold IsEnabled. subst se. destruct found as [p|].
      * rewrite FindMenuItem_write_at, (Hrun fuel Hle) by reflexivity.
        rewrite item_at_write_at.
        destruct (Hsome p eq_refl) as (_ & target & _ & -> & _).
        reflexivity.
      * rewrite (Hrun fuel Hle). reflexivity.
    + unfold IsChecked. subst sc. destruct found as [p|].
      * rewrite FindMenuItem_write_at, (Hrun fuel Hle) by reflexivity.
        rewrite item_at_write_at.
        destruct (Hsome p eq_refl) as (_ & target & _ & -> & _).
        reflexivity.
      * rewrite (Hrun fuel Hle). reflexivity.
    + intros ->. unfold IsEnabled, IsChecked. rewrite (Hrun fuel Hle). auto.
  - split.
    + intros (path & a & i & item & Hpath & Hitem & Hid & Hplain).
      destruct found as [p|]; [eauto|]. exfalso.
      exact (Hnone eq_refl path a i item Hpath Hitem Hid Hplain).
    + intros [p ->].
      destruct (Hsome p eq_refl) as (path & target & Hpath & Ht & Hid & Hp).
      destruct p as [a i]. exists path, a, i, target. auto.
  - intros fuel root [p ->] Hroot. unfold IsEnabled, IsChecked. subst se sc.
    rewrite !FindMenuItem_write_at, Hroot by reflexivity.
    rewrite !item_at_write_at.
    destruct (Hsome p eq_refl) as (_ & target & _ & -> & _). auto.
  - intros fuel root other. unfold IsChecked, IsEnabled. subst se sc.
    destruct found as [p|]; [|auto]. split.
    + apply (getter_after_setter is_checked_); auto.
    + apply (getter_after_setter is_enabled_); auto.
  - intros fuel root other Hother. unfold IsChecked, IsEnabled. subst se sc.
    destruct found as [p|]; [|auto].
    destruct (Hsome p eq_refl) as (_ & target & _ & Ht & Hid & _).
    split.
    + apply (getter_after_setter is_enabled_); auto.
      intros t Ht'. right. congruence.
    + apply (getter_after_setter is_checked_); auto.
      intros t Ht'. right. congruence.
  - apply (made_SetEnabled s this itemId b fuel0 se Hmade), Hse, le_n.
  - apply (made_SetChecked s this itemId b fuel0 sc Hmade), Hsc, le_n.
Qed.

Lemma getters_read_setters_witness :
  IsChecked 3 checked_menus 0 7 = Some true
  /\ (exists se,
        SetEnabled 3 checked_menus 0 7 false = Some se
        /\ IsEnabled 3 se 0 7 = Some false
        /\ IsEnabled 3 se 1 7 = Some false
        /\ IsChecked 3 se 0 7 = Some true
        /\ IsEnabled 3 se 0 2 = Some true)
  /\ IsEnabled 3 checked_menus 0 99 = Some false.
Proof.
  destruct (getters_read_setters checked_menus 0%nat 7 false
              checked_menus_made ltac:(vm_compute; lia))
    as (found & se & sc & fuel0 & Hrun & _ & Hshared & Hcross & Hother & _).
  destruct (Hrun (3 + fuel0)%nat ltac:(lia)) as (Hf & Hse & _ & He & _).
  rewrite (FindMenuItem_more checked_menus 7 3 (3 + fuel0) 0 (Some (2, 0)%nat)
             ltac:(vm_compute; reflexivity) ltac:(lia)) in Hf.
  inversion Hf; subst found.
  assert (Hse3 : SetEnabled 3 checked_menus 0 7 false = Some se).
  { unfold SetEnabled in Hse |- *.
    rewrite (FindMenuItem_more checked_menus 7 3 (3 + fuel0) 0
               (Some (2, 0)%nat) ltac:(vm_compute; reflexivity) ltac:(lia))
      in Hse.
    exact Hse. }
  split; [vm_compute; reflexivity|]. split.
  - exists se. split; [exact Hse3|].
    destruct (Hcross 3%nat 0%nat 7) as [Hc _].
    destruct (Hother 3%nat 0%nat 2 ltac:(discriminate)) as [Ho _].
    split_and!.
    + apply (Hshared 3%nat 0%nat); [eauto|vm_compute; reflexivity].
    + apply (Hshared 3%nat 1%nat); [eauto|vm_compute; reflexivity].
    + rewrite Hc. vm_compute. reflexivity.
    + rewrite Ho. vm_compute. reflexivity.
  - vm_compute. reflexivity.
Defined.

(** X10.  [AddItem] makes an item that the search finds at once: enabled,
    not checked, at the end of the menu, and found under its identifier
    even when an item added before carries the same identifier, which the
    new item then hides.  It is found from every menu above as well: each
    of them finds an item with the identifier.  No other item is touched,
    and what is found under every other identifier, and what the getters
    return for it, asked of whatever menu, is as before. *)
Theorem AddItem_is_found (s : Menus) (this : MenuPtr) (name : string)
  (itemId : ItemId) (key : KeyName) :
  made s -> (this < length s)%nat ->
  let s' := AddItem s this name itemId key in
  exists (n fuel0 : nat),
    (fun impl => length (items_ impl)) <$> s !! this = Some n
    /\ item_at s' (this, n)
       = Some (mkMenuItem itemId name key None true false false)
    /\ (forall q, q <> (this, n) -> item_at s' q = item_at s q)
    /\ (forall fuel, (1 <= fuel)%nat ->
          FindMenuItem fuel s' this itemId = Some (Some (this, n))
          /\ IsEnabled fuel s' this itemId = Some true
          /\ IsChecked fuel s' this itemId = Some false)
    /\ (forall root path fuel,
          menu_at s root path = Some this -> (fuel0 <= fuel)%nat ->
          exists p item,
            FindMenuItem fuel s' root itemId = Some (Some p)
            /\ item_at s' p = Some item /\ id_ item = itemId
            /\ plain item)
    /\ (forall fuel root other, other <> itemId ->
          FindMenuItem fuel s' root other = FindMenuItem fuel s root other
          /\ IsEnabled fuel s' root other = IsEnabled fuel s root other
          /\ IsChecked fuel s' root other = IsChecked fuel s root other)
    /\ made s'.
Proof.
  intros Hmade Hthis s'. pose proof (made_wf s Hmade) as Hwf.
  assert (Hmade' : made s') by (apply made_AddItem; assumption).
  pose proof (made_wf s' Hmade') as Hwf'.
  destruct (s !! this) as [impl|] eqn:Himpl;
    [|apply lookup_ge_None in Himpl; lia].
  destruct (wf_fuel s' Hwf') as [fuel0 Hfuel].
  exists (length (items_ impl)), fuel0.
  set (item := mkMenuItem itemId name key None true false false).
  assert (Hnew : item_at s' (this, length (items_ impl)) = Some item).
  { apply (item_at_append_new _ item this s impl Himpl). }
  assert (Hold : forall q, q <> (this, length (items_ impl)) ->
            item_at s' q = item_at s q).
  { intros q Hq. apply (item_at_append _ item this s impl q Himpl Hq). }
  assert (Hsearch : forall fuel root other, other <> itemId ->
            FindMenuItem fuel s' root other = FindMenuItem fuel s root other).
  { intros fuel root other Hother. apply FindMenuItem_seen. intros a.
    apply (seen_append _ item this s other a Hwf eq_refl).
    intros impl0. simpl. apply lookup_insert_ne. congruence. }
  assert (Hget : forall (proj : MenuItem -> bool) fuel root other,
            other <> itemId ->
            match FindMenuItem fuel s' root other with
            | Some (Some q) => proj <$> item_at s' q
            | Some None => Some false
            | None => None
            end
            = match FindMenuItem fuel s root other with
              | Some (Some q) => proj <$> item_at s q
              | Some None => Some false
              | None => None
              end).
  { intros proj fuel root other Hother. rewrite Hsearch by exact Hother.
    destruct (FindMenuItem fuel s root other) as [[q|]|] eqn:Hq;
      [|reflexivity|reflexivity].
    rewrite Hold; [reflexivity|]. intros ->.
    destruct (found_item s fuel root other _ Hwf Hq) as (t & Ht & _).
    unfold item_at in Ht. simpl in Ht. rewrite Himpl in Ht.
    apply lookup_lt_Some in Ht. lia. }
  assert (Hfind : forall fuel, (1 <= fuel)%nat ->
            FindMenuItem fuel s' this itemId
            = Some (Some (this, length (items_ impl)))).
  { intros [|fuel] Hle; [lia|]. rewrite FindMenuItem_unfold.
    subst s'. unfold AddItem. rewrite append_lookup.
    rewrite decide_True, Himpl by reflexivity. simpl.
    rewrite lookup_insert_eq, lookup_app_r, Nat.sub_diag by lia.
    reflexivity. }
  split_and!; auto.
  - intros fuel Hle. unfold IsEnabled, IsChecked.
    rewrite (Hfind fuel Hle), Hnew. auto.
  - intros root path fuel Hpath Hle.
    assert (Hroot : (root < length s')%nat).
    { subst s'. unfold AddItem. rewrite length_alter.
      destruct path as [|i path]; simpl in Hpath.
      - inversion Hpath; subst. exact Hthis.
      - unfold item_at in Hpath. simpl in Hpath.
        destruct (s !! root) eqn:Hr; [|discriminate].
        apply lookup_lt_Some in Hr. exact Hr. }
    destruct (Hfuel fuel root itemId Hle Hroot) as [[p|] Hp].
    + destruct (found_item s' fuel root itemId p Hwf' Hp)
        as (t & Ht & Hid & Hplain).
      exists p, t. auto.
    + exfalso.
      assert (Hpath' : menu_at s' root path = Some this).
      { subst s'. unfold AddItem. rewrite menu_at_append by reflexivity.
        exact Hpath. }
      assert (Hthis' : s' !! this
                       = Some (mkImpl (items_ impl ++ [item])
                                      (<[itemId := length (items_ impl)]>
                                         (id2idx_ impl)))).
      { subst s'. unfold AddItem. rewrite append_lookup.
        rewrite decide_True, Himpl by reflexivity. reflexivity. }
      pose proof (FindMenuItem_complete s' itemId fuel root Hp path this _
                    Hpath' Hthis') as Hidx.
      simpl in Hidx. rewrite lookup_insert_eq in Hidx. discriminate.
  - intros fuel root other Hother. unfold IsEnabled, IsChecked.
    split_and!; auto.
Qed.

Lemma AddItem_is_found_witness :
  let s' := AddItem checked_menus 2 "Unpin" 8 KEY_NONE in
  item_at s' (2, 1)%nat
  = Some (mkMenuItem 8 "Unpin" KEY_NONE None true false false)
  /\ (exists p item,
        FindMenuItem 3 s' 0 8 = Some (Some p)
        /\ item_at s' p = Some item /\ id_ item = 8)
  /\ IsChecked 3 s' 0 7 = Some true.
Proof.
  intros s'.
  destruct (AddItem_is_found checked_menus 2%nat "Unpin" 8 KEY_NONE
              checked_menus_made ltac:(vm_compute; lia))
    as (n & fuel0 & Hn & Hnew & _ & _ & Habove & Hother & _).
  vm_compute in Hn. inversion Hn; subst n.
  split; [exact Hnew|]. split.
  - destruct (Habove 0%nat [2; 1]%nat (3 + fuel0)%nat
                ltac:(vm_compute; reflexivity) ltac:(lia))
      as (p & item & Hp & Hitem & Hid & _).
    exists p, item. split; [|auto].
    rewrite <- Hp. symmetry.
    apply (FindMenuItem_more _ 8 3 (3 + fuel0) 0 (Some (2, 1)%nat));
      [vm_compute; reflexivity|lia].
  - destruct (Hother 3%nat 0%nat 7 ltac:(discriminate)) as (_ & _ & Hc).
    fold s' in Hc. rewrite Hc. vm_compute. reflexivity.
Defined.

(** The menus below a menu that is given a new submenu are searched as
    before. *)
Lemma FindMenuItem_below (rank : MenuPtr -> nat) (s : Menus)
  (this : MenuPtr) (name : string) (sub : MenuPtr) (itemId : ItemId) :
  ranked rank (AddMenu s this name sub) ->
  forall (fuel : nat) (a : MenuPtr),
    (rank a < rank this)%nat ->
    FindMenuItem fuel (AddMenu s this name sub) a itemId
    = FindMenuItem fuel s a itemId.
Proof.
  intros Hr fuel a Ha.
  apply (FindMenuItem_seen_on (fun a => rank a < rank this)%nat);
    [| |exact Ha].
  - intros x Hx. unfold AddMenu. rewrite append_lookup.
    rewrite decide_False by (intros ->; lia). reflexivity.
  - intros x impl y Hx Himpl Hy.
    apply list_elem_of_omap in Hy as (item & Hin & Hs).
    apply list_elem_of_lookup in Hin as [i Hi].
    destruct (Hr x impl i item y Himpl Hi Hs) as [_ Hlt]. lia.
Qed.

(** X11.  [AddMenu] and [AddSeparator] and the search.  The new item
    opens the submenu that was given, the same object and no copy of it.
    After [AddMenu] an identifier is looked for in the menu as it was and
    only then in the new submenu, so the getters return what they returned
    for the menu when something was found there, and what they return for
    the submenu otherwise.  [AddSeparator] changes nothing that the search
    or the getters return, asked of whatever menu.  Neither touches
    another item. *)
Theorem AddMenu_searches_submenu_last (s : Menus) (this sub : MenuPtr)
  (name : string) (itemId : ItemId) :
  made s -> (this < length s)%nat -> (sub < length s)%nat ->
  acyclic (AddMenu s this name sub) ->
  let s' := AddMenu s this name sub in
  exists (r rsub : option ItemPtr) (n fuel0 : nat),
    (fun impl => length (items_ impl)) <$> s !! this = Some n
    /\ item_at s' (this, n)
       = Some (mkMenuItem NO_ITEM name KEY_NONE (Some sub) true false false)
    /\ menu_at s' this [n] = Some sub
    /\ (forall q, q <> (this, n) ->
          item_at s' q = item_at s q
          /\ item_at (AddSeparator s this) q = item_at s q)
    /\ (forall fuel, (fuel0 <= fuel)%nat ->
          FindMenuItem fuel s this itemId = Some r
          /\ FindMenuItem fuel s sub itemId = Some rsub
          /\ FindMenuItem fuel s' this itemId
             = Some (match r with Some p => Some p | None => rsub end)
          /\ IsEnabled fuel s' this itemId
             = match r with
               | Some _ => IsEnabled fuel s this itemId
               | None => IsEnabled fuel s sub itemId
               end
          /\ IsChecked fuel s' this itemId
             = match r with
               | Some _ => IsChecked fuel s this itemId
               | None => IsChecked fuel s sub itemId
               end)
    /\ (forall fuel root other,
          FindMenuItem fuel (AddSeparator s this) root other
          = FindMenuItem fuel s root other
          /\ IsEnabled fuel (AddSeparator s this) root other
             = IsEnabled fuel s root other
          /\ IsChecked fuel (AddSeparator s this) root other
             = IsChecked fuel s root other)
    /\ made s' /\ made (AddSeparator s this).
Proof.
  intros Hmade Hthis Hsub Hacyclic s'. pose proof (made_wf s Hmade) as Hwf.
  destruct (s !! this) as [impl|] eqn:Himpl;
    [|apply lookup_ge_None in Himpl; lia].
  destruct (search_result s this itemId Hwf Hthis)
    as (r & fuel1 & Hr & _ & _).
  destruct (search_result s sub itemId Hwf Hsub)
    as (rsub & fuel2 & Hrsub & _ & _).
  exists r, rsub, (length (items_ impl)), (S (fuel1 + fuel2)).
  set (item := mkMenuItem NO_ITEM name KEY_NONE (Some sub) true false false).
  set (sep := mkMenuItem NO_ITEM ""%string KEY_NONE None false false true).
  assert (Hnew : item_at s' (this, length (items_ impl)) = Some item).
  { apply (item_at_append_new _ item this s impl Himpl). }
  assert (Hold : forall q, q <> (this, length (items_ impl)) ->
            item_at s' q = item_at s q).
  { intros q Hq. apply (item_at_append _ item this s impl q Himpl Hq). }
  assert (Hold' : forall q, q <> (this, length (items_ impl)) ->
            item_at (AddSeparator s this) q = item_at s q).
  { intros q Hq. apply (item_at_append _ sep this s impl q Himpl Hq). }
  assert (Hvalid : forall fuel root other q,
            FindMenuItem fuel s root other = Some (Some q) ->
            q <> (this, length (items_ impl))).
  { intros fuel root other q Hq ->.
    destruct (found_item s fuel root other _ Hwf Hq) as (t & Ht & _).
    unfold item_at in Ht. simpl in Ht. rewrite Himpl in Ht.
    apply lookup_lt_Some in Ht. lia. }
  assert (Hfind : forall fuel, (S (fuel1 + fuel2) <= fuel)%nat ->
            FindMenuItem fuel s' this itemId
            = Some (match r with Some p => Some p | None => rsub end)).
  { intros [|fuel] Hle; [lia|].
    pose proof (Hr (S fuel) ltac:(lia)) as Hr1.
    rewrite FindMenuItem_unfold in Hr1 |- *. rewrite Himpl in Hr1.
    subst s'. unfold AddMenu at 1. rewrite append_lookup.
    rewrite decide_True, Himpl by reflexivity. simpl.
    destruct (id2idx_ impl !! itemId) as [idx|] eqn:Hidx.
    - destruct (items_ impl !! idx) as [it|] eqn:Hit; [|discriminate].
      rewrite (lookup_app_l_Some _ _ _ _ Hit).
      inversion Hr1; subst r. reflexivity.
    - destruct Hacyclic as [rank Hrank].
      assert (Hedge : forall i it x,
                (items_ impl ++ [item]) !! i = Some it ->
                submenu_ it = Some x -> (rank x < rank this)%nat).
      { intros i it x Hi Hx.
        refine (proj2 (Hrank this (mkImpl (items_ impl ++ [item])
                                          (id2idx_ impl)) i it x _ Hi Hx)).
        unfold AddMenu. rewrite append_lookup.
        rewrite decide_True, Himpl by reflexivity. reflexivity. }
      rewrite in_submenus_app.
      rewrite (in_submenus_ext fuel (AddMenu s this name sub) s itemId
                 (items_ impl) (items_ impl) eq_refl).
      2:{ intros x Hx. apply (FindMenuItem_below rank); [exact Hrank|].
          apply list_elem_of_omap in Hx as (it & Hin & Hs).
          apply list_elem_of_lookup in Hin as [i Hi].
          apply (Hedge i it x); [|exact Hs].
          apply lookup_app_l_Some. exact Hi. }
      rewrite Hr1. destruct r as [p|]; [reflexivity|].
      simpl.
      assert (Hlt : (rank sub < rank this)%nat).
      { apply (Hedge (length (items_ impl)) item sub); [|reflexivity].
        rewrite lookup_app_r, Nat.sub_diag by lia. reflexivity. }
      rewrite (FindMenuItem_below rank s this name sub itemId Hrank fuel sub
                 Hlt).
      rewrite (Hrsub fuel ltac:(lia)). destruct rsub; reflexivity. }
  assert (Hsep : forall fuel root other,
            FindMenuItem fuel (AddSeparator s this) root other
            = FindMenuItem fuel s root other).
  { intros fuel root other. apply FindMenuItem_seen. intros a.
    apply (seen_append _ sep this s other a Hwf eq_refl). reflexivity. }
  split_and!; auto.
  - simpl. rewrite Hnew. reflexivity.
  - intros fuel Hle. split; [apply Hr; lia|]. split; [apply Hrsub; lia|].
    split; [apply Hfind, Hle|].
    unfold IsEnabled, IsChecked. rewrite (Hfind fuel Hle).
    rewrite (Hr fuel ltac:(lia)), (Hrsub fuel ltac:(lia)).
    destruct r as [p|].
    + rewrite (Hold p); [auto|].
      apply (Hvalid fuel this itemId), Hr. lia.
    + destruct rsub as [p|]; [|auto].
      rewrite (Hold p); [auto|].
      apply (Hvalid fuel sub itemId), Hrsub. lia.
  - intros fuel root other. unfold IsEnabled, IsChecked. rewrite Hsep.
    split; [reflexivity|].
    destruct (FindMenuItem fuel s root other) as [[q|]|] eqn:Hq; auto.
    rewrite (Hold' q); [auto|]. apply (Hvalid fuel root other), Hq.
  - apply made_AddMenu; assumption.
  - apply made_AddSeparator; assumption.
Qed.

Lemma AddMenu_searches_submenu_last_witness :
  let s' := AddMenu checked_menus 1 "Pinned" 2 in
  menu_at s' 1 [2]%nat = Some 2%nat
  /\ FindMenuItem 3 s' 1 2 = Some (Some (1, 0)%nat)
  /\ FindMenuItem 3 s' 1 7 = Some (Some (2, 0)%nat)
  /\ IsChecked 3 s' 1 7 = Some true.
Proof.
  intros s'.
  assert (Hacyclic : acyclic (AddMenu checked_menus 1 "Pinned" 2)).
  { exists (fun a => (3 - a)%nat). apply rankedb_ranked. reflexivity. }
  destruct (AddMenu_searches_submenu_last checked_menus 1%nat 2%nat
              "Pinned" 2 checked_menus_made ltac:(vm_compute; lia)
              ltac:(vm_compute; lia) Hacyclic)
    as (r & rsub & n & fuel0 & Hn & _ & Hopen & _ & Hrun & _).
  destruct (AddMenu_searches_submenu_last checked_menus 1%nat 2%nat
              "Pinned" 7 checked_menus_made ltac:(vm_compute; lia)
              ltac:(vm_compute; lia) Hacyclic)
    as (r' & rsub' & n' & fuel0' & _ & _ & _ & _ & Hrun' & _).
  vm_compute in Hn. inversion Hn; subst n.
  split; [exact Hopen|].
  split; [vm_compute; reflexivity|].
  split; [vm_compute; reflexivity|].
  vm_compute. reflexivity.
Defined.

End MenuProperties.

(** ** The tree of a menu, and drawing *)

Module MenuTreeProperties.
Import Menu MenuTree.

Lemma item_at_cons (m : Impl) (i : nat) (p : ItemPtr) :
  p <> [] ->
  item_at m (i :: p) =
  item ← items_ m !! i; sub ← submenu_ item; item_at sub p.
Proof.
  intros Hp. destruct p as [|j p]; [congruence|]. simpl.
  destruct (items_ m !! i) as [item|]; [|reflexivity]. simpl.
  destruct (submenu_ item); reflexivity.
Qed.

Lemma item_at_nonempty (m : Impl) (p : ItemPtr) (item : MenuItem) :
  item_at m p = Some item -> p <> [].
Proof. destruct p; simpl; congruence. Qed.

Lemma depth_submenu (m : Impl) (i : nat) (item : MenuItem) (sub : Impl) :
  items_ m !! i = Some item -> submenu_ item = Some sub ->
  (depth sub < depth m)%nat.
Proof.
  destruct m as [items idx]. simpl. revert i.
  induction items as [|it rest IH]; intros i Hi Hs.
  - rewrite lookup_nil in Hi. discriminate.
  - destruct i as [|i]; simpl in Hi.
    + inversion Hi; subst it. rewrite Hs. lia.
    + specialize (IH i Hi Hs). lia.
Qed.

(** Induction on the tree of menus. *)
Lemma menu_ind (P : Impl -> Prop) :
  (forall m,
     (forall i item sub, items_ m !! i = Some item ->
        submenu_ item = Some sub -> P sub) -> P m) ->
  forall m, P m.
Proof.
  intros Hstep m. remember (depth m) as n eqn:Hn. revert m Hn.
  induction n as [n IH] using lt_wf_ind. intros m Hn. apply Hstep.
  intros i item sub Hi Hs. apply (IH (depth sub)); [|reflexivity].
  subst n. eapply depth_submenu; eauto.
Qed.

Lemma Draw_unfold (ui : Interaction) (m : Impl) (path : ItemPtr) :
  Draw ui m path
  = if begin_menu ui path then draw_items ui path (items_ m) 0%nat NO_ITEM
    else NO_ITEM.
Proof.
  destruct m as [items idx]. simpl.
  destruct (begin_menu ui path); [|reflexivity].
  generalize NO_ITEM at 2 3. generalize 0%nat.
  induction items as [|item rest IH]; intros i acc; simpl.
  - reflexivity.
  - rewrite IH. reflexivity.
Qed.

(** What the loop of [Draw] returns: the identifier it started with, or
    that of an item of the list for which [MenuItem] returned true, or what
    the [Draw] of a submenu of the list returned. *)
Lemma draw_items_result (ui : Interaction) (path : ItemPtr)
  (items : list MenuItem) :
  forall (i : nat) (acc : ItemId),
    draw_items ui path items i acc = acc
    \/ exists j item,
         items !! j = Some item /\ is_separator_ item = false
         /\ match submenu_ item with
            | Some sub =>
                draw_items ui path items i acc
                = Draw ui sub (path ++ [(i + j)%nat])
                /\ Draw ui sub (path ++ [(i + j)%nat]) <> NO_ITEM
            | None =>
                draw_items ui path items i acc = id_ item
                /\ menu_item ui (path ++ [(i + j)%nat]) = true
            end.
Proof.
  induction items as [|item rest IH]; intros i acc; simpl; [auto|].
  set (acc' := if is_separator_ item then acc else _).
  destruct (IH (S i) acc') as [Hacc|(j & it & Hj & Hsep & Hres)].
  - rewrite Hacc. subst acc'.
    destruct (is_separator_ item) eqn:Hsep; [auto|].
    destruct (submenu_ item) as [sub|] eqn:Hsub.
    + destruct (Z.eqb_spec (Draw ui sub (path ++ [i])) NO_ITEM) as [He|Hne];
        [auto|].
      right. exists 0%nat, item. rewrite Hsub, Nat.add_0_r. auto.
    + destruct (menu_item ui (path ++ [i])) eqn:Hclick; [|auto].
      right. exists 0%nat, item. rewrite Hsub, Nat.add_0_r. auto.
  - right. exists (S j), it.
    replace (i + S j)%nat with (S i + j)%nat by lia. auto.
Qed.


(** The item at a position below the submenu that item [i] opens. *)
Lemma item_at_below (m : Impl) (i : nat) (item : MenuItem) (sub : Impl)
  (p : ItemPtr) (target : MenuItem) :
  items_ m !! i = Some item -> submenu_ item = Some sub ->
  item_at sub p = Some target ->
  item_at m (i :: p) = Some target.
Proof.
  intros Hi Hs Hp.
  rewrite item_at_cons by (eapply item_at_nonempty; eauto).
  rewrite Hi. simpl. rewrite Hs. simpl. exact Hp.
Qed.

(** What [Draw] returns is [NO_ITEM] or the identifier of a clicked item
    below open menus. *)
Lemma Draw_result (ui : Interaction) (m : Impl) :
  forall path,
    Draw ui m path = NO_ITEM
    \/ exists p target,
         item_at m p = Some target /\ plain target
         /\ id_ target = Draw ui m path
         /\ menu_item ui (path ++ p) = true
         /\ forall k, (k < length p)%nat ->
              begin_menu ui (path ++ take k p) = true.
Proof.
  induction m as [m IH] using menu_ind.
  intros path. rewrite Draw_unfold.
  destruct (begin_menu ui path) eqn:Hopen; [|auto].
  destruct (draw_items_result ui path (items_ m) 0 NO_ITEM)
    as [Hacc|(j & item & Hj & Hsep & Hres)]; [auto|].
  change (0 + j)%nat with j in Hres.
  destruct (submenu_ item) as [sub|] eqn:Hsub.
  - destruct Hres as [Hres Hne].
    destruct (IH j item sub Hj Hsub (path ++ [j]))
      as [Hnone|(p & target & Hp & Hplain & Hid & Hclick & Hopens)];
      [congruence|].
    right. exists (j :: p), target. split_and!.
    + eapply item_at_below; eauto.
    + exact Hplain.
    + congruence.
    + rewrite <- Hclick. f_equal. rewrite <- app_assoc. reflexivity.
    + intros k Hk. destruct k as [|k].
      * simpl. rewrite app_nil_r. exact Hopen.
      * simpl in Hk. simpl take.
        replace (path ++ j :: take k p) with ((path ++ [j]) ++ take k p)
          by (rewrite <- app_assoc; reflexivity).
        apply Hopens. lia.
  - destruct Hres as [Hres Hclick].
    right. exists [j], item. split_and!; auto.
    + split; assumption.
    + intros k Hk. simpl in Hk. replace k with 0%nat by lia.
      simpl. rewrite app_nil_r. exact Hopen.
Qed.

(** *** The menus and their trees

    Every menu a program can make has a tree, and [Menu::Draw] and
    [Menu::DrawMenuBar] return for the menu what the functions on trees
    return for its tree. *)

Lemma tree_of_unfold (fuel : nat) (s : list Menu.Impl) (this : nat) :
  tree_of (S fuel) s this
  = match s !! this with
    | None => None
    | Some impl =>
        match mapM (fun item =>
                      match Menu.submenu_ item with
                      | Some sub =>
                          match tree_of fuel s sub with
                          | Some m => Some (tree_item item (Some m))
                          | None => None
                          end
                      | None => Some (tree_item item None)
                      end) (Menu.items_ impl) with
        | Some items => Some (mkImpl items (Menu.id2idx_ impl))
        | None => None
        end
    end.
Proof. reflexivity. Qed.

Lemma tree_of_returns (s : list Menu.Impl) :
  wf s ->
  exists fuel0, forall (fuel : nat) (this : nat),
    (fuel0 <= fuel)%nat -> (this < length s)%nat ->
    is_Some (tree_of fuel s this).
Proof.
  intros [_ [rank Hr]].
  exists (S (max_list (rank <$> seq 0 (length s)))).
  intros fuel this Hfuel Hthis.
  assert (Hrank : (rank this < fuel)%nat).
  { assert (rank this <= max_list (rank <$> seq 0 (length s)))%nat; [|lia].
    apply max_list_elem_of_le, list_elem_of_fmap.
    exists this. split; [reflexivity|]. apply elem_of_seq. lia. }
  clear Hfuel. revert this Hthis Hrank.
  induction fuel as [|fuel IH]; intros this Hthis Hrank; [lia|].
  rewrite tree_of_unfold.
  destruct (s !! this) as [impl|] eqn:Himpl;
    [|apply lookup_ge_None in Himpl; lia].
  match goal with
  | |- is_Some (match mapM ?f ?l with _ => _ end) =>
      assert (Hall : is_Some (mapM f l))
  end.
  { apply mapM_is_Some, Forall_lookup. intros i item Hi. simpl.
    destruct (Menu.submenu_ item) as [sub|] eqn:Hs; [|eauto].
    destruct (Hr this impl i item sub Himpl Hi Hs) as [Hin Hlt].
    destruct (IH sub Hin ltac:(lia)) as [m Hm]. rewrite Hm. eauto. }
  destruct Hall as [items ->]. eauto.
Qed.

Lemma Draw_menu_unfold (fuel : nat) (ui : Interaction) (s : list Menu.Impl)
  (this : nat) (path : list nat) :
  Menu.Draw (S fuel) ui s this path
  = match s !! this with
    | None => None
    | Some impl =>
        if begin_menu ui path
        then Menu.draw_items fuel ui s path (Menu.items_ impl) 0%nat NO_ITEM
        else Some NO_ITEM
    end.
Proof.
  simpl. destruct (s !! this) as [impl|]; [|reflexivity].
  destruct (begin_menu ui path); [|reflexivity].
  generalize NO_ITEM at 2 3. generalize 0%nat.
  induction (Menu.items_ impl) as [|item rest IH]; intros i acc; simpl.
  - reflexivity.
  - destruct (Menu.is_separator_ item); [apply IH|].
    destruct (Menu.submenu_ item) as [sub|]; [|apply IH].
    destruct (Menu.Draw fuel ui s sub (path ++ [i])); [apply IH|reflexivity].
Qed.

Lemma Draw_tree (ui : Interaction) (s : list Menu.Impl) :
  forall (fuel : nat) (this : nat) (m : Impl) (path : list nat),
    tree_of fuel s this = Some m ->
    Menu.Draw fuel ui s this path = Some (Draw ui m path).
Proof.
  induction fuel as [|fuel IH]; intros this m path Hm; [discriminate|].
  rewrite tree_of_unfold in Hm. rewrite Draw_menu_unfold, Draw_unfold.
  destruct (s !! this) as [impl|]; [|discriminate].
  destruct (mapM _ (Menu.items_ impl)) as [items|] eqn:Hitems;
    [|discriminate].
  inversion Hm; subst m. clear Hm. simpl.
  destruct (begin_menu ui path); [|reflexivity].
  apply mapM_Some in Hitems.
  generalize NO_ITEM. generalize 0%nat.
  induction Hitems as [|item0 item rest0 rest Hitem Hrest IHrest];
    intros i acc; [reflexivity|].
  simpl.
  destruct (Menu.submenu_ item0) as [sub0|] eqn:Hs0.
  - destruct (tree_of fuel s sub0) as [m0|] eqn:Hm0; [|discriminate].
    inversion Hitem; subst item. simpl.
    rewrite (IH sub0 m0 (path ++ [i]) Hm0).
    destruct (Menu.is_separator_ item0); apply IHrest.
  - inversion Hitem; subst item. simpl.
    destruct (Menu.is_separator_ item0); apply IHrest.
Qed.

Lemma DrawMenuBar_tree (ui : Interaction) (s : list Menu.Impl) (fuel : nat)
  (this : nat) (m : Impl) :
  tree_of (S fuel) s this = Some m ->
  Menu.DrawMenuBar fuel ui s this = Some (DrawMenuBar ui m).
Proof.
  intros Hm. rewrite tree_of_unfold in Hm.
  unfold Menu.DrawMenuBar, DrawMenuBar.
  destruct (s !! this) as [impl|]; [|discriminate].
  destruct (mapM _ (Menu.items_ impl)) as [items|] eqn:Hitems;
    [|discriminate].
  inversion Hm; subst m. clear Hm. simpl.
  apply mapM_Some in Hitems.
  generalize NO_ITEM. generalize 0%nat.
  induction Hitems as [|item0 item rest0 rest Hitem Hrest IHrest];
    intros i acc; [reflexivity|].
  simpl.
  destruct (Menu.submenu_ item0) as [sub0|] eqn:Hs0.
  - destruct (tree_of fuel s sub0) as [m0|] eqn:Hm0; [|discriminate].
    inversion Hitem; subst item. simpl.
    rewrite (Draw_tree ui s fuel sub0 m0 [i] Hm0). apply IHrest.
  - inversion Hitem; subst item. simpl. apply IHrest.
Qed.

(** Every menu of menus so made has a tree. *)
Lemma made_tree (s : list Menu.Impl) (this : nat) :
  made s -> (this < length s)%nat ->
  exists fuel m, tree_of fuel s this = Some m /\ built m.
Proof.
  intros Hmade Hthis.
  destruct (tree_of_returns s (MenuProperties.made_wf s Hmade))
    as [fuel Hfuel].
  destruct (Hfuel fuel this (le_n _) Hthis) as [m Hm].
  exists fuel, m. split; [exact Hm|]. exists s, this, fuel. auto.
Qed.

Lemma checked_menu_built : built checked_menu.
Proof.
  exists checked_menus, 0%nat, 3%nat.
  split; [exact MenuProperties.checked_menus_made|].
  vm_compute. reflexivity.
Qed.

(** X6.  [Menu::Draw] returns [NO_ITEM] when [BeginMenu] returns false, and
    otherwise [NO_ITEM] or the identifier of an item that was clicked: an
    item of this menu or of a submenu at any depth, which is no separator
    and opens no submenu, for which [MenuItem] returned true and all of
    whose enclosing menus were open.  So a pass in which no [MenuItem] call
    returns true activates nothing.  (This is said of the tree [m]; for
    every menu whose tree is [m], [Menu.Draw] returns what is returned for
    [m].) *)
Theorem Draw_reports_clicked (ui : Interaction) (m : Impl) (path : ItemPtr) :
  (begin_menu ui path = false -> Draw ui m path = NO_ITEM)
  /\ (Draw ui m path = NO_ITEM
      \/ exists p target,
           item_at m p = Some target /\ plain target
           /\ id_ target = Draw ui m path
           /\ menu_item ui (path ++ p) = true
           /\ forall k, (k < length p)%nat ->
                begin_menu ui (path ++ take k p) = true)
  /\ ((forall p, menu_item ui p = false) -> Draw ui m path = NO_ITEM)
  /\ (forall s this fuel,
        tree_of fuel s this = Some m ->
        Menu.Draw fuel ui s this path = Some (Draw ui m path)).
Proof.
  split_and!.
  - intros Hclosed. rewrite Draw_unfold, Hclosed. reflexivity.
  - apply Draw_result.
  - intros Hnone. destruct (Draw_result ui m path)
      as [H|(p & target & _ & _ & _ & Hclick & _)]; [exact H|].
    rewrite Hnone in Hclick. discriminate.
  - intros s this fuel Hm. apply Draw_tree, Hm.
Qed.

Lemma draw_items_app (ui : Interaction) (path : ItemPtr)
  (pre rest : list MenuItem) :
  forall (i : nat) (acc : ItemId),
    draw_items ui path (pre ++ rest) i acc
    = draw_items ui path rest (i + length pre)
                 (draw_items ui path pre i acc).
Proof.
  induction pre as [|item pre IH]; intros i acc; simpl.
  - rewrite Nat.add_0_r. reflexivity.
  - rewrite IH. f_equal. lia.
Qed.

(** Items none of which is clicked, and below none of which an item is
    activated, leave the identifier as it is. *)
Lemma draw_items_idle (ui : Interaction) (path : ItemPtr)
  (items : list MenuItem) :
  forall (i : nat) (acc : ItemId),
    (forall j item, items !! j = Some item -> is_separator_ item = false ->
       match submenu_ item with
       | Some sub => Draw ui sub (path ++ [(i + j)%nat]) = NO_ITEM
       | None => menu_item ui (path ++ [(i + j)%nat]) = false
       end) ->
    draw_items ui path items i acc = acc.
Proof.
  induction items as [|item rest IH]; intros i acc Hidle; simpl; [auto|].
  rewrite IH.
  - pose proof (Hidle 0%nat item eq_refl) as H0. rewrite Nat.add_0_r in H0.
    destruct (is_separator_ item); [reflexivity|]. specialize (H0 eq_refl).
    destruct (submenu_ item) as [sub|].
    + rewrite H0, Z.eqb_refl. reflexivity.
    + rewrite H0. reflexivity.
  - intros j it Hj Hsep. specialize (Hidle (S j) it Hj Hsep).
    replace (S i + j)%nat with (i + S j)%nat by lia. exact Hidle.
Qed.

(** In the tree of a menu a program can make, the items that open a
    submenu are no separators and their submenus are such trees too. *)
Lemma built_submenu (m : Impl) :
  built m ->
  forall i item sub, items_ m !! i = Some item -> submenu_ item = Some sub ->
    built sub /\ is_separator_ item = false.
Proof.
  intros (s & this & fuel & Hmade & Htree) i item sub Hi Hs.
  destruct fuel as [|fuel]; [discriminate|]. simpl in Htree.
  destruct (s !! this) as [impl|] eqn:Himpl; [|discriminate].
  destruct (mapM _ (Menu.items_ impl)) as [items|] eqn:Hitems;
    [|discriminate].
  inversion Htree; subst m. simpl in Hi.
  apply mapM_Some in Hitems.
  destruct (Forall2_lookup_r _ _ _ _ _ Hitems Hi) as (item0 & Hi0 & Hitem0).
  destruct (Menu.submenu_ item0) as [sub0|] eqn:Hs0.
  - destruct (tree_of fuel s sub0) as [m0|] eqn:Hm0; [|discriminate].
    inversion Hitem0; subst item. simpl in Hs. inversion Hs; subst m0.
    split.
    + exists s, sub0, fuel. auto.
    + simpl.
      apply (MenuProperties.opener_separator s this impl i item0);
        [apply MenuProperties.made_wf, Hmade|exact Himpl|exact Hi0|].
      rewrite Hs0. eauto.
  - inversion Hitem0; subst item. discriminate.
Qed.

(** A single click, on the tree. *)
Lemma Draw_single_click (ui : Interaction) (m : Impl)
  (path p : ItemPtr) (target : MenuItem) :
  built m ->
  item_at m p = Some target -> plain target ->
  (forall q, menu_item ui q = true <-> q = path ++ p) ->
  (forall k, (k < length p)%nat -> begin_menu ui (path ++ take k p) = true) ->
  Draw ui m path = id_ target.
Proof.
  revert path p. induction m as [m IH] using menu_ind.
  intros path p Hbuilt Hp [Hleaf Hsep] Hclick Hopen.
  destruct p as [|j p]; [discriminate|].
  rewrite Draw_unfold.
  pose proof (Hopen 0%nat ltac:(simpl; lia)) as H0. simpl in H0.
  rewrite app_nil_r in H0. rewrite H0.
  (* no other item of this menu contributes *)
  assert (Hidle : forall j' item, j' <> j -> items_ m !! j' = Some item ->
            is_separator_ item = false ->
            match submenu_ item with
            | Some sub => Draw ui sub (path ++ [j']) = NO_ITEM
            | None => menu_item ui (path ++ [j']) = false
            end).
  { intros j' item Hne Hj' _. destruct (submenu_ item) as [sub|] eqn:Hsub.
    - destruct (Draw_result ui sub (path ++ [j']))
        as [Hnone|(q & _ & _ & _ & _ & Hq & _)]; [exact Hnone|].
      apply Hclick in Hq. rewrite <- app_assoc in Hq.
      apply app_inv_head in Hq. simpl in Hq. congruence.
    - destruct (menu_item ui (path ++ [j'])) eqn:Hq; [|reflexivity].
      apply Hclick in Hq. apply app_inv_head in Hq. congruence. }
  assert (Hj : exists item, items_ m !! j = Some item).
  { destruct p as [|k p]; simpl in Hp.
    - eauto.
    - destruct (items_ m !! j); [eauto|discriminate]. }
  destruct Hj as [item Hj].
  pose proof (take_drop_middle _ _ _ Hj) as Hsplit.
  pose proof (lookup_lt_Some _ _ _ Hj) as Hlt.
  rewrite <- Hsplit, draw_items_app. cbn [draw_items].
  rewrite length_take, Nat.min_l by lia. simpl (0 + j)%nat.
  rewrite (draw_items_idle ui path (take j (items_ m))).
  2:{ intros j' it Hj' Hs. rewrite lookup_take_Some in Hj'.
      destruct Hj' as [Hj' Hlt']. simpl. apply Hidle; auto. lia. }
  rewrite draw_items_idle.
  2:{ intros j' it Hj' Hs. rewrite lookup_drop in Hj'.
      replace (S j + j')%nat with (S j + j')%nat by lia.
      apply Hidle; auto. lia. }
  destruct (decide (p = [])) as [->|Hne].
  - simpl in Hp. rewrite Hj in Hp. inversion Hp; subst item.
    rewrite Hsep, Hleaf.
    rewrite (proj2 (Hclick (path ++ [j])) eq_refl). reflexivity.
  - rewrite item_at_cons in Hp by exact Hne. rewrite Hj in Hp. simpl in Hp.
    destruct (submenu_ item) as [sub|] eqn:Hsub; [|discriminate].
    simpl in Hp.
    destruct (built_submenu m Hbuilt j item sub Hj Hsub) as [Hbsub Hisep].
    assert (Hdraw : Draw ui sub (path ++ [j]) = id_ target).
    { apply (IH j item sub Hj Hsub (path ++ [j]) p Hbsub Hp
                (conj Hleaf Hsep)).
      - intros q. rewrite Hclick, <- app_assoc. reflexivity.
      - intros k Hk. rewrite <- app_assoc.
        apply (Hopen (S k)). simpl. lia. }
    rewrite Hdraw, Hisep.
    destruct (Z.eqb_spec (id_ target) NO_ITEM) as [He|Hn]; congruence.
Qed.

(** X7.  A pass in which [MenuItem] returns true for one item only, an item
    made by [AddItem] all of whose enclosing menus are open, makes [Draw]
    return the identifier of that item, at whatever depth it lies.  (This
    is said of the tree [m]; for every menu whose tree is [m], [Menu.Draw]
    returns the same.) *)
Theorem Draw_reports_single_click (ui : Interaction) (m : Impl)
  (path p : ItemPtr) (target : MenuItem) :
  built m ->
  item_at m p = Some target -> plain target ->
  (forall q, menu_item ui q = true <-> q = path ++ p) ->
  (forall k, (k < length p)%nat -> begin_menu ui (path ++ take k p) = true) ->
  Draw ui m path = id_ target
  /\ (forall s this fuel,
        tree_of fuel s this = Some m ->
        Menu.Draw fuel ui s this path = Some (id_ target)).
Proof.
  intros Hbuilt Hp Hplain Hclick Hopen.
  pose proof (Draw_single_click ui m path p target Hbuilt Hp Hplain Hclick
                Hopen) as Hdraw.
  split; [exact Hdraw|].
  intros s this fuel Hm. rewrite <- Hdraw. apply Draw_tree, Hm.
Qed.


Lemma draw_bar_result (ui : Interaction) (items : list MenuItem) :
  forall (i : nat) (acc : ItemId),
    draw_bar ui items i acc = acc
    \/ exists j item sub,
         items !! j = Some item /\ submenu_ item = Some sub
         /\ draw_bar ui items i acc = Draw ui sub [(i + j)%nat]
         /\ 0 <= Draw ui sub [(i + j)%nat].
Proof.
  induction items as [|item rest IH]; intros i acc; simpl; [auto|].
  set (acc' := match submenu_ item with Some _ => _ | None => acc end).
  destruct (IH (S i) acc') as [Hacc|(j & it & sub & Hj & Hs & Hres)].
  - rewrite Hacc. subst acc'. destruct (submenu_ item) as [sub|] eqn:Hsub;
      [|auto].
    destruct (Z.leb_spec 0 (Draw ui sub [i])) as [Hle|Hlt]; [|auto].
    right. exists 0%nat, item, sub. rewrite Nat.add_0_r. auto.
  - right. exists (S j), it, sub.
    replace (i + S j)%nat with (S i + j)%nat by lia. auto.
Qed.

Lemma draw_bar_app (ui : Interaction) (pre rest : list MenuItem) :
  forall (i : nat) (acc : ItemId),
    draw_bar ui (pre ++ rest) i acc
    = draw_bar ui rest (i + length pre) (draw_bar ui pre i acc).
Proof.
  induction pre as [|item pre IH]; intros i acc; simpl.
  - rewrite Nat.add_0_r. reflexivity.
  - rewrite IH. f_equal. lia.
Qed.

Lemma draw_bar_idle (ui : Interaction) (items : list MenuItem) :
  forall (i : nat) (acc : ItemId),
    (forall j item sub, items !! j = Some item -> submenu_ item = Some sub ->
       Draw ui sub [(i + j)%nat] < 0) ->
    draw_bar ui items i acc = acc.
Proof.
  induction items as [|item rest IH]; intros i acc Hidle; simpl; [auto|].
  rewrite IH.
  - destruct (submenu_ item) as [sub|] eqn:Hsub; [|reflexivity].
    pose proof (Hidle 0%nat item sub eq_refl Hsub) as H0.
    rewrite Nat.add_0_r in H0.
    destruct (Z.leb_spec 0 (Draw ui sub [i])); [lia|reflexivity].
  - intros j it sub Hj Hs. specialize (Hidle (S j) it sub Hj Hs).
    replace (S i + j)%nat with (i + S j)%nat by lia. exact Hidle.
Qed.

(** X8.  [Menu::DrawMenuBar] draws only the items of the bar that open a
    submenu.  It returns [NO_ITEM] or a non-negative identifier, that of a
    clicked item inside one of these submenus: an item of the bar itself
    is never reported, and neither is a clicked item whose identifier is
    negative.  A bar none of whose items opens a submenu reports
    [NO_ITEM] whatever is clicked.  (This is said of the tree [m]; for
    every menu whose tree is [m], [Menu.DrawMenuBar] returns what is
    returned for [m].) *)
Theorem DrawMenuBar_reports_clicked (ui : Interaction) (m : Impl) :
  (DrawMenuBar ui m = NO_ITEM
   \/ 0 <= DrawMenuBar ui m
      /\ exists i item sub p target,
           items_ m !! i = Some item /\ submenu_ item = Some sub
           /\ item_at sub p = Some target /\ plain target
           /\ id_ target = DrawMenuBar ui m
           /\ menu_item ui (i :: p) = true)
  /\ ((forall i item, items_ m !! i = Some item -> submenu_ item = None) ->
      DrawMenuBar ui m = NO_ITEM)
  /\ (forall s this fuel,
        tree_of (S fuel) s this = Some m ->
        Menu.DrawMenuBar fuel ui s this = Some (DrawMenuBar ui m)).
Proof.
  split_and!; [| |intros s this fuel Hm; apply DrawMenuBar_tree, Hm];
    unfold DrawMenuBar.
  - destruct (draw_bar_result ui (items_ m) 0 NO_ITEM)
      as [Hacc|(j & item & sub & Hj & Hs & Hres & Hpos)]; [auto|].
    change (0 + j)%nat with j in Hres, Hpos.
    destruct (Draw_result ui sub [j])
      as [Hnone|(p & target & Hp & Hplain & Hid & Hclick & _)].
    + left. congruence.
    + right. split; [congruence|].
      exists j, item, sub, p, target. split_and!; auto. congruence.
  - intros Hflat. apply draw_bar_idle. intros j item sub Hj Hs.
    rewrite (Hflat j item Hj) in Hs. discriminate.
Qed.



Lemma Draw_reports_clicked_witness :
  Draw (mkInteraction (fun _ => false) (fun _ => true)) sample_menu []
  = NO_ITEM
  /\ Draw (mkInteraction (fun _ => true) (fun _ => false)) sample_menu []
     = NO_ITEM.
Proof.
  destruct (Draw_reports_clicked
              (mkInteraction (fun _ => false) (fun _ => true)) sample_menu [])
    as (Hclosed & _ & _).
  destruct (Draw_reports_clicked
              (mkInteraction (fun _ => true) (fun _ => false)) sample_menu [])
    as (_ & _ & Hidle).
  split; [apply Hclosed|apply Hidle; intros p]; reflexivity.
Defined.

Lemma Draw_reports_single_click_witness :
  Draw (click_at [2; 1; 0]%nat) checked_menu [] = 7
  /\ Menu.Draw 3 (click_at [2; 1; 0]%nat) checked_menus 0 [] = Some 7.
Proof.
  destruct (Draw_reports_single_click (click_at [2; 1; 0]%nat) checked_menu
              [] [2; 1; 0]%nat
              (mkMenuItem 7 "Pin" KEY_NONE None true true false))
    as [Htree Hmenu].
  - exact checked_menu_built.
  - reflexivity.
  - split; reflexivity.
  - intros q. simpl. apply bool_decide_eq_true.
  - intros k Hk. reflexivity.
  - split; [exact Htree|]. apply Hmenu. vm_compute. reflexivity.
Defined.

Lemma DrawMenuBar_reports_clicked_witness :
  DrawMenuBar (click_at [0]%nat) flat_menu = NO_ITEM.
Proof.
  destruct (DrawMenuBar_reports_clicked (click_at [0]%nat) flat_menu)
    as (_ & Hflat).
  apply Hflat. intros [|[|i]] item Hi; vm_compute in Hi; try discriminate;
    inversion Hi; reflexivity.
Defined.


End MenuTreeProperties.

(** ** The bridge *)

Module BridgeProperties.
Import Bridge.

Section Buffers.

Variable T : bool.

Lemma buffer_step_refl (st : State) : buffer_step T st st.
Proof. constructor; auto. Qed.

Lemma buffer_step_trans (st1 st2 st3 : State) :
  buffer_step T st1 st2 -> buffer_step T st2 st3 -> buffer_step T st1 st3.
Proof.
  intros [Hm1 Hr1 Hh1 Hv1 Hi1 Hs1 Hc1] [Hm2 Hr2 Hh2 Hv2 Hi2 Hs2 Hc2].
  constructor; try congruence; try lia. auto.
Qed.

(** An event that is neither a fence wait nor the making of a buffer. *)
Lemma buffer_step_emit (ev : Event) (st : State) :
  is_fence ev = false -> is_build ev = false -> scissor_instance ev = None ->
  buffer_step T st (emit ev st).
Proof.
  intros Hf Hb Hc. constructor; simpl; auto.
  - intros b0 f0. unfold sync_inv, fence_waits, buffers_built. simpl.
    rewrite Hf, Hb. auto.
  - unfold scissors_set. simpl. rewrite Hc. reflexivity.
Qed.

Lemma scissors_set_create (ev : Event) (olds : list Event) (st : State)
  (tr : list Event) :
  scissor_instance ev = None -> omap scissor_instance olds = [] ->
  omap scissor_instance (ev :: olds ++ fence_events T st ++ tr)
  = omap scissor_instance tr.
Proof.
  intros Hev Holds. simpl. rewrite Hev, !omap_app, Holds.
  unfold fence_events. destruct (T && negb (has_synced_ st)); reflexivity.
Qed.

Lemma createVertexBuffer_eq (i : nat) (capacity : Z) (st : State)
  (old : option VertexBuffer) :
  vertex_buffers_ st !! i = Some old ->
  createVertexBuffer T i capacity st =
  Some (mkState
          (<[i := Some (mkVertexBuffer (next_handle st) capacity)]>
             (vertex_buffers_ st))
          (index_buffers_ st) (material_instances_ st) (renderable_ st)
          (has_synced_ st || T) (S (next_handle st))
          (BuildVertexBuffer (mkVertexBuffer (next_handle st) capacity)
           :: old_vertex_events old ++ fence_events T st ++ trace st)).
Proof.
  intros Hold. unfold createVertexBuffer, syncThreads, fence_events.
  destruct st as [vs ixs ms r hs nh tr]. simpl in *.
  destruct T, hs; simpl; rewrite Hold; simpl; destruct old; reflexivity.
Qed.

Lemma createIndexBuffer_eq (i : nat) (capacity : Z) (st : State)
  (old : option IndexBuffer) :
  index_buffers_ st !! i = Some old ->
  createIndexBuffer T i capacity st =
  Some (mkState
          (vertex_buffers_ st)
          (<[i := Some (mkIndexBuffer (next_handle st) capacity)]>
             (index_buffers_ st))
          (material_instances_ st) (renderable_ st)
          (has_synced_ st || T) (S (next_handle st))
          (BuildIndexBuffer (mkIndexBuffer (next_handle st) capacity)
           :: old_index_events old ++ fence_events T st ++ trace st)).
Proof.
  intros Hold. unfold createIndexBuffer, syncThreads, fence_events.
  destruct st as [vs ixs ms r hs nh tr]. simpl in *.
  destruct T, hs; simpl; rewrite Hold; simpl; destruct old; reflexivity.
Qed.

Lemma filter_old_vertex_events (old : option VertexBuffer) :
  List.filter is_fence (old_vertex_events old) = []
  /\ List.filter is_build (old_vertex_events old) = [].
Proof. destruct old; auto. Qed.

Lemma filter_old_index_events (old : option IndexBuffer) :
  List.filter is_fence (old_index_events old) = []
  /\ List.filter is_build (old_index_events old) = [].
Proof. destruct old; auto. Qed.

Lemma sync_inv_create (b0 f0 : nat) (st : State) (ev : Event)
  (olds : list Event) (vs : list (option VertexBuffer))
  (ixs : list (option IndexBuffer)) :
  is_build ev = true -> is_fence ev = false ->
  List.filter is_fence olds = [] -> List.filter is_build olds = [] ->
  sync_inv T b0 f0 st ->
  sync_inv T b0 f0
    (mkState vs ixs (material_instances_ st) (renderable_ st)
             (has_synced_ st || T) (S (next_handle st))
             (ev :: olds ++ fence_events T st ++ trace st)).
Proof.
  intros Hb Hf Hof Hob (Hfence & Hle & Hsync).
  unfold sync_inv, fence_waits, buffers_built, fence_events in *. simpl.
  rewrite Hb, Hf, !List.filter_app, Hof, Hob. simpl.
  destruct T, (has_synced_ st); simpl in *; rewrite ?length_app; simpl;
    intuition (try lia; try congruence).
Qed.

Lemma createVertexBuffer_step (i : nat) (capacity : Z) (st st' : State) :
  createVertexBuffer T i capacity st = Some st' -> buffer_step T st st'.
Proof.
  intros Hc.
  destruct (vertex_buffers_ st !! i) as [old|] eqn:Hold.
  - rewrite (createVertexBuffer_eq _ _ _ _ Hold) in Hc.
    inversion Hc; subst st'; clear Hc.
    constructor; simpl; auto; try lia.
    + rewrite length_insert. lia.
    + intros b0 f0. apply sync_inv_create; auto;
        apply filter_old_vertex_events.
    + apply scissors_set_create; [reflexivity|]. destruct old; reflexivity.
  - unfold createVertexBuffer in Hc.
    assert (Hs : vertex_buffers_ (syncThreads T st) !! i = None).
    { unfold syncThreads. destruct T, (has_synced_ st); exact Hold. }
    rewrite Hs in Hc. discriminate.
Qed.

Lemma createIndexBuffer_step (i : nat) (capacity : Z) (st st' : State) :
  createIndexBuffer T i capacity st = Some st' -> buffer_step T st st'.
Proof.
  intros Hc.
  destruct (index_buffers_ st !! i) as [old|] eqn:Hold.
  - rewrite (createIndexBuffer_eq _ _ _ _ Hold) in Hc.
    inversion Hc; subst st'; clear Hc.
    constructor; simpl; auto; try lia.
    + rewrite length_insert. lia.
    + intros b0 f0. apply sync_inv_create; auto;
        apply filter_old_index_events.
    + apply scissors_set_create; [reflexivity|]. destruct old; reflexivity.
  - unfold createIndexBuffer in Hc.
    assert (Hs : index_buffers_ (syncThreads T st) !! i = None).
    { unfold syncThreads. destruct T, (has_synced_ st); exact Hold. }
    rewrite Hs in Hc. discriminate.
Qed.

Lemma createVertexBuffer_built (i : nat) (capacity : Z) (st st' : State) :
  vertex_buffers_ st !! i = Some None ->
  createVertexBuffer T i capacity st = Some st' ->
  buffers_built st' = S (buffers_built st)
  /\ buffers_destroyed st' = buffers_destroyed st.
Proof.
  intros Hold Hc. rewrite (createVertexBuffer_eq _ _ _ _ Hold) in Hc.
  inversion Hc; subst st'. unfold buffers_built, buffers_destroyed.
  simpl. unfold fence_events.
  destruct (T && negb (has_synced_ st)); simpl; auto.
Qed.

Lemma createIndexBuffer_built (i : nat) (capacity : Z) (st st' : State) :
  index_buffers_ st !! i = Some None ->
  createIndexBuffer T i capacity st = Some st' ->
  buffers_built st' = S (buffers_built st)
  /\ buffers_destroyed st' = buffers_destroyed st.
Proof.
  intros Hold Hc. rewrite (createIndexBuffer_eq _ _ _ _ Hold) in Hc.
  inversion Hc; subst st'. unfold buffers_built, buffers_destroyed.
  simpl. unfold fence_events.
  destruct (T && negb (has_synced_ st)); simpl; auto.
Qed.

(** The first loop of [createBuffers] fills the null slots at the end of
    [vertex_buffers_], whatever their number. *)
Lemma create_vertex_buffers_spec (n : nat) :
  forall (pre : list (option VertexBuffer)) (st : State),
    vertex_buffers_ st = pre ++ replicate n None ->
    exists st',
      create_vertex_buffers T (length pre) n st = Some st'
      /\ vertex_buffers_ st' = pre ++ new_vertex_slots (next_handle st) n
      /\ index_buffers_ st' = index_buffers_ st
      /\ next_handle st' = (next_handle st + n)%nat
      /\ buffers_built st' = (buffers_built st + n)%nat
      /\ buffers_destroyed st' = buffers_destroyed st
      /\ buffer_step T st st'.
Proof.
  induction n as [|n IH]; intros pre st Hvb.
  - exists st. simpl. rewrite app_nil_r, Nat.add_0_r in *.
    split_and!; auto using buffer_step_refl.
  - assert (Hold : vertex_buffers_ st !! length pre = Some None).
    { rewrite Hvb. apply list_lookup_middle. reflexivity. }
    simpl. pose proof (createVertexBuffer_eq (length pre) 1000 st _ Hold) as Hc.
    destruct (createVertexBuffer_built _ _ _ _ Hold Hc) as [Hb Hd].
    pose proof (createVertexBuffer_step _ _ _ _ Hc) as Hstep.
    rewrite Hc. simpl.
    set (st1 := mkState _ _ _ _ _ _ _) in *.
    assert (Hvb1 : vertex_buffers_ st1
                   = (pre ++ [Some (mkVertexBuffer (next_handle st) 1000)])
                     ++ replicate n None).
    { subst st1. simpl. rewrite Hvb.
      replace (length pre) with (length pre + 0)%nat by lia.
      rewrite insert_app_r. simpl. rewrite <- app_assoc. reflexivity. }
    destruct (IH _ st1 Hvb1) as (st' & Hrun & Hv' & Hi' & Hh' & Hb' & Hd' & Hs').
    exists st'. rewrite length_app in Hrun. simpl in Hrun.
    rewrite Nat.add_1_r in Hrun.
    split; [exact Hrun|]. split.
    { rewrite Hv'. unfold new_vertex_slots. simpl.
      rewrite <- app_assoc. reflexivity. }
    split; [rewrite Hi'; reflexivity|].
    split; [rewrite Hh'; simpl; lia|].
    split; [rewrite Hb', Hb; lia|].
    split; [rewrite Hd', Hd; reflexivity|].
    eapply buffer_step_trans; eauto.
Qed.

Lemma create_index_buffers_spec (n : nat) :
  forall (pre : list (option IndexBuffer)) (st : State),
    index_buffers_ st = pre ++ replicate n None ->
    exists st',
      create_index_buffers T (length pre) n st = Some st'
      /\ index_buffers_ st' = pre ++ new_index_slots (next_handle st) n
      /\ vertex_buffers_ st' = vertex_buffers_ st
      /\ next_handle st' = (next_handle st + n)%nat
      /\ buffers_built st' = (buffers_built st + n)%nat
      /\ buffers_destroyed st' = buffers_destroyed st
      /\ buffer_step T st st'.
Proof.
  induction n as [|n IH]; intros pre st Hib.
  - exists st. simpl. rewrite app_nil_r, Nat.add_0_r in *.
    split_and!; auto using buffer_step_refl.
  - assert (Hold : index_buffers_ st !! length pre = Some None).
    { rewrite Hib. apply list_lookup_middle. reflexivity. }
    simpl. pose proof (createIndexBuffer_eq (length pre) 5000 st _ Hold) as Hc.
    destruct (createIndexBuffer_built _ _ _ _ Hold Hc) as [Hb Hd].
    pose proof (createIndexBuffer_step _ _ _ _ Hc) as Hstep.
    rewrite Hc. simpl.
    set (st1 := mkState _ _ _ _ _ _ _) in *.
    assert (Hib1 : index_buffers_ st1
                   = (pre ++ [Some (mkIndexBuffer (next_handle st) 5000)])
                     ++ replicate n None).
    { subst st1. simpl. rewrite Hib.
      replace (length pre) with (length pre + 0)%nat by lia.
      rewrite insert_app_r. simpl. rewrite <- app_assoc. reflexivity. }
    destruct (IH _ st1 Hib1) as (st' & Hrun & Hi' & Hv' & Hh' & Hb' & Hd' & Hs').
    exists st'. rewrite length_app in Hrun. simpl in Hrun.
    rewrite Nat.add_1_r in Hrun.
    split; [exact Hrun|]. split.
    { rewrite Hi'. unfold new_index_slots. simpl.
      rewrite <- app_assoc. reflexivity. }
    split; [rewrite Hv'; reflexivity|].
    split; [rewrite Hh'; simpl; lia|].
    split; [rewrite Hb', Hb; lia|].
    split; [rewrite Hd', Hd; reflexivity|].
    eapply buffer_step_trans; eauto.
Qed.

(** [createBuffers] always returns; it appends the missing slots, made at
    the starting capacities, and touches nothing else. *)
Lemma createBuffers_spec (n : nat) (st : State) :
  let nv := (n - length (vertex_buffers_ st))%nat in
  let ni := (n - length (index_buffers_ st))%nat in
  exists st',
    createBuffers T n st = Some st'
    /\ vertex_buffers_ st'
       = vertex_buffers_ st ++ new_vertex_slots (next_handle st) nv
    /\ index_buffers_ st'
       = index_buffers_ st ++ new_index_slots (next_handle st + nv) ni
    /\ next_handle st' = (next_handle st + nv + ni)%nat
    /\ buffers_built st' = (buffers_built st + nv + ni)%nat
    /\ buffers_destroyed st' = buffers_destroyed st
    /\ buffer_step T st st'.
Proof.
  intros nv ni. unfold createBuffers.
  assert (Hv : exists st1,
             (if (length (vertex_buffers_ st) <? n)%nat
              then create_vertex_buffers T (length (vertex_buffers_ st))
                     (length (vertex_buffers_
                                (set_vertex_buffers st
                                   (vertex_buffers_ st ++ replicate nv None)))
                      - length (vertex_buffers_ st))
                     (set_vertex_buffers st
                        (vertex_buffers_ st ++ replicate nv None))
              else Some st) = Some st1
             /\ vertex_buffers_ st1
                = vertex_buffers_ st ++ new_vertex_slots (next_handle st) nv
             /\ index_buffers_ st1 = index_buffers_ st
             /\ next_handle st1 = (next_handle st + nv)%nat
             /\ buffers_built st1 = (buffers_built st + nv)%nat
             /\ buffers_destroyed st1 = buffers_destroyed st
             /\ buffer_step T st st1).
  { destruct (Nat.ltb_spec (length (vertex_buffers_ st)) n) as [Hlt|Hge].
    - simpl. rewrite length_app, length_replicate.
      replace (length (vertex_buffers_ st) + nv - length (vertex_buffers_ st))%nat
        with nv by lia.
      destruct (create_vertex_buffers_spec nv (vertex_buffers_ st)
                  (set_vertex_buffers st
                     (vertex_buffers_ st ++ replicate nv None)) eq_refl)
        as (st1 & Hrun & Hv1 & Hi1 & Hh1 & Hb1 & Hd1 & Hs1).
      exists st1. split_and!; auto.
      destruct Hs1 as [Hm Hr Hh Hvl Hil Hsy Hsc].
      constructor; simpl in *; auto.
      rewrite length_app in Hvl. lia.
    - exists st. replace nv with 0%nat by lia.
      unfold new_vertex_slots. simpl. rewrite app_nil_r, !Nat.add_0_r.
      split_and!; auto using buffer_step_refl. }
  destruct Hv as (st1 & Hrun1 & Hv1 & Hi1 & Hh1 & Hb1 & Hd1 & Hs1).
  subst nv. fold ni. rewrite Hrun1. simpl.
  set (nv := (n - length (vertex_buffers_ st))%nat) in *.
  rewrite Hi1.
  destruct (Nat.ltb_spec (length (index_buffers_ st)) n) as [Hlt|Hge].
  - simpl. rewrite length_app, length_replicate. fold ni.
    replace (length (index_buffers_ st) + ni - length (index_buffers_ st))%nat
      with ni by lia.
    destruct (create_index_buffers_spec ni (index_buffers_ st)
                (set_index_buffers st1
                   (index_buffers_ st ++ replicate ni None)) eq_refl)
      as (st2 & Hrun & Hi2 & Hv2 & Hh2 & Hb2 & Hd2 & Hs2).
    exists st2. split; [exact Hrun|]. simpl in *.
    split; [congruence|]. split; [congruence|].
    split; [lia|]. split; [unfold buffers_built in *; simpl in *; lia|].
    split; [unfold buffers_destroyed in *; simpl in *; congruence|].
    destruct Hs1 as [Hm1 Hr1 Hhd1 Hvl1 Hil1 Hsy1 Hsc1].
    destruct Hs2 as [Hm Hr Hh Hvl Hil Hsy Hsc].
    constructor; simpl in *; try congruence; try lia.
    + rewrite Hi2, length_app. lia.
    + intros b0 f0 Hinv. apply Hsy. apply Hsy1 in Hinv. exact Hinv.
    + unfold scissors_set in *. simpl in *. congruence.
  - exists st1. replace ni with 0%nat by lia.
    unfold new_index_slots. simpl. rewrite app_nil_r, !Nat.add_0_r.
    split_and!; auto.
Qed.


Lemma buffer_step_vertex (i : nat) (capacity : Z) (st : State)
  (old : option VertexBuffer) (grow : bool) (st1 : State) :
  vertex_buffers_ st !! i = Some old ->
  (if grow then createVertexBuffer T i capacity st else Some st) = Some st1 ->
  buffer_step T st st1.
Proof.
  intros Hold Hc. destruct grow.
  - eapply createVertexBuffer_step; eauto.
  - inversion Hc; subst. apply buffer_step_refl.
Qed.

Lemma buffer_step_index (i : nat) (capacity : Z) (st : State)
  (old : option IndexBuffer) (grow : bool) (st1 : State) :
  index_buffers_ st !! i = Some old ->
  (if grow then createIndexBuffer T i capacity st else Some st) = Some st1 ->
  buffer_step T st st1.
Proof.
  intros Hold Hc. destruct grow.
  - eapply createIndexBuffer_step; eauto.
  - inversion Hc; subst. apply buffer_step_refl.
Qed.

(** [populateVertexData] on a slot that holds both buffers: a buffer that
    is too small is destroyed and one of exactly the required count is made
    in its place; a buffer that is large enough is kept. *)
Lemma populateVertexData_spec (i : nat) (vbSizeInBytes ibSizeInBytes : Z)
  (st : State) (vb0 : VertexBuffer) (ib0 : IndexBuffer) :
  vertex_buffers_ st !! i = Some (Some vb0) ->
  index_buffers_ st !! i = Some (Some ib0) ->
  let requiredVertCount := vbSizeInBytes / sizeof_ImDrawVert in
  let requiredIndexCount := ibSizeInBytes / 2 in
  let growV := getVertexCount vb0 <? requiredVertCount in
  let growI := getIndexCount ib0 <? requiredIndexCount in
  let hI := if growV then S (next_handle st) else next_handle st in
  let vb1 :=
    if growV then mkVertexBuffer (next_handle st) requiredVertCount else vb0 in
  let ib1 := if growI then mkIndexBuffer hI requiredIndexCount else ib0 in
  exists st',
    populateVertexData T i vbSizeInBytes ibSizeInBytes st = Some st'
    /\ vertex_buffers_ st' = <[i := Some vb1]> (vertex_buffers_ st)
    /\ index_buffers_ st' = <[i := Some ib1]> (index_buffers_ st)
    /\ buffer_step T st st'
    /\ exists delta,
         trace st' = delta ++ trace st
         /\ List.filter is_build delta
            = (if growI then [BuildIndexBuffer ib1] else [])
              ++ (if growV then [BuildVertexBuffer vb1] else [])
         /\ List.filter is_destroy delta
            = (if growI then [DestroyIndexBuffer ib0] else [])
              ++ (if growV then [DestroyVertexBuffer vb0] else []).
Proof.
  intros Hv Hi reqV reqI growV growI hI vb1 ib1.
  pose proof (lookup_lt_Some _ _ _ Hv) as Hvlt.
  pose proof (lookup_lt_Some _ _ _ Hi) as Hilt.
  unfold populateVertexData. rewrite Hv. simpl.
  fold reqV reqI growV.
  (* the vertex half *)
  assert (H1 : exists st1,
             (if growV then createVertexBuffer T i reqV st else Some st)
             = Some st1
             /\ vertex_buffers_ st1 = <[i := Some vb1]> (vertex_buffers_ st)
             /\ index_buffers_ st1 = index_buffers_ st
             /\ next_handle st1 = hI
             /\ exists d1, trace st1 = d1 ++ trace st
                  /\ List.filter is_build d1
                     = (if growV then [BuildVertexBuffer vb1] else [])
                  /\ List.filter is_destroy d1
                     = (if growV then [DestroyVertexBuffer vb0] else [])).
  { subst vb1 hI. destruct growV.
    - rewrite (createVertexBuffer_eq _ _ _ _ Hv). eexists.
      split; [reflexivity|]. simpl. split_and!; auto.
      exists (BuildVertexBuffer (mkVertexBuffer (next_handle st) reqV)
              :: DestroyVertexBuffer vb0 :: fence_events T st).
      unfold fence_events.
      destruct (T && negb (has_synced_ st)); simpl; auto.
    - exists st. split_and!; auto.
      + symmetry. apply list_insert_id. exact Hv.
      + exists []. auto. }
  destruct H1 as (st1 & Hrun1 & Hv1 & Hi1 & Hh1 & d1 & Ht1 & Hb1 & Hd1).
  pose proof (buffer_step_vertex _ _ _ _ _ _ Hv Hrun1) as Hs1.
  rewrite Hrun1. simpl. rewrite Hv1, list_lookup_insert_eq by exact Hvlt.
  simpl. rewrite Hi1, Hi. simpl. fold growI.
  set (st2 := emit (SetBufferAt vb1 (to_size_t (reqV * sizeof_ImDrawVert))) st1).
  assert (Hi2 : index_buffers_ st2 !! i = Some (Some ib0))
    by (subst st2; simpl; rewrite Hi1; exact Hi).
  assert (H3 : exists st3,
             (if growI then createIndexBuffer T i reqI st2 else Some st2)
             = Some st3
             /\ vertex_buffers_ st3 = vertex_buffers_ st2
             /\ index_buffers_ st3 = <[i := Some ib1]> (index_buffers_ st2)
             /\ exists d3, trace st3 = d3 ++ trace st2
                  /\ List.filter is_build d3
                     = (if growI then [BuildIndexBuffer ib1] else [])
                  /\ List.filter is_destroy d3
                     = (if growI then [DestroyIndexBuffer ib0] else [])).
  { subst ib1. destruct growI.
    - rewrite (createIndexBuffer_eq _ _ _ _ Hi2). eexists.
      split; [reflexivity|]. simpl. rewrite Hh1. split_and!; auto.
      exists (BuildIndexBuffer (mkIndexBuffer hI reqI)
              :: DestroyIndexBuffer ib0 :: fence_events T st2).
      unfold fence_events.
      destruct (T && negb (has_synced_ st2)); simpl; auto.
    - exists st2. split_and!; auto.
      + symmetry. apply list_insert_id. exact Hi2.
      + exists []. auto. }
  destruct H3 as (st3 & Hrun3 & Hv3 & Hi3 & d3 & Ht3 & Hb3 & Hd3).
  pose proof (buffer_step_index _ _ _ _ _ _ Hi2 Hrun3) as Hs3.
  rewrite Hrun3. simpl. rewrite Hi3, list_lookup_insert_eq
    by (subst st2; simpl; rewrite Hi1; exact Hilt).
  simpl. eexists. split; [reflexivity|]. simpl.
  split; [rewrite Hv3; subst st2; simpl; exact Hv1|].
  split; [rewrite Hi3; subst st2; simpl; rewrite Hi1; reflexivity|].
  split.
  - eapply buffer_step_trans; [exact Hs1|].
    eapply buffer_step_trans; [apply (buffer_step_emit (SetBufferAt vb1
      (to_size_t (reqV * sizeof_ImDrawVert)))); reflexivity|].
    eapply buffer_step_trans; [exact Hs3|].
    apply buffer_step_emit; reflexivity.
  - exists (SetBuffer ib1 (to_size_t (reqI * 2)) :: d3
            ++ SetBufferAt vb1 (to_size_t (reqV * sizeof_ImDrawVert)) :: d1).
    rewrite Ht3. subst st2. simpl. rewrite Ht1.
    split; [rewrite <- !app_assoc; reflexivity|].
    rewrite !List.filter_app. simpl. rewrite Hb1, Hb3, Hd1, Hd3. auto.
Qed.


End Buffers.

Section Scissors.

Lemma umap_find_set {V : Type} (k k' : Z) (v : V) (m : unordered_map V) :
  umap_find k' (umap_set k v m)
  = if Z.eqb k' k then Some v else umap_find k' m.
Proof.
  induction m as [|[k0 v0] m IH]; simpl.
  - reflexivity.
  - destruct (Z.eqb_spec k k0) as [->|Hne]; simpl.
    + destruct (Z.eqb k' k0); reflexivity.
    + rewrite IH. destruct (Z.eqb_spec k' k0) as [->|Hne'].
      * destruct (Z.eqb_spec k0 k); [congruence|reflexivity].
      * reflexivity.
Qed.

Lemma umap_set_keys_in {V : Type} (k : Z) (v : V) (m : unordered_map V) :
  k ∈ m.*1 -> (umap_set k v m).*1 = m.*1.
Proof.
  induction m as [|[k0 v0] m IH]; simpl; intros Hin.
  - inversion Hin.
  - destruct (Z.eqb_spec k k0) as [->|Hne]; simpl; [reflexivity|].
    f_equal. apply IH. inversion Hin; subst; [congruence|assumption].
Qed.

Lemma umap_set_keys_notin {V : Type} (k : Z) (v : V) (m : unordered_map V) :
  k ∉ m.*1 -> (umap_set k v m).*1 = m.*1 ++ [k].
Proof.
  induction m as [|[k0 v0] m IH]; simpl; intros Hin.
  - reflexivity.
  - destruct (Z.eqb_spec k k0) as [->|Hne]; simpl.
    + exfalso. apply Hin. left.
    + f_equal. apply IH. intros Hk. apply Hin. right. exact Hk.
Qed.

Lemma umap_set_keys_NoDup {V : Type} (k : Z) (v : V) (m : unordered_map V) :
  NoDup m.*1 ->
  NoDup (umap_set k v m).*1
  /\ forall k', k' ∈ (umap_set k v m).*1 <-> k' ∈ m.*1 \/ k' = k.
Proof.
  intros Hnd. destruct (decide (k ∈ m.*1)) as [Hin|Hin].
  - rewrite umap_set_keys_in by exact Hin. split; [exact Hnd|].
    intros k'. split; [auto|]. intros [H| ->]; assumption.
  - rewrite umap_set_keys_notin by exact Hin. split.
    + apply NoDup_app. split; [exact Hnd|]. split.
      * intros x Hx Hx'. apply list_elem_of_singleton in Hx'. subst. auto.
      * apply NoDup_singleton.
    + intros k'. rewrite elem_of_app, list_elem_of_singleton. reflexivity.
Qed.

Lemma umap_find_is_Some {V : Type} (k : Z) (m : unordered_map V) :
  is_Some (umap_find k m) <-> k ∈ m.*1.
Proof.
  induction m as [|[k0 v0] m IH]; simpl.
  - split; [intros [? H]; discriminate|intros H; inversion H].
  - destruct (Z.eqb_spec k k0) as [->|Hne].
    + split; [intros _; left|eauto].
    + rewrite IH. split; [intros H; right; exact H|].
      intros H. inversion H; subst; [congruence|assumption].
Qed.

(** The scissor keys of the commands of one list, added to the map. *)
Lemma fold_umap_set_keys (fbheight : Z) (pcmds : list ImDrawCmd) :
  forall m : unordered_map (option MaterialInstance),
    NoDup m.*1 ->
    let m' := fold_left
                (fun m pcmd =>
                   umap_set (makeScissorKey fbheight (ClipRect pcmd)) None m)
                pcmds m in
    NoDup m'.*1
    /\ forall k, k ∈ m'.*1 <-> k ∈ m.*1 \/ k ∈ scissor_key fbheight <$> pcmds.
Proof.
  induction pcmds as [|pcmd rest IH]; intros m Hnd; simpl.
  - split; [exact Hnd|]. intros k. split; [auto|].
    intros [H|H]; [exact H|inversion H].
  - destruct (umap_set_keys_NoDup
                (makeScissorKey fbheight (ClipRect pcmd)) None m Hnd)
      as [Hnd1 Hin1].
    destruct (IH _ Hnd1) as [Hnd' Hin']. split; [exact Hnd'|].
    intros k. rewrite Hin', Hin1. unfold scissor_key at 2.
    rewrite elem_of_cons. tauto.
Qed.

(** The first loop of [update] counts every command and collects every
    scissor key once. *)
Lemma count_primitives_spec (fbheight : Z) (imguiData : ImDrawData) :
  let '(nPrims, scissorRects) := count_primitives fbheight imguiData in
  nPrims = length (frame_cmds imguiData)
  /\ NoDup scissorRects.*1
  /\ forall k, k ∈ scissorRects.*1 <-> k ∈ frame_keys fbheight imguiData.
Proof.
  unfold count_primitives, frame_keys, frame_cmds.
  assert (Hgen : forall lists n0 (m0 : unordered_map (option MaterialInstance)),
             NoDup m0.*1 ->
             let r := fold_left (fun acc cmds => count_cmds fbheight cmds acc)
                                lists (n0, m0) in
             r.1 = (n0 + length (concat (map CmdBuffer lists)))%nat
             /\ NoDup (r.2).*1
             /\ forall k, k ∈ (r.2).*1 <->
                  k ∈ m0.*1
                  \/ k ∈ scissor_key fbheight <$> concat (map CmdBuffer lists)).
  { induction lists as [|cmds rest IH]; intros n0 m0 Hnd; simpl.
    - split; [lia|]. split; [exact Hnd|]. intros k.
      split; [auto|]. intros [H|H]; [exact H|inversion H].
    - unfold count_cmds at 2. simpl.
      destruct (fold_umap_set_keys fbheight (CmdBuffer cmds) m0 Hnd)
        as [Hnd1 Hin1].
      destruct (IH (n0 + length (CmdBuffer cmds))%nat _ Hnd1)
        as (Hn & Hnd' & Hin').
      split; [rewrite Hn, length_app; lia|]. split; [exact Hnd'|].
      intros k. rewrite Hin', Hin1, fmap_app, elem_of_app. tauto. }
  specialize (Hgen (CmdLists imguiData) 0%nat [] (NoDup_nil_2)).
  destruct (fold_left _ _ _) as [nPrims scissorRects]. simpl in Hgen.
  destruct Hgen as (Hn & Hnd & Hin). split; [exact Hn|]. split; [exact Hnd|].
  intros k. rewrite Hin. split; [|auto]. intros [H|H]; [inversion H|exact H].
Qed.

(** As many keys as the frame has distinct ones. *)
Lemma distinct_keys_length (keys all : list Z) :
  NoDup keys -> (forall k, k ∈ keys <-> k ∈ all) ->
  length keys = length (remove_dups all).
Proof.
  intros Hnd Hin. apply Permutation_length.
  apply NoDup_Permutation; [exact Hnd|apply NoDup_remove_dups|].
  intros k. rewrite elem_of_remove_dups. apply Hin.
Qed.

End Scissors.


Section Instances.

Variable T : bool.

Lemma emit_all_nil (st : State) : emit_all [] st = st.
Proof. destruct st; reflexivity. Qed.

Lemma emit_all_emit (ev : Event) (evs : list Event) (st : State) :
  emit ev (emit_all evs st) = emit_all (ev :: evs) st.
Proof. reflexivity. Qed.

Lemma emit_all_app (evs1 evs2 : list Event) (st : State) :
  emit_all evs1 (emit_all evs2 st) = emit_all (evs1 ++ evs2) st.
Proof. unfold emit_all. simpl. rewrite app_assoc. reflexivity. Qed.

Lemma buffer_step_emit_all (evs : list Event) (st : State) :
  Forall quiet evs -> buffer_step T st (emit_all evs st).
Proof.
  induction 1 as [|ev evs (Hf & Hb & Hc) _ IH].
  - rewrite emit_all_nil. apply buffer_step_refl.
  - rewrite <- emit_all_emit.
    eapply buffer_step_trans; [exact IH|].
    apply buffer_step_emit; assumption.
Qed.

Lemma sync_inv_same (b0 f0 : nat) (st st' : State) :
  has_synced_ st' = has_synced_ st ->
  List.filter is_fence (trace st') = List.filter is_fence (trace st) ->
  List.filter is_build (trace st') = List.filter is_build (trace st) ->
  sync_inv T b0 f0 st -> sync_inv T b0 f0 st'.
Proof.
  unfold sync_inv, fence_waits, buffers_built.
  intros -> -> ->. auto.
Qed.

(** The loop that makes the missing material instances fills the null
    positions at the end of the pool with new handles. *)
Lemma create_instances_eq (n : nat) :
  forall (pre : list (option MaterialInstance)) (st : State),
    material_instances_ st = pre ++ replicate n None ->
    create_instances (length pre) n st
    = mkState (vertex_buffers_ st) (index_buffers_ st)
              (pre ++ (Some <$> seq (next_handle st) n))
              (renderable_ st) (has_synced_ st) (next_handle st + n)
              (rev (CreateInstance <$> seq (next_handle st) n) ++ trace st).
Proof.
  induction n as [|n IH]; intros pre st Hp.
  - simpl in *. rewrite app_nil_r in *. rewrite Nat.add_0_r, <- Hp.
    destruct st; reflexivity.
  - cbn [create_instances]. simpl emit.
    set (st1 := set_material_instances _ _).
    assert (Hp1 : material_instances_ st1
                  = (pre ++ [Some (next_handle st)]) ++ replicate n None).
    { subst st1. simpl. rewrite Hp.
      replace (length pre) with (length pre + 0)%nat by lia.
      rewrite insert_app_r. simpl. rewrite <- app_assoc. reflexivity. }
    pose proof (IH _ st1 Hp1) as Hrun.
    rewrite length_app in Hrun. simpl in Hrun.
    rewrite Nat.add_1_r in Hrun. rewrite Hrun. subst st1. simpl.
    f_equal.
    + rewrite <- app_assoc. reflexivity.
    + lia.
    + rewrite <- app_assoc. reflexivity.
Qed.

Lemma ensure_material_instances_eq (required : nat) (st : State) :
  let n := (required - length (material_instances_ st))%nat in
  ensure_material_instances required st
  = mkState (vertex_buffers_ st) (index_buffers_ st)
            (material_instances_ st ++ (Some <$> seq (next_handle st) n))
            (renderable_ st) (has_synced_ st) (next_handle st + n)
            (rev (CreateInstance <$> seq (next_handle st) n) ++ trace st).
Proof.
  intros n. unfold ensure_material_instances.
  destruct (Nat.ltb_spec (length (material_instances_ st)) required)
    as [Hlt|Hge].
  - simpl. rewrite length_app, length_replicate.
    replace (length (material_instances_ st)
             + (required - length (material_instances_ st))
             - length (material_instances_ st))%nat with n by lia.
    fold n.
    rewrite (create_instances_eq n (material_instances_ st)) by reflexivity.
    reflexivity.
  - replace n with 0%nat by lia. simpl.
    rewrite app_nil_r, Nat.add_0_r. destruct st; reflexivity.
Qed.

Lemma push_scissors_eq (keys : list Z) :
  forall (mis : list MaterialInstance) (j : nat)
         (scissorRects : unordered_map (option MaterialInstance))
         (st : State),
    length mis = length keys ->
    (forall n mi, mis !! n = Some mi ->
                  material_instances_ st !! (j + n)%nat = Some (Some mi)) ->
    push_scissors keys j scissorRects st
    = Some (assign keys mis scissorRects,
            emit_all (rev (zip_with scissor_event mis keys)) st).
Proof.
  induction keys as [|key rest IH]; intros mis j rects st Hlen Hpool.
  - destruct mis; [|discriminate]. simpl. rewrite emit_all_nil. reflexivity.
  - destruct mis as [|mi mis]; [discriminate|]. simpl.
    pose proof (Hpool 0%nat mi eq_refl) as H0.
    rewrite Nat.add_0_r in H0. rewrite H0. simpl.
    rewrite (IH mis (S j)).
    + unfold assign. simpl. f_equal. f_equal.
      unfold scissor_event at 2, emit_all, emit. simpl.
      rewrite <- app_assoc. reflexivity.
    + simpl in Hlen. lia.
    + intros n mi' Hn. simpl.
      replace (S (j + n)) with (j + S n)%nat by lia.
      apply Hpool. exact Hn.
Qed.

Lemma assign_find_other (keys : list Z) :
  forall (mis : list MaterialInstance)
         (scissorRects : unordered_map (option MaterialInstance)) (k : Z),
    k ∉ keys ->
    umap_find k (assign keys mis scissorRects) = umap_find k scissorRects.
Proof.
  induction keys as [|key rest IH]; intros mis rects k Hk.
  - reflexivity.
  - destruct mis as [|mi mis]; [reflexivity|].
    unfold assign. simpl. fold (assign rest mis (umap_set key (Some mi) rects)).
    rewrite IH by (intros H; apply Hk; right; exact H).
    rewrite umap_find_set.
    destruct (Z.eqb_spec k key) as [->|Hne]; [|reflexivity].
    exfalso. apply Hk. left.
Qed.

Lemma assign_find (keys : list Z) :
  forall (mis : list MaterialInstance)
         (scissorRects : unordered_map (option MaterialInstance))
         (n : nat) (k : Z) (mi : MaterialInstance),
    NoDup keys -> keys !! n = Some k -> mis !! n = Some mi ->
    umap_find k (assign keys mis scissorRects) = Some (Some mi).
Proof.
  induction keys as [|key rest IH]; intros mis rects n k mi Hnd Hk Hmi.
  - discriminate.
  - destruct mis as [|mi0 mis]; [discriminate|].
    apply NoDup_cons in Hnd as [Hnotin Hnd].
    unfold assign. simpl.
    fold (assign rest mis (umap_set key (Some mi0) rects)).
    destruct n as [|n]; simpl in Hk, Hmi.
    + inversion Hk; inversion Hmi; subst.
      rewrite assign_find_other by exact Hnotin.
      rewrite umap_find_set, Z.eqb_refl. reflexivity.
    + eapply IH; eauto.
Qed.

Lemma assign_keys (keys : list Z) :
  forall (mis : list MaterialInstance)
         (scissorRects : unordered_map (option MaterialInstance)),
    (forall k, k ∈ keys -> k ∈ scissorRects.*1) ->
    (assign keys mis scissorRects).*1 = scissorRects.*1.
Proof.
  induction keys as [|key rest IH]; intros mis rects Hin.
  - reflexivity.
  - destruct mis as [|mi mis]; [reflexivity|].
    unfold assign. simpl. fold (assign rest mis (umap_set key (Some mi) rects)).
    assert (Hk : key ∈ rects.*1) by (apply Hin; left).
    rewrite IH; rewrite umap_set_keys_in by exact Hk; [reflexivity|].
    intros k Hk'. apply Hin. right. exact Hk'.
Qed.

End Instances.


Section Emitting.

Variable T : bool.

Lemma set_entry (done rest : list Entry) (e : Entry)
  (vertices : option VertexBuffer) (indices : option IndexBuffer)
  (offset count : Z) (mi : option MaterialInstance) :
  material (length done) mi
    (blendOrder (length done) (Z.of_nat (length done))
       (geometry (length done) vertices indices offset count
          (done ++ e :: rest)))
  = done ++ mkEntry vertices indices offset count
                    (to_uint16 (Z.of_nat (length done))) mi :: rest.
Proof.
  unfold material, blendOrder, geometry.
  replace (length done) with (length done + 0)%nat at 1 2 3 by lia.
  rewrite !alter_app_r. reflexivity.
Qed.

Lemma callback_trace_quiet (i : nat) (pcmds : list ImDrawCmd) :
  forall j, Forall quiet (callback_trace i pcmds j).
Proof.
  induction pcmds as [|pcmd rest IH]; intros j; simpl.
  - constructor.
  - apply Forall_app. split; [apply IH|].
    destruct (UserCallback pcmd); repeat constructor.
Qed.

Lemma cmd_entries_length (vertices : option VertexBuffer)
  (indices : option IndexBuffer) (fbheight : Z)
  (scissorRects : unordered_map (option MaterialInstance))
  (pcmds : list ImDrawCmd) :
  forall offset k,
    length (cmd_entries vertices indices fbheight scissorRects offset k pcmds)
    = length (List.filter (fun pcmd => negb (has_callback pcmd)) pcmds).
Proof.
  induction pcmds as [|pcmd rest IH]; intros offset k; simpl.
  - reflexivity.
  - destruct (has_callback pcmd); simpl; rewrite IH; reflexivity.
Qed.

Lemma filter_length_le {A : Type} (f : A -> bool) (l : list A) :
  (length (List.filter f l) <= length l)%nat.
Proof.
  induction l as [|a l IH]; simpl; [lia|]. destruct (f a); simpl; lia.
Qed.

(** The loop over the commands of one draw list: the callbacks are called
    and the builder entries from [primIndex] on are set. *)
Lemma emit_cmds_eq (fbheight : Z)
  (scissorRects : unordered_map (option MaterialInstance)) (i : nat)
  (pcmds : list ImDrawCmd) :
  forall (j : nat) (offset : Z) (st : State) (done : list Entry) (r : nat),
    (forall pcmd, pcmd ∈ pcmds ->
       is_Some (umap_find (scissor_key fbheight pcmd) scissorRects)) ->
    (length pcmds <= r)%nat ->
    let es := cmd_entries (mjoin (vertex_buffers_ st !! i))
                          (mjoin (index_buffers_ st !! i))
                          fbheight scissorRects offset (length done) pcmds in
    emit_cmds fbheight scissorRects i pcmds j offset
              (st, done ++ replicate r empty_entry, length done)
    = Some (emit_all (callback_trace i pcmds j) st,
            done ++ es ++ replicate (r - length es) empty_entry,
            (length done + length es)%nat).
Proof.
  induction pcmds as [|pcmd rest IH]; intros j offset st done r Hkeys Hr es.
  - subst es. simpl. rewrite emit_all_nil, Nat.sub_0_r, Nat.add_0_r.
    reflexivity.
  - destruct r as [|r]; [simpl in Hr; lia|]. simpl in Hr.
    assert (Hrest : forall c, c ∈ rest ->
              is_Some (umap_find (scissor_key fbheight c) scissorRects))
      by (intros c Hc; apply Hkeys; right; exact Hc).
    subst es. cbn [emit_cmds cmd_entries]. unfold has_callback.
    destruct (UserCallback pcmd) as [f|] eqn:Hcb.
    + cbn [mbind option_bind].
      rewrite (IH (S j) _ (emit (CallUserCallback f i j) st) done (S r))
        by (auto; lia).
      cbn [callback_trace]. rewrite Hcb. simpl vertex_buffers_.
      simpl index_buffers_.
      replace (emit_all (callback_trace i rest (S j))
                 (emit (CallUserCallback f i j) st))
        with (emit_all (callback_trace i rest (S j)
                        ++ [CallUserCallback f i j]) st)
        by (rewrite <- emit_all_app; reflexivity).
      reflexivity.
    + destruct (Hkeys pcmd) as [miter Hfind]; [left|].
      unfold scissor_key in Hfind at 1. rewrite Hfind.
      cbn [mbind option_bind]. rewrite replicate_S, set_entry.
      set (e := mkEntry _ _ _ _ _ _).
      replace (done ++ e :: replicate r empty_entry)
        with ((done ++ [e]) ++ replicate r empty_entry)
        by (rewrite <- app_assoc; reflexivity).
      replace (S (length done)) with (length (done ++ [e]))
        by (rewrite length_app; simpl; lia).
      rewrite (IH (S j) _ st (done ++ [e]) r) by (auto; lia).
      cbn [callback_trace]. rewrite Hcb, app_nil_r.
      rewrite length_app. simpl length.
      replace (length done + 1)%nat with (S (length done)) by lia.
      unfold scissor_key. rewrite ?Hfind. simpl default. fold e.
      f_equal. f_equal; [f_equal|].
      * rewrite <- app_assoc. reflexivity.
      * lia.
Qed.

End Emitting.


Section EmittingLists.

Variable T : bool.

Lemma list_entries_ext (st st' : State) (fbheight : Z)
  (scissorRects : unordered_map (option MaterialInstance))
  (lists : list ImDrawList) :
  vertex_buffers_ st' = vertex_buffers_ st ->
  index_buffers_ st' = index_buffers_ st ->
  forall b k,
    list_entries st' fbheight scissorRects b k lists
    = list_entries st fbheight scissorRects b k lists.
Proof.
  intros Hv Hi. induction lists as [|cmds rest IH]; intros b k; simpl.
  - reflexivity.
  - rewrite Hv, Hi, IH. reflexivity.
Qed.

Lemma emit_lists_spec (fbheight : Z)
  (scissorRects : unordered_map (option MaterialInstance))
  (lists : list ImDrawList) :
  forall (b : nat) (st : State) (done : list Entry) (r : nat),
    (forall n, (n < length lists)%nat ->
       is_Some (mjoin (vertex_buffers_ st !! (b + n)%nat))
       /\ is_Some (mjoin (index_buffers_ st !! (b + n)%nat))) ->
    (forall pcmd, pcmd ∈ concat (map CmdBuffer lists) ->
       is_Some (umap_find (scissor_key fbheight pcmd) scissorRects)) ->
    (length (concat (map CmdBuffer lists)) <= r)%nat ->
    exists st',
      let es := list_entries st' fbheight scissorRects b (length done) lists in
      emit_lists T fbheight scissorRects lists b
                 (st, done ++ replicate r empty_entry, length done)
      = Some (st', done ++ es ++ replicate (r - length es) empty_entry,
              (length done + length es)%nat)
      /\ buffer_step T st st'
      /\ length (vertex_buffers_ st') = length (vertex_buffers_ st)
      /\ length (index_buffers_ st') = length (index_buffers_ st)
      /\ (forall n, (n < b \/ b + length lists <= n)%nat ->
            vertex_buffers_ st' !! n = vertex_buffers_ st !! n
            /\ index_buffers_ st' !! n = index_buffers_ st !! n)
      /\ (forall n cmds, lists !! n = Some cmds ->
            exists vb0 vb1 ib0 ib1,
              vertex_buffers_ st !! (b + n)%nat = Some (Some vb0)
              /\ vertex_buffers_ st' !! (b + n)%nat = Some (Some vb1)
              /\ vertex_slot_after cmds vb0 vb1
              /\ index_buffers_ st !! (b + n)%nat = Some (Some ib0)
              /\ index_buffers_ st' !! (b + n)%nat = Some (Some ib1)
              /\ index_slot_after cmds ib0 ib1).
Proof.
  induction lists as [|cmds rest IH]; intros b st done r Hslots Hkeys Hr.
  - exists st. simpl. rewrite Nat.sub_0_r, Nat.add_0_r.
    split_and!; auto using buffer_step_refl.
    intros n cmds Hn. rewrite lookup_nil in Hn. discriminate.
  - simpl in Hkeys, Hr. rewrite length_app in Hr.
    (* the slot of this list *)
    destruct (Hslots 0%nat) as [Hv0 Hi0]; [simpl; lia|].
    rewrite Nat.add_0_r in Hv0, Hi0.
    destruct Hv0 as [vb0 Hv0]. destruct Hi0 as [ib0 Hi0].
    assert (Hvb0 : vertex_buffers_ st !! b = Some (Some vb0)).
    { destruct (vertex_buffers_ st !! b) as [[?|]|]; simpl in Hv0;
        congruence. }
    assert (Hib0 : index_buffers_ st !! b = Some (Some ib0)).
    { destruct (index_buffers_ st !! b) as [[?|]|]; simpl in Hi0;
        congruence. }
    clear Hv0 Hi0.
    destruct (populateVertexData_spec T b
                (to_size_t (VtxBuffer_Size cmds * sizeof_ImDrawVert))
                (to_size_t (IdxBuffer_Size cmds * sizeof_ImDrawIdx))
                st vb0 ib0 Hvb0 Hib0)
      as (st1 & Hpop & Hv1 & Hi1 & Hs1 & _).
    fold (required_vertices cmds) in Hv1, Hi1.
    fold (required_indices cmds) in Hi1.
    set (vb1 := if getVertexCount vb0 <? required_vertices cmds
                then mkVertexBuffer (next_handle st) (required_vertices cmds)
                else vb0) in *.
    set (ib1 := if getIndexCount ib0 <? required_indices cmds
                then mkIndexBuffer _ (required_indices cmds)
                else ib0) in *.
    pose proof (lookup_lt_Some _ _ _ Hvb0) as Hvlt.
    pose proof (lookup_lt_Some _ _ _ Hib0) as Hilt.
    (* the commands of this list *)
    pose proof (emit_cmds_eq fbheight scissorRects b (CmdBuffer cmds)
                  0%nat 0 st1 done r) as Hcmds.
    simpl in Hcmds.
    set (es1 := cmd_entries (mjoin (vertex_buffers_ st1 !! b))
                            (mjoin (index_buffers_ st1 !! b))
                            fbheight scissorRects 0 (length done)
                            (CmdBuffer cmds)) in *.
    assert (Hes1 : (length es1 <= length (CmdBuffer cmds))%nat).
    { subst es1. rewrite cmd_entries_length. apply filter_length_le. }
    set (st2 := emit_all (callback_trace b (CmdBuffer cmds) 0) st1) in *.
    (* the other lists *)
    destruct (IH (S b) st2 (done ++ es1) (r - length es1)%nat)
      as (st' & Hrun & Hs' & Hvl' & Hil' & Hout' & Hin').
    { intros n Hn. subst st2. simpl. rewrite Hv1, Hi1.
      rewrite !list_lookup_insert_ne by lia.
      replace (S (b + n)) with (b + S n)%nat by lia.
      apply Hslots. simpl. lia. }
    { intros pcmd Hp. apply Hkeys. apply elem_of_app. right. exact Hp. }
    { lia. }
    assert (Hb' : vertex_buffers_ st' !! b = Some (Some vb1)
                  /\ index_buffers_ st' !! b = Some (Some ib1)).
    { destruct (Hout' b) as [-> ->]; [lia|]. subst st2. simpl.
      rewrite Hv1, Hi1, !list_lookup_insert_eq by assumption. auto. }
    destruct Hb' as [Hvb' Hib'].
    assert (Hb1 : vertex_buffers_ st1 !! b = Some (Some vb1)
                  /\ index_buffers_ st1 !! b = Some (Some ib1)).
    { rewrite Hv1, Hi1, !list_lookup_insert_eq by assumption. auto. }
    destruct Hb1 as [Hvb1 Hib1].
    exists st'. cbn zeta. cbn [emit_lists list_entries].
    rewrite Hpop. cbn [mbind option_bind].
    rewrite Hcmds by (first [lia | intros pcmd Hp; apply Hkeys;
                                   apply elem_of_app; left; exact Hp]).
    cbn [mbind option_bind].
    rewrite length_app in Hrun.
    replace (done ++ es1 ++ replicate (r - length es1) empty_entry)
      with ((done ++ es1) ++ replicate (r - length es1) empty_entry)
      by (rewrite <- app_assoc; reflexivity).
    rewrite Hrun.
    rewrite Hvb', Hib'. subst es1. rewrite Hvb1, Hib1.
    set (es1 := cmd_entries _ _ _ _ _ _ _) in *.
    set (es2 := list_entries st' fbheight scissorRects (S b)
                             (length done + length es1) rest) in *.
    split.
    { f_equal. f_equal; [f_equal|].
      - rewrite <- !app_assoc. f_equal. f_equal. f_equal.
        rewrite length_app. f_equal. lia.
      - rewrite length_app. lia. }
    split.
    { eapply buffer_step_trans; [exact Hs1|].
      eapply buffer_step_trans; [|exact Hs'].
      apply buffer_step_emit_all, callback_trace_quiet. }
    split; [rewrite Hvl'; subst st2; simpl; rewrite Hv1;
            apply length_insert|].
    split; [rewrite Hil'; subst st2; simpl; rewrite Hi1;
            apply length_insert|].
    split.
    { intros n Hn. simpl in Hn.
      destruct (Hout' n) as [-> ->]; [lia|]. subst st2. simpl.
      rewrite Hv1, Hi1, !list_lookup_insert_ne by lia. auto. }
    intros [|n] cmds' Hn; simpl in Hn.
    + inversion Hn; subst cmds'. rewrite Nat.add_0_r.
      exists vb0, vb1, ib0, ib1. split_and!; auto.
      * subst vb1. destruct (Z.ltb_spec (getVertexCount vb0)
                               (required_vertices cmds));
          split; intros; try lia; reflexivity.
      * subst ib1. destruct (Z.ltb_spec (getIndexCount ib0)
                               (required_indices cmds));
          split; intros; try lia; reflexivity.
    + destruct (Hin' n cmds' Hn)
        as (vb0' & vb1' & ib0' & ib1' & Ha & Hb & Hc & Hd & He & Hf).
      replace (b + S n)%nat with (S b + n)%nat by lia.
      exists vb0', vb1', ib0', ib1'. split_and!; auto.
      * rewrite <- Ha. subst st2. simpl. rewrite Hv1.
        rewrite list_lookup_insert_ne by lia. reflexivity.
      * rewrite <- Hd. subst st2. simpl. rewrite Hi1.
        rewrite list_lookup_insert_ne by lia. reflexivity.
Qed.

End EmittingLists.


Section Update.

Variable T : bool.
Variable hash : HashOrder.

Lemma Forall_is_Some_omap {A : Type} (l : list (option A)) :
  Forall is_Some l -> l = Some <$> omap id l.
Proof.
  induction 1 as [|x l [a ->] _ IH]; simpl; [reflexivity|].
  f_equal. exact IH.
Qed.

Lemma omap_id_Some {A : Type} (l : list A) : omap id (Some <$> l) = l.
Proof. induction l as [|a l IH]; simpl; [reflexivity|]. f_equal. exact IH. Qed.

Lemma Forall_is_Some_length {A : Type} (l : list (option A)) :
  Forall is_Some l -> length (omap id l) = length l.
Proof.
  intros H. rewrite (Forall_is_Some_omap l H) at 2.
  rewrite length_fmap. reflexivity.
Qed.

Lemma filter_none {A : Type} (f : A -> bool) (l : list A) :
  Forall (fun a => f a = false) l -> List.filter f l = [].
Proof.
  induction 1 as [|a l Ha _ IH]; simpl; [reflexivity|].
  rewrite Ha. exact IH.
Qed.

Lemma scissor_events_quiet (mis : list MaterialInstance) (keys : list Z) :
  Forall (fun ev => is_fence ev = false)
         (rev (zip_with scissor_event mis keys))
  /\ Forall (fun ev => is_build ev = false)
            (rev (zip_with scissor_event mis keys)).
Proof.
  split; apply Forall_rev; revert keys;
    induction mis as [|mi mis IH]; intros [|k keys]; simpl;
    constructor; auto.
Qed.

Lemma create_events_quiet (l : list nat) :
  Forall (fun ev => is_fence ev = false) (rev (CreateInstance <$> l))
  /\ Forall (fun ev => is_build ev = false) (rev (CreateInstance <$> l)).
Proof.
  split; apply Forall_rev, Forall_fmap, Forall_true; reflexivity.
Qed.

Lemma omap_none {A B : Type} (f : A -> option B) (l : list A) :
  Forall (fun a => f a = None) l -> omap f l = [].
Proof.
  induction 1 as [|a l Ha _ IH]; simpl; [reflexivity|].
  rewrite Ha. exact IH.
Qed.

Lemma scissors_of_create_events (l : list nat) :
  omap scissor_instance (rev (CreateInstance <$> l)) = [].
Proof.
  apply omap_none, Forall_rev, Forall_fmap, Forall_true. reflexivity.
Qed.

Lemma scissors_of_scissor_events (mis : list MaterialInstance) :
  forall keys : list Z,
    length mis = length keys ->
    omap scissor_instance (rev (zip_with scissor_event mis keys)) = rev mis.
Proof.
  induction mis as [|mi mis IH]; intros [|k keys] Hlen;
    try discriminate; [reflexivity|].
  cbn [zip_with rev]. rewrite omap_app, IH by (simpl in Hlen; lia).
  reflexivity.
Qed.

Lemma wf_state_set_has_synced (st : State) (b : bool) :
  wf_state st -> wf_state (set_has_synced st b).
Proof. intros [Hv Hi Hm Hf Hd]. constructor; assumption. Qed.

Lemma update_skipped (io : ImGuiIO) (imguiData : ImDrawData) (st : State) :
  zero_area io = true ->
  update T hash io imguiData st = Some (set_has_synced st false, imguiData).
Proof.
  intros Hz. unfold update.
  change ((fb_width io =? 0) || (fb_height io =? 0)) with (zero_area io).
  rewrite Hz. reflexivity.
Qed.

Lemma sync_inv_start (st : State) :
  sync_inv T (buffers_built st) (fence_waits st) (set_has_synced st false).
Proof.
  unfold sync_inv, fence_waits, buffers_built. simpl.
  split; [lia|]. split; [lia|]. split; [discriminate|]. intros [_ H]. lia.
Qed.

(** What one call of [update] does when the frame is not skipped. *)
Lemma update_spec (io : ImGuiIO) (imguiData : ImDrawData) (st : State) :
  zero_area io = false -> wf_state st ->
  let data := ScaleClipRects imguiData (DisplayFramebufferScale io) in
  let fbheight := fb_height io in
  let lists := CmdLists data in
  let nk := length (remove_dups (frame_keys fbheight data)) in
  exists (st' st1 : State) (keys : list Z) (mis : list MaterialInstance)
         (scissorRects : unordered_map (option MaterialInstance)),
    update T hash io imguiData st = Some (st', data)
    /\ wf_state st'
    (* the scissor keys and their material instances *)
    /\ NoDup keys /\ (forall k, k ∈ keys <-> k ∈ frame_keys fbheight data)
    /\ length keys = nk
    /\ NoDup mis /\ mis = take nk (pool_handles st')
    /\ length mis = nk
    /\ (forall n k mi, keys !! n = Some k -> mis !! n = Some mi ->
          umap_find k scissorRects = Some (Some mi))
    /\ scissors_set st' = rev mis ++ scissors_set st
    (* the pool *)
    /\ material_instances_ st'
       = material_instances_ st
         ++ (Some <$> seq (next_handle st1)
                          (nk - length (material_instances_ st)))
    (* the Renderable *)
    /\ (let es := list_entries st' fbheight scissorRects 0 0 lists in
        renderable_ st'
        = match lists with
          | [] => None
          | _ :: _ =>
              Some (es ++ replicate (length (frame_cmds data) - length es)
                                    empty_entry)
          end)
    (* the buffers *)
    /\ createBuffers T (length lists) (set_has_synced st false) = Some st1
    /\ (forall n cmds, lists !! n = Some cmds ->
          exists vb0 vb1 ib0 ib1,
            vertex_buffers_ st1 !! n = Some (Some vb0)
            /\ vertex_buffers_ st' !! n = Some (Some vb1)
            /\ vertex_slot_after cmds vb0 vb1
            /\ index_buffers_ st1 !! n = Some (Some ib0)
            /\ index_buffers_ st' !! n = Some (Some ib1)
            /\ index_slot_after cmds ib0 ib1)
    /\ (forall n, (length lists <= n)%nat ->
          vertex_buffers_ st' !! n = vertex_buffers_ st !! n
          /\ index_buffers_ st' !! n = index_buffers_ st !! n)
    (* the fence *)
    /\ (forall b0 f0, sync_inv T b0 f0 (set_has_synced st false) ->
          sync_inv T b0 f0 st').
Proof.
  intros Hz Hwf data fbheight lists nk.
  pose proof (wf_state_set_has_synced st false Hwf) as Hwf0.
  set (st0 := set_has_synced st false) in *.
  destruct (createBuffers_spec T (length lists) st0)
    as (st1 & Hcb & Hv1 & Hi1 & Hh1 & _ & _ & Hs1).
  pose proof (count_primitives_spec fbheight data) as Hcount.
  destruct (count_primitives fbheight data) as [nPrims rects0] eqn:Hcp.
  destruct Hcount as (HnPrims & Hnd0 & Hin0).
  set (keys := bucket_order hash (rects0.*1)).
  pose proof (bucket_order_perm hash (rects0.*1)) as Hperm. fold keys in Hperm.
  assert (Hndk : NoDup keys).
  { eapply NoDup_Permutation_proper; [exact Hperm|exact Hnd0]. }
  assert (Hink : forall k, k ∈ keys <-> k ∈ frame_keys fbheight data).
  { intros k. rewrite <- Hin0. split; intros H.
    - eapply elem_of_Permutation_proper; [symmetry; exact Hperm|exact H].
    - eapply elem_of_Permutation_proper; [exact Hperm|exact H]. }
  assert (Hlenk : length keys = nk).
  { apply distinct_keys_length; assumption. }
  assert (Hlen0 : length rects0 = nk).
  { rewrite <- Hlenk. rewrite (Permutation_length Hperm).
    rewrite length_fmap. reflexivity. }
  (* the pool *)
  destruct Hs1 as [Hm1 Hr1 Hhd1 _ _ Hsy1 Hsc1].
  pose proof (ensure_material_instances_eq nk st1) as Hens. cbn zeta in Hens.
  rewrite Hm1 in Hens. change (material_instances_ st0)
    with (material_instances_ st) in Hens.
  set (kn := (nk - length (material_instances_ st))%nat) in *.
  set (st2 := mkState _ _ _ _ _ _ _) in Hens.
  set (handles := pool_handles st ++ seq (next_handle st1) kn).
  assert (Hpool2 : material_instances_ st2 = Some <$> handles).
  { subst st2 handles. simpl. rewrite fmap_app. f_equal.
    apply Forall_is_Some_omap. apply Hwf. }
  assert (Hlenh : (nk <= length handles)%nat).
  { subst handles. rewrite length_app, length_seq. unfold pool_handles.
    rewrite (Forall_is_Some_length _ (wf_material _ Hwf)). lia. }
  set (mis := take nk handles).
  assert (Hlenm : length mis = nk).
  { subst mis. rewrite length_take. lia. }
  assert (Hissued : forall mi, mi ∈ pool_handles st ->
                               (mi < next_handle st1)%nat).
  { intros mi Hmi. apply list_elem_of_lookup in Hmi as [i Hi].
    assert (material_instances_ st !! i = Some (Some mi)).
    { rewrite (Forall_is_Some_omap _ (wf_material _ Hwf)).
      apply list_lookup_fmap_Some. exists mi. split; [reflexivity|exact Hi]. }
    pose proof (wf_issued _ Hwf i mi H). simpl in Hhd1. lia. }
  assert (Hndh : NoDup handles).
  { subst handles. apply NoDup_app. split_and!.
    - unfold pool_handles.
      pose proof (wf_distinct _ Hwf) as Hd.
      rewrite (Forall_is_Some_omap _ (wf_material _ Hwf)) in Hd.
      eapply NoDup_fmap_1. exact Hd.
    - intros mi Hmi Hmi'. apply Hissued in Hmi.
      apply elem_of_seq in Hmi'. lia.
    - apply NoDup_seq. }
  assert (Hndm : NoDup mis).
  { subst mis. eapply sublist_NoDup; [exact Hndh|]. apply sublist_take. }
  pose proof (push_scissors_eq keys mis 0%nat rects0 st2) as Hpush.
  rewrite Hlenm, Hlenk in Hpush. specialize (Hpush eq_refl).
  assert (Hpush' := Hpush).
  clear Hpush. rename Hpush' into Hpush.
  specialize (fun H => Hpush H).
  assert (Hmis : forall n mi, mis !! n = Some mi ->
                   material_instances_ st2 !! (0 + n)%nat = Some (Some mi)).
  { intros n mi Hn. change (0 + n)%nat with n.
    rewrite Hpool2. apply list_lookup_fmap_Some. exists mi.
    split; [reflexivity|].
    subst mis. apply lookup_take_Some in Hn as [Hn _]. exact Hn. }
  specialize (Hpush Hmis).
  set (rects := assign keys mis rects0) in *.
  set (st3 := emit_all (rev (zip_with scissor_event mis keys)) st2) in *.
  set (st4 := set_renderable (emit DestroyRenderable st3) None).
  (* the state before the draw lists are walked *)
  assert (H4 : vertex_buffers_ st4 = vertex_buffers_ st1
               /\ index_buffers_ st4 = index_buffers_ st1
               /\ material_instances_ st4 = Some <$> handles
               /\ next_handle st4 = (next_handle st1 + kn)%nat
               /\ has_synced_ st4 = has_synced_ st1
               /\ List.filter is_fence (trace st4)
                  = List.filter is_fence (trace st1)
               /\ List.filter is_build (trace st4)
                  = List.filter is_build (trace st1)
               /\ scissors_set st4 = rev mis ++ scissors_set st1
               /\ renderable_ st4 = None).
  { subst st4 st3 st2. simpl. rewrite ?List.filter_app.
    rewrite ?(filter_none is_fence _ (proj1 (scissor_events_quiet mis keys))).
    rewrite ?(filter_none is_build _ (proj2 (scissor_events_quiet mis keys))).
    rewrite ?(filter_none is_fence _ (proj1 (create_events_quiet _))).
    rewrite ?(filter_none is_build _ (proj2 (create_events_quiet _))).
    split_and!; auto.
    unfold scissors_set. simpl. rewrite !omap_app.
    rewrite scissors_of_create_events, scissors_of_scissor_events by lia.
    reflexivity. }
  destruct H4 as (Hv4 & Hi4 & Hm4 & Hh4 & Hsy4 & Hff4 & Hfb4 & Hsc4 & Hr4).
  assert (Hst4 : set_renderable (emit DestroyRenderable st3) None = st4)
    by reflexivity.
  clearbody st4. clear Hpool2.
  assert (Hsome1 : Forall is_Some (vertex_buffers_ st1)
                   /\ Forall is_Some (index_buffers_ st1)).
  { rewrite Hv1, Hi1. split; apply Forall_app; split;
      try apply Hwf; unfold new_vertex_slots, new_index_slots;
      apply Forall_fmap, Forall_true; intros; simpl; eauto. }
  destruct Hsome1 as [Hsv1 Hsi1].
  assert (Hlen1 : (length lists <= length (vertex_buffers_ st1))%nat
                  /\ (length lists <= length (index_buffers_ st1))%nat).
  { rewrite Hv1, Hi1, !length_app. unfold new_vertex_slots, new_index_slots.
    rewrite !length_fmap, !length_seq. simpl. lia. }
  assert (Hge1 : forall n, (length lists <= n)%nat ->
                   vertex_buffers_ st1 !! n = vertex_buffers_ st !! n
                   /\ index_buffers_ st1 !! n = index_buffers_ st !! n).
  { intros n Hn. rewrite Hv1, Hi1.
    change (vertex_buffers_ st0) with (vertex_buffers_ st).
    change (index_buffers_ st0) with (index_buffers_ st).
    split.
    - destruct (decide (length lists <= length (vertex_buffers_ st))%nat).
      + replace (length lists - length (vertex_buffers_ st))%nat with 0%nat
          by lia.
        unfold new_vertex_slots. simpl. rewrite app_nil_r. reflexivity.
      + rewrite !lookup_ge_None_2; [reflexivity|lia|].
        rewrite length_app. unfold new_vertex_slots.
        rewrite length_fmap, length_seq. lia.
    - destruct (decide (length lists <= length (index_buffers_ st))%nat).
      + replace (length lists - length (index_buffers_ st))%nat with 0%nat
          by lia.
        unfold new_index_slots. simpl. rewrite app_nil_r. reflexivity.
      + rewrite !lookup_ge_None_2; [reflexivity|lia|].
        rewrite length_app. unfold new_index_slots.
        rewrite length_fmap, length_seq. lia. }
  (* the draw lists *)
  assert (Hkeys1 : (assign keys mis rects0).*1 = rects0.*1).
  { apply assign_keys. intros k Hk.
    eapply elem_of_Permutation_proper; [symmetry; exact Hperm|exact Hk]. }
  destruct (emit_lists_spec T fbheight rects lists 0%nat st4 [] nPrims)
    as (st5 & Hrun & Hs5 & Hvl5 & Hil5 & Hout5 & Hin5).
  { intros n Hn. rewrite Hv4, Hi4. change (0 + n)%nat with n.
    destruct Hlen1 as [Hlv Hli].
    destruct (lookup_lt_is_Some_2 (vertex_buffers_ st1) n) as [x Hx]; [lia|].
    destruct (lookup_lt_is_Some_2 (index_buffers_ st1) n) as [y Hy]; [lia|].
    rewrite Forall_lookup in Hsv1. rewrite Forall_lookup in Hsi1.
    destruct (Hsv1 n x Hx) as [x' ->]. destruct (Hsi1 n y Hy) as [y' ->].
    rewrite Hx, Hy. simpl. eauto. }
  { intros pcmd Hp. apply umap_find_is_Some. subst rects. rewrite Hkeys1.
    apply Hin0. unfold frame_keys, frame_cmds.
    apply list_elem_of_fmap. exists pcmd. split; [reflexivity|exact Hp]. }
  { rewrite HnPrims. apply Nat.le_refl. }
  cbn zeta in Hrun. simpl app in Hrun. simpl length in Hrun.
  simpl Nat.add in Hrun.
  set (es := list_entries st5 fbheight rects 0 0 lists) in *.
  (* the result *)
  set (st' := match lists with
              | [] => st5
              | _ :: _ =>
                  set_renderable
                    (emit (BuildRenderable
                             (es ++ replicate (nPrims - length es) empty_entry))
                          st5)
                    (Some (es ++ replicate (nPrims - length es) empty_entry))
              end).
  assert (Hupd : update T hash io imguiData st = Some (st', data)).
  { unfold update.
    change ((fb_width io =? 0) || (fb_height io =? 0)) with (zero_area io).
    rewrite Hz. fold data. fold lists. fold st0. rewrite Hcb.
    cbn [mbind option_bind]. fold fbheight. rewrite Hcp.
    rewrite Hlen0, Hens.
    change (map fst rects0) with (rects0.*1). fold keys.
    rewrite Hpush. cbn [mbind option_bind]. rewrite Hst4.
    unfold Builder. rewrite Hrun. cbn [mbind option_bind].
    subst st'. destruct lists; reflexivity. }
  assert (H' : vertex_buffers_ st' = vertex_buffers_ st5
               /\ index_buffers_ st' = index_buffers_ st5
               /\ material_instances_ st' = material_instances_ st5
               /\ next_handle st' = next_handle st5
               /\ has_synced_ st' = has_synced_ st5
               /\ List.filter is_fence (trace st')
                  = List.filter is_fence (trace st5)
               /\ List.filter is_build (trace st')
                  = List.filter is_build (trace st5)
               /\ scissors_set st' = scissors_set st5).
  { subst st'. destruct lists; simpl; auto 10. }
  destruct H' as (Hv' & Hi' & Hm' & Hh' & Hsy' & Hff' & Hfb' & Hsc').
  destruct Hs5 as [Hm5 Hr5 Hhd5 _ _ Hsy5 Hsc5].
  assert (Hpool' : material_instances_ st' = Some <$> handles).
  { rewrite Hm', Hm5. exact Hm4. }
  exists st', st1, keys, mis, rects.
  split; [exact Hupd|].
  split.
  { (* wf_state *)
    constructor.
    - rewrite Hv'. apply Forall_lookup. intros n x Hx.
      destruct (decide (n < length lists)%nat) as [Hlt|Hge].
      + destruct (lookup_lt_is_Some_2 _ _ Hlt) as [cmds Hc].
        destruct (Hin5 n cmds Hc) as (? & vb1 & ? & ? & _ & Hb & _).
        simpl in Hb. rewrite Hb in Hx. inversion Hx; eauto.
      + destruct (Hout5 n) as [Ho _]; [lia|]. rewrite Ho, Hv4 in Hx.
        rewrite Forall_lookup in Hsv1. eapply Hsv1; exact Hx.
    - rewrite Hi'. apply Forall_lookup. intros n x Hx.
      destruct (decide (n < length lists)%nat) as [Hlt|Hge].
      + destruct (lookup_lt_is_Some_2 _ _ Hlt) as [cmds Hc].
        destruct (Hin5 n cmds Hc) as (? & ? & ? & ib1 & _ & _ & _ & _ & Hb & _).
        simpl in Hb. rewrite Hb in Hx. inversion Hx; eauto.
      + destruct (Hout5 n) as [_ Ho]; [lia|]. rewrite Ho, Hi4 in Hx.
        rewrite Forall_lookup in Hsi1. eapply Hsi1; exact Hx.
    - rewrite Hpool'. apply Forall_fmap, Forall_true. intros; simpl; eauto.
    - intros i mi Hi. rewrite Hpool' in Hi.
      apply list_lookup_fmap_Some in Hi as (mi' & Heq & Hh).
      inversion Heq; subst mi'.
      apply list_elem_of_lookup_2 in Hh. subst handles.
      apply elem_of_app in Hh as [Hh|Hh].
      + apply Hissued in Hh. lia.
      + apply elem_of_seq in Hh. lia.
    - rewrite Hpool'. apply NoDup_fmap_2; [|exact Hndh].
      intros x y Hxy. congruence. }
  split; [exact Hndk|]. split; [exact Hink|]. split; [exact Hlenk|].
  split; [exact Hndm|].
  split.
  { unfold pool_handles. rewrite Hpool', omap_id_Some. reflexivity. }
  split; [exact Hlenm|].
  split.
  { intros n k mi Hk Hmi. subst rects. eapply assign_find; eauto. }
  split.
  { rewrite Hsc', Hsc5, Hsc4, Hsc1. reflexivity. }
  split.
  { rewrite Hpool'. subst handles. rewrite fmap_app. f_equal.
    symmetry. apply Forall_is_Some_omap. apply Hwf. }
  split.
  { assert (Hes : list_entries st' fbheight rects 0 0 lists = es).
    { subst es. apply list_entries_ext; assumption. }
    cbn zeta. rewrite Hes. rewrite <- HnPrims. subst st'.
    destruct lists; [|reflexivity].
    simpl. rewrite Hr5. exact Hr4. }
  split; [exact Hcb|].
  split.
  { intros n cmds Hc.
    destruct (Hin5 n cmds Hc)
      as (vb0 & vb1 & ib0 & ib1 & Ha & Hb & Hc' & Hd & He & Hf).
    exists vb0, vb1, ib0, ib1. rewrite Hv', Hi'. simpl in *.
    rewrite Hv4 in Ha. rewrite Hi4 in Hd.
    split_and!; auto. }
  split.
  { intros n Hn. rewrite Hv', Hi'.
    destruct (Hout5 n) as [-> ->]; [lia|].
    rewrite Hv4, Hi4. apply Hge1. exact Hn. }
  intros b0 f0 Hinv.
  apply (sync_inv_same T b0 f0 st5 st'); [exact Hsy'|exact Hff'|exact Hfb'|].
  apply Hsy5.
  apply (sync_inv_same T b0 f0 st1 st4); [exact Hsy4|exact Hff4|exact Hfb4|].
  apply Hsy1. exact Hinv.
Qed.

End Update.


Section Frames.

Lemma running_offset_0 (pcmds : list ImDrawCmd) : running_offset pcmds 0 = 0.
Proof. reflexivity. Qed.

Lemma running_offset_app (pre rest : list ImDrawCmd) :
  running_offset (pre ++ rest) (length pre)
  = foldr Z.add 0 (map ElemCount pre).
Proof. unfold running_offset. rewrite take_app_length. reflexivity. Qed.

Lemma running_offset_S (pre : list ImDrawCmd) (pcmd : ImDrawCmd)
  (rest : list ImDrawCmd) :
  running_offset (pre ++ pcmd :: rest) (S (length pre))
  = running_offset (pre ++ pcmd :: rest) (length pre) + ElemCount pcmd.
Proof.
  rewrite running_offset_app.
  replace (pre ++ pcmd :: rest) with ((pre ++ [pcmd]) ++ rest)
    by (rewrite <- app_assoc; reflexivity).
  replace (S (length pre)) with (length (pre ++ [pcmd]))
    by (rewrite length_app; simpl; lia).
  rewrite running_offset_app, map_app, foldr_app. simpl.
  generalize (map ElemCount pre). intros l.
  induction l as [|a l IH]; simpl; lia.
Qed.

(** Where every [ElemCount] is an [unsigned int], running offsets do not
    decrease along the list and are bounded by the length. *)
Lemma running_offset_mono (pcmds : list ImDrawCmd) :
  Forall (fun pcmd => 0 <= ElemCount pcmd < 2 ^ 32) pcmds ->
  forall j j', (j <= j')%nat ->
    0 <= running_offset pcmds j <= running_offset pcmds j'
    /\ running_offset pcmds j' <= Z.of_nat (length pcmds) * (2 ^ 32 - 1).
Proof.
  intros Hall. unfold running_offset.
  induction Hall as [|pcmd rest Hp Hrest IH]; intros j j' Hj.
  - rewrite !take_nil. simpl. lia.
  - destruct j' as [|j'].
    + replace j with 0%nat by lia. simpl. lia.
    + destruct j as [|j].
      * destruct (IH 0%nat j') as [H1 H2]; [lia|].
        rewrite take_0 in H1. simpl in *. lia.
      * destruct (IH j j') as [H1 H2]; [lia|]. simpl in *. lia.
Qed.

Lemma running_offset_no_wrap (cmds : ImDrawList) (j : nat) :
  wf_draw_list cmds ->
  to_size_t (running_offset (CmdBuffer cmds) j)
  = running_offset (CmdBuffer cmds) j.
Proof.
  intros (Hall & Hlen & _). unfold to_size_t.
  destruct (running_offset_mono _ Hall j j) as [[H1 _] H2]; [lia|].
  apply Z.mod_small. nia.
Qed.

Lemma primitives_from_nil (i : nat) (pcmds : list ImDrawCmd) :
  primitives_from i [] pcmds = list_primitives i pcmds.
Proof. reflexivity. Qed.

Lemma primitives_from_cons (i : nat) (pre : list ImDrawCmd) (pcmd : ImDrawCmd)
  (rest : list ImDrawCmd) :
  primitives_from i pre (pcmd :: rest)
  = (if has_callback pcmd then []
     else [(i, running_offset (pre ++ pcmd :: rest) (length pre), pcmd)])
    ++ primitives_from i (pre ++ [pcmd]) rest.
Proof.
  unfold primitives_from. rewrite imap_cons. cbn [omap list_omap].
  rewrite Nat.add_0_r. cbn [fst snd].
  assert (Hrest : imap ((fun j pcmd0 => ((length pre + j)%nat, pcmd0)) ∘ S) rest
                  = imap (fun j pcmd0 =>
                            ((length (pre ++ [pcmd]) + j)%nat, pcmd0)) rest).
  { apply imap_ext. intros j c _. simpl. rewrite length_app. simpl.
    f_equal. lia. }
  rewrite Hrest. rewrite <- (app_assoc pre [pcmd] rest). simpl app.
  destruct (has_callback pcmd); reflexivity.
Qed.

(** The entries of the loop over one list are those of its primitives. *)
Lemma cmd_entries_primitives (st : State) (fbheight : Z)
  (scissorRects : unordered_map (option MaterialInstance)) (i : nat)
  (cmds : ImDrawList) :
  wf_draw_list cmds ->
  forall (pre rest : list ImDrawCmd) (k : nat),
    CmdBuffer cmds = pre ++ rest ->
    cmd_entries (mjoin (vertex_buffers_ st !! i))
                (mjoin (index_buffers_ st !! i))
                fbheight scissorRects
                (running_offset (pre ++ rest) (length pre)) k rest
    = imap (fun n p => entry_of st fbheight scissorRects (k + n) p)
           (primitives_from i pre rest).
Proof.
  intros Hwf pre rest. revert pre.
  induction rest as [|pcmd rest IH]; intros pre k Hcmds.
  - reflexivity.
  - rewrite primitives_from_cons. cbn [cmd_entries].
    assert (Hnext : to_size_t (running_offset (pre ++ pcmd :: rest)
                                              (length pre) + ElemCount pcmd)
                    = running_offset ((pre ++ [pcmd]) ++ rest)
                                     (length (pre ++ [pcmd]))).
    { rewrite <- running_offset_S.
      rewrite <- Hcmds. rewrite running_offset_no_wrap by exact Hwf.
      rewrite Hcmds, <- app_assoc, length_app. simpl.
      rewrite Nat.add_1_r. reflexivity. }
    rewrite Hnext.
    assert (Hcmds' : CmdBuffer cmds = (pre ++ [pcmd]) ++ rest)
      by (rewrite <- app_assoc; exact Hcmds).
    destruct (has_callback pcmd).
    + simpl app. apply IH. exact Hcmds'.
    + simpl app. rewrite imap_cons. rewrite (IH _ (S k) Hcmds').
      f_equal.
      * unfold entry_of. simpl. rewrite Nat.add_0_r. reflexivity.
      * apply imap_ext. intros n p _. simpl.
        replace (k + S n)%nat with (S (k + n)) by lia. reflexivity.
Qed.

(** The entries of the loop over the lists are those of the primitives of
    the frame, in frame order. *)
Lemma list_entries_primitives (st : State) (fbheight : Z)
  (scissorRects : unordered_map (option MaterialInstance))
  (lists : list ImDrawList) :
  Forall wf_draw_list lists ->
  forall b k,
    list_entries st fbheight scissorRects b k lists
    = imap (fun n p => entry_of st fbheight scissorRects (k + n) p)
           (concat (imap (fun i cmds =>
                            list_primitives (b + i) (CmdBuffer cmds))
                         lists)).
Proof.
  induction 1 as [|cmds rest Hwf _ IH]; intros b k.
  - reflexivity.
  - cbn [list_entries]. rewrite imap_cons. cbn [concat].
    rewrite imap_app, Nat.add_0_r.
    pose proof (cmd_entries_primitives st fbheight scissorRects b cmds Hwf
                  [] (CmdBuffer cmds) k eq_refl) as Hc.
    simpl app in Hc. simpl length in Hc.
    rewrite running_offset_0, primitives_from_nil in Hc.
    rewrite Hc, length_imap, IH. f_equal.
    assert (Hrest : imap ((fun i cmds0 =>
                             list_primitives (b + i) (CmdBuffer cmds0)) ∘ S)
                         rest
                    = imap (fun i cmds0 =>
                              list_primitives (S b + i) (CmdBuffer cmds0))
                           rest).
    { apply imap_ext. intros n c _. simpl.
      replace (b + S n)%nat with (S (b + n)) by lia. reflexivity. }
    rewrite Hrest. apply imap_ext. intros n p _. simpl.
    f_equal. lia.
Qed.

Lemma list_entries_frame (st : State) (fbheight : Z)
  (scissorRects : unordered_map (option MaterialInstance))
  (lists : list ImDrawList) :
  Forall wf_draw_list lists ->
  list_entries st fbheight scissorRects 0 0 lists
  = imap (entry_of st fbheight scissorRects) (frame_primitives lists).
Proof.
  intros Hwf. rewrite list_entries_primitives by exact Hwf.
  reflexivity.
Qed.

End Frames.


Section ScissorKey.

Lemma testbit_small (a n m : Z) :
  0 <= a < 2 ^ n -> n <= m -> Z.testbit a m = false.
Proof.
  intros [Ha Hlt] Hm.
  destruct (Z.eq_dec a 0) as [->|Hne]; [apply Z.bits_0|].
  apply Z.bits_above_log2; [lia|].
  assert (Z.log2 a < n); [|lia].
  apply Z.log2_lt_pow2; lia.
Qed.

Lemma lor_shiftl_add (a b n : Z) :
  0 <= n -> 0 <= a < 2 ^ n -> Z.lor a (Z.shiftl b n) = a + b * 2 ^ n.
Proof.
  intros Hn Ha. rewrite Z.shiftl_mul_pow2 by exact Hn.
  assert (Hland : Z.land a (b * 2 ^ n) = 0).
  { apply Z.bits_inj'. intros m Hm. rewrite Z.land_spec, Z.bits_0.
    destruct (Z_lt_le_dec m n) as [Hlt|Hge].
    - rewrite Z.mul_pow2_bits_low by exact Hlt. apply andb_false_r.
    - rewrite (testbit_small a n m) by assumption. reflexivity. }
  rewrite <- Z.lxor_lor by exact Hland.
  symmetry. apply Z.add_nocarry_lxor. exact Hland.
Qed.

Lemma to_uint16_range (v : Z) : 0 <= to_uint16 v < 2 ^ 16.
Proof. unfold to_uint16. apply Z.mod_pos_bound. lia. Qed.

Lemma uint16_of_float_range (f : float) : 0 <= uint16_of_float f < 2 ^ 16.
Proof. apply to_uint16_range. Qed.

(** The cast keeps an integer part that fits 16 bits; it does not clamp
    one that does not. *)
Lemma uint16_of_float_in_range (f : float) (t : Z) :
  ftrunc f = Some t -> 0 <= t <= 65535 -> uint16_of_float f = t.
Proof.
  intros Ht Hr. unfold uint16_of_float, int_of_float, to_uint16.
  rewrite Ht.
  destruct (Z.leb_spec (- 2 ^ 31) t); destruct (Z.ltb_spec t (2 ^ 31));
    simpl; try lia.
  apply Z.mod_small. lia.
Qed.

(** The cast on every [float]: an integer part outside [0, 65535] that fits
    an [int] leaves its low 16 bits, and every other value leaves 0. *)
Lemma uint16_of_float_cases (f : float) :
  uint16_of_float f
  = match ftrunc f with
    | Some t =>
        if (0 <=? t) && (t <=? 65535) then t
        else if (- 2 ^ 31 <=? t) && (t <? 2 ^ 31) then t mod 2 ^ 16
        else 0
    | None => 0
    end.
Proof.
  unfold uint16_of_float, int_of_float, to_uint16.
  destruct (ftrunc f) as [t|]; [|reflexivity].
  destruct (Z.leb_spec 0 t); destruct (Z.leb_spec t 65535);
    destruct (Z.leb_spec (- 2 ^ 31) t); destruct (Z.ltb_spec t (2 ^ 31));
    simpl; try lia; try reflexivity.
  apply Z.mod_small. lia.
Qed.

Lemma pack16_lor (l b w h : Z) :
  0 <= l < 2 ^ 16 -> 0 <= b < 2 ^ 16 -> 0 <= w < 2 ^ 16 ->
  0 <= h < 2 ^ 16 ->
  Z.lor (Z.lor (Z.lor (Z.shiftl l 0) (Z.shiftl b 16)) (Z.shiftl w 32))
        (Z.shiftl h 48)
  = pack16 l b w h.
Proof.
  intros Hl Hb Hw Hh. unfold pack16.
  rewrite Z.shiftl_0_r.
  rewrite (lor_shiftl_add l b 16) by lia.
  rewrite (lor_shiftl_add (l + b * 2 ^ 16) w 32) by lia.
  rewrite (lor_shiftl_add (l + b * 2 ^ 16 + w * 2 ^ 32) h 48) by lia.
  reflexivity.
Qed.

Lemma pack16_fields (l b w h : Z) :
  0 <= l < 2 ^ 16 -> 0 <= b < 2 ^ 16 -> 0 <= w < 2 ^ 16 ->
  0 <= h < 2 ^ 16 ->
  0 <= pack16 l b w h < 2 ^ 64
  /\ Z.land (Z.shiftr (pack16 l b w h) 0) 65535 = l
  /\ Z.land (Z.shiftr (pack16 l b w h) 16) 65535 = b
  /\ Z.land (Z.shiftr (pack16 l b w h) 32) 65535 = w
  /\ Z.land (Z.shiftr (pack16 l b w h) 48) 65535 = h.
Proof.
  intros Hl Hb Hw Hh. unfold pack16.
  change 65535 with (Z.ones 16).
  rewrite !Z.land_ones, !Z.shiftr_div_pow2 by lia.
  change (2 ^ 0) with 1. change (2 ^ 16) with 65536 in *.
  change (2 ^ 32) with 4294967296. change (2 ^ 48) with 281474976710656.
  change (2 ^ 64) with 18446744073709551616.
  split; [lia|].
  split_and!; Z.div_mod_to_equations; lia.
Qed.

Lemma pack16_inj (l b w h l' b' w' h' : Z) :
  0 <= l < 2 ^ 16 -> 0 <= b < 2 ^ 16 -> 0 <= w < 2 ^ 16 ->
  0 <= h < 2 ^ 16 ->
  0 <= l' < 2 ^ 16 -> 0 <= b' < 2 ^ 16 -> 0 <= w' < 2 ^ 16 ->
  0 <= h' < 2 ^ 16 ->
  pack16 l b w h = pack16 l' b' w' h' ->
  (l, b, w, h) = (l', b', w', h').
Proof.
  intros Hl Hb Hw Hh Hl' Hb' Hw' Hh' Heq.
  destruct (pack16_fields l b w h Hl Hb Hw Hh) as (_ & H1 & H2 & H3 & H4).
  destruct (pack16_fields l' b' w' h' Hl' Hb' Hw' Hh')
    as (_ & H1' & H2' & H3' & H4').
  rewrite Heq in H1, H2, H3, H4. congruence.
Qed.

Lemma makeScissorKey_pack (fbheight : Z) (clipRect : ImVec4.t) :
  makeScissorKey fbheight clipRect
  = (let '(l, b, w, h) := scissor_components fbheight clipRect in
     pack16 l b w h).
Proof.
  unfold makeScissorKey, scissor_components.
  apply pack16_lor; apply uint16_of_float_range.
Qed.

End ScissorKey.


Section Renderable.

Lemma frame_cmds_length (lists : list ImDrawList) :
  length (concat (map CmdBuffer lists))
  = sum_list_with (fun cmds => length (CmdBuffer cmds)) lists.
Proof.
  induction lists as [|cmds rest IH]; simpl; [reflexivity|].
  rewrite length_app, IH. reflexivity.
Qed.

Lemma ScaleClipRects_counts (imguiData : ImDrawData) (fb_scale : ImVec2.t) :
  sum_list_with (fun cmds => length (CmdBuffer cmds))
                (CmdLists (ScaleClipRects imguiData fb_scale))
  = sum_list_with (fun cmds => length (CmdBuffer cmds)) (CmdLists imguiData).
Proof.
  unfold ScaleClipRects. simpl.
  induction (CmdLists imguiData) as [|cmds rest IH]; simpl; [reflexivity|].
  rewrite IH, length_map. reflexivity.
Qed.

Lemma ScaleClipRects_wf (imguiData : ImDrawData) (fb_scale : ImVec2.t) :
  wf_draw_data imguiData -> wf_draw_data (ScaleClipRects imguiData fb_scale).
Proof.
  unfold wf_draw_data, ScaleClipRects. simpl. intros Hall.
  induction Hall as [|cmds rest (Hc & Hl & Hv & Hi) _ IH]; simpl;
    constructor; [|exact IH].
  unfold wf_draw_list. simpl. rewrite length_map.
  split; [|split; [exact Hl|split; [exact Hv|exact Hi]]].
  clear -Hc. induction Hc; simpl; constructor; auto.
Qed.

Lemma list_primitives_length (i : nat) (pcmds : list ImDrawCmd) :
  length (list_primitives i pcmds)
  = length (List.filter (fun pcmd => negb (has_callback pcmd)) pcmds).
Proof.
  rewrite <- primitives_from_nil. generalize (@nil ImDrawCmd).
  induction pcmds as [|pcmd rest IH]; intros pre; [reflexivity|].
  rewrite primitives_from_cons, length_app, IH. simpl.
  destruct (has_callback pcmd); reflexivity.
Qed.

Lemma frame_primitives_length (lists : list ImDrawList) :
  length (frame_primitives lists)
  = length (List.filter (fun pcmd => negb (has_callback pcmd))
                        (concat (map CmdBuffer lists))).
Proof.
  unfold frame_primitives.
  assert (Hgen : forall b,
             length (concat (imap (fun i cmds =>
                                     list_primitives (b + i) (CmdBuffer cmds))
                                  lists))
             = length (List.filter (fun pcmd => negb (has_callback pcmd))
                                   (concat (map CmdBuffer lists)))).
  { induction lists as [|cmds rest IH]; intros b; [reflexivity|].
    rewrite imap_cons. simpl. rewrite List.filter_app, !length_app.
    rewrite list_primitives_length. f_equal.
    rewrite <- (IH (S b)). f_equal. f_equal. apply imap_ext.
    intros n c _. simpl. f_equal. lia. }
  apply (Hgen 0%nat).
Qed.

End Renderable.


Section Materials.

Lemma cmd_entries_materials (vertices : option VertexBuffer)
  (indices : option IndexBuffer) (fbheight : Z)
  (scissorRects : unordered_map (option MaterialInstance))
  (pcmds : list ImDrawCmd) :
  forall offset k,
    omap e_material
         (cmd_entries vertices indices fbheight scissorRects offset k pcmds)
    = omap (instance_of fbheight scissorRects) (List.filter no_callback pcmds).
Proof.
  induction pcmds as [|pcmd rest IH]; intros offset k; simpl.
  - reflexivity.
  - unfold no_callback at 1. destruct (has_callback pcmd); simpl.
    + apply IH.
    + fold (instance_of fbheight scissorRects pcmd).
      destruct (instance_of fbheight scissorRects pcmd); rewrite IH;
        reflexivity.
Qed.

Lemma list_entries_materials (st : State) (fbheight : Z)
  (scissorRects : unordered_map (option MaterialInstance))
  (lists : list ImDrawList) :
  forall b k,
    omap e_material (list_entries st fbheight scissorRects b k lists)
    = omap (instance_of fbheight scissorRects)
           (List.filter no_callback (concat (map CmdBuffer lists))).
Proof.
  induction lists as [|cmds rest IH]; intros b k; simpl.
  - reflexivity.
  - rewrite omap_app, cmd_entries_materials, IH, List.filter_app, omap_app.
    reflexivity.
Qed.

Lemma materials_of_padding (es : list Entry) (n : nat) :
  materials_of (es ++ replicate n empty_entry) = materials_of es.
Proof.
  unfold materials_of. rewrite omap_app.
  assert (Hpad : omap e_material (replicate n empty_entry) = []).
  { induction n as [|n IH]; simpl; [reflexivity|exact IH]. }
  rewrite Hpad, app_nil_r. reflexivity.
Qed.

(** The loop that pushes the scissor rectangles gives every key an instance
    of its own. *)
Lemma assignment_function (keys : list Z) (mis : list MaterialInstance)
  (scissorRects : unordered_map (option MaterialInstance)) :
  NoDup keys -> NoDup mis -> length mis = length keys ->
  (forall n k mi, keys !! n = Some k -> mis !! n = Some mi ->
     umap_find k scissorRects = Some (Some mi)) ->
  exists f : Z -> MaterialInstance,
    (forall k, k ∈ keys ->
       umap_find k scissorRects = Some (Some (f k)) /\ f k ∈ mis)
    /\ (forall k1 k2, k1 ∈ keys -> k2 ∈ keys -> f k1 = f k2 -> k1 = k2)
    /\ (forall mi, mi ∈ mis -> exists k, k ∈ keys /\ f k = mi).
Proof.
  intros Hndk Hndm Hlen Hfind.
  exists (fun k => default 0%nat (mjoin (umap_find k scissorRects))).
  assert (Hpos : forall k, k ∈ keys ->
             exists n mi, keys !! n = Some k /\ mis !! n = Some mi
                          /\ umap_find k scissorRects = Some (Some mi)).
  { intros k Hk. apply list_elem_of_lookup_1 in Hk as [n Hn].
    destruct (lookup_lt_is_Some_2 mis n) as [mi Hmi].
    { rewrite Hlen. eapply lookup_lt_Some; eauto. }
    exists n, mi. split_and!; eauto. }
  split_and!.
  - intros k Hk. destruct (Hpos k Hk) as (n & mi & Hn & Hmi & Hf).
    rewrite Hf. simpl. split; [reflexivity|].
    eapply list_elem_of_lookup_2; eauto.
  - intros k1 k2 Hk1 Hk2.
    destruct (Hpos k1 Hk1) as (n1 & mi1 & Hn1 & Hmi1 & Hf1).
    destruct (Hpos k2 Hk2) as (n2 & mi2 & Hn2 & Hmi2 & Hf2).
    rewrite Hf1, Hf2. simpl. intros ->.
    assert (n1 = n2) by (eapply NoDup_lookup; eauto). subst n2.
    congruence.
  - intros mi Hmi. apply list_elem_of_lookup_1 in Hmi as [n Hn].
    destruct (lookup_lt_is_Some_2 keys n) as [k Hk].
    { rewrite <- Hlen. eapply lookup_lt_Some; eauto. }
    exists k. split; [eapply list_elem_of_lookup_2; eauto|].
    rewrite (Hfind n k mi Hk Hn). reflexivity.
Qed.

(** Distinct values of a function that is injective on a list are as many
    as the distinct elements of the list. *)
Lemma distinct_fmap_length {A B : Type} `{EqDecision A} `{EqDecision B}
  (f : A -> B) (l : list A) :
  (forall x y, x ∈ l -> y ∈ l -> f x = f y -> x = y) ->
  length (remove_dups (f <$> l)) = length (remove_dups l).
Proof.
  intros Hinj. rewrite <- (length_fmap f (remove_dups l)).
  apply Permutation_length. apply NoDup_Permutation.
  - apply NoDup_remove_dups.
  - apply NoDup_fmap_2_strong; [|apply NoDup_remove_dups].
    intros x y Hx Hy. apply Hinj; apply elem_of_remove_dups; assumption.
  - intros y. rewrite elem_of_remove_dups, !list_elem_of_fmap.
    split; intros (x & -> & Hx); exists x; split; auto;
      apply elem_of_remove_dups; exact Hx.
Qed.

End Materials.


Section Claims.

Variable T : bool.
Variable hash : HashOrder.

Lemma new_bridge_wf : wf_state new_bridge.
Proof.
  constructor; simpl; try apply Forall_nil_2.
  - intros i mi H. rewrite lookup_nil in H. discriminate.
  - apply NoDup_nil_2.
Qed.

Lemma ScaleClipRects_length (imguiData : ImDrawData) (fb_scale : ImVec2.t) :
  length (CmdLists (ScaleClipRects imguiData fb_scale))
  = length (CmdLists imguiData).
Proof. unfold ScaleClipRects. simpl. apply length_map. Qed.

Lemma ScaleClipRects_lookup (imguiData : ImDrawData) (fb_scale : ImVec2.t)
  (i : nat) :
  CmdLists (ScaleClipRects imguiData fb_scale) !! i
  = (fun cmds =>
       mkImDrawList (map (scale_clip_rect fb_scale) (CmdBuffer cmds))
                    (IdxBuffer_Size cmds) (VtxBuffer_Size cmds))
    <$> CmdLists imguiData !! i.
Proof. unfold ScaleClipRects. simpl. apply list_lookup_fmap. Qed.

(** C5, as the code has it.  An [update] with a framebuffer of zero width or
    height returns at once: it makes and destroys nothing, builds no
    Renderable and leaves the draw data alone.  Of the bridge it changes
    [has_synced_], which it clears, and nothing else. *)
Theorem zero_area_update_skips (io : ImGuiIO) (imguiData : ImDrawData)
  (st : State) :
  zero_area io = true ->
  exists st',
    update T hash io imguiData st = Some (st', imguiData)
    /\ vertex_buffers_ st' = vertex_buffers_ st
    /\ index_buffers_ st' = index_buffers_ st
    /\ material_instances_ st' = material_instances_ st
    /\ renderable_ st' = renderable_ st
    /\ next_handle st' = next_handle st
    /\ trace st' = trace st
    /\ has_synced_ st' = false.
Proof.
  intros Hz. exists (set_has_synced st false).
  rewrite update_skipped by exact Hz. simpl. auto 10.
Qed.

(** C7.  In one [update] the fence is waited for at most once, however many
    buffers are made; not at all when no buffer is made, and not at all when
    threading is unavailable, where [syncThreads] does nothing.  (With
    threading it is waited for exactly once when a buffer is made.) *)
Theorem fence_wait_at_most_once (io : ImGuiIO) (imguiData : ImDrawData)
  (st : State) :
  wf_state st ->
  exists st' data,
    update T hash io imguiData st = Some (st', data)
    /\ (fence_waits st' <= S (fence_waits st))%nat
    /\ (buffers_built st' = buffers_built st ->
        fence_waits st' = fence_waits st)
    /\ (T = false -> fence_waits st' = fence_waits st)
    /\ (T = true -> (buffers_built st < buffers_built st')%nat ->
        fence_waits st' = S (fence_waits st))
    /\ syncThreads false st = st.
Proof.
  intros Hwf. destruct (zero_area io) eqn:Hz.
  - exists (set_has_synced st false), imguiData.
    rewrite update_skipped by exact Hz.
    unfold fence_waits, buffers_built. simpl.
    split_and!; auto; try lia.
  - destruct (update_spec T hash io imguiData st Hz Hwf)
      as (st' & st1 & keys & mis & rects & Hupd & _ & _ & _ & _ & _ & _ & _
          & _ & _ & _ & _ & _ & _ & _ & Hsync).
    exists st', (ScaleClipRects imguiData (DisplayFramebufferScale io)).
    split; [exact Hupd|].
    destruct (Hsync _ _ (sync_inv_start T st)) as (Hf & Hb & Hs).
    destruct (has_synced_ st') eqn:Hsynced.
    + destruct Hs as [Hs _]. destruct (Hs eq_refl) as [HT Hlt].
      split_and!; auto; try lia. intros HT'. congruence.
    + destruct Hs as [_ Hs].
      split_and!; auto; try lia.
      intros HT Hlt. discriminate (Hs (conj HT Hlt)).
Qed.

(** C6.  [createBuffers(n)] appends the [n - count] missing slots, each a
    buffer made with capacity 1000 vertices or 5000 indices, and neither
    destroys nor replaces a slot that was there.  [populateVertexData], on a
    slot whose buffer is smaller than the count required, destroys that
    buffer and puts a new one of exactly the required count in its place; a
    buffer that is large enough stays. *)
Theorem buffer_pool_growth (n i : nat) (vbSizeInBytes ibSizeInBytes : Z)
  (st : State) (vb0 : VertexBuffer) (ib0 : IndexBuffer) :
  (let nv := (n - length (vertex_buffers_ st))%nat in
   let ni := (n - length (index_buffers_ st))%nat in
   exists st' vbs ibs,
     createBuffers T n st = Some st'
     /\ vertex_buffers_ st' = vertex_buffers_ st ++ (Some <$> vbs)
     /\ index_buffers_ st' = index_buffers_ st ++ (Some <$> ibs)
     /\ length vbs = nv /\ length ibs = ni
     /\ Forall (fun vb => getVertexCount vb = 1000) vbs
     /\ Forall (fun ib => getIndexCount ib = 5000) ibs
     /\ buffers_built st' = (buffers_built st + nv + ni)%nat
     /\ buffers_destroyed st' = buffers_destroyed st)
  /\ (vertex_buffers_ st !! i = Some (Some vb0) ->
      index_buffers_ st !! i = Some (Some ib0) ->
      let requiredVertCount := vbSizeInBytes / sizeof_ImDrawVert in
      let requiredIndexCount := ibSizeInBytes / 2 in
      let growV := getVertexCount vb0 <? requiredVertCount in
      let growI := getIndexCount ib0 <? requiredIndexCount in
      exists st' vb1 ib1 delta,
        populateVertexData T i vbSizeInBytes ibSizeInBytes st = Some st'
        /\ vertex_buffers_ st' = <[i := Some vb1]> (vertex_buffers_ st)
        /\ index_buffers_ st' = <[i := Some ib1]> (index_buffers_ st)
        /\ (if growV then getVertexCount vb1 = requiredVertCount
                          /\ vb_handle vb1 = next_handle st
            else vb1 = vb0)
        /\ (if growI then getIndexCount ib1 = requiredIndexCount
                          /\ (next_handle st <= ib_handle ib1)%nat
            else ib1 = ib0)
        /\ trace st' = delta ++ trace st
        /\ List.filter is_build delta
           = (if growI then [BuildIndexBuffer ib1] else [])
             ++ (if growV then [BuildVertexBuffer vb1] else [])
        /\ List.filter is_destroy delta
           = (if growI then [DestroyIndexBuffer ib0] else [])
             ++ (if growV then [DestroyVertexBuffer vb0] else [])).
Proof.
  split.
  - intros nv ni.
    destruct (createBuffers_spec T n st)
      as (st' & Hcb & Hv & Hi & _ & Hb & Hd & _).
    exists st', ((fun k => mkVertexBuffer k 1000) <$> seq (next_handle st) nv),
      ((fun k => mkIndexBuffer k 5000) <$> seq (next_handle st + nv) ni).
    split; [exact Hcb|].
    split; [rewrite Hv; unfold new_vertex_slots; rewrite <- list_fmap_compose;
            reflexivity|].
    split; [rewrite Hi; unfold new_index_slots; rewrite <- list_fmap_compose;
            reflexivity|].
    rewrite !length_fmap, !length_seq.
    split_and!; auto; apply Forall_fmap, Forall_true; reflexivity.
  - intros Hv Hi reqV reqI growV growI.
    destruct (populateVertexData_spec T i vbSizeInBytes ibSizeInBytes st
                vb0 ib0 Hv Hi)
      as (st' & Hpop & Hv' & Hi' & _ & delta & Ht & Hb & Hd).
    fold reqV reqI growV growI in Hv', Hi', Hb, Hd.
    eexists st', _, _, delta.
    split; [exact Hpop|]. split; [exact Hv'|]. split; [exact Hi'|].
    split; [destruct growV; simpl; auto|].
    split; [destruct growI, growV; simpl; auto|].
    split; [exact Ht|]. split; [exact Hb|exact Hd].
Qed.

Lemma required_scaled (fb_scale : ImVec2.t) (cmds : ImDrawList) :
  let cmds' := mkImDrawList (map (scale_clip_rect fb_scale) (CmdBuffer cmds))
                            (IdxBuffer_Size cmds) (VtxBuffer_Size cmds) in
  required_vertices cmds' = required_vertices cmds
  /\ required_indices cmds' = required_indices cmds.
Proof. split; reflexivity. Qed.

(** What one [update] does to the capacities of the slots. *)
Lemma update_capacity (io : ImGuiIO) (imguiData : ImDrawData) (st : State) :
  wf_state st ->
  exists st' data,
    update T hash io imguiData st = Some (st', data)
    /\ wf_state st'
    /\ (forall i c, vertex_capacity st i = Some c ->
          exists c', vertex_capacity st' i = Some c' /\ c <= c'
            /\ (c' <> c ->
                zero_area io = false
                /\ exists cmds, CmdLists imguiData !! i = Some cmds
                     /\ c < required_vertices cmds
                     /\ c' = required_vertices cmds))
    /\ (forall i c, index_capacity st i = Some c ->
          exists c', index_capacity st' i = Some c' /\ c <= c'
            /\ (c' <> c ->
                zero_area io = false
                /\ exists cmds, CmdLists imguiData !! i = Some cmds
                     /\ c < required_indices cmds
                     /\ c' = required_indices cmds))
    /\ (zero_area io = false ->
        forall i cmds, CmdLists imguiData !! i = Some cmds ->
          exists cv ci,
            vertex_capacity st' i = Some cv /\ required_vertices cmds <= cv
            /\ index_capacity st' i = Some ci /\ required_indices cmds <= ci).
Proof.
  intros Hwf. destruct (zero_area io) eqn:Hz.
  - exists (set_has_synced st false), imguiData.
    rewrite update_skipped by exact Hz.
    split; [reflexivity|].
    split; [apply wf_state_set_has_synced; exact Hwf|].
    split_and!; try discriminate;
      intros i c Hc; exists c; split_and!; auto; try lia; congruence.
  - destruct (update_spec T hash io imguiData st Hz Hwf)
      as (st' & st1 & keys & mis & rects & Hupd & Hwf' & _ & _ & _ & _ & _
          & _ & _ & _ & _ & _ & Hcb & Hin & Hout & _).
    set (data := ScaleClipRects imguiData (DisplayFramebufferScale io)) in *.
    destruct (createBuffers_spec T (length (CmdLists data))
                (set_has_synced st false))
      as (st1' & Hcb' & Hv1 & Hi1 & _).
    rewrite Hcb in Hcb'. inversion Hcb'; subst st1'; clear Hcb'.
    simpl in Hv1, Hi1.
    exists st', data. split; [exact Hupd|]. split; [exact Hwf'|].
    assert (Hlists : forall i,
               CmdLists data !! i
               = (fun cmds =>
                    mkImDrawList
                      (map (scale_clip_rect (DisplayFramebufferScale io))
                           (CmdBuffer cmds))
                      (IdxBuffer_Size cmds) (VtxBuffer_Size cmds))
                 <$> CmdLists imguiData !! i)
      by (intros i; apply ScaleClipRects_lookup).
    split_and!.
    + intros i c Hc. unfold vertex_capacity in *.
      destruct (vertex_buffers_ st !! i) as [[vb0|]|] eqn:Hvb;
        try discriminate.
      simpl in Hc. inversion Hc; subst c; clear Hc.
      destruct (CmdLists data !! i) as [cmds'|] eqn:Hl.
      * destruct (Hin i cmds' Hl)
          as (vb0' & vb1 & _ & _ & Ha & Hb & [Hkeep Hgrow] & _).
        rewrite Hv1, (lookup_app_l_Some _ _ _ _ Hvb) in Ha.
        inversion Ha; subst vb0'; clear Ha.
        rewrite Hb. simpl. exists (getVertexCount vb1).
        rewrite Hlists in Hl.
        destruct (CmdLists imguiData !! i) as [cmds|] eqn:Hl0;
          [|discriminate].
        simpl in Hl. inversion Hl; subst cmds'; clear Hl.
        destruct (required_scaled (DisplayFramebufferScale io) cmds)
          as [Hrv _]. cbn zeta in Hrv. rewrite Hrv in Hkeep, Hgrow.
        destruct (Z_le_gt_dec (required_vertices cmds) (getVertexCount vb0))
          as [Hle|Hgt].
        -- rewrite (Hkeep Hle). split_and!; auto; try lia; try congruence.
        -- rewrite Hgrow by lia. split_and!; auto; try lia.
           intros _. split; [reflexivity|]. exists cmds.
           split_and!; auto; lia.
      * apply lookup_ge_None_1 in Hl.
        destruct (Hout i Hl) as [Ho _]. rewrite Ho, Hvb. simpl.
        exists (getVertexCount vb0).
        split_and!; auto; try lia; try congruence.
    + intros i c Hc. unfold index_capacity in *.
      destruct (index_buffers_ st !! i) as [[ib0|]|] eqn:Hib;
        try discriminate.
      simpl in Hc. inversion Hc; subst c; clear Hc.
      destruct (CmdLists data !! i) as [cmds'|] eqn:Hl.
      * destruct (Hin i cmds' Hl)
          as (_ & _ & ib0' & ib1 & _ & _ & _ & Ha & Hb & [Hkeep Hgrow]).
        rewrite Hi1, (lookup_app_l_Some _ _ _ _ Hib) in Ha.
        inversion Ha; subst ib0'; clear Ha.
        rewrite Hb. simpl. exists (getIndexCount ib1).
        rewrite Hlists in Hl.
        destruct (CmdLists imguiData !! i) as [cmds|] eqn:Hl0;
          [|discriminate].
        simpl in Hl. inversion Hl; subst cmds'; clear Hl.
        destruct (required_scaled (DisplayFramebufferScale io) cmds)
          as [_ Hri]. cbn zeta in Hri. rewrite Hri in Hkeep, Hgrow.
        destruct (Z_le_gt_dec (required_indices cmds) (getIndexCount ib0))
          as [Hle|Hgt].
        -- rewrite (Hkeep Hle). split_and!; auto; try lia; try congruence.
        -- rewrite Hgrow by lia. split_and!; auto; try lia.
           intros _. split; [reflexivity|]. exists cmds.
           split_and!; auto; lia.
      * apply lookup_ge_None_1 in Hl.
        destruct (Hout i Hl) as [_ Ho]. rewrite Ho, Hib. simpl.
        exists (getIndexCount ib0).
        split_and!; auto; try lia; try congruence.
    + intros _ i cmds Hl0.
      assert (Hl : CmdLists data !! i
                   = Some (mkImDrawList
                             (map (scale_clip_rect (DisplayFramebufferScale io))
                                  (CmdBuffer cmds))
                             (IdxBuffer_Size cmds) (VtxBuffer_Size cmds)))
        by (rewrite Hlists, Hl0; reflexivity).
      destruct (Hin i _ Hl)
        as (vb0 & vb1 & ib0 & ib1 & _ & Hb & [Hvk Hvg] & _ & He & [Hik Hig]).
      destruct (required_scaled (DisplayFramebufferScale io) cmds)
        as [Hrv Hri]. cbn zeta in Hrv, Hri.
      rewrite Hrv in Hvk, Hvg. rewrite Hri in Hik, Hig.
      exists (getVertexCount vb1), (getIndexCount ib1).
      unfold vertex_capacity, index_capacity. rewrite Hb, He. simpl.
      split_and!; auto.
      * destruct (Z_le_gt_dec (required_vertices cmds) (getVertexCount vb0))
          as [Hle|Hgt]; [rewrite (Hvk Hle); exact Hle|rewrite Hvg; lia].
      * destruct (Z_le_gt_dec (required_indices cmds) (getIndexCount ib0))
          as [Hle|Hgt]; [rewrite (Hik Hle); exact Hle|rewrite Hig; lia].
Qed.

(** C3.  Over any sequence of [update] calls, the vertex and the index
    capacity of a slot never decrease, and in the end are at least every
    count that a call of the sequence required for that slot; and a single
    call changes a capacity only if it required more than the slot had, to
    exactly what it required. *)
Theorem capacities_only_grow (frames : list (ImGuiIO * ImDrawData))
  (st : State) :
  wf_state st ->
  exists st',
    updates T hash frames st = Some st'
    /\ wf_state st'
    /\ (forall i c, vertex_capacity st i = Some c ->
          exists c', vertex_capacity st' i = Some c' /\ c <= c')
    /\ (forall i c, index_capacity st i = Some c ->
          exists c', index_capacity st' i = Some c' /\ c <= c')
    /\ (forall io imguiData i cmds,
          (io, imguiData) ∈ frames -> zero_area io = false ->
          CmdLists imguiData !! i = Some cmds ->
          exists cv ci,
            vertex_capacity st' i = Some cv /\ required_vertices cmds <= cv
            /\ index_capacity st' i = Some ci /\ required_indices cmds <= ci)
    /\ (forall io imguiData,
          exists st1 data,
            update T hash io imguiData st = Some (st1, data)
            /\ (forall i c c', vertex_capacity st i = Some c ->
                  vertex_capacity st1 i = Some c' -> c' <> c ->
                  zero_area io = false
                  /\ exists cmds, CmdLists imguiData !! i = Some cmds
                       /\ c < required_vertices cmds
                       /\ c' = required_vertices cmds)
            /\ (forall i c c', index_capacity st i = Some c ->
                  index_capacity st1 i = Some c' -> c' <> c ->
                  zero_area io = false
                  /\ exists cmds, CmdLists imguiData !! i = Some cmds
                       /\ c < required_indices cmds
                       /\ c' = required_indices cmds)).
Proof.
  intros Hwf.
  assert (Hseq : exists st',
             updates T hash frames st = Some st'
             /\ wf_state st'
             /\ (forall i c, vertex_capacity st i = Some c ->
                   exists c', vertex_capacity st' i = Some c' /\ c <= c')
             /\ (forall i c, index_capacity st i = Some c ->
                   exists c', index_capacity st' i = Some c' /\ c <= c')
             /\ (forall io imguiData i cmds,
                   (io, imguiData) ∈ frames -> zero_area io = false ->
                   CmdLists imguiData !! i = Some cmds ->
                   exists cv ci,
                     vertex_capacity st' i = Some cv
                     /\ required_vertices cmds <= cv
                     /\ index_capacity st' i = Some ci
                     /\ required_indices cmds <= ci)).
  { clear -Hwf. revert st Hwf.
    induction frames as [|[io imguiData] rest IH]; intros st Hwf.
    - exists st. simpl. split_and!; eauto with lia.
      intros io imguiData i cmds Hin. inversion Hin.
    - destruct (update_capacity io imguiData st Hwf)
        as (st1 & data & Hupd & Hwf1 & Hv1 & Hi1 & Hreq1).
      destruct (IH st1 Hwf1) as (st' & Hrun & Hwf' & Hv' & Hi' & Hreq').
      exists st'. simpl. rewrite Hupd. simpl.
      split; [exact Hrun|]. split; [exact Hwf'|].
      split_and!.
      + intros i c Hc. destruct (Hv1 i c Hc) as (c1 & Hc1 & Hle1 & _).
        destruct (Hv' i c1 Hc1) as (c' & Hc' & Hle'). exists c'.
        split; [exact Hc'|lia].
      + intros i c Hc. destruct (Hi1 i c Hc) as (c1 & Hc1 & Hle1 & _).
        destruct (Hi' i c1 Hc1) as (c' & Hc' & Hle'). exists c'.
        split; [exact Hc'|lia].
      + intros io' data' i cmds Hin Hz Hl.
        apply elem_of_cons in Hin as [Heq|Hin].
        * inversion Heq; subst io' data'; clear Heq.
          destruct (Hreq1 Hz i cmds Hl) as (cv & ci & Hcv & Hlv & Hci & Hli).
          destruct (Hv' i cv Hcv) as (cv' & Hcv' & Hlev).
          destruct (Hi' i ci Hci) as (ci' & Hci' & Hlei).
          exists cv', ci'. split_and!; auto; lia.
        * eapply Hreq'; eauto. }
  destruct Hseq as (st' & Hrun & Hwf' & Hv & Hi & Hreq).
  exists st'. split_and!; auto.
  intros io imguiData.
  destruct (update_capacity io imguiData st Hwf)
    as (st1 & data & Hupd & _ & Hv1 & Hi1 & _).
  exists st1, data. split; [exact Hupd|]. split.
  - intros i c c' Hc Hc' Hne. destruct (Hv1 i c Hc) as (c1 & Hc1 & _ & Hch).
    rewrite Hc' in Hc1. inversion Hc1; subst c1. apply Hch. exact Hne.
  - intros i c c' Hc Hc' Hne. destruct (Hi1 i c Hc) as (c1 & Hc1 & _ & Hch).
    rewrite Hc' in Hc1. inversion Hc1; subst c1. apply Hch. exact Hne.
Qed.


(** C1.  After an [update] that is not skipped, the Renderable holds exactly
    as many primitives as the draw lists have commands, their counts added
    up (none when there is no draw list: the entity then has no Renderable).
    The primitives that carry geometry come first, one for each command
    without a user callback, in frame order: each uses the buffers of the
    slot of its list, starts at the running sum of [ElemCount] over the
    commands before it in that list (0 for the first, never decreasing) and
    has [ElemCount] indices.  The entries left over, one for each command
    with a user callback, are empty; nothing of an earlier frame is there. *)
Theorem renderable_reflects_frame (io : ImGuiIO) (imguiData : ImDrawData)
  (st : State) :
  wf_state st -> zero_area io = false -> wf_draw_data imguiData ->
  let data := ScaleClipRects imguiData (DisplayFramebufferScale io) in
  let prims := frame_primitives (CmdLists data) in
  exists st',
    update T hash io imguiData st = Some (st', data)
    /\ match CmdLists imguiData with
       | [] => renderable_ st' = None
       | _ :: _ =>
           exists r,
             renderable_ st' = Some r
             /\ length r
                = sum_list_with (fun cmds => length (CmdBuffer cmds))
                                (CmdLists imguiData)
             /\ (length prims <= length r)%nat
             /\ geometry_of <$> r
                = imap (fun k p =>
                          (mjoin (vertex_buffers_ st' !! p.1.1),
                           mjoin (index_buffers_ st' !! p.1.1),
                           p.1.2, ElemCount p.2, to_uint16 (Z.of_nat k)))
                       prims
                  ++ replicate (length r - length prims)
                               (geometry_of empty_entry)
       end
    /\ (forall i, (i < length (CmdLists imguiData))%nat ->
          is_Some (mjoin (vertex_buffers_ st' !! i))
          /\ is_Some (mjoin (index_buffers_ st' !! i)))
    /\ (forall cmds, cmds ∈ CmdLists data ->
          running_offset (CmdBuffer cmds) 0 = 0
          /\ forall j j', (j <= j')%nat ->
               0 <= running_offset (CmdBuffer cmds) j
                 <= running_offset (CmdBuffer cmds) j').
Proof.
  intros Hwf Hz Hdata data prims.
  destruct (update_spec T hash io imguiData st Hz Hwf)
    as (st' & st1 & keys & mis & rects & Hupd & Hwf' & _ & _ & _ & _ & _
        & _ & _ & _ & _ & Hrend & _ & Hin & _ & _).
  fold data in Hupd, Hrend, Hin.
  pose proof (ScaleClipRects_wf imguiData (DisplayFramebufferScale io) Hdata)
    as Hdata'. fold data in Hdata'.
  exists st'. split; [exact Hupd|].
  cbn zeta in Hrend. rewrite list_entries_frame in Hrend by exact Hdata'.
  fold prims in Hrend.
  assert (Hlen : length (CmdLists data) = length (CmdLists imguiData))
    by apply ScaleClipRects_length.
  assert (Hcount : length (frame_cmds data)
                   = sum_list_with (fun cmds => length (CmdBuffer cmds))
                                   (CmdLists imguiData)).
  { unfold frame_cmds. rewrite frame_cmds_length.
    apply ScaleClipRects_counts. }
  assert (Hle : (length prims <= length (frame_cmds data))%nat).
  { subst prims. rewrite frame_primitives_length. apply filter_length_le. }
  split_and!.
  - destruct (CmdLists imguiData) as [|cmds0 rest0] eqn:Hl0.
    + destruct (CmdLists data); [exact Hrend|discriminate].
    + destruct (CmdLists data) as [|cmds rest] eqn:Hl; [discriminate|].
      eexists. split; [exact Hrend|].
      rewrite length_app, length_replicate, length_imap.
      split; [lia|]. split; [lia|].
      rewrite fmap_app, fmap_replicate, fmap_imap. f_equal.
      f_equal. lia.
  - intros i Hi. rewrite <- Hlen in Hi.
    destruct (lookup_lt_is_Some_2 _ _ Hi) as [cmds Hc].
    destruct (Hin i cmds Hc) as (_ & vb1 & _ & ib1 & _ & Hv & _ & _ & Hi' & _).
    rewrite Hv, Hi'. simpl. eauto.
  - intros cmds Hc. split; [reflexivity|]. intros j j' Hj.
    unfold wf_draw_data in Hdata'. rewrite Forall_forall in Hdata'.
    destruct (Hdata' cmds Hc) as (Hall & _).
    destruct (running_offset_mono _ Hall j j' Hj) as [H1 _]. exact H1.
Qed.


Lemma list_primitives_elem (i : nat) (pcmds : list ImDrawCmd)
  (p : nat * Z * ImDrawCmd) :
  p ∈ list_primitives i pcmds -> p.2 ∈ pcmds.
Proof.
  unfold list_primitives. intros Hp.
  apply list_elem_of_omap in Hp as ([j pcmd] & Hjc & Hsome).
  apply elem_of_lookup_imap_1 in Hjc as (j' & c & Heq & Hc).
  inversion Heq; subst j' c. simpl in Hsome.
  destruct (has_callback pcmd); [discriminate|].
  inversion Hsome; subst p. simpl.
  eapply list_elem_of_lookup_2; eauto.
Qed.

Lemma frame_primitives_elem (lists : list ImDrawList)
  (p : nat * Z * ImDrawCmd) :
  p ∈ frame_primitives lists -> p.2 ∈ concat (map CmdBuffer lists).
Proof.
  unfold frame_primitives.
  assert (Hgen : forall b,
             p ∈ concat (imap (fun i cmds =>
                                 list_primitives (b + i) (CmdBuffer cmds))
                              lists) ->
             p.2 ∈ concat (map CmdBuffer lists)).
  { induction lists as [|cmds rest IH]; intros b Hp.
    - inversion Hp.
    - rewrite imap_cons in Hp. simpl in Hp.
      apply elem_of_app in Hp as [Hp|Hp]; simpl; apply elem_of_app.
      + left. eapply list_primitives_elem; eauto.
      + right. apply (IH (S b)).
        erewrite imap_ext; [exact Hp|].
        intros n c _. simpl. f_equal. lia. }
  apply (Hgen 0%nat).
Qed.

Lemma omap_instance_of (fbheight : Z)
  (scissorRects : unordered_map (option MaterialInstance))
  (f : Z -> MaterialInstance) (pcmds : list ImDrawCmd) :
  (forall pcmd, pcmd ∈ pcmds ->
     umap_find (scissor_key fbheight pcmd) scissorRects
     = Some (Some (f (scissor_key fbheight pcmd)))) ->
  omap (instance_of fbheight scissorRects) pcmds
  = f <$> (scissor_key fbheight <$> pcmds).
Proof.
  induction pcmds as [|pcmd rest IH]; intros Hall; simpl; [reflexivity|].
  unfold instance_of at 1. rewrite Hall by left. simpl.
  f_equal. apply IH. intros c Hc. apply Hall. right. exact Hc.
Qed.

Lemma filter_no_callback_all (pcmds : list ImDrawCmd) :
  Forall (fun pcmd => has_callback pcmd = false) pcmds ->
  List.filter no_callback pcmds = pcmds.
Proof.
  induction 1 as [|pcmd rest Hp _ IH]; simpl; [reflexivity|].
  unfold no_callback at 1. rewrite Hp. simpl. f_equal. exact IH.
Qed.

(** C2, as the code has it.  An [update] that is not skipped gives a scissor
    rectangle to as many distinct material instances as the frame's draw
    commands have distinct scissor keys.  The material instances that the
    primitives carry are among them, and they are as many distinct ones as
    the commands without a user callback have distinct keys: all of them
    when no command has a callback.  When the frame has more distinct keys
    than the pool has instances the pool grows by exactly the shortfall,
    otherwise it is left as it was; no [update] makes it shorter. *)
Theorem material_instances_per_key (io : ImGuiIO) (imguiData : ImDrawData)
  (st : State) :
  wf_state st ->
  let data := ScaleClipRects imguiData (DisplayFramebufferScale io) in
  let fbheight := fb_height io in
  let nk := length (remove_dups (frame_keys fbheight data)) in
  exists st' out,
    update T hash io imguiData st = Some (st', out)
    /\ (length (material_instances_ st)
        <= length (material_instances_ st'))%nat
    /\ (zero_area io = true ->
        material_instances_ st' = material_instances_ st)
    /\ (zero_area io = false ->
        exists mis news,
          scissors_set st' = mis ++ scissors_set st
          /\ NoDup mis /\ length mis = nk
          /\ material_instances_ st' = material_instances_ st ++ news
          /\ length news = (nk - length (material_instances_ st))%nat
          /\ forall r, renderable_ st' = Some r ->
               (forall mi, mi ∈ materials_of r -> mi ∈ mis)
               /\ length (remove_dups (materials_of r))
                  = length (remove_dups
                              (scissor_key fbheight
                               <$> List.filter no_callback (frame_cmds data)))
               /\ (Forall (fun pcmd => has_callback pcmd = false)
                          (frame_cmds data) ->
                   length (remove_dups (materials_of r)) = nk)).
Proof.
  intros Hwf data fbheight nk. destruct (zero_area io) eqn:Hz.
  - exists (set_has_synced st false), imguiData.
    rewrite update_skipped by exact Hz. simpl.
    split_and!; auto; discriminate.
  - destruct (update_spec T hash io imguiData st Hz Hwf)
      as (st' & st1 & keys & mis & rects & Hupd & Hwf' & Hndk & Hink & Hlenk
          & Hndm & _ & Hlenm & Hfind & Hsc & Hpool & Hrend & _).
    fold data fbheight nk in Hupd, Hink, Hlenk, Hlenm, Hsc, Hpool, Hrend.
    exists st', data. split; [exact Hupd|].
    split; [rewrite Hpool, length_app; lia|].
    split; [discriminate|]. intros _.
    exists (rev mis),
      (Some <$> seq (next_handle st1) (nk - length (material_instances_ st))).
    split; [exact Hsc|].
    split; [eapply NoDup_Permutation_proper;
            [symmetry; apply Permutation_rev|exact Hndm]|].
    split; [rewrite length_rev; exact Hlenm|].
    split; [exact Hpool|].
    split; [rewrite length_fmap, length_seq; reflexivity|].
    intros r Hr. cbn zeta in Hrend. rewrite Hr in Hrend.
    pose proof (list_entries_materials st' fbheight rects (CmdLists data)
                  0%nat 0%nat) as Hmats.
    fold (frame_cmds data) in Hmats.
    set (es := list_entries st' fbheight rects 0 0 (CmdLists data)) in *.
    clearbody es.
    assert (Hr' : r = es ++ replicate (length (frame_cmds data) - length es)
                                      empty_entry).
    { destruct (CmdLists data); [discriminate|]. congruence. }
    subst r. clear Hrend Hr.
    rewrite materials_of_padding. unfold materials_of. rewrite Hmats.
    destruct (assignment_function keys mis rects Hndk Hndm)
      as (f & Hf & Hinj & _); [lia|exact Hfind|].
    assert (Hkey : forall pcmd, pcmd ∈ frame_cmds data ->
                     scissor_key fbheight pcmd ∈ keys).
    { intros pcmd Hp. apply Hink. unfold frame_keys.
      apply list_elem_of_fmap. exists pcmd. auto. }
    assert (Hsub : forall pcmd,
               pcmd ∈ List.filter no_callback (frame_cmds data) ->
               pcmd ∈ frame_cmds data).
    { intros pcmd Hp. apply list_elem_of_In in Hp.
      apply List.filter_In in Hp as [Hp _]. apply list_elem_of_In. exact Hp. }
    assert (Hmat : omap (instance_of fbheight rects)
                        (List.filter no_callback (frame_cmds data))
                   = f <$> (scissor_key fbheight
                            <$> List.filter no_callback (frame_cmds data))).
    { apply omap_instance_of. intros pcmd Hp.
      apply Hf, Hkey, Hsub, Hp. }
    rewrite Hmat.
    assert (Hcount : length (remove_dups
                               (f <$> (scissor_key fbheight
                                       <$> List.filter no_callback
                                             (frame_cmds data))))
                     = length (remove_dups
                                 (scissor_key fbheight
                                  <$> List.filter no_callback
                                        (frame_cmds data)))).
    { apply distinct_fmap_length. intros k1 k2 Hk1 Hk2.
      apply list_elem_of_fmap in Hk1 as (c1 & -> & Hc1).
      apply list_elem_of_fmap in Hk2 as (c2 & -> & Hc2).
      apply Hinj; apply Hkey, Hsub; assumption. }
    split_and!.
    + intros mi Hmi. apply list_elem_of_fmap in Hmi as (k & -> & Hk).
      apply list_elem_of_fmap in Hk as (c & -> & Hc).
      eapply elem_of_Permutation_proper;
        [symmetry; apply Permutation_rev|].
      apply (Hf (scissor_key fbheight c)), Hkey, Hsub, Hc.
    + exact Hcount.
    + intros Hall. rewrite Hcount, filter_no_callback_all by exact Hall.
      reflexivity.
Qed.

(** C4, as the code has it.  The scissor key is the 64-bit value that holds
    the four components left, bottom, width and height at bit offsets 0, 16,
    32 and 48, each converted to [uint16_t] by the cast.  An integer part in
    [0, 65535] is kept as it is.  Nothing is clamped: for every other value
    C++ leaves the cast undefined, and as compiled for x86-64 an integer
    part that fits an [int] leaves its low 16 bits, and a larger one, an
    infinity or a NaN leaves 0.  Two keys are equal exactly if the four
    converted components are, and in a frame the primitives of two commands
    carry the same material instance exactly if the components of their
    clip rectangles agree. *)
Theorem scissor_key_packs_components (fbheight : Z) (clipRect : ImVec4.t)
  (io : ImGuiIO) (imguiData : ImDrawData) (st : State) :
  (let '(l, b, w, h) := scissor_components fbheight clipRect in
   makeScissorKey fbheight clipRect = pack16 l b w h
   /\ 0 <= makeScissorKey fbheight clipRect < 2 ^ 64
   /\ Z.land (Z.shiftr (makeScissorKey fbheight clipRect) 0) 65535 = l
   /\ Z.land (Z.shiftr (makeScissorKey fbheight clipRect) 16) 65535 = b
   /\ Z.land (Z.shiftr (makeScissorKey fbheight clipRect) 32) 65535 = w
   /\ Z.land (Z.shiftr (makeScissorKey fbheight clipRect) 48) 65535 = h)
  /\ (forall (f : float) (t : Z),
        ftrunc f = Some t -> 0 <= t <= 65535 ->
        uint16_of_float f = t /\ uint16_of_float f = clamp16 t)
  /\ (forall f : float,
        uint16_of_float f
        = match ftrunc f with
          | Some t =>
              if (0 <=? t) && (t <=? 65535) then t
              else if (- 2 ^ 31 <=? t) && (t <? 2 ^ 31) then t mod 2 ^ 16
              else 0
          | None => 0
          end)
  /\ (forall clipRect',
        makeScissorKey fbheight clipRect = makeScissorKey fbheight clipRect'
        <-> scissor_components fbheight clipRect
            = scissor_components fbheight clipRect')
  /\ (wf_state st -> zero_area io = false -> wf_draw_data imguiData ->
      let data := ScaleClipRects imguiData (DisplayFramebufferScale io) in
      let prims := frame_primitives (CmdLists data) in
      exists st',
        update T hash io imguiData st = Some (st', data)
        /\ forall r k1 k2 p1 p2,
             renderable_ st' = Some r ->
             prims !! k1 = Some p1 -> prims !! k2 = Some p2 ->
             exists e1 e2,
               r !! k1 = Some e1 /\ r !! k2 = Some e2
               /\ is_Some (e_material e1) /\ is_Some (e_material e2)
               /\ (e_material e1 = e_material e2 <->
                   scissor_components (fb_height io) (ClipRect p1.2)
                   = scissor_components (fb_height io) (ClipRect p2.2))).
Proof.
  assert (Hinj : forall fbh r1 r2,
             makeScissorKey fbh r1 = makeScissorKey fbh r2
             <-> scissor_components fbh r1 = scissor_components fbh r2).
  { clear. intros fbh r1 r2. rewrite !makeScissorKey_pack.
    unfold scissor_components. split.
    - apply pack16_inj; apply uint16_of_float_range.
    - intros Heq. inversion Heq. reflexivity. }
  split_and!.
  - pose proof (makeScissorKey_pack fbheight clipRect) as Hpack.
    unfold scissor_components in *.
    rewrite Hpack.
    destruct (pack16_fields
                (uint16_of_float (ImVec4.x clipRect))
                (uint16_of_float (fsub (float_of_int fbheight)
                                       (ImVec4.w clipRect)))
                (uint16_of_float (fsub (ImVec4.z clipRect)
                                       (ImVec4.x clipRect)))
                (uint16_of_float (fsub (ImVec4.w clipRect)
                                       (ImVec4.y clipRect))))
      as (H0 & H1 & H2 & H3 & H4); try apply uint16_of_float_range.
    split; [reflexivity|]. split; [exact H0|]. auto.
  - intros f t Ht Hr. split; [apply uint16_of_float_in_range; assumption|].
    rewrite (uint16_of_float_in_range f t Ht Hr). unfold clamp16. lia.
  - apply uint16_of_float_cases.
  - intros clipRect'. apply Hinj.
  - intros Hwf Hz Hdata data prims.
    destruct (update_spec T hash io imguiData st Hz Hwf)
      as (st' & st1 & keys & mis & rects & Hupd & Hwf' & Hndk & Hink & Hlenk
          & Hndm & _ & Hlenm & Hfind & _ & _ & Hrend & _).
    fold data in Hupd, Hink, Hlenk, Hlenm, Hrend.
    pose proof (ScaleClipRects_wf imguiData (DisplayFramebufferScale io)
                  Hdata) as Hdata'. fold data in Hdata'.
    exists st'. split; [exact Hupd|].
    intros r k1 k2 p1 p2 Hr Hp1 Hp2.
    cbn zeta in Hrend. rewrite list_entries_frame in Hrend by exact Hdata'.
    fold prims in Hrend. rewrite Hr in Hrend.
    destruct (assignment_function keys mis rects Hndk Hndm)
      as (f & Hf & Hfinj & _); [lia|exact Hfind|].
    assert (Hkey : forall k p, prims !! k = Some p ->
                     scissor_key (fb_height io) p.2 ∈ keys).
    { intros k p Hp. apply Hink. unfold frame_keys.
      apply list_elem_of_fmap. exists p.2. split; [reflexivity|].
      unfold frame_cmds. apply frame_primitives_elem.
      fold prims. eapply list_elem_of_lookup_2; eauto. }
    clearbody prims.
    assert (Hr' : r = imap (entry_of st' (fb_height io) rects) prims
                      ++ replicate
                           (length (frame_cmds data)
                            - length (imap (entry_of st' (fb_height io) rects)
                                           prims))
                           empty_entry).
    { destruct (CmdLists data); [discriminate|]. congruence. }
    subst r. clear Hrend Hr.
    assert (Hentry : forall k p, prims !! k = Some p ->
              (imap (entry_of st' (fb_height io) rects) prims
               ++ replicate (length (frame_cmds data)
                             - length (imap (entry_of st' (fb_height io) rects)
                                            prims))
                            empty_entry) !! k
              = Some (entry_of st' (fb_height io) rects k p)).
    { intros k p Hp. apply lookup_app_l_Some.
      rewrite list_lookup_imap, Hp. reflexivity. }
    exists (entry_of st' (fb_height io) rects k1 p1),
      (entry_of st' (fb_height io) rects k2 p2).
    split; [apply Hentry; exact Hp1|]. split; [apply Hentry; exact Hp2|].
    unfold entry_of. simpl.
    destruct (Hf _ (Hkey k1 p1 Hp1)) as [Hf1 _].
    destruct (Hf _ (Hkey k2 p2 Hp2)) as [Hf2 _].
    rewrite Hf1, Hf2. simpl. split; [eauto|]. split; [eauto|].
    rewrite <- Hinj. unfold scissor_key in *. split.
    + intros Heq. inversion Heq as [Heq'].
      apply Hfinj in Heq'; [exact Heq'|eapply Hkey; eauto|eapply Hkey; eauto].
    + intros ->. reflexivity.
Qed.


End Claims.


(** ** The claims on sample frames *)

Lemma sample_frame_wf : wf_draw_data sample_frame.
Proof.
  unfold wf_draw_data, sample_frame, wf_draw_list. simpl.
  repeat constructor; simpl; lia.
Qed.

Lemma drawn_bridge_reached :
  exists data,
    update true insertion_order sample_io sample_frame new_bridge
    = Some (drawn_bridge, data).
Proof. eexists. vm_compute. reflexivity. Qed.

Lemma renderable_reflects_frame_witness :
  exists st' r,
    update true insertion_order sample_io sample_frame new_bridge
    = Some (st', ScaleClipRects sample_frame
                   (DisplayFramebufferScale sample_io))
    /\ renderable_ st' = Some r /\ length r = 4%nat.
Proof.
  destruct (renderable_reflects_frame true insertion_order sample_io
              sample_frame new_bridge)
    as (st' & Hupd & Hrend & _).
  - exact new_bridge_wf.
  - vm_compute. reflexivity.
  - exact sample_frame_wf.
  - simpl in Hrend. destruct Hrend as (r & Hr & Hlen & _).
    exists st', r. split; [exact Hupd|]. split; [exact Hr|exact Hlen].
Defined.

(** C2: a command with a user callback has a scissor key, and its entry in
    the Renderable carries no material instance.  In [callback_frame] the
    draw commands have two distinct keys and the primitives carry one
    material instance. *)
Lemma callback_command_carries_no_material :
  exists st' r,
    update true insertion_order sample_io callback_frame new_bridge
    = Some (st', ScaleClipRects callback_frame
                   (DisplayFramebufferScale sample_io))
    /\ renderable_ st' = Some r
    /\ length (remove_dups (materials_of r)) = 1%nat
    /\ length (remove_dups
                 (frame_keys (fb_height sample_io)
                    (ScaleClipRects callback_frame
                       (DisplayFramebufferScale sample_io)))) = 2%nat
    /\ length (remove_dups (materials_of r))
       <> length (remove_dups
                    (frame_keys (fb_height sample_io)
                       (ScaleClipRects callback_frame
                          (DisplayFramebufferScale sample_io)))).
Proof.
  eexists. eexists. split; [vm_compute; reflexivity|].
  split; [reflexivity|]. vm_compute. split_and!; auto. discriminate.
Qed.

Lemma material_instances_per_key_witness :
  exists st' out,
    update true insertion_order sample_io sample_frame new_bridge
    = Some (st', out)
    /\ length (material_instances_ st') = 3%nat.
Proof.
  destruct (material_instances_per_key true insertion_order sample_io
              sample_frame new_bridge new_bridge_wf)
    as (st' & out & Hupd & _ & _ & Hdrawn).
  destruct Hdrawn as (mis & news & _ & _ & _ & Hpool & Hnews & _).
  - vm_compute. reflexivity.
  - exists st', out. split; [exact Hupd|].
    rewrite Hpool, length_app, Hnews. vm_compute. reflexivity.
Defined.

Lemma capacities_only_grow_witness :
  exists st' cv,
    updates true insertion_order
      [(sample_io, sample_frame); (hidden_io, sample_frame);
       (sample_io, callback_frame)] new_bridge = Some st'
    /\ vertex_capacity st' 1 = Some cv /\ 2000 <= cv.
Proof.
  destruct (capacities_only_grow true insertion_order
              [(sample_io, sample_frame); (hidden_io, sample_frame);
               (sample_io, callback_frame)] new_bridge new_bridge_wf)
    as (st' & Hrun & _ & _ & _ & Hreq & _).
  destruct (Hreq sample_io sample_frame 1%nat
              (mkImDrawList [mkImDrawCmd 9 (sample_rect 5 10 15 20) None]
                            6000 2000))
    as (cv & ci & Hcv & Hle & _).
  - left.
  - vm_compute. reflexivity.
  - reflexivity.
  - exists st', cv. split; [exact Hrun|]. split; [exact Hcv|exact Hle].
Defined.

(** C4: nothing is clamped.  A clip rectangle that reaches 100 pixels below
    a framebuffer of height 600 has the bottom -100, which the cast turns
    into 65436 and a clamp would turn into 0; a left edge at 70000 becomes
    4464, not 65535. *)
Lemma scissor_key_is_not_clamped :
  scissor_components 600 (sample_rect 0 0 800 700) = (0, 65436, 800, 700)
  /\ makeScissorKey 600 (sample_rect 0 0 800 700)
     <> clamped_ScissorKey 600 (sample_rect 0 0 800 700)
  /\ scissor_components 600 (sample_rect 70000 0 70010 10)
     = (4464, 590, 10, 10)
  /\ makeScissorKey 600 (sample_rect 70000 0 70010 10)
     <> clamped_ScissorKey 600 (sample_rect 70000 0 70010 10).
Proof. vm_compute. split_and!; auto; discriminate. Qed.

Lemma scissor_key_packs_components_witness :
  uint16_of_float (float_of_int 560) = 560
  /\ uint16_of_float (float_of_int (-100)) = 65436
  /\ uint16_of_float (float_of_int 3001000000) = 0
  /\ uint16_of_float S754_nan = 0
  /\ exists st',
       update true insertion_order sample_io sample_frame new_bridge
       = Some (st', ScaleClipRects sample_frame
                      (DisplayFramebufferScale sample_io)).
Proof.
  destruct (scissor_key_packs_components true insertion_order 600
              (sample_rect 5 10 15 20) sample_io sample_frame new_bridge)
    as (_ & Hcast & Hall & _ & Hframe).
  split; [apply (Hcast (float_of_int 560) 560); [reflexivity|lia]|].
  split; [rewrite Hall; reflexivity|].
  split; [rewrite Hall; reflexivity|].
  split; [rewrite Hall; reflexivity|].
  - destruct Hframe as (st' & Hupd & _).
    + exact new_bridge_wf.
    + vm_compute. reflexivity.
    + exact sample_frame_wf.
    + exists st'. exact Hupd.
Defined.

(** C5: the skipped frame clears [has_synced_].  After [sample_frame] was
    drawn with threading the flag is set, and an [update] for a framebuffer
    of zero width does not leave the bridge as it was. *)
Lemma skipped_update_clears_has_synced :
  (exists data,
     update true insertion_order sample_io sample_frame new_bridge
     = Some (drawn_bridge, data))
  /\ zero_area hidden_io = true
  /\ has_synced_ drawn_bridge = true
  /\ forall st' data,
       update true insertion_order hidden_io sample_frame drawn_bridge
       = Some (st', data) ->
       has_synced_ st' = false /\ st' <> drawn_bridge.
Proof.
  split; [exact drawn_bridge_reached|].
  split; [vm_compute; reflexivity|]. split; [vm_compute; reflexivity|].
  intros st' data Hupd. rewrite update_skipped in Hupd by reflexivity.
  inversion Hupd; subst st' data. split; [reflexivity|].
  intros Heq. apply (f_equal has_synced_) in Heq. vm_compute in Heq.
  discriminate.
Qed.

Lemma zero_area_update_skips_witness :
  exists st',
    update true insertion_order hidden_io sample_frame drawn_bridge
    = Some (st', sample_frame)
    /\ trace st' = trace drawn_bridge.
Proof.
  destruct (zero_area_update_skips true insertion_order hidden_io
              sample_frame drawn_bridge)
    as (st' & Hupd & _ & _ & _ & _ & _ & Htrace & _).
  - vm_compute. reflexivity.
  - exists st'. split; [exact Hupd|exact Htrace].
Defined.

Lemma buffer_pool_growth_witness :
  exists st' vb1,
    populateVertexData true 0 40000 42 drawn_bridge = Some st'
    /\ vertex_buffers_ st' !! 0%nat = Some (Some vb1)
    /\ getVertexCount vb1 = 2000.
Proof.
  destruct (buffer_pool_growth true 2 0 40000 42 drawn_bridge
              (mkVertexBuffer 0 1000) (mkIndexBuffer 2 5000))
    as (_ & Hpop).
  destruct Hpop as (st' & vb1 & ib1 & delta & Hrun & Hv & _ & Hgrow & _).
  - reflexivity.
  - reflexivity.
  - exists st', vb1. split; [exact Hrun|].
    split; [rewrite Hv; reflexivity|].
    vm_compute in Hgrow. destruct Hgrow as [Hcount _]. exact Hcount.
Defined.

Lemma fence_wait_at_most_once_witness :
  exists st' data,
    update true insertion_order sample_io sample_frame new_bridge
    = Some (st', data)
    /\ (fence_waits st' <= 1)%nat.
Proof.
  destruct (fence_wait_at_most_once true insertion_order sample_io
              sample_frame new_bridge new_bridge_wf)
    as (st' & data & Hupd & Hle & _).
  exists st', data. split; [exact Hupd|exact Hle].
Defined.


Section Engine.

Variable T : bool.
Variable hash : HashOrder.

Lemma engine_of_app (evs tr : list Event) :
  engine_of (evs ++ tr) = foldr engine_step (engine_of tr) evs.
Proof. unfold engine_of. apply foldr_app. Qed.

Lemma engine_of_fence (st : State) (tr : list Event) :
  engine_of (fence_events T st ++ tr) = engine_of tr.
Proof.
  unfold fence_events. destruct (T && negb (has_synced_ st)); reflexivity.
Qed.

Lemma elem_of_insert_iff {A : Type} (l : list A) (i : nat) (x y : A) :
  y ∈ <[i := x]> l
  <-> (i < length l)%nat /\ y = x \/ exists j, j <> i /\ l !! j = Some y.
Proof.
  rewrite list_elem_of_lookup. split.
  - intros [j Hj]. apply list_lookup_insert_Some in Hj
      as [(-> & -> & Hlt)|(Hne & Hj)]; [auto|].
    right. exists j. auto.
  - intros [[Hlt ->]|(j & Hne & Hj)].
    + exists i. apply list_lookup_insert_eq. exact Hlt.
    + exists j. rewrite list_lookup_insert_ne by congruence. exact Hj.
Qed.

(** A slot is given a new buffer, the old one (if any) being destroyed. *)
Lemma pool_inv_replace (live : gmap nat Z) (slots : list (option (nat * Z)))
  (next i : nat) (old : option (nat * Z)) (c : Z) :
  pool_inv live slots next -> slots !! i = Some old ->
  pool_inv (<[next := c]>
              (match old with Some hc => delete hc.1 live | None => live end))
           (<[i := Some (next, c)]> slots) (S next).
Proof.
  intros (Hlive & Hfresh & Hinj) Hi.
  pose proof (lookup_lt_Some _ _ _ Hi) as Hlt.
  assert (Hnew : forall c' j, slots !! j = Some (Some (next, c')) -> False).
  { intros c' j Hj. assert (Some (next, c') ∈ slots) as Hin
      by (eapply list_elem_of_lookup_2; eauto).
    apply Hfresh in Hin. lia. }
  split_and!.
  - intros h c'. rewrite elem_of_insert_iff.
    destruct (decide (h = next)) as [->|Hne].
    + rewrite lookup_insert_eq. split.
      * intros Heq. left. split; [exact Hlt|]. congruence.
      * intros [[_ Heq]|(j & _ & Hj)]; [congruence|].
        destruct (Hnew c' j Hj).
    + rewrite lookup_insert_ne by congruence.
      assert (Hrest : (exists j, j <> i /\ slots !! j = Some (Some (h, c')))
                      <-> match old with
                          | Some hc => delete hc.1 live
                          | None => live
                          end !! h = Some c').
      { destruct old as [[ho co]|]; simpl.
        - destruct (decide (h = ho)) as [->|Hho].
          + rewrite lookup_delete_eq. split; [|discriminate].
            intros (j & Hji & Hj). destruct Hji.
            apply (Hinj j i ho c' co Hj Hi).
          + rewrite lookup_delete_ne by congruence. rewrite Hlive.
            rewrite list_elem_of_lookup. split.
            * intros (j & _ & Hj). eauto.
            * intros (j & Hj). exists j. split; [|exact Hj].
              intros ->. rewrite Hi in Hj. congruence.
        - rewrite Hlive, list_elem_of_lookup. split.
          + intros (j & _ & Hj). eauto.
          + intros (j & Hj). exists j. split; [|exact Hj].
            intros ->. rewrite Hi in Hj. congruence. }
      rewrite <- Hrest. split; [auto|].
      intros [[_ Heq]|H]; [congruence|exact H].
  - intros h c'. rewrite elem_of_insert_iff.
    intros [[_ Heq]|(j & _ & Hj)].
    + inversion Heq. lia.
    + assert (Some (h, c') ∈ slots) as Hin
        by (eapply list_elem_of_lookup_2; eauto).
      apply Hfresh in Hin. lia.
  - intros j k h c1 c2 Hj Hk.
    apply list_lookup_insert_Some in Hj as [(-> & Hj & _)|(Hji & Hj)];
      apply list_lookup_insert_Some in Hk as [(-> & Hk & _)|(Hki & Hk)].
    + reflexivity.
    + inversion Hj; subst. destruct (Hnew c2 k Hk).
    + inversion Hk; subst. destruct (Hnew c1 j Hj).
    + eapply Hinj; eauto.
Qed.

Lemma pool_inv_mono (live : gmap nat Z) (slots : list (option (nat * Z)))
  (next next' : nat) :
  (next <= next')%nat -> pool_inv live slots next ->
  pool_inv live slots next'.
Proof.
  intros Hle (Hlive & Hfresh & Hinj). split_and!; auto.
  intros h c Hin. apply Hfresh in Hin. lia.
Qed.

(** Null slots appended hold nothing. *)
Lemma pool_inv_extend (live : gmap nat Z) (slots : list (option (nat * Z)))
  (next n : nat) :
  pool_inv live slots next -> pool_inv live (slots ++ replicate n None) next.
Proof.
  intros (Hlive & Hfresh & Hinj).
  assert (Hin : forall x, Some x ∈ slots ++ replicate n None
                          <-> Some x ∈ slots).
  { intros x. rewrite elem_of_app, elem_of_replicate. split; [|auto].
    intros [H|[H _]]; [exact H|discriminate]. }
  assert (Hlook : forall j x, (slots ++ replicate n None) !! j = Some (Some x)
                              -> slots !! j = Some (Some x)).
  { intros j x Hj. apply lookup_app_Some in Hj as [Hj|[_ Hj]]; [exact Hj|].
    apply lookup_replicate in Hj as [Hj _]. discriminate. }
  split_and!.
  - intros h c. rewrite Hin. apply Hlive.
  - intros h c. rewrite Hin. apply Hfresh.
  - intros i j h c c' Hi Hj. eapply Hinj; eauto.
Qed.


Lemma vertex_slots_lookup (st : State) (i : nat) (old : option VertexBuffer) :
  vertex_buffers_ st !! i = Some old ->
  vertex_slots st !! i = Some (vertex_key <$> old).
Proof. intros H. unfold vertex_slots. rewrite list_lookup_fmap, H. reflexivity. Qed.

Lemma index_slots_lookup (st : State) (i : nat) (old : option IndexBuffer) :
  index_buffers_ st !! i = Some old ->
  index_slots st !! i = Some (index_key <$> old).
Proof. intros H. unfold index_slots. rewrite list_lookup_fmap, H. reflexivity. Qed.

Lemma vertex_live_slot (st : State) (i : nat) (vb : VertexBuffer) :
  engine_inv st -> vertex_buffers_ st !! i = Some (Some vb) ->
  vertex_live (engine_of (trace st)) vb = true.
Proof.
  intros Hinv Hi. unfold vertex_live. apply bool_decide_eq_true.
  apply (ei_vertex _ Hinv). eapply list_elem_of_lookup_2.
  apply (vertex_slots_lookup st i (Some vb) Hi).
Qed.

Lemma index_live_slot (st : State) (i : nat) (ib : IndexBuffer) :
  engine_inv st -> index_buffers_ st !! i = Some (Some ib) ->
  index_live (engine_of (trace st)) ib = true.
Proof.
  intros Hinv Hi. unfold index_live. apply bool_decide_eq_true.
  apply (ei_index _ Hinv). eapply list_elem_of_lookup_2.
  apply (index_slots_lookup st i (Some ib) Hi).
Qed.

(** [createVertexBuffer] on a slot that is null, or while the entity has no
    Renderable. *)
Lemma engine_inv_createVertexBuffer (i : nat) (capacity : Z) (st st' : State)
  (old : option VertexBuffer) :
  engine_inv st -> vertex_buffers_ st !! i = Some old ->
  old = None \/ renderable_ st = None ->
  createVertexBuffer T i capacity st = Some st' -> engine_inv st'.
Proof.
  intros Hinv Hold Hfree Hrun.
  rewrite (createVertexBuffer_eq T i capacity st old Hold) in Hrun.
  inversion Hrun; subst st'; clear Hrun.
  destruct Hinv as [Hlegal Hv Hi Hm Hc].
  pose proof (pool_inv_replace _ _ _ i _ capacity Hv
                (vertex_slots_lookup st i old Hold)) as Hv'.
  constructor; cbn [trace vertex_buffers_ index_buffers_ material_instances_
                    renderable_ next_handle];
    rewrite app_comm_cons, engine_of_app, engine_of_fence;
    fold (engine_of (trace st));
    destruct old as [vb|]; cbn [old_vertex_events app foldr engine_step
      legal live_vertex live_index live_material component]; auto.
  - rewrite Hlegal. simpl.
    assert (Hl : vertex_live (engine_of (trace st)) vb = true).
    { unfold vertex_live. apply bool_decide_eq_true. apply Hv.
      eapply list_elem_of_lookup_2.
      apply (vertex_slots_lookup st i (Some vb) Hold). }
    rewrite Hl, Hc. destruct Hfree as [Hf|Hf]; [discriminate|].
    rewrite Hf. reflexivity.
  - unfold vertex_slots. cbn [vertex_buffers_]. rewrite list_fmap_insert.
    exact Hv'.
  - unfold vertex_slots. cbn [vertex_buffers_]. rewrite list_fmap_insert.
    exact Hv'.
  - eapply pool_inv_mono; [|exact Hi]. lia.
  - eapply pool_inv_mono; [|exact Hi]. lia.
Qed.


Lemma engine_inv_createIndexBuffer (i : nat) (capacity : Z) (st st' : State)
  (old : option IndexBuffer) :
  engine_inv st -> index_buffers_ st !! i = Some old ->
  old = None \/ renderable_ st = None ->
  createIndexBuffer T i capacity st = Some st' -> engine_inv st'.
Proof.
  intros Hinv Hold Hfree Hrun.
  rewrite (createIndexBuffer_eq T i capacity st old Hold) in Hrun.
  inversion Hrun; subst st'; clear Hrun.
  destruct Hinv as [Hlegal Hv Hi Hm Hc].
  pose proof (pool_inv_replace _ _ _ i _ capacity Hi
                (index_slots_lookup st i old Hold)) as Hi'.
  constructor; cbn [trace vertex_buffers_ index_buffers_ material_instances_
                    renderable_ next_handle];
    rewrite app_comm_cons, engine_of_app, engine_of_fence;
    fold (engine_of (trace st));
    destruct old as [ib|]; cbn [old_index_events app foldr engine_step
      legal live_vertex live_index live_material component]; auto.
  - rewrite Hlegal. simpl.
    assert (Hl : index_live (engine_of (trace st)) ib = true).
    { unfold index_live. apply bool_decide_eq_true. apply Hi.
      eapply list_elem_of_lookup_2.
      apply (index_slots_lookup st i (Some ib) Hold). }
    rewrite Hl, Hc. destruct Hfree as [Hf|Hf]; [discriminate|].
    rewrite Hf. reflexivity.
  - eapply pool_inv_mono; [|exact Hv]. lia.
  - eapply pool_inv_mono; [|exact Hv]. lia.
  - unfold index_slots. cbn [index_buffers_]. rewrite list_fmap_insert.
    exact Hi'.
  - unfold index_slots. cbn [index_buffers_]. rewrite list_fmap_insert.
    exact Hi'.
Qed.

Lemma buffer_calls_refl (st : State) : buffer_calls st st.
Proof. split_and!; auto. exists []. auto. Qed.

Lemma buffer_calls_trans (st1 st2 st3 : State) :
  buffer_calls st1 st2 -> buffer_calls st2 st3 -> buffer_calls st1 st3.
Proof.
  intros ((d1 & Ht1 & Hd1) & Hm1 & Hr1) ((d2 & Ht2 & Hd2) & Hm2 & Hr2).
  split_and!; try congruence.
  exists (d2 ++ d1). rewrite Ht2, Ht1, app_assoc. split; [reflexivity|].
  rewrite forallb_app, Hd1, Hd2. reflexivity.
Qed.

Lemma buffer_calls_emit (ev : Event) (st : State) :
  buffer_event ev = true -> buffer_calls st (emit ev st).
Proof.
  intros Hev. split_and!; auto. exists [ev]. simpl. rewrite Hev. auto.
Qed.

Lemma fence_events_buffer (st : State) :
  forallb buffer_event (fence_events T st) = true.
Proof.
  unfold fence_events. destruct (T && negb (has_synced_ st)); reflexivity.
Qed.

Lemma buffer_calls_createVertexBuffer (i : nat) (capacity : Z)
  (st st' : State) :
  createVertexBuffer T i capacity st = Some st' ->
  buffer_calls st st'
  /\ exists old, vertex_buffers_ st !! i = Some old
       /\ vertex_buffers_ st'
          = <[i := Some (mkVertexBuffer (next_handle st) capacity)]>
              (vertex_buffers_ st)
       /\ index_buffers_ st' = index_buffers_ st.
Proof.
  intros Hrun.
  destruct (vertex_buffers_ st !! i) as [old|] eqn:Hold.
  - rewrite (createVertexBuffer_eq T i capacity st old Hold) in Hrun.
    inversion Hrun; subst st'; clear Hrun. split; [|eauto].
    split_and!; auto. eexists. split; [rewrite app_comm_cons, app_assoc;
                                        reflexivity|].
    rewrite forallb_app, fence_events_buffer. simpl.
    destruct old; reflexivity.
  - unfold createVertexBuffer in Hrun.
    assert (Hs : vertex_buffers_ (syncThreads T st) = vertex_buffers_ st).
    { unfold syncThreads. destruct T, (has_synced_ st); reflexivity. }
    rewrite Hs, Hold in Hrun. discriminate.
Qed.

Lemma buffer_calls_createIndexBuffer (i : nat) (capacity : Z)
  (st st' : State) :
  createIndexBuffer T i capacity st = Some st' ->
  buffer_calls st st'
  /\ exists old, index_buffers_ st !! i = Some old
       /\ index_buffers_ st'
          = <[i := Some (mkIndexBuffer (next_handle st) capacity)]>
              (index_buffers_ st)
       /\ vertex_buffers_ st' = vertex_buffers_ st.
Proof.
  intros Hrun.
  destruct (index_buffers_ st !! i) as [old|] eqn:Hold.
  - rewrite (createIndexBuffer_eq T i capacity st old Hold) in Hrun.
    inversion Hrun; subst st'; clear Hrun. split; [|eauto].
    split_and!; auto. eexists. split; [rewrite app_comm_cons, app_assoc;
                                        reflexivity|].
    rewrite forallb_app, fence_events_buffer. simpl.
    destruct old; reflexivity.
  - unfold createIndexBuffer in Hrun.
    assert (Hs : index_buffers_ (syncThreads T st) = index_buffers_ st).
    { unfold syncThreads. destruct T, (has_synced_ st); reflexivity. }
    rewrite Hs, Hold in Hrun. discriminate.
Qed.


Lemma engine_create_vertex_buffers (n : nat) :
  forall (pre : list (option VertexBuffer)) (st st' : State),
    vertex_buffers_ st = pre ++ replicate n None ->
    engine_inv st ->
    create_vertex_buffers T (length pre) n st = Some st' ->
    engine_inv st' /\ buffer_calls st st'.
Proof.
  induction n as [|n IH]; intros pre st st' Hslots Hinv Hrun.
  - simpl in Hrun. inversion Hrun; subst. split; [exact Hinv|].
    apply buffer_calls_refl.
  - cbn [create_vertex_buffers] in Hrun.
    destruct (createVertexBuffer T (length pre) 1000 st) as [st1|] eqn:H1;
      [|discriminate].
    cbn [mbind option_bind] in Hrun.
    assert (Hold : vertex_buffers_ st !! length pre = Some None).
    { rewrite Hslots. apply list_lookup_middle. reflexivity. }
    pose proof (engine_inv_createVertexBuffer _ _ _ _ _ Hinv Hold
                  (or_introl eq_refl) H1) as Hinv1.
    destruct (buffer_calls_createVertexBuffer _ _ _ _ H1)
      as (Hcalls1 & old & _ & Hv1 & _).
    assert (Hslots1 : vertex_buffers_ st1
                      = (pre ++ [Some (mkVertexBuffer (next_handle st) 1000)])
                        ++ replicate n None).
    { rewrite Hv1, Hslots.
      replace (length pre) with (length pre + 0)%nat at 1 by lia.
      rewrite insert_app_r. simpl. rewrite <- app_assoc. reflexivity. }
    replace (S (length pre))
      with (length (pre ++ [Some (mkVertexBuffer (next_handle st) 1000)]))
      in Hrun by (rewrite length_app; simpl; lia).
    destruct (IH _ st1 st' Hslots1 Hinv1 Hrun) as [Hinv' Hcalls'].
    split; [exact Hinv'|]. eapply buffer_calls_trans; eauto.
Qed.

Lemma engine_create_index_buffers (n : nat) :
  forall (pre : list (option IndexBuffer)) (st st' : State),
    index_buffers_ st = pre ++ replicate n None ->
    engine_inv st ->
    create_index_buffers T (length pre) n st = Some st' ->
    engine_inv st' /\ buffer_calls st st'.
Proof.
  induction n as [|n IH]; intros pre st st' Hslots Hinv Hrun.
  - simpl in Hrun. inversion Hrun; subst. split; [exact Hinv|].
    apply buffer_calls_refl.
  - cbn [create_index_buffers] in Hrun.
    destruct (createIndexBuffer T (length pre) 5000 st) as [st1|] eqn:H1;
      [|discriminate].
    cbn [mbind option_bind] in Hrun.
    assert (Hold : index_buffers_ st !! length pre = Some None).
    { rewrite Hslots. apply list_lookup_middle. reflexivity. }
    pose proof (engine_inv_createIndexBuffer _ _ _ _ _ Hinv Hold
                  (or_introl eq_refl) H1) as Hinv1.
    destruct (buffer_calls_createIndexBuffer _ _ _ _ H1)
      as (Hcalls1 & old & _ & Hv1 & _).
    assert (Hslots1 : index_buffers_ st1
                      = (pre ++ [Some (mkIndexBuffer (next_handle st) 5000)])
                        ++ replicate n None).
    { rewrite Hv1, Hslots.
      replace (length pre) with (length pre + 0)%nat at 1 by lia.
      rewrite insert_app_r. simpl. rewrite <- app_assoc. reflexivity. }
    replace (S (length pre))
      with (length (pre ++ [Some (mkIndexBuffer (next_handle st) 5000)]))
      in Hrun by (rewrite length_app; simpl; lia).
    destruct (IH _ st1 st' Hslots1 Hinv1 Hrun) as [Hinv' Hcalls'].
    split; [exact Hinv'|]. eapply buffer_calls_trans; eauto.
Qed.

Lemma engine_inv_resize_vertex (st : State) (n : nat) :
  engine_inv st ->
  engine_inv (set_vertex_buffers st (vertex_buffers_ st ++ replicate n None)).
Proof.
  intros [Hlegal Hv Hi Hm Hc]. constructor; auto.
  unfold vertex_slots. cbn [set_vertex_buffers vertex_buffers_ trace
                            next_handle].
  rewrite fmap_app, fmap_replicate. apply pool_inv_extend. exact Hv.
Qed.

Lemma engine_inv_resize_index (st : State) (n : nat) :
  engine_inv st ->
  engine_inv (set_index_buffers st (index_buffers_ st ++ replicate n None)).
Proof.
  intros [Hlegal Hv Hi Hm Hc]. constructor; auto.
  unfold index_slots. cbn [set_index_buffers index_buffers_ trace
                           next_handle].
  rewrite fmap_app, fmap_replicate. apply pool_inv_extend. exact Hi.
Qed.

Lemma engine_createBuffers (n : nat) (st st' : State) :
  engine_inv st -> createBuffers T n st = Some st' ->
  engine_inv st' /\ buffer_calls st st'.
Proof.
  intros Hinv Hrun. unfold createBuffers in Hrun.
  set (first := if (length (vertex_buffers_ st) <? n)%nat then _ else _)
    in Hrun.
  destruct first as [st1|] eqn:Hfirst; [|discriminate].
  cbn [mbind option_bind] in Hrun.
  assert (H1 : engine_inv st1 /\ buffer_calls st st1).
  { subst first. destruct (length (vertex_buffers_ st) <? n)%nat.
    - apply (engine_create_vertex_buffers _ (vertex_buffers_ st)) in Hfirst.
      + destruct Hfirst as [Hi1 ((d & Hd & Hb) & Hm1 & Hr1)].
        split; [exact Hi1|]. split_and!; auto. exists d. auto.
      + cbn [set_vertex_buffers vertex_buffers_].
        rewrite length_app, length_replicate. f_equal. f_equal. lia.
      + apply engine_inv_resize_vertex. exact Hinv.
    - inversion Hfirst; subst. split; [exact Hinv|apply buffer_calls_refl]. }
  destruct H1 as [Hinv1 Hcalls1].
  destruct (length (index_buffers_ st1) <? n)%nat.
  - apply (engine_create_index_buffers _ (index_buffers_ st1)) in Hrun.
    + destruct Hrun as [Hi2 ((d & Hd & Hb) & Hm2 & Hr2)].
      split; [exact Hi2|]. eapply buffer_calls_trans; [exact Hcalls1|].
      split_and!; auto. exists d. auto.
    + cbn [set_index_buffers index_buffers_].
      rewrite length_app, length_replicate. f_equal. f_equal. lia.
    + apply engine_inv_resize_index. exact Hinv1.
  - inversion Hrun; subst. split; [exact Hinv1|exact Hcalls1].
Qed.


Lemma to_size_t_le (n : Z) : 0 <= n -> 0 <= to_size_t n <= n.
Proof.
  intros Hn. unfold to_size_t. split.
  - apply Z.mod_pos_bound. lia.
  - apply Z.mod_le; lia.
Qed.

Lemma engine_inv_SetBufferAt (st : State) (i : nat) (vb : VertexBuffer)
  (nbytes : Z) :
  engine_inv st -> vertex_buffers_ st !! i = Some (Some vb) ->
  nbytes <= getVertexCount vb * sizeof_ImDrawVert ->
  engine_inv (emit (SetBufferAt vb nbytes) st).
Proof.
  intros Hinv Hi Hn. pose proof (vertex_live_slot st i vb Hinv Hi) as Hl.
  destruct Hinv as [Hlegal Hv Hix Hm Hc].
  constructor; cbn [emit trace engine_of foldr engine_step legal live_vertex
                    live_index live_material component vertex_buffers_
                    index_buffers_ material_instances_ renderable_
                    next_handle]; auto.
  fold (engine_of (trace st)). rewrite Hlegal, Hl. simpl.
  apply Z.leb_le. exact Hn.
Qed.

Lemma engine_inv_SetBuffer (st : State) (i : nat) (ib : IndexBuffer)
  (nbytes : Z) :
  engine_inv st -> index_buffers_ st !! i = Some (Some ib) ->
  nbytes <= getIndexCount ib * sizeof_ImDrawIdx ->
  engine_inv (emit (SetBuffer ib nbytes) st).
Proof.
  intros Hinv Hi Hn. pose proof (index_live_slot st i ib Hinv Hi) as Hl.
  destruct Hinv as [Hlegal Hv Hix Hm Hc].
  constructor; cbn [emit trace engine_of foldr engine_step legal live_vertex
                    live_index live_material component vertex_buffers_
                    index_buffers_ material_instances_ renderable_
                    next_handle]; auto.
  fold (engine_of (trace st)). rewrite Hlegal, Hl. simpl.
  apply Z.leb_le. exact Hn.
Qed.

(** [populateVertexData] while the entity has no Renderable: what is
    uploaded fits the buffer it is uploaded to. *)
Lemma engine_populateVertexData (i : nat) (vbSizeInBytes ibSizeInBytes : Z)
  (st st' : State) :
  engine_inv st -> renderable_ st = None ->
  0 <= vbSizeInBytes -> 0 <= ibSizeInBytes ->
  populateVertexData T i vbSizeInBytes ibSizeInBytes st = Some st' ->
  engine_inv st' /\ buffer_calls st st'.
Proof.
  intros Hinv Hnone Hvb Hib Hrun. unfold populateVertexData in Hrun.
  set (reqV := vbSizeInBytes / sizeof_ImDrawVert) in *.
  set (reqI := ibSizeInBytes / 2) in *.
  assert (HreqV : 0 <= reqV) by (apply Z.div_pos; [lia|reflexivity]).
  assert (HreqI : 0 <= reqI) by (apply Z.div_pos; [lia|reflexivity]).
  destruct (vertex_buffers_ st !! i) as [[vb0|]|] eqn:Hv0; try discriminate.
  cbn [mjoin option_join mbind option_bind] in Hrun.
  (* the vertex buffer *)
  set (first := if getVertexCount vb0 <? reqV then _ else _) in Hrun.
  destruct first as [st1|] eqn:Hfirst; [|discriminate].
  cbn [mbind option_bind] in Hrun.
  assert (H1 : engine_inv st1 /\ buffer_calls st st1
               /\ forall vb, vertex_buffers_ st1 !! i = Some (Some vb) ->
                             reqV <= getVertexCount vb).
  { subst first. destruct (Z.ltb_spec (getVertexCount vb0) reqV).
    - pose proof (engine_inv_createVertexBuffer _ _ _ _ _ Hinv Hv0
                    (or_intror Hnone) Hfirst) as Hinv1.
      destruct (buffer_calls_createVertexBuffer _ _ _ _ Hfirst)
        as (Hc1 & old & _ & Hv1 & _).
      split_and!; auto. intros vb Hvb1. rewrite Hv1 in Hvb1.
      rewrite list_lookup_insert_eq in Hvb1
        by (eapply lookup_lt_Some; eauto).
      inversion Hvb1; subst vb. simpl. lia.
    - inversion Hfirst; subst st1. split_and!; auto.
      + apply buffer_calls_refl.
      + intros vb Hvb1. rewrite Hv0 in Hvb1. inversion Hvb1; subst. lia. }
  destruct H1 as (Hinv1 & Hcalls1 & Hcap1).
  destruct (vertex_buffers_ st1 !! i) as [[vb1|]|] eqn:Hv1; try discriminate.
  cbn [mjoin option_join mbind option_bind] in Hrun.
  set (st2 := emit (SetBufferAt vb1 _) st1) in Hrun.
  assert (Hinv2 : engine_inv st2).
  { subst st2. eapply engine_inv_SetBufferAt; eauto.
    pose proof (Hcap1 vb1 eq_refl) as Hcap.
    pose proof (to_size_t_le (reqV * sizeof_ImDrawVert)) as Hle.
    unfold sizeof_ImDrawVert in *. lia. }
  assert (Hcalls2 : buffer_calls st st2).
  { eapply buffer_calls_trans; [exact Hcalls1|].
    subst st2. apply buffer_calls_emit. reflexivity. }
  assert (Hnone2 : renderable_ st2 = None).
  { destruct Hcalls2 as (_ & _ & Hr). congruence. }
  (* the index buffer *)
  destruct (index_buffers_ st2 !! i) as [[ib0|]|] eqn:Hi0; try discriminate.
  cbn [mjoin option_join mbind option_bind] in Hrun.
  set (second := if getIndexCount ib0 <? reqI then _ else _) in Hrun.
  destruct second as [st3|] eqn:Hsecond; [|discriminate].
  cbn [mbind option_bind] in Hrun.
  assert (H3 : engine_inv st3 /\ buffer_calls st2 st3
               /\ forall ib, index_buffers_ st3 !! i = Some (Some ib) ->
                             reqI <= getIndexCount ib).
  { subst second. destruct (Z.ltb_spec (getIndexCount ib0) reqI).
    - pose proof (engine_inv_createIndexBuffer _ _ _ _ _ Hinv2 Hi0
                    (or_intror Hnone2) Hsecond) as Hinv3.
      destruct (buffer_calls_createIndexBuffer _ _ _ _ Hsecond)
        as (Hc3 & old & _ & Hi3 & _).
      split_and!; auto. intros ib Hib3. rewrite Hi3 in Hib3.
      rewrite list_lookup_insert_eq in Hib3
        by (eapply lookup_lt_Some; eauto).
      inversion Hib3; subst ib. simpl. lia.
    - inversion Hsecond; subst st3. split_and!; auto.
      + apply buffer_calls_refl.
      + intros ib Hib3. rewrite Hi0 in Hib3. inversion Hib3; subst. lia. }
  destruct H3 as (Hinv3 & Hcalls3 & Hcap3).
  destruct (index_buffers_ st3 !! i) as [[ib1|]|] eqn:Hi3; try discriminate.
  cbn [mjoin option_join mbind option_bind] in Hrun.
  inversion Hrun; subst st'; clear Hrun. split.
  - eapply engine_inv_SetBuffer; eauto.
    pose proof (Hcap3 ib1 eq_refl) as Hcap.
    pose proof (to_size_t_le (reqI * 2)) as Hle.
    unfold sizeof_ImDrawIdx. lia.
  - eapply buffer_calls_trans; [exact Hcalls2|].
    eapply buffer_calls_trans; [exact Hcalls3|].
    apply buffer_calls_emit. reflexivity.
Qed.


(** The loop over the commands of a draw list calls the user callbacks and
    nothing else. *)
Lemma emit_cmds_calls (fbheight : Z)
  (scissorRects : unordered_map (option MaterialInstance)) (b : nat)
  (pcmds : list ImDrawCmd) :
  forall (j : nat) (offset : Z) (st : State) (rbuilder : list Entry)
         (k : nat) (out : Emitting),
    emit_cmds fbheight scissorRects b pcmds j offset (st, rbuilder, k)
    = Some out ->
    out.1.1 = emit_all (callback_trace b pcmds j) st.
Proof.
  induction pcmds as [|pcmd rest IH]; intros j offset st rb k out Hrun.
  - simpl in Hrun. inversion Hrun; subst. simpl. rewrite emit_all_nil.
    reflexivity.
  - cbn [emit_cmds] in Hrun. cbn [callback_trace].
    destruct (UserCallback pcmd) as [f|].
    + cbn [mbind option_bind] in Hrun. apply IH in Hrun. rewrite Hrun.
      rewrite <- emit_all_app. reflexivity.
    + destruct (umap_find _ scissorRects) as [miter|]; [|discriminate].
      cbn [mbind option_bind] in Hrun. apply IH in Hrun.
      rewrite Hrun, app_nil_r. reflexivity.
Qed.

Lemma callback_trace_other (b : nat) (pcmds : list ImDrawCmd) :
  forall j, List.filter other_event (callback_trace b pcmds j)
            = callback_trace b pcmds j.
Proof.
  induction pcmds as [|pcmd rest IH]; intros j; simpl; [reflexivity|].
  rewrite List.filter_app, IH. destruct (UserCallback pcmd); reflexivity.
Qed.

Lemma engine_of_callback_trace (b : nat) (pcmds : list ImDrawCmd) :
  forall j tr, engine_of (callback_trace b pcmds j ++ tr) = engine_of tr.
Proof.
  induction pcmds as [|pcmd rest IH]; intros j tr; cbn [callback_trace];
    [reflexivity|].
  rewrite <- app_assoc, IH. destruct (UserCallback pcmd); reflexivity.
Qed.

Lemma engine_inv_callbacks (b j : nat) (pcmds : list ImDrawCmd) (st : State) :
  engine_inv st -> engine_inv (emit_all (callback_trace b pcmds j) st).
Proof.
  intros [Hlegal Hv Hi Hm Hc].
  constructor; cbn [emit_all trace vertex_buffers_ index_buffers_
                    material_instances_ renderable_ next_handle];
    rewrite engine_of_callback_trace; auto.
Qed.

Lemma filter_buffer_events (delta : list Event) :
  forallb buffer_event delta = true -> List.filter other_event delta = [].
Proof.
  induction delta as [|ev delta IH]; simpl; [reflexivity|].
  intros H. apply andb_true_iff in H as [Hev Hrest].
  unfold other_event at 1. rewrite Hev. simpl. apply IH. exact Hrest.
Qed.

(** The loop over the draw lists, while the entity has no Renderable: apart
    from calls on buffers it calls the user callbacks of the lists. *)
Lemma engine_emit_lists (fbheight : Z)
  (scissorRects : unordered_map (option MaterialInstance))
  (lists : list ImDrawList) :
  forall (b : nat) (st : State) (rbuilder : list Entry) (k : nat)
         (out : Emitting),
    engine_inv st -> renderable_ st = None ->
    emit_lists T fbheight scissorRects lists b (st, rbuilder, k) = Some out ->
    engine_inv out.1.1
    /\ renderable_ out.1.1 = None
    /\ material_instances_ out.1.1 = material_instances_ st
    /\ exists delta,
         trace out.1.1 = delta ++ trace st
         /\ List.filter other_event delta = lists_callback_trace b lists.
Proof.
  induction lists as [|cmds rest IH]; intros b st rb k out Hinv Hnone Hrun.
  - simpl in Hrun. inversion Hrun; subst. simpl. split_and!; auto.
    exists []. auto.
  - cbn [emit_lists] in Hrun.
    destruct (populateVertexData T b _ _ st) as [st1|] eqn:Hpop;
      [|discriminate].
    cbn [mbind option_bind] in Hrun.
    destruct (emit_cmds fbheight scissorRects b (CmdBuffer cmds) 0 0
                        (st1, rb, k)) as [[[st2 rb2] k2]|] eqn:Hcmds;
      [|discriminate].
    cbn [mbind option_bind] in Hrun.
    apply engine_populateVertexData in Hpop
      as (Hinv1 & (d1 & Ht1 & Hd1) & Hm1 & Hr1); auto;
      try (apply Z.mod_pos_bound; lia).
    pose proof (emit_cmds_calls _ _ _ _ _ _ _ _ _ _ Hcmds) as H2.
    simpl in H2. subst st2.
    pose proof (engine_inv_callbacks b 0 (CmdBuffer cmds) st1 Hinv1) as Hinv2.
    destruct (IH (S b) _ rb2 k2 out Hinv2 ltac:(simpl; congruence) Hrun)
      as (Hinv' & Hnone' & Hm' & d3 & Ht3 & Hd3).
    split_and!; auto.
    + rewrite Hm'. simpl. exact Hm1.
    + exists (d3 ++ callback_trace b (CmdBuffer cmds) 0 ++ d1).
      split.
      * rewrite Ht3. simpl. rewrite Ht1, <- !app_assoc. reflexivity.
      * rewrite !List.filter_app, Hd3, callback_trace_other.
        rewrite (filter_buffer_events d1 Hd1), app_nil_r. reflexivity.
Qed.


(** The engine after material instances were created. *)
Lemma engine_of_creates (l : list nat) :
  forall tr,
    let e := engine_of tr in
    let e' := engine_of (rev (CreateInstance <$> l) ++ tr) in
    live_vertex e' = live_vertex e /\ live_index e' = live_index e
    /\ scissor_of e' = scissor_of e /\ component e' = component e
    /\ legal e' = legal e
    /\ forall mi, mi ∈ live_material e' <-> mi ∈ l \/ mi ∈ live_material e.
Proof.
  induction l as [|a l IH]; intros tr; cbn zeta.
  - simpl. split_and!; auto. intros mi. rewrite elem_of_nil. tauto.
  - rewrite fmap_cons. cbn [rev]. rewrite <- app_assoc. cbn [app].
    destruct (IH (CreateInstance a :: tr)) as (Hv & Hi & Hs & Hc & Hl & Hm).
    rewrite Hv, Hi, Hs, Hc, Hl. split_and!; auto.
    intros mi. rewrite Hm. cbn [engine_of foldr engine_step live_material].
    rewrite elem_of_cons, elem_of_union, elem_of_singleton. tauto.
Qed.

Lemma key_components_key (fbheight : Z) (clipRect : ImVec4.t) :
  key_components (makeScissorKey fbheight clipRect)
  = scissor_components fbheight clipRect.
Proof.
  rewrite makeScissorKey_pack. unfold scissor_components, key_components.
  destruct (pack16_fields
              (uint16_of_float (ImVec4.x clipRect))
              (uint16_of_float (fsub (float_of_int fbheight)
                                     (ImVec4.w clipRect)))
              (uint16_of_float (fsub (ImVec4.z clipRect) (ImVec4.x clipRect)))
              (uint16_of_float (fsub (ImVec4.w clipRect) (ImVec4.y clipRect))))
    as (_ & H1 & H2 & H3 & H4); try apply uint16_of_float_range.
  rewrite H1, H2, H3, H4. reflexivity.
Qed.

(** The engine after the scissor rectangles were pushed. *)
Lemma engine_of_scissors (mis : list MaterialInstance) :
  forall (keys : list Z) (tr : list Event),
    length mis = length keys ->
    let e := engine_of tr in
    let e' := engine_of (rev (zip_with scissor_event mis keys) ++ tr) in
    live_vertex e' = live_vertex e /\ live_index e' = live_index e
    /\ live_material e' = live_material e /\ component e' = component e
    /\ legal e' = legal e && forallb (material_live e) mis
    /\ (forall mi, mi ∉ mis -> scissor_of e' !! mi = scissor_of e !! mi)
    /\ (NoDup mis -> forall n k mi, keys !! n = Some k -> mis !! n = Some mi ->
          scissor_of e' !! mi = Some (key_components k)).
Proof.
  induction mis as [|a mis IH]; intros keys tr Hlen; cbn zeta.
  - simpl. rewrite andb_true_r. split_and!; auto.
    intros _ n k mi _ Hmi. discriminate.
  - destruct keys as [|key keys]; [discriminate|]. simpl in Hlen.
    cbn [zip_with rev]. rewrite <- app_assoc. cbn [app].
    destruct (IH keys (scissor_event a key :: tr) ltac:(lia))
      as (Hv & Hi & Hm & Hc & Hl & Hother & Hset).
    rewrite Hv, Hi, Hm, Hc, Hl.
    cbn [engine_of foldr scissor_event engine_step live_vertex live_index
         live_material component legal scissor_of] in *.
    fold (engine_of tr) in *.
    split_and!; auto.
    + unfold material_live at 2. cbn [live_material forallb].
      fold (material_live (engine_of tr) a).
      rewrite <- andb_assoc. reflexivity.
    + intros mi Hmi. rewrite not_elem_of_cons in Hmi. destruct Hmi as [Hne Hmi].
      rewrite (Hother mi Hmi). apply lookup_insert_ne. congruence.
    + intros Hnd n k mi Hk Hmi. apply NoDup_cons in Hnd as [Hnotin Hnd].
      destruct n as [|n]; simpl in Hk, Hmi.
      * inversion Hk; inversion Hmi; subst.
        rewrite (Hother mi Hnotin). apply lookup_insert_eq.
      * eapply Hset; eauto.
Qed.


Lemma cmd_entries_elem (vertices : option VertexBuffer)
  (indices : option IndexBuffer) (fbheight : Z)
  (scissorRects : unordered_map (option MaterialInstance))
  (pcmds : list ImDrawCmd) (en : Entry) :
  forall offset k,
    en ∈ cmd_entries vertices indices fbheight scissorRects offset k pcmds ->
    e_vertices en = vertices /\ e_indices en = indices
    /\ exists pcmd, pcmd ∈ pcmds /\ has_callback pcmd = false
         /\ e_material en
            = default None
                (umap_find (scissor_key fbheight pcmd) scissorRects).
Proof.
  induction pcmds as [|pcmd rest IH]; intros offset k Hin; simpl in Hin.
  - inversion Hin.
  - destruct (has_callback pcmd) eqn:Hcb.
    + destruct (IH _ _ Hin) as (Hv & Hi & c & Hc & Hrest).
      split_and!; auto. exists c. split; [right; exact Hc|exact Hrest].
    + apply elem_of_cons in Hin as [->|Hin].
      * simpl. split_and!; auto. exists pcmd. split; [left|auto].
      * destruct (IH _ _ Hin) as (Hv & Hi & c & Hc & Hrest).
        split_and!; auto. exists c. split; [right; exact Hc|exact Hrest].
Qed.

Lemma list_entries_elem (st : State) (fbheight : Z)
  (scissorRects : unordered_map (option MaterialInstance))
  (lists : list ImDrawList) (en : Entry) :
  forall b k,
    en ∈ list_entries st fbheight scissorRects b k lists ->
    exists b' pcmd,
      e_vertices en = mjoin (vertex_buffers_ st !! b')
      /\ e_indices en = mjoin (index_buffers_ st !! b')
      /\ pcmd ∈ concat (map CmdBuffer lists)
      /\ has_callback pcmd = false
      /\ e_material en
         = default None (umap_find (scissor_key fbheight pcmd) scissorRects).
Proof.
  induction lists as [|cmds rest IH]; intros b k Hin; simpl in Hin.
  - inversion Hin.
  - apply elem_of_app in Hin as [Hin|Hin].
    + apply cmd_entries_elem in Hin as (Hv & Hi & pcmd & Hp & Hcb & Hm).
      exists b, pcmd. simpl. rewrite elem_of_app. auto 10.
    + destruct (IH _ _ Hin) as (b' & pcmd & Hv & Hi & Hp & Hcb & Hm).
      exists b', pcmd. simpl. rewrite elem_of_app. auto 10.
Qed.

(** A builder entry that reads its buffers from the slots and its material
    instance from the pool uses live objects only. *)
Lemma entry_live_slots (st : State) (en : Entry) (b : nat) :
  engine_inv st ->
  e_vertices en = mjoin (vertex_buffers_ st !! b) ->
  e_indices en = mjoin (index_buffers_ st !! b) ->
  (forall mi, e_material en = Some mi -> Some mi ∈ material_instances_ st) ->
  entry_live (engine_of (trace st)) en = true.
Proof.
  intros Hinv Hv Hi Hm. unfold entry_live. rewrite Hv, Hi.
  apply andb_true_iff. split; [apply andb_true_iff; split|].
  - destruct (vertex_buffers_ st !! b) as [[vb|]|] eqn:Hb; simpl; auto.
    eapply vertex_live_slot; eauto.
  - destruct (index_buffers_ st !! b) as [[ib|]|] eqn:Hb; simpl; auto.
    eapply index_live_slot; eauto.
  - destruct (e_material en) as [mi|]; [|reflexivity].
    unfold material_live. apply bool_decide_eq_true.
    apply (ei_material _ Hinv). apply Hm. reflexivity.
Qed.

Lemma engine_inv_set_has_synced (st : State) (b : bool) :
  engine_inv st -> engine_inv (set_has_synced st b).
Proof. intros [Hl Hv Hi Hm Hc]. constructor; assumption. Qed.

Lemma omap_other (A : Type) (f : Event -> option A) (delta : list Event) :
  (forall ev, buffer_event ev = true -> f ev = None) ->
  omap f delta = omap f (List.filter other_event delta).
Proof.
  intros Hf. induction delta as [|ev delta IH]; [reflexivity|].
  cbn [List.filter]. unfold other_event at 1.
  destruct (buffer_event ev) eqn:Hev; cbn [negb omap list_omap].
  - rewrite (Hf ev Hev). exact IH.
  - fold (omap f delta). fold (omap f (List.filter other_event delta)).
    rewrite IH. reflexivity.
Qed.

Lemma callback_of_buffer_event (ev : Event) :
  buffer_event ev = true -> callback_of ev = None.
Proof. destruct ev; (reflexivity || discriminate). Qed.

(** Calls on buffers and calls of user callbacks leave the scissor
    rectangles as they are. *)
Lemma scissor_of_quiet (delta : list Event) (e : Engine) :
  omap scissor_instance delta = [] ->
  scissor_of (foldr engine_step e delta) = scissor_of e.
Proof.
  induction delta as [|ev delta IH]; simpl; [reflexivity|].
  destruct ev; simpl; intros H; try discriminate; auto.
Qed.


Lemma callbacks_of_trace (b : nat) (pcmds : list ImDrawCmd) :
  forall j, omap callback_of (callback_trace b pcmds j)
            = rev (omap (fun jc => (fun f => (f, b, jc.1)) <$> UserCallback jc.2)
                        (imap (fun n pcmd => ((j + n)%nat, pcmd)) pcmds)).
Proof.
  induction pcmds as [|pcmd rest IH]; intros j; [reflexivity|].
  cbn [callback_trace]. rewrite omap_app, IH, imap_cons.
  cbn [omap list_omap]. rewrite Nat.add_0_r. cbn [fst snd].
  assert (Hrest : imap (fun n c => ((S j + n)%nat, c)) rest
                  = imap ((fun n c => ((j + n)%nat, c)) ∘ S) rest).
  { apply imap_ext. intros n c _. simpl. f_equal. lia. }
  rewrite Hrest.
  destruct (UserCallback pcmd) as [f|]; simpl.
  - reflexivity.
  - rewrite app_nil_r. reflexivity.
Qed.

Lemma callbacks_of_lists (lists : list ImDrawList) :
  forall b,
    omap callback_of (lists_callback_trace b lists)
    = rev (concat (imap (fun i cmds => list_callbacks (b + i) (CmdBuffer cmds))
                        lists)).
Proof.
  induction lists as [|cmds rest IH]; intros b; [reflexivity|].
  cbn [lists_callback_trace]. rewrite omap_app, IH, callbacks_of_trace.
  rewrite imap_cons. cbn [concat]. rewrite rev_app_distr, Nat.add_0_r.
  f_equal. f_equal. f_equal. apply imap_ext. intros n c _. simpl.
  f_equal. lia.
Qed.

Lemma scissor_events_no_callback (mis : list MaterialInstance) :
  forall keys : list Z,
    Forall (fun ev => callback_of ev = None) (zip_with scissor_event mis keys).
Proof.
  induction mis as [|mi mis IH]; intros [|k keys]; simpl; constructor; auto.
Qed.

(** What one call of [update] that is not skipped does on the engine's
    side. *)
Lemma update_engine (io : ImGuiIO) (imguiData : ImDrawData) (st : State) :
  zero_area io = false -> wf_state st -> engine_inv st ->
  let data := ScaleClipRects imguiData (DisplayFramebufferScale io) in
  let fbheight := fb_height io in
  let lists := CmdLists data in
  exists (st' : State)
         (scissorRects : unordered_map (option MaterialInstance)),
    update T hash io imguiData st = Some (st', data)
    /\ engine_inv st'
    /\ callbacks_called st' = rev (frame_callbacks lists) ++ callbacks_called st
    /\ (let es := list_entries st' fbheight scissorRects 0 0 lists in
        renderable_ st'
        = match lists with
          | [] => None
          | _ :: _ =>
              Some (es ++ replicate (length (frame_cmds data) - length es)
                                    empty_entry)
          end)
    /\ (forall pcmd, pcmd ∈ frame_cmds data ->
          exists mi,
            umap_find (scissor_key fbheight pcmd) scissorRects
            = Some (Some mi)
            /\ Some mi ∈ material_instances_ st'
            /\ scissor_of (engine_of (trace st')) !! mi
               = Some (scissor_components fbheight (ClipRect pcmd))).
Proof.
  intros Hz Hwf Hinv data fbheight lists.
  pose proof (wf_state_set_has_synced st false Hwf) as Hwf0.
  pose proof (engine_inv_set_has_synced st false Hinv) as Hinv0.
  set (st0 := set_has_synced st false) in *.
  destruct (createBuffers_spec T (length lists) st0)
    as (st1 & Hcb & Hv1 & Hi1 & Hh1 & _ & _ & Hs1).
  destruct (engine_createBuffers _ _ _ Hinv0 Hcb)
    as (Hinv1 & (d1 & Ht1 & Hd1) & Hm1 & Hr1).
  change (material_instances_ st0) with (material_instances_ st) in Hm1.
  change (renderable_ st0) with (renderable_ st) in Hr1.
  change (trace st0) with (trace st) in Ht1.
  pose proof (count_primitives_spec fbheight data) as Hcount.
  destruct (count_primitives fbheight data) as [nPrims rects0] eqn:Hcp.
  destruct Hcount as (HnPrims & Hnd0 & Hin0).
  set (nk := length (remove_dups (frame_keys fbheight data))).
  set (keys := bucket_order hash (rects0.*1)).
  pose proof (bucket_order_perm hash (rects0.*1)) as Hperm. fold keys in Hperm.
  assert (Hndk : NoDup keys).
  { eapply NoDup_Permutation_proper; [exact Hperm|exact Hnd0]. }
  assert (Hink : forall k, k ∈ keys <-> k ∈ frame_keys fbheight data).
  { intros k. rewrite <- Hin0. split; intros H.
    - eapply elem_of_Permutation_proper; [symmetry; exact Hperm|exact H].
    - eapply elem_of_Permutation_proper; [exact Hperm|exact H]. }
  assert (Hlenk : length keys = nk).
  { apply distinct_keys_length; assumption. }
  assert (Hlen0 : length rects0 = nk).
  { rewrite <- Hlenk. rewrite (Permutation_length Hperm).
    rewrite length_fmap. reflexivity. }
  (* the pool *)
  pose proof (ensure_material_instances_eq nk st1) as Hens. cbn zeta in Hens.
  rewrite Hm1 in Hens.
  set (kn := (nk - length (material_instances_ st))%nat) in *.
  set (st2 := mkState _ _ _ _ _ _ _) in Hens.
  set (handles := pool_handles st ++ seq (next_handle st1) kn).
  assert (Hpool2 : material_instances_ st2 = Some <$> handles).
  { subst st2 handles. simpl. rewrite fmap_app. f_equal.
    apply Forall_is_Some_omap. apply Hwf. }
  assert (Hlenh : (nk <= length handles)%nat).
  { subst handles. rewrite length_app, length_seq. unfold pool_handles.
    rewrite (Forall_is_Some_length _ (wf_material _ Hwf)). lia. }
  set (mis := take nk handles).
  assert (Hlenm : length mis = nk).
  { subst mis. rewrite length_take. lia. }
  assert (Hissued : forall mi, mi ∈ pool_handles st ->
                               (mi < next_handle st1)%nat).
  { intros mi Hmi. apply list_elem_of_lookup in Hmi as [i Hi].
    assert (material_instances_ st !! i = Some (Some mi)).
    { rewrite (Forall_is_Some_omap _ (wf_material _ Hwf)).
      apply list_lookup_fmap_Some. exists mi. split; [reflexivity|exact Hi]. }
    pose proof (wf_issued _ Hwf i mi H).
    destruct Hs1 as [_ _ Hhd1 _ _ _ _]. simpl in Hhd1. lia. }
  assert (Hndh : NoDup handles).
  { subst handles. apply NoDup_app. split_and!.
    - unfold pool_handles.
      pose proof (wf_distinct _ Hwf) as Hd.
      rewrite (Forall_is_Some_omap _ (wf_material _ Hwf)) in Hd.
      eapply NoDup_fmap_1. exact Hd.
    - intros mi Hmi Hmi'. apply Hissued in Hmi.
      apply elem_of_seq in Hmi'. lia.
    - apply NoDup_seq. }
  assert (Hndm : NoDup mis).
  { subst mis. eapply sublist_NoDup; [exact Hndh|]. apply sublist_take. }
  assert (Hmis : forall n mi, mis !! n = Some mi ->
                   material_instances_ st2 !! (0 + n)%nat = Some (Some mi)).
  { intros n mi Hn. change (0 + n)%nat with n.
    rewrite Hpool2. apply list_lookup_fmap_Some. exists mi.
    split; [reflexivity|].
    subst mis. apply lookup_take_Some in Hn as [Hn _]. exact Hn. }
  pose proof (push_scissors_eq keys mis 0%nat rects0 st2
                ltac:(rewrite Hlenm, Hlenk; reflexivity) Hmis) as Hpush.
  set (rects := assign keys mis rects0) in *.
  set (st3 := emit_all (rev (zip_with scissor_event mis keys)) st2) in *.
  set (st4 := set_renderable (emit DestroyRenderable st3) None).
  (* the engine before the draw lists are walked *)
  assert (Htr4 : trace st4
                 = DestroyRenderable
                   :: rev (zip_with scissor_event mis keys)
                   ++ rev (CreateInstance <$> seq (next_handle st1) kn)
                   ++ trace st1) by reflexivity.
  destruct (engine_of_creates (seq (next_handle st1) kn) (trace st1))
    as (Hcv & Hci & Hcs & Hcc & Hcl & Hcm).
  destruct (engine_of_scissors mis keys
              (rev (CreateInstance <$> seq (next_handle st1) kn) ++ trace st1)
              ltac:(rewrite Hlenm, Hlenk; reflexivity))
    as (Hsv & Hsi & Hsm & Hsc & Hsl & Hsother & Hsset).
  cbn zeta in *.
  assert (Hlive_mis : forall mi, mi ∈ handles ->
            mi ∈ live_material
                   (engine_of (rev (CreateInstance <$> seq (next_handle st1) kn)
                               ++ trace st1))).
  { intros mi Hmi. apply Hcm. subst handles.
    apply elem_of_app in Hmi as [Hmi|Hmi]; [right|left; exact Hmi].
    apply (ei_material _ Hinv1). rewrite Hm1.
    rewrite (Forall_is_Some_omap _ (wf_material _ Hwf)).
    apply list_elem_of_fmap. exists mi. split; [reflexivity|exact Hmi]. }
  assert (Hinv4 : engine_inv st4).
  { destruct Hinv1 as [Hl1 Hve1 Hie1 Hme1 Hce1].
    constructor; rewrite Htr4;
      cbn [engine_of foldr engine_step legal live_vertex live_index
           live_material component];
      fold (engine_of (rev (zip_with scissor_event mis keys)
                       ++ rev (CreateInstance <$> seq (next_handle st1) kn)
                       ++ trace st1)).
    - rewrite Hsl, Hcl, Hl1. simpl. apply forallb_forall. intros mi Hmi.
      unfold material_live. apply bool_decide_eq_true. apply Hlive_mis.
      apply list_elem_of_In in Hmi. subst mis.
      apply elem_of_take in Hmi as (i & Hi & _).
      eapply list_elem_of_lookup_2; eauto.
    - rewrite Hsv, Hcv. eapply pool_inv_mono; [|exact Hve1].
      subst st4 st3 st2. simpl. lia.
    - rewrite Hsi, Hci. eapply pool_inv_mono; [|exact Hie1].
      subst st4 st3 st2. simpl. lia.
    - intros mi. rewrite Hsm, Hcm.
      change (material_instances_ st4) with (material_instances_ st2).
      rewrite Hpool2. subst handles. rewrite fmap_app, elem_of_app.
      rewrite (Hme1 mi), Hm1.
      rewrite (Forall_is_Some_omap _ (wf_material _ Hwf)) at 1.
      rewrite !list_elem_of_fmap.
      split.
      + intros [H|H]; [right|left; exact H].
        exists mi. split; [reflexivity|exact H].
      + intros [H|(x & Hx & H)]; [right; exact H|left].
        inversion Hx; subst x. exact H.
    - reflexivity. }
  assert (Hst4 : set_renderable (emit DestroyRenderable st3) None = st4)
    by reflexivity.
  assert (H4 : vertex_buffers_ st4 = vertex_buffers_ st1
               /\ index_buffers_ st4 = index_buffers_ st1
               /\ material_instances_ st4 = Some <$> handles
               /\ renderable_ st4 = None).
  { subst st4 st3 st2. simpl. auto. }
  destruct H4 as (Hv4 & Hi4 & Hm4 & Hr4).
  (* the scissor rectangles in force *)
  assert (Hsc4 : forall n k mi, keys !! n = Some k -> mis !! n = Some mi ->
            scissor_of (engine_of (trace st4)) !! mi
            = Some (key_components k)).
  { intros n k mi Hk Hmi. rewrite Htr4.
    cbn [engine_of foldr engine_step scissor_of].
    eapply Hsset; eauto. }
  clearbody st4. clear Hpool2.
  assert (Hsome1 : Forall is_Some (vertex_buffers_ st1)
                   /\ Forall is_Some (index_buffers_ st1)).
  { rewrite Hv1, Hi1. split; apply Forall_app; split;
      try apply Hwf; unfold new_vertex_slots, new_index_slots;
      apply Forall_fmap, Forall_true; intros; simpl; eauto. }
  destruct Hsome1 as [Hsv1 Hsi1].
  assert (Hlen1 : (length lists <= length (vertex_buffers_ st1))%nat
                  /\ (length lists <= length (index_buffers_ st1))%nat).
  { rewrite Hv1, Hi1, !length_app. unfold new_vertex_slots, new_index_slots.
    rewrite !length_fmap, !length_seq. simpl. lia. }
  assert (Hkeys1 : (assign keys mis rects0).*1 = rects0.*1).
  { apply assign_keys. intros k Hk.
    eapply elem_of_Permutation_proper; [symmetry; exact Hperm|exact Hk]. }
  destruct (emit_lists_spec T fbheight rects lists 0%nat st4 [] nPrims)
    as (st5 & Hrun & Hs5 & Hvl5 & Hil5 & Hout5 & Hin5).
  { intros n Hn. rewrite Hv4, Hi4. change (0 + n)%nat with n.
    destruct Hlen1 as [Hlv Hli].
    destruct (lookup_lt_is_Some_2 (vertex_buffers_ st1) n) as [x Hx]; [lia|].
    destruct (lookup_lt_is_Some_2 (index_buffers_ st1) n) as [y Hy]; [lia|].
    rewrite Forall_lookup in Hsv1. rewrite Forall_lookup in Hsi1.
    destruct (Hsv1 n x Hx) as [x' ->]. destruct (Hsi1 n y Hy) as [y' ->].
    rewrite Hx, Hy. simpl. eauto. }
  { intros pcmd Hp. apply umap_find_is_Some. subst rects. rewrite Hkeys1.
    apply Hin0. unfold frame_keys, frame_cmds.
    apply list_elem_of_fmap. exists pcmd. split; [reflexivity|exact Hp]. }
  { rewrite HnPrims. apply Nat.le_refl. }
  cbn zeta in Hrun. simpl app in Hrun. simpl length in Hrun.
  simpl Nat.add in Hrun.
  destruct (engine_emit_lists _ _ _ _ _ _ _ _ Hinv4 Hr4 Hrun)
    as (Hinv5 & Hr5 & Hm5 & d5 & Ht5 & Hd5).
  cbn [fst] in Hinv5, Hr5, Hm5, Ht5.
  set (es := list_entries st5 fbheight rects 0 0 lists) in *.
  set (rb := es ++ replicate (nPrims - length es) empty_entry) in *.
  set (st' := match lists with
              | [] => st5
              | _ :: _ =>
                  set_renderable (emit (BuildRenderable rb) st5) (Some rb)
              end).
  assert (Hupd : update T hash io imguiData st = Some (st', data)).
  { unfold update.
    change ((fb_width io =? 0) || (fb_height io =? 0)) with (zero_area io).
    rewrite Hz. fold data. fold lists. fold st0. rewrite Hcb.
    cbn [mbind option_bind]. fold fbheight. rewrite Hcp.
    rewrite Hlen0, Hens.
    change (map fst rects0) with (rects0.*1). fold keys.
    rewrite Hpush. cbn [mbind option_bind]. rewrite Hst4.
    unfold Builder. rewrite Hrun. cbn [mbind option_bind].
    subst st'. destruct lists; reflexivity. }
  assert (H' : vertex_buffers_ st' = vertex_buffers_ st5
               /\ index_buffers_ st' = index_buffers_ st5
               /\ material_instances_ st' = Some <$> handles
               /\ next_handle st' = next_handle st5).
  { subst st'. destruct lists; simpl; rewrite Hm5, Hm4; auto. }
  destruct H' as (Hv' & Hi' & Hm' & Hh').
  (* what the map holds for the commands of the frame *)
  assert (Hcmd : forall pcmd, pcmd ∈ frame_cmds data ->
            exists n mi, keys !! n = Some (scissor_key fbheight pcmd)
              /\ mis !! n = Some mi
              /\ umap_find (scissor_key fbheight pcmd) rects
                 = Some (Some mi)
              /\ Some mi ∈ material_instances_ st').
  { intros pcmd Hp.
    assert (Hk : scissor_key fbheight pcmd ∈ keys).
    { apply Hink. unfold frame_keys. apply list_elem_of_fmap.
      exists pcmd. split; [reflexivity|exact Hp]. }
    apply list_elem_of_lookup in Hk as [n Hn].
    destruct (lookup_lt_is_Some_2 mis n) as [mi Hmi].
    { rewrite Hlenm, <- Hlenk. eapply lookup_lt_Some; eauto. }
    exists n, mi. split_and!; auto.
    - subst rects. eapply assign_find; eauto.
    - rewrite Hm'. apply list_elem_of_fmap. exists mi.
      split; [reflexivity|]. subst mis.
      apply lookup_take_Some in Hmi as [Hmi _].
      eapply list_elem_of_lookup_2; eauto. }
  assert (Hquiet5 : omap scissor_instance d5 = []).
  { destruct Hs5 as [_ _ _ _ _ _ Hsc5]. unfold scissors_set in Hsc5.
    rewrite Ht5, omap_app in Hsc5.
    apply (app_inv_tail _ _ []) in Hsc5. exact Hsc5. }
  exists st', rects. split; [exact Hupd|]. split_and!.
  - (* the engine *)
    assert (Hlive : forallb (entry_live (engine_of (trace st5))) rb = true).
    { apply forallb_forall. intros en Hen. apply list_elem_of_In in Hen.
      subst rb. apply elem_of_app in Hen as [Hen|Hen].
      - subst es. apply list_entries_elem in Hen
          as (b' & pcmd & Hev & Hei & Hp & _ & Hem).
        apply (entry_live_slots st5 en b' Hinv5 Hev Hei).
        intros mi Hmi. rewrite Hem in Hmi.
        destruct (Hcmd pcmd Hp) as (n & mi' & _ & _ & Hfind & Hpool).
        rewrite Hfind in Hmi. simpl in Hmi. inversion Hmi; subst mi'.
        rewrite Hm5, Hm4. rewrite Hm' in Hpool. exact Hpool.
      - apply elem_of_replicate in Hen as [-> _]. reflexivity. }
    assert (Hbuilt : engine_inv (set_renderable
                                   (emit (BuildRenderable rb) st5) (Some rb))).
    { destruct Hinv5 as [Hl5 Hve5 Hie5 Hme5 Hce5].
      constructor; cbn [set_renderable emit trace engine_of foldr engine_step
                        legal live_vertex live_index live_material component
                        vertex_buffers_ index_buffers_ material_instances_
                        renderable_ next_handle]; auto.
      fold (engine_of (trace st5)). rewrite Hl5, Hlive. reflexivity. }
    subst st'. destruct lists; [exact Hinv5|exact Hbuilt].
  - (* the callbacks *)
    assert (Hcalls5 : callbacks_called st5
                      = rev (frame_callbacks lists) ++ callbacks_called st).
    { unfold callbacks_called. rewrite Ht5, omap_app.
      rewrite (omap_other _ callback_of d5)
        by exact callback_of_buffer_event.
      rewrite Hd5, callbacks_of_lists. f_equal.
      rewrite Htr4, Ht1.
      match goal with
      | |- omap callback_of (DestroyRenderable :: ?l) = _ =>
          change (omap callback_of (DestroyRenderable :: l))
            with (omap callback_of l)
      end.
      rewrite !omap_app.
      rewrite (omap_none callback_of (rev (zip_with scissor_event mis keys))).
      2:{ apply Forall_rev, scissor_events_no_callback. }
      rewrite (omap_none callback_of (rev (CreateInstance <$> _)))
        by (apply Forall_rev, Forall_fmap, Forall_true; reflexivity).
      rewrite (omap_other _ callback_of d1)
        by exact callback_of_buffer_event.
      rewrite (filter_buffer_events d1 Hd1). reflexivity. }
    subst st'. destruct lists; [exact Hcalls5|exact Hcalls5].
  - (* the Renderable *)
    assert (Hes : list_entries st' fbheight rects 0 0 lists = es).
    { subst es. apply list_entries_ext; assumption. }
    cbn zeta. rewrite Hes. rewrite <- HnPrims. subst st'.
    destruct lists; [|reflexivity]. exact Hr5.
  - (* the scissor rectangles *)
    intros pcmd Hp.
    destruct (Hcmd pcmd Hp) as (n & mi & Hn & Hmi & Hfind & Hpool).
    exists mi. split_and!; auto.
    assert (Hsc5 : scissor_of (engine_of (trace st5)) !! mi
                   = Some (key_components (scissor_key fbheight pcmd))).
    { rewrite Ht5, engine_of_app, scissor_of_quiet by exact Hquiet5.
      eapply Hsc4; eauto. }
    unfold scissor_key in Hsc5 at 1. rewrite key_components_key in Hsc5.
    subst st'. destruct lists; [exact Hsc5|exact Hsc5].
Qed.

Lemma new_bridge_engine : engine_inv new_bridge.
Proof.
  constructor; simpl; auto.
  - split_and!.
    + intros h c. rewrite lookup_empty, elem_of_nil. split; [discriminate|tauto].
    + intros h c H. inversion H.
    + intros i j h c c' H. destruct i; discriminate.
  - split_and!.
    + intros h c. rewrite lookup_empty, elem_of_nil. split; [discriminate|tauto].
    + intros h c H. inversion H.
    + intros i j h c c' H. destruct i; discriminate.
  - intros mi. rewrite elem_of_empty, elem_of_nil. tauto.
Qed.

(** Every [update] keeps the engine and the bridge in step. *)
Lemma update_keeps_engine (io : ImGuiIO) (imguiData : ImDrawData) (st : State) :
  wf_state st -> engine_inv st ->
  exists st' data,
    update T hash io imguiData st = Some (st', data)
    /\ wf_state st' /\ engine_inv st'.
Proof.
  intros Hwf Hinv. destruct (zero_area io) eqn:Hz.
  - exists (set_has_synced st false), imguiData.
    rewrite update_skipped by exact Hz. split_and!; auto.
    + apply wf_state_set_has_synced. exact Hwf.
    + apply engine_inv_set_has_synced. exact Hinv.
  - destruct (update_engine io imguiData st Hz Hwf Hinv)
      as (st' & rects & Hupd & Hinv' & _).
    destruct (update_spec T hash io imguiData st Hz Hwf)
      as (st'' & st1 & keys & mis & rects' & Hupd' & Hwf' & _).
    rewrite Hupd in Hupd'. inversion Hupd'; subst st''.
    eauto 10.
Qed.

Lemma updates_keep_engine (frames : list (ImGuiIO * ImDrawData)) :
  forall st, wf_state st -> engine_inv st ->
    exists st', updates T hash frames st = Some st'
                /\ wf_state st' /\ engine_inv st'.
Proof.
  induction frames as [|[io imguiData] rest IH]; intros st Hwf Hinv.
  - exists st. simpl. auto.
  - destruct (update_keeps_engine io imguiData st Hwf Hinv)
      as (st1 & data & Hupd & Hwf1 & Hinv1).
    destruct (IH st1 Hwf1 Hinv1) as (st' & Hrun & Hwf' & Hinv').
    exists st'. cbn [updates]. rewrite Hupd. simpl. auto.
Qed.

Lemma vertex_live_iff (st : State) (vb : VertexBuffer) :
  engine_inv st ->
  vertex_live (engine_of (trace st)) vb = true
  <-> Some vb ∈ vertex_buffers_ st.
Proof.
  intros Hinv. unfold vertex_live. rewrite bool_decide_eq_true.
  destruct (ei_vertex _ Hinv) as (Hlive & _). rewrite Hlive.
  unfold vertex_slots. rewrite list_elem_of_fmap. split.
  - intros ([vb'|] & Heq & Hin); [|discriminate].
    destruct vb, vb'. simpl in Heq. inversion Heq; subst. exact Hin.
  - intros Hin. exists (Some vb). split; [reflexivity|exact Hin].
Qed.

Lemma index_live_iff (st : State) (ib : IndexBuffer) :
  engine_inv st ->
  index_live (engine_of (trace st)) ib = true
  <-> Some ib ∈ index_buffers_ st.
Proof.
  intros Hinv. unfold index_live. rewrite bool_decide_eq_true.
  destruct (ei_index _ Hinv) as (Hlive & _). rewrite Hlive.
  unfold index_slots. rewrite list_elem_of_fmap. split.
  - intros ([ib'|] & Heq & Hin); [|discriminate].
    destruct ib, ib'. simpl in Heq. inversion Heq; subst. exact Hin.
  - intros Hin. exists (Some ib). split; [reflexivity|exact Hin].
Qed.


(** X12.  Over any sequence of [update] calls on a new bridge, every call
    that reaches the engine is made on live objects: no buffer is destroyed
    twice or while the Renderable uses it, data is uploaded only to a live
    buffer and never more bytes than the buffer holds, scissor rectangles
    are set only on live material instances, and a Renderable is built from
    live buffers and live material instances only.  Afterwards the engine
    holds exactly the buffers that are in the slots and the material
    instances that are in the pool, so nothing is leaked while the bridge
    lives, and its Renderable is the one the bridge built last. *)
Theorem updates_use_live_objects (frames : list (ImGuiIO * ImDrawData)) :
  exists st,
    updates T hash frames new_bridge = Some st
    /\ legal (engine_of (trace st)) = true
    /\ (forall vb, vertex_live (engine_of (trace st)) vb = true
                   <-> Some vb ∈ vertex_buffers_ st)
    /\ (forall ib, index_live (engine_of (trace st)) ib = true
                   <-> Some ib ∈ index_buffers_ st)
    /\ (forall mi, material_live (engine_of (trace st)) mi = true
                   <-> Some mi ∈ material_instances_ st)
    /\ component (engine_of (trace st)) = renderable_ st.
Proof.
  destruct (updates_keep_engine frames new_bridge new_bridge_wf
              new_bridge_engine) as (st & Hrun & Hwf & Hinv).
  exists st. split_and!; auto.
  - apply Hinv.
  - intros vb. apply vertex_live_iff. exact Hinv.
  - intros ib. apply index_live_iff. exact Hinv.
  - intros mi. unfold material_live. rewrite bool_decide_eq_true.
    apply Hinv.
  - apply Hinv.
Qed.

(** The destructor's loop over the slots of one kind. *)
Lemma pool_inv_tail (live : gmap nat Z) (slot : option (nat * Z))
  (rest : list (option (nat * Z))) (next : nat) :
  pool_inv live (slot :: rest) next ->
  pool_inv (match slot with Some hc => delete hc.1 live | None => live end)
           rest next
  /\ match slot with Some hc => live !! hc.1 = Some hc.2 | None => True end.
Proof.
  intros (Hlive & Hfresh & Hinj). split.
  - split_and!.
    + intros h c. destruct slot as [[h0 c0]|]; simpl.
      * destruct (decide (h = h0)) as [->|Hne].
        -- rewrite lookup_delete_eq. split; [discriminate|].
           intros Hin. apply list_elem_of_lookup in Hin as [j Hj].
           pose proof (Hinj 0%nat (S j) h0 c0 c eq_refl Hj). discriminate.
        -- rewrite lookup_delete_ne by congruence. rewrite Hlive.
           rewrite elem_of_cons. split; [|auto].
           intros [Heq|Hin]; [congruence|exact Hin].
      * rewrite Hlive, elem_of_cons. split; [|auto].
        intros [Heq|Hin]; [discriminate|exact Hin].
    + intros h c Hin. apply (Hfresh h c). right. exact Hin.
    + intros i j h c c' Hi Hj.
      pose proof (Hinj (S i) (S j) h c c' Hi Hj). lia.
  - destruct slot as [[h0 c0]|]; [|exact I]. simpl. apply Hlive. left.
Qed.

Lemma teardown_vertex (slots : list (option VertexBuffer)) :
  forall (e : Engine) (next : nat),
    component e = None -> legal e = true ->
    pool_inv (live_vertex e)
             ((fun slot : option VertexBuffer => vertex_key <$> slot) <$> slots)
             next ->
    let e' := fold_left teardown_step
                (omap (fun vb : option VertexBuffer => DestroyVertex <$> vb)
                      slots) e in
    live_vertex e' = ∅ /\ live_index e' = live_index e
    /\ live_material e' = live_material e /\ component e' = None
    /\ legal e' = true.
Proof.
  induction slots as [|slot rest IH]; intros e next Hc Hl Hinv; cbn zeta.
  - simpl. split_and!; auto. apply map_empty. intros h.
    destruct Hinv as (Hlive & _).
    destruct (live_vertex e !! h) as [c|] eqn:Hh; [|reflexivity].
    apply Hlive in Hh. inversion Hh.
  - rewrite fmap_cons in Hinv. apply pool_inv_tail in Hinv as [Hrest Hhead].
    destruct slot as [vb|]; cbn [omap list_omap fmap option_fmap option_map
                                  fold_left teardown_step engine_step].
    + simpl in Hrest, Hhead.
      set (e1 := mkEngine _ _ _ _ _ _).
      destruct (IH e1 next) as (H1 & H2 & H3 & H4 & H5); subst e1; simpl; auto.
      rewrite Hl, Hc. unfold vertex_live.
      rewrite bool_decide_eq_true_2 by exact Hhead. reflexivity.
    + simpl in Hrest. apply (IH e next); auto.
Qed.

Lemma teardown_index (slots : list (option IndexBuffer)) :
  forall (e : Engine) (next : nat),
    component e = None -> legal e = true ->
    pool_inv (live_index e)
             ((fun slot : option IndexBuffer => index_key <$> slot) <$> slots)
             next ->
    let e' := fold_left teardown_step
                (omap (fun ib : option IndexBuffer => DestroyIndex <$> ib)
                      slots) e in
    live_index e' = ∅ /\ live_vertex e' = live_vertex e
    /\ live_material e' = live_material e /\ component e' = None
    /\ legal e' = true.
Proof.
  induction slots as [|slot rest IH]; intros e next Hc Hl Hinv; cbn zeta.
  - simpl. split_and!; auto. apply map_empty. intros h.
    destruct Hinv as (Hlive & _).
    destruct (live_index e !! h) as [c|] eqn:Hh; [|reflexivity].
    apply Hlive in Hh. inversion Hh.
  - rewrite fmap_cons in Hinv. apply pool_inv_tail in Hinv as [Hrest Hhead].
    destruct slot as [ib|]; cbn [omap list_omap fmap option_fmap option_map
                                  fold_left teardown_step engine_step].
    + simpl in Hrest, Hhead.
      set (e1 := mkEngine _ _ _ _ _ _).
      destruct (IH e1 next) as (H1 & H2 & H3 & H4 & H5); subst e1; simpl; auto.
      rewrite Hl, Hc. unfold index_live.
      rewrite bool_decide_eq_true_2 by exact Hhead. reflexivity.
    + simpl in Hrest. apply (IH e next); auto.
Qed.

Lemma teardown_material (pool : list (option MaterialInstance)) :
  forall e : Engine,
    component e = None -> legal e = true -> NoDup pool ->
    (forall mi, mi ∈ live_material e <-> Some mi ∈ pool) ->
    let e' := fold_left teardown_step
                (omap (fun mi : option MaterialInstance =>
                         DestroyMaterialInstance <$> mi) pool) e in
    live_material e' = ∅ /\ live_vertex e' = live_vertex e
    /\ live_index e' = live_index e /\ component e' = None
    /\ legal e' = true.
Proof.
  induction pool as [|slot rest IH]; intros e Hc Hl Hnd Hlive; cbn zeta.
  - simpl. split_and!; auto. apply set_eq. intros mi.
    rewrite Hlive, elem_of_nil, elem_of_empty. tauto.
  - apply NoDup_cons in Hnd as [Hnotin Hnd].
    destruct slot as [mi0|]; cbn [omap list_omap fmap option_fmap option_map
                                   fold_left teardown_step].
    + set (e1 := mkEngine _ _ _ _ _ _).
      destruct (IH e1) as (H1 & H2 & H3 & H4 & H5); subst e1; simpl; auto.
      * rewrite Hl, Hc. unfold material_live.
        rewrite bool_decide_eq_true_2 by (apply Hlive; left). reflexivity.
      * intros mi. rewrite elem_of_difference, elem_of_singleton, Hlive.
        rewrite elem_of_cons. split.
        -- intros [[Heq|Hin] Hne]; [congruence|exact Hin].
        -- intros Hin. split; [auto|]. intros ->. contradiction.
    + apply (IH e); auto. intros mi. rewrite Hlive, elem_of_cons.
      split; [|auto]. intros [Heq|Hin]; [discriminate|exact Hin].
Qed.

(** X13.  The destructor releases everything: after any sequence of
    [update] calls on a new bridge, the destructor destroys the entity's
    Renderable first and then every material instance of the pool and
    every buffer of the slots, each once and each while it is still live
    and unused; afterwards the engine holds no buffer, no material instance
    and no Renderable of the bridge, and no call was illegal. *)
Theorem destructor_releases_everything
  (frames : list (ImGuiIO * ImDrawData)) :
  exists st,
    updates T hash frames new_bridge = Some st
    /\ live_vertex (engine_after st) = ∅
    /\ live_index (engine_after st) = ∅
    /\ live_material (engine_after st) = ∅
    /\ component (engine_after st) = None
    /\ legal (engine_after st) = true.
Proof.
  destruct (updates_keep_engine frames new_bridge new_bridge_wf
              new_bridge_engine) as (st & Hrun & Hwf & Hinv).
  exists st. split; [exact Hrun|].
  destruct Hinv as [Hl Hv Hi Hm Hc].
  unfold engine_after, destructor. rewrite !fold_left_app.
  cbn [fold_left teardown_step].
  set (e0 := mkEngine _ _ _ _ None _).
  destruct (teardown_material (material_instances_ st) e0)
    as (Hm1 & Hv1 & Hi1 & Hc1 & Hl1); subst e0; simpl; auto.
  { apply Hwf. }
  set (e1 := fold_left teardown_step (omap _ (material_instances_ st)) _)
    in *.
  destruct (teardown_vertex (vertex_buffers_ st) e1 (next_handle st))
    as (Hv2 & Hi2 & Hm2 & Hc2 & Hl2); auto.
  { rewrite Hv1. exact Hv. }
  set (e2 := fold_left teardown_step (omap _ (vertex_buffers_ st)) _) in *.
  destruct (teardown_index (index_buffers_ st) e2 (next_handle st))
    as (Hi3 & Hv3 & Hm3 & Hc3 & Hl3); auto.
  { rewrite Hi2, Hi1. exact Hi. }
  split_and!; auto; congruence.
Qed.


Lemma list_callbacks_scaled (fb_scale : ImVec2.t) (i : nat)
  (pcmds : list ImDrawCmd) :
  list_callbacks i (map (scale_clip_rect fb_scale) pcmds)
  = list_callbacks i pcmds.
Proof.
  unfold list_callbacks. assert (Hgen : forall j,
    omap (fun jc : nat * ImDrawCmd =>
            (fun f => (f, i, jc.1)) <$> UserCallback jc.2)
         (imap (fun n c => ((j + n)%nat, c))
               (map (scale_clip_rect fb_scale) pcmds))
    = omap (fun jc : nat * ImDrawCmd =>
              (fun f => (f, i, jc.1)) <$> UserCallback jc.2)
           (imap (fun n c => ((j + n)%nat, c)) pcmds)).
  { induction pcmds as [|pcmd rest IH]; intros j; [reflexivity|].
    cbn [map]. rewrite !imap_cons. cbn [omap list_omap fst snd].
    assert (Hshift : forall l : list ImDrawCmd,
              imap ((fun n c => ((j + n)%nat, c)) ∘ S) l
              = imap (fun n c => ((S j + n)%nat, c)) l).
    { intros l. apply imap_ext. intros n c _. simpl. f_equal. lia. }
    rewrite !Hshift.
    change (list_omap ?f ?l) with (omap f l). rewrite (IH (S j)).
    reflexivity. }
  exact (Hgen 0%nat).
Qed.

Lemma frame_callbacks_scaled (imguiData : ImDrawData) (fb_scale : ImVec2.t) :
  frame_callbacks (CmdLists (ScaleClipRects imguiData fb_scale))
  = frame_callbacks (CmdLists imguiData).
Proof.
  unfold frame_callbacks, ScaleClipRects. cbn [CmdLists].
  f_equal. rewrite imap_fmap. apply imap_ext. intros i cmds _. simpl.
  apply list_callbacks_scaled.
Qed.

(** X14.  An [update] that is not skipped invokes the user callback of
    every draw command that has one, once, in frame order (draw list by
    draw list, command by command), and invokes nothing else; a skipped
    [update] invokes no callback. *)
Theorem update_invokes_callbacks (frames : list (ImGuiIO * ImDrawData))
  (io : ImGuiIO) (imguiData : ImDrawData) :
  exists st st' data,
    updates T hash frames new_bridge = Some st
    /\ update T hash io imguiData st = Some (st', data)
    /\ callbacks_called st'
       = (if zero_area io then []
          else rev (frame_callbacks (CmdLists imguiData)))
         ++ callbacks_called st.
Proof.
  destruct (updates_keep_engine frames new_bridge new_bridge_wf
              new_bridge_engine) as (st & Hrun & Hwf & Hinv).
  exists st. destruct (zero_area io) eqn:Hz.
  - exists (set_has_synced st false), imguiData.
    rewrite update_skipped by exact Hz. auto.
  - destruct (update_engine io imguiData st Hz Hwf Hinv)
      as (st' & rects & Hupd & _ & Hcalls & _).
    rewrite frame_callbacks_scaled in Hcalls. eauto 10.
Qed.

(** X15.  When the Renderable is built, every primitive carries a material
    instance of the pool whose scissor rectangle, as last set, is that of
    the primitive's own draw command: left, bottom, width and height as
    [makeScissorKey] converts them from the (scaled) clip rectangle. *)
Theorem primitives_carry_their_scissor
  (frames : list (ImGuiIO * ImDrawData)) (io : ImGuiIO)
  (imguiData : ImDrawData) :
  zero_area io = false -> wf_draw_data imguiData ->
  let data := ScaleClipRects imguiData (DisplayFramebufferScale io) in
  exists st st',
    updates T hash frames new_bridge = Some st
    /\ update T hash io imguiData st = Some (st', data)
    /\ forall r k p,
         renderable_ st' = Some r ->
         frame_primitives (CmdLists data) !! k = Some p ->
         exists en mi,
           r !! k = Some en /\ e_material en = Some mi
           /\ Some mi ∈ material_instances_ st'
           /\ scissor_of (engine_of (trace st')) !! mi
              = Some (scissor_components (fb_height io) (ClipRect p.2)).
Proof.
  intros Hz Hdata data.
  destruct (updates_keep_engine frames new_bridge new_bridge_wf
              new_bridge_engine) as (st & Hrun & Hwf & Hinv).
  destruct (update_engine io imguiData st Hz Hwf Hinv)
    as (st' & rects & Hupd & _ & _ & Hrend & Hsc).
  fold data in Hupd, Hrend, Hsc.
  exists st, st'. split_and!; auto.
  intros r k p Hr Hp.
  pose proof (ScaleClipRects_wf imguiData (DisplayFramebufferScale io) Hdata)
    as Hdata'. fold data in Hdata'.
  cbn zeta in Hrend. rewrite list_entries_frame in Hrend by exact Hdata'.
  destruct (Hsc p.2) as (mi & Hfind & Hpool & Hscissor).
  { apply frame_primitives_elem. eapply list_elem_of_lookup_2; eauto. }
  exists (entry_of st' (fb_height io) rects k p), mi.
  split_and!; auto.
  - rewrite Hr in Hrend. destruct (CmdLists data); [discriminate|].
    inversion Hrend; subst r.
    apply lookup_app_l_Some. rewrite list_lookup_imap, Hp. reflexivity.
  - unfold entry_of. simpl. rewrite Hfind. reflexivity.
Qed.









(** The lengths of the three vectors after one [update]. *)
Lemma update_lengths (io : ImGuiIO) (imguiData : ImDrawData) (st : State) :
  wf_state st ->
  exists st' data,
    update T hash io imguiData st = Some (st', data)
    /\ wf_state st'
    /\ length (vertex_buffers_ st')
       = Nat.max (if zero_area io then 0%nat else length (CmdLists imguiData))
                 (length (vertex_buffers_ st))
    /\ length (index_buffers_ st')
       = Nat.max (if zero_area io then 0%nat else length (CmdLists imguiData))
                 (length (index_buffers_ st))
    /\ length (material_instances_ st')
       = Nat.max (if zero_area io then 0%nat else key_count io imguiData)
                 (length (material_instances_ st)).
Proof.
  intros Hwf. destruct (zero_area io) eqn:Hz.
  - exists (set_has_synced st false), imguiData.
    rewrite update_skipped by exact Hz. simpl. split_and!; auto.
    apply wf_state_set_has_synced. exact Hwf.
  - destruct (update_spec T hash io imguiData st Hz Hwf)
      as (st' & st1 & keys & mis & rects & Hupd & Hwf' & _ & _ & _ & _ & _
          & _ & _ & _ & Hpool & _ & _ & Hin & Hout & _).
    exists st', (ScaleClipRects imguiData (DisplayFramebufferScale io)).
    cbn zeta in Hin, Hout. rewrite ScaleClipRects_length in Hout.
    set (lists := CmdLists (ScaleClipRects imguiData
                              (DisplayFramebufferScale io))) in *.
    assert (Hlen : length lists = length (CmdLists imguiData))
      by apply ScaleClipRects_length.
    split_and!; auto.
    + apply Nat.le_antisymm.
      * apply lookup_ge_None.
        destruct (Hout (Nat.max (length (CmdLists imguiData))
                                (length (vertex_buffers_ st)))
                       (Nat.le_max_l _ _)) as [-> _].
        apply lookup_ge_None. lia.
      * destruct (Nat.max_spec_le (length (CmdLists imguiData))
                    (length (vertex_buffers_ st))) as [[Hle ->]|[Hle ->]].
        -- destruct (length (vertex_buffers_ st)) as [|n] eqn:Hn; [lia|].
           destruct (decide (n < length (CmdLists imguiData))%nat).
           ++ destruct (lookup_lt_is_Some_2 lists n) as [cmds Hc]; [lia|].
              destruct (Hin n cmds Hc) as (_ & vb1 & _ & _ & _ & Hv & _).
              apply lookup_lt_Some in Hv. lia.
           ++ destruct (Hout n) as [Hv _]; [lia|].
              destruct (lookup_lt_is_Some_2 (vertex_buffers_ st) n)
                as [x Hx]; [lia|].
              rewrite Hx in Hv. apply lookup_lt_Some in Hv. lia.
        -- destruct (length (CmdLists imguiData)) as [|n] eqn:Hn; [lia|].
           destruct (lookup_lt_is_Some_2 lists n) as [cmds Hc]; [lia|].
           destruct (Hin n cmds Hc) as (_ & vb1 & _ & _ & _ & Hv & _).
           apply lookup_lt_Some in Hv. lia.
    + apply Nat.le_antisymm.
      * apply lookup_ge_None.
        destruct (Hout (Nat.max (length (CmdLists imguiData))
                                (length (index_buffers_ st)))
                       (Nat.le_max_l _ _)) as [_ ->].
        apply lookup_ge_None. lia.
      * destruct (Nat.max_spec_le (length (CmdLists imguiData))
                    (length (index_buffers_ st))) as [[Hle ->]|[Hle ->]].
        -- destruct (length (index_buffers_ st)) as [|n] eqn:Hn; [lia|].
           destruct (decide (n < length (CmdLists imguiData))%nat).
           ++ destruct (lookup_lt_is_Some_2 lists n) as [cmds Hc]; [lia|].
              destruct (Hin n cmds Hc)
                as (_ & _ & _ & ib1 & _ & _ & _ & _ & Hv & _).
              apply lookup_lt_Some in Hv. lia.
           ++ destruct (Hout n) as [_ Hv]; [lia|].
              destruct (lookup_lt_is_Some_2 (index_buffers_ st) n)
                as [x Hx]; [lia|].
              rewrite Hx in Hv. apply lookup_lt_Some in Hv. lia.
        -- destruct (length (CmdLists imguiData)) as [|n] eqn:Hn; [lia|].
           destruct (lookup_lt_is_Some_2 lists n) as [cmds Hc]; [lia|].
           destruct (Hin n cmds Hc)
             as (_ & _ & _ & ib1 & _ & _ & _ & _ & Hv & _).
           apply lookup_lt_Some in Hv. lia.
    + rewrite Hpool, length_app, length_fmap, length_seq.
      unfold key_count. lia.
Qed.

(** X17.  The bridge keeps what it once needed: after any sequence of
    [update] calls on a new bridge, the vertex and the index slots are
    equally many, as many as the largest number of draw lists that a frame
    of the sequence had, and the pool holds as many material instances as
    the largest number of distinct scissor keys that a frame had; frames
    that were skipped do not count. *)
Theorem vectors_are_high_water_marks (frames : list (ImGuiIO * ImDrawData)) :
  exists st,
    updates T hash frames new_bridge = Some st
    /\ length (vertex_buffers_ st) = most_lists frames
    /\ length (index_buffers_ st) = most_lists frames
    /\ length (material_instances_ st) = most_keys frames.
Proof.
  assert (Hgen : forall frames st, wf_state st ->
            exists st',
              updates T hash frames st = Some st'
              /\ length (vertex_buffers_ st')
                 = Nat.max (most_lists frames) (length (vertex_buffers_ st))
              /\ length (index_buffers_ st')
                 = Nat.max (most_lists frames) (length (index_buffers_ st))
              /\ length (material_instances_ st')
                 = Nat.max (most_keys frames)
                           (length (material_instances_ st))).
  { clear frames. induction frames as [|[io imguiData] rest IH];
      intros st Hwf.
    - exists st. simpl. auto.
    - destruct (update_lengths io imguiData st Hwf)
        as (st1 & data & Hupd & Hwf1 & Hv1 & Hi1 & Hm1).
      destruct (IH st1 Hwf1) as (st' & Hrun & Hv & Hi & Hm).
      exists st'. cbn [updates most_lists most_keys]. rewrite Hupd.
      cbn [mbind option_bind fst].
      split; [exact Hrun|]. rewrite Hv, Hi, Hm, Hv1, Hi1, Hm1.
      generalize (if zero_area io then 0%nat
                  else length (CmdLists imguiData)).
      generalize (if zero_area io then 0%nat else key_count io imguiData).
      generalize (most_lists rest) (most_keys rest).
      generalize (length (vertex_buffers_ st)) (length (index_buffers_ st))
                 (length (material_instances_ st)).
      clear. intros a b c d e f g. lia. }
  destruct (Hgen frames new_bridge new_bridge_wf) as (st & Hrun & Hv & Hi & Hm).
  exists st. cbn [new_bridge vertex_buffers_ index_buffers_
                  material_instances_ length] in Hv, Hi, Hm.
  rewrite Hv, Hi, Hm, !Nat.max_0_r. auto.
Qed.

End Engine.

Lemma primitives_carry_their_scissor_witness :
  exists st' en,
    update true insertion_order sample_io sample_frame new_bridge
    = Some (st', ScaleClipRects sample_frame
                   (DisplayFramebufferScale sample_io))
    /\ (renderable_ st' ≫= (fun r => r !! 2%nat)) = Some en
    /\ e_material en = Some 6%nat
    /\ scissor_of (engine_of (trace st')) !! 6%nat = Some (10, 560, 20, 20).
Proof.
  destruct (primitives_carry_their_scissor true insertion_order []
              sample_io sample_frame eq_refl sample_frame_wf)
    as (st & st' & Hrun & Hupd & Hprims).
  assert (Hr : exists r, renderable_ st' = Some r).
  { simpl in Hrun. inversion Hrun; subst st. vm_compute in Hupd.
    inversion Hupd. eauto. }
  destruct Hr as [r Hr].
  destruct (Hprims r 2%nat
              (1%nat, 0,
               scale_clip_rect (DisplayFramebufferScale sample_io)
                 (mkImDrawCmd 9 (sample_rect 5 10 15 20) None)) Hr eq_refl)
    as (en & mi & Hen & Hmi & _ & Hsc).
  exists st', en. split; [simpl in Hrun; inversion Hrun; subst; exact Hupd|].
  rewrite Hr. cbn [mbind option_bind]. split; [exact Hen|].
  assert (Hmi6 : mi = 6%nat).
  { simpl in Hrun. inversion Hrun; subst st. vm_compute in Hupd.
    inversion Hupd; subst st'. vm_compute in Hr. inversion Hr; subst r.
    vm_compute in Hen. inversion Hen; subst en. vm_compute in Hmi.
    congruence. }
  subst mi. split; [exact Hmi|].
  refine (eq_trans Hsc _). vm_compute. reflexivity.
Defined.


End BridgeProperties.
